(** * Digital Library: playback / viewing state machine and timestamp store

    A shallow embedding of [src/main.py] (class [DigitalLibrary]): the
    timestamp store ([load_timestamps], [save_timestamps]), the selection
    transition ([handle_media_click], [stop_and_save_current_media],
    [load_vlc_media], [load_pdf_media], [_restore_vlc_state]), the transport
    commands of the media player and of the PDF viewer, and the progress
    synchroniser ([save_current_vlc_timestamp], [update_all_cards_display]).

    Conventions of the embedding.
    - The object [self] is the record [app]; [world] is the object together
      with the player, the disk and the events so far.  A method is a
      program of the state-and-exception monad [prog]; [try]/[except] is
      [try_except].
    - The media engine (python-vlc), the document engine (PyMuPDF), the clock
      and the file system are collaborators.  What they answer during one
      handler is the record [env]; what the application tells them is
      appended to [trace].  No assumption is made on the answers.
    - Python [int] is [Z].  A Python [float] that the program only stores and
      compares is the rational it denotes ([Q], compared with [Qeq_bool],
      [Qle_bool]); non-finite floats are outside the model.
    - Python [dict] is stdpp's [gmap]; the timestamp dictionary is a
      [gmap string json]. *)

From Stdlib Require Import ZArith QArith Qminmax String Ascii List Lia.
From Stdlib Require Import DecimalString DecimalFacts DecimalPos DecimalN DecimalZ.
From stdpp Require Import gmap strings list.

Set Warnings "-register-all".
#[local] Open Scope string_scope.
#[local] Open Scope Z_scope.

(** ** JSON values, as [json.load] returns them and [json.dump] accepts them *)

Inductive json :=
| JNull
| JBool (b : bool)
| JInt (z : Z)
| JFloat (q : Q)
| JStr (s : string)
| JList (l : list json)
| JDict (d : gmap string json).

(** [isinstance(v, dict)] *)
Definition is_dict (v : json) : bool :=
  match v with JDict _ => true | _ => false end.

(** [isinstance(v, (int, float))]: [bool] is a subclass of [int], and in
    arithmetic [True] is 1 and [False] is 0. *)
Definition as_number (v : json) : option Q :=
  match v with
  | JBool b => Some (inject_Z (if b then 1 else 0))
  | JInt z => Some (inject_Z z)
  | JFloat q => Some q
  | _ => None
  end.

(** [len(v)] raises [TypeError] on values without a length. *)
Definition py_len (v : json) : option nat :=
  match v with
  | JDict d => Some (size d)
  | JList l => Some (List.length l)
  | JStr s => Some (String.length s)
  | _ => None
  end.

(** [int(x)] on a float truncates towards zero. *)
Definition py_int (x : Q) : Z := Z.quot (Qnum x) (Z.pos (Qden x)).

(** ** The Python runtime the program calls into

    [json.dump(d, f, indent=2)] and [json.load(f)] on the text of a file,
    [float(s)] ([None] stands for [ValueError]) and the format
    [f"{r:.2f}"].  They are library code; the development is parametric in
    them. *)
Class Runtime := {
  json_dumps : gmap string json -> string;
  json_loads : string -> option json;
  py_float : string -> option Q;
  format_2f : Q -> string
}.

(** ** Paths ([pathlib.Path]): [str(p)] is [parent/stem+suffix] *)

Record Path := MkPath { parent : string; stem : string; suffix : string }.

Definition name (p : Path) : string := stem p +:+ suffix p.
Definition path_str (p : Path) : string := parent p +:+ "/" +:+ name p.
Definition with_suffix (p : Path) (s : string) : Path :=
  MkPath (parent p) (stem p) s.

(** [str.lower] on the ASCII letters. *)
Definition lower_ascii (c : ascii) : ascii :=
  let n := nat_of_ascii c in
  if (Nat.leb 65 n && Nat.leb n 90)%bool then ascii_of_nat (n + 32) else c.

Fixpoint lower (s : string) : string :=
  match s with
  | EmptyString => EmptyString
  | String c s' => String (lower_ascii c) (lower s')
  end.

(** [s.replace(old, new)] for a non-empty [old]: every occurrence, left to
    right, without overlap.  [skip] counts the characters of a matched
    occurrence still to be dropped. *)
Fixpoint replace_from (old new : string) (skip : nat) (s : string) : string :=
  match s with
  | EmptyString => EmptyString
  | String c s' =>
      match skip with
      | S k => replace_from old new k s'
      | O =>
          if String.prefix old s
          then new +:+ replace_from old new (Nat.pred (String.length old)) s'
          else String c (replace_from old new O s')
      end
  end.

Definition replace (old new s : string) : string := replace_from old new O s.

(** ** Constants *)

Definition SUPPORTED_VIDEO_EXT : list string :=
  [".mp4"; ".mkv"; ".avi"; ".mov"; ".wmv"].
Definition SUPPORTED_AUDIO_EXT : list string :=
  [".mp3"; ".wav"; ".ogg"; ".flac"; ".aac"].
Definition SUPPORTED_PDF_EXT : list string := [".pdf"].
Definition TIMESTAMP_FILENAME : string * string := ("timestamps", ".json").
Definition PDF_ZOOM_STEPS : list Q :=
  [0.5; 0.75; 1.0; 1.25; 1.5; 1.75; 2.0; 2.5; 3.0; 4.0]%Q.

(** [x in tuple_of_strings] *)
Definition str_in (x : string) (l : list string) : bool :=
  existsb (String.eqb x) l.

(** ** Collaborators *)

(** [vlc.State] *)
Inductive State :=
| NothingSpecial | Opening | Buffering | Playing | Paused | Stopped | Ended
| Error.

Definition playing_or_paused (s : State) : bool :=
  match s with Playing | Paused => true | _ => false end.

(** [self.active_media_type] and the argument of [manage_views] *)
Inductive media_type := video | audio | pdf.

(** An open [fitz.Document]: the file it was opened from and [len(doc)]. *)
Record Document := MkDocument { doc_path : Path; doc_len : Z }.

(** Deferred calls registered with [self.window.after]. *)
Inductive callback :=
| restore_vlc_state_cb          (* after(300, self._restore_vlc_state) *)
| render_current_page_cb        (* after(50, lambda: render_pdf_page(...)) *)
| periodic_save_timestamp_cb
| update_playback_progress_cb
| update_all_cards_display_cb.

(** What the application does to its collaborators, in order. *)
Inductive event :=
| EvStop                       (* vlc_player.stop() *)
| EvSetMedia (p : Path)        (* vlc_player.set_media(media_new(str(p))) *)
| EvPlay                       (* vlc_player.play() *)
| EvSetTime (t : Z)            (* vlc_player.set_time(t) *)
| EvSetRate (r : Q)            (* vlc_player.set_rate(r) *)
| EvPdfOpen (p : Path)         (* fitz.open(p) returned a document *)
| EvPdfClose (p : Path)        (* pdf_doc.close() *)
| EvRender (i : Z) (zoom : Q)  (* a page was rendered and displayed *)
| EvShowError (title : string) (* show_error: a dialog *)
| EvLogError (msg : string)    (* logging.error *)
| EvAfter (ms : Z) (cb : callback) (* window.after(ms, cb) *)
| EvWait (ms : Z).             (* window.after(ms); window.update() *)

(** What the collaborators answer during one handler. *)
Record env := MkEnv {
  get_state : State;          (* vlc_player.get_state() *)
  get_time : Z;               (* vlc_player.get_time() *)
  get_length : nat -> Z;      (* the n-th vlc_player.get_length() *)
  is_seekable : bool;         (* vlc_player.is_seekable() *)
  get_rate : Q;               (* vlc_player.get_rate() *)
  play_result : Z;            (* vlc_player.play(): -1 on failure *)
  set_rate_result : Z;        (* vlc_player.set_rate(r): 0 on success *)
  media_new_ok : bool;        (* false: media_new / set_media raises *)
  set_output_ok : bool;       (* false: winfo_id / set_hwnd raises *)
  now : string;               (* datetime.now().isoformat() *)
  fitz_open : option Z;       (* page count, or None: fitz.open raises *)
  render_ok : bool            (* false: load_page / get_pixmap raises *)
}.

(** How the file system answers one [save_timestamps] or
    [load_timestamps]. *)
Inductive io_step :=
| NoFault
| MkdirFails
| OpenFails
| WriteFails (written : nat)   (* OSError after so many characters *)
| ReplaceFails
| ReadFails.

Record io_fault := MkFault { fault : io_step; unlink_fails : bool }.

Definition no_fault : io_fault := MkFault NoFault false.

(** ** The application object and its surroundings

    [app] holds the attributes of [self] that the modelled methods read or
    write.  [world] adds what lives outside the object: the media the player
    holds ([vlc_player.get_media()]), the files on disk by path ([fs]), every
    content the disk has gone through, newest first ([disk_log]: what a crash
    can leave behind), the answers the file system will give to the coming
    store operations ([io_plan]) and the events so far, newest first
    ([trace]). *)

Record app := MkApp {
  library_path : string;
  timestamps : gmap string json;
  vlc_player : bool;
  vlc_instance : bool;
  current_vlc_media_path : option Path;
  is_vlc_playing : bool;
  pdf_doc : option Document;
  current_pdf_path : option Path;
  pdf_current_page_index : Z;
  pdf_page_count : Z;
  pdf_zoom_level : Q;
  active_media_type : option media_type;
  speed_var : string;
  slider : Q;
  view : option media_type
}.

Definition set_timestamps (v : gmap string json) (a : app) : app :=
  MkApp (library_path a) v (vlc_player a) (vlc_instance a)
    (current_vlc_media_path a) (is_vlc_playing a) (pdf_doc a)
    (current_pdf_path a) (pdf_current_page_index a) (pdf_page_count a)
    (pdf_zoom_level a) (active_media_type a) (speed_var a) (slider a) (view a).

Definition set_current_vlc_media_path (v : option Path) (a : app) : app :=
  MkApp (library_path a) (timestamps a) (vlc_player a) (vlc_instance a) v
    (is_vlc_playing a) (pdf_doc a) (current_pdf_path a)
    (pdf_current_page_index a) (pdf_page_count a) (pdf_zoom_level a)
    (active_media_type a) (speed_var a) (slider a) (view a).

Definition set_is_vlc_playing (v : bool) (a : app) : app :=
  MkApp (library_path a) (timestamps a) (vlc_player a) (vlc_instance a)
    (current_vlc_media_path a) v (pdf_doc a) (current_pdf_path a)
    (pdf_current_page_index a) (pdf_page_count a) (pdf_zoom_level a)
    (active_media_type a) (speed_var a) (slider a) (view a).

Definition set_pdf_doc (v : option Document) (a : app) : app :=
  MkApp (library_path a) (timestamps a) (vlc_player a) (vlc_instance a)
    (current_vlc_media_path a) (is_vlc_playing a) v (current_pdf_path a)
    (pdf_current_page_index a) (pdf_page_count a) (pdf_zoom_level a)
    (active_media_type a) (speed_var a) (slider a) (view a).

Definition set_current_pdf_path (v : option Path) (a : app) : app :=
  MkApp (library_path a) (timestamps a) (vlc_player a) (vlc_instance a)
    (current_vlc_media_path a) (is_vlc_playing a) (pdf_doc a) v
    (pdf_current_page_index a) (pdf_page_count a) (pdf_zoom_level a)
    (active_media_type a) (speed_var a) (slider a) (view a).

Definition set_pdf_current_page_index (v : Z) (a : app) : app :=
  MkApp (library_path a) (timestamps a) (vlc_player a) (vlc_instance a)
    (current_vlc_media_path a) (is_vlc_playing a) (pdf_doc a)
    (current_pdf_path a) v (pdf_page_count a) (pdf_zoom_level a)
    (active_media_type a) (speed_var a) (slider a) (view a).

Definition set_pdf_page_count (v : Z) (a : app) : app :=
  MkApp (library_path a) (timestamps a) (vlc_player a) (vlc_instance a)
    (current_vlc_media_path a) (is_vlc_playing a) (pdf_doc a)
    (current_pdf_path a) (pdf_current_page_index a) v (pdf_zoom_level a)
    (active_media_type a) (speed_var a) (slider a) (view a).

Definition set_pdf_zoom_level (v : Q) (a : app) : app :=
  MkApp (library_path a) (timestamps a) (vlc_player a) (vlc_instance a)
    (current_vlc_media_path a) (is_vlc_playing a) (pdf_doc a)
    (current_pdf_path a) (pdf_current_page_index a) (pdf_page_count a) v
    (active_media_type a) (speed_var a) (slider a) (view a).

Definition set_active_media_type (v : option media_type) (a : app) : app :=
  MkApp (library_path a) (timestamps a) (vlc_player a) (vlc_instance a)
    (current_vlc_media_path a) (is_vlc_playing a) (pdf_doc a)
    (current_pdf_path a) (pdf_current_page_index a) (pdf_page_count a)
    (pdf_zoom_level a) v (speed_var a) (slider a) (view a).

Definition set_speed_var (v : string) (a : app) : app :=
  MkApp (library_path a) (timestamps a) (vlc_player a) (vlc_instance a)
    (current_vlc_media_path a) (is_vlc_playing a) (pdf_doc a)
    (current_pdf_path a) (pdf_current_page_index a) (pdf_page_count a)
    (pdf_zoom_level a) (active_media_type a) v (slider a) (view a).

Definition set_slider (v : Q) (a : app) : app :=
  MkApp (library_path a) (timestamps a) (vlc_player a) (vlc_instance a)
    (current_vlc_media_path a) (is_vlc_playing a) (pdf_doc a)
    (current_pdf_path a) (pdf_current_page_index a) (pdf_page_count a)
    (pdf_zoom_level a) (active_media_type a) (speed_var a) v (view a).

Definition set_view (v : option media_type) (a : app) : app :=
  MkApp (library_path a) (timestamps a) (vlc_player a) (vlc_instance a)
    (current_vlc_media_path a) (is_vlc_playing a) (pdf_doc a)
    (current_pdf_path a) (pdf_current_page_index a) (pdf_page_count a)
    (pdf_zoom_level a) (active_media_type a) (speed_var a) (slider a) v.
Record world := MkWorld {
  self : app;
  player_media : option Path;
  fs : gmap string string;
  disk_log : list (gmap string string);
  io_plan : list io_fault;
  trace : list event
}.

Definition put_self (v : app) (w : world) : world :=
  MkWorld v (player_media w) (fs w) (disk_log w) (io_plan w) (trace w).

Definition put_player_media (v : option Path) (w : world) : world :=
  MkWorld (self w) v (fs w) (disk_log w) (io_plan w) (trace w).

Definition put_fs (v : gmap string string) (w : world) : world :=
  MkWorld (self w) (player_media w) v (v :: disk_log w) (io_plan w) (trace w).

Definition put_io_plan (v : list io_fault) (w : world) : world :=
  MkWorld (self w) (player_media w) (fs w) (disk_log w) v (trace w).

Definition put_trace (v : list event) (w : world) : world :=
  MkWorld (self w) (player_media w) (fs w) (disk_log w) (io_plan w) v.
(** [self.timestamps_file = self.library_path / TIMESTAMP_FILENAME] at both
    places where either is assigned. *)
Definition timestamps_file (a : app) : Path :=
  MkPath (library_path a) (fst TIMESTAMP_FILENAME) (snd TIMESTAMP_FILENAME).

(** The events in the order in which they happened. *)
Definition history (w : world) : list event := rev (trace w).

(** ** Programs: state and exceptions *)

Inductive exn := OSError | TypeError | ValueError | KeyError | RuntimeError.

Inductive result (A : Type) :=
| Ret (a : A)
| Raise (e : exn).
Arguments Ret {A} a.
Arguments Raise {A} e.

Definition prog (A : Type) : Type := world -> result A * world.

Definition ret {A} (a : A) : prog A := fun w => (Ret a, w).
Definition raise {A} (e : exn) : prog A := fun w => (Raise e, w).
Definition bind {A B} (c : prog A) (k : A -> prog B) : prog B :=
  fun w => match c w with
           | (Ret a, w') => k a w'
           | (Raise e, w') => (Raise e, w')
           end.
Definition try_except {A} (body : prog A) (handler : exn -> prog A) : prog A :=
  fun w => match body w with
           | (Ret a, w') => (Ret a, w')
           | (Raise e, w') => handler e w'
           end.
Definition gets {A} (f : world -> A) : prog A := fun w => (Ret (f w), w).
Definition modify (f : world -> world) : prog unit := fun w => (Ret tt, f w).
(** [self.x] and [self.x = v] *)
Definition get {A} (f : app -> A) : prog A := gets (fun w => f (self w)).
Definition assign (f : app -> app) : prog unit :=
  modify (fun w => put_self (f (self w)) w).

Declare Scope prog_scope.
Delimit Scope prog_scope with prog.
Bind Scope prog_scope with prog.
Notation "x <- c ;; k" := (bind c (fun x => k))
  (at level 100, c at next level, k at level 200, right associativity)
  : prog_scope.
Notation "c ;; k" := (bind c (fun _ => k))
  (at level 100, k at level 200, right associativity) : prog_scope.
Notation "'when' b 'then' c" := (if b then c else ret tt)
  (at level 10, b at level 100, c at level 200) : prog_scope.
#[local] Open Scope prog_scope.

Definition emit (ev : event) : prog unit :=
  modify (fun w => put_trace (ev :: trace w) w).

(** The world a program ends in, whatever its result. *)
Definition exec {A} (c : prog A) (w : world) : world := snd (c w).

(** [except OSError: pass] *)
Definition pass_OSError (e : exn) : prog unit :=
  match e with OSError => ret tt | _ => raise e end.

(** [show_error(title, message)]: logs and opens a dialog. *)
Definition show_error (title : string) : prog unit := emit (EvShowError title).

Definition log_error (msg : string) : prog unit := emit (EvLogError msg).

(** ** File-system primitives *)

Definition next_fault : prog io_fault :=
  fun w => match io_plan w with
           | [] => (Ret no_fault, w)
           | f :: rest => (Ret f, put_io_plan rest w)
           end.

(** [path.parent.mkdir(parents=True, exist_ok=True)]: no file changes. *)
Definition fs_mkdir (io : io_fault) : prog unit :=
  match fault io with MkdirFails => raise OSError | _ => ret tt end.

(** [open(path, 'w')]: creates the file or truncates it. *)
Definition fs_open_w (io : io_fault) (path : string) : prog unit :=
  match fault io with
  | OpenFails => raise OSError
  | _ => modify (fun w => put_fs (<[path := EmptyString]> (fs w)) w)
  end.

(** Appends the characters of [rest] to the file one at a time; [budget]
    is the number of characters the disk still accepts. *)
Fixpoint fs_append (path : string) (rest : string) (budget : option nat)
  : prog unit :=
  match rest with
  | EmptyString => ret tt
  | String c rest' =>
      match budget with
      | Some O => raise OSError
      | _ =>
          modify (fun w =>
            put_fs (<[path := default EmptyString (fs w !! path) +:+ String c EmptyString]> (fs w)) w) ;;
          fs_append path rest' (Nat.pred <$> budget)
      end
  end.

Definition fs_write (io : io_fault) (path : string) (text : string) : prog unit :=
  fs_append path text
    (match fault io with WriteFails n => Some n | _ => None end).

(** [os.replace(src, dst)]: one atomic step. *)
Definition os_replace (io : io_fault) (src dst : string) : prog unit :=
  match fault io with
  | ReplaceFails => raise OSError
  | _ =>
      d <- gets fs ;;
      match d !! src with
      | Some text => modify (put_fs (<[dst := text]> (delete src d)))
      | None => raise OSError
      end
  end.

(** [path.exists()], once the operating system has answered the question;
    the module [Stat] below has the case in which asking raises. *)
Definition fs_exists (path : string) : prog bool :=
  d <- gets fs ;; ret (bool_decide (is_Some (d !! path))).

Definition fs_unlink (io : io_fault) (path : string) : prog unit :=
  if unlink_fails io then raise OSError
  else modify (fun w => put_fs (delete path (fs w)) w).

Definition fs_read (io : io_fault) (path : string) : prog string :=
  match fault io with
  | ReadFails => raise OSError
  | _ =>
      d <- gets fs ;;
      match d !! path with
      | Some text => ret text
      | None => raise OSError
      end
  end.

Section Program.
Context `{Runtime}.

(** ** Timestamp store *)

Definition load_timestamps : prog json :=
  f <- get timestamps_file ;;
  present <- fs_exists (path_str f) ;;
  if present then
    try_except
      (io <- next_fault ;;
       text <- fs_read io (path_str f) ;;
       match json_loads text with
       | None => raise ValueError            (* json.JSONDecodeError *)
       | Some timestamps =>
           match py_len timestamps with      (* len(timestamps) in the log *)
           | None => raise TypeError
           | Some _ => ret timestamps
           end
       end)
      (fun e =>
         log_error "Error loading timestamps file" ;;
         show_error "Timestamp Load Error" ;;
         ret (JDict ∅))
  else ret (JDict ∅).

(** The [except] block of [save_timestamps]: log, then remove the
    temporary file if it exists, ignoring a failure to remove it. *)
Definition cleanup (io : io_fault) (temp_file : string) : prog unit :=
  log_error "Error saving timestamps" ;;
  present <- fs_exists temp_file ;;
  when present then try_except (fs_unlink io temp_file) pass_OSError.

Definition save_timestamps (timestamps_data : gmap string json) : prog unit :=
  f <- get timestamps_file ;;
  let temp_file := with_suffix f ".json.tmp" in
  io <- next_fault ;;
  try_except
    (fs_mkdir io ;;
     fs_open_w io (path_str temp_file) ;;
     fs_write io (path_str temp_file) (json_dumps timestamps_data) ;;
     os_replace io (path_str temp_file) (path_str f))
    (fun e => cleanup io (path_str temp_file)).

(** Whether the file system's answer [io] makes the save of [text] fail. *)
Definition save_fails (io : io_fault) (text : string) : bool :=
  match fault io with
  | MkdirFails | OpenFails | ReplaceFails => true
  | WriteFails n => (n <? String.length text)%nat
  | NoFault | ReadFails => false
  end.

(** What [save_timestamps] leaves behind when called from [w]. *)
Definition saved (ts : gmap string json) (w w' : world) : Prop :=
  let store := path_str (timestamps_file (self w)) in
  self w' = self w /\ player_media w' = player_media w
  /\ io_plan w' = tl (io_plan w)
  /\ (if save_fails (hd no_fault (io_plan w)) (json_dumps ts)
      then fs w' !! store = fs w !! store
           /\ trace w' = EvLogError "Error saving timestamps" :: trace w
      else fs w' !! store = Some (json_dumps ts) /\ trace w' = trace w).

(** ** Views *)

Definition manage_views (view_type : option media_type) : prog unit :=
  assign (set_view view_type).

(** ** Small Python helpers *)

Definition Qltb (x y : Q) : bool := negb (Qle_bool y x).

(** [self.timestamps[key][field] = v]: [KeyError] without the key,
    [TypeError] when the entry is not a dictionary. *)
Definition set_item (key field : string) (v : json) : prog unit :=
  ts <- get timestamps ;;
  match ts !! key with
  | Some (JDict r) =>
      assign (set_timestamps (<[key := JDict (<[field := v]> r)]> ts))
  | Some _ => raise TypeError
  | None => raise KeyError
  end.

(** The truth value of a [fitz.Document] is that of a sized object:
    [len(doc) != 0]. *)
Definition truthy (d : option Document) : bool :=
  match d with Some d => negb (doc_len d =? 0) | None => false end.

(** [PDF_ZOOM_STEPS.index(z)]; [None] stands for [ValueError]. *)
Fixpoint index_of (z : Q) (l : list Q) : option nat :=
  match l with
  | [] => None
  | x :: l' => if Qeq_bool x z then Some O else S <$> index_of z l'
  end.

(** ** Progress synchroniser *)

(** The record of an audio or video file; a position within 2000 ms of the
    end is stored as 0 with [finished]. *)
Definition timestamp_data (e : env) (p : Path) (current_time_ms duration_ms : Z)
  : json :=
  let is_finished :=
    (0 <? duration_ms) && (duration_ms - 2000 <=? current_time_ms) in
  JDict (<["position" := JInt (if is_finished then 0 else current_time_ms)]>
        (<["duration" := JInt duration_ms]>
        (<["last_played" := JStr (now e)]>
        (<["filename" := JStr (name p)]>
        (<["finished" := JBool is_finished]> ∅))))).

Definition save_current_vlc_timestamp (e : env) : prog unit :=
  player <- get vlc_player ;;
  path <- get current_vlc_media_path ;;
  match player, path with
  | true, Some p =>
      try_except
        (media <- gets player_media ;;
         match media with
         | None => ret tt
         | Some _ =>
             let current_time_ms := get_time e in
             let duration_ms := get_length e O in
             let should_save := playing_or_paused (get_state e) in
             if should_save && (0 <=? duration_ms) && (0 <=? current_time_ms)
             then
               let media_key := path_str p in
               ts <- get timestamps ;;
               assign (set_timestamps
                 (<[media_key := timestamp_data e p current_time_ms duration_ms]> ts)) ;;
               ts' <- get timestamps ;;
               save_timestamps ts'
             else ret tt
         end)
        (fun _ => log_error "Error saving VLC timestamp")
  | _, _ => ret tt
  end.

Definition periodic_save_timestamp (e : env) : prog unit :=
  player <- get vlc_player ;;
  path <- get current_vlc_media_path ;;
  playing <- get is_vlc_playing ;;
  (when player && bool_decide (is_Some path) && playing
   then save_current_vlc_timestamp e) ;;
  emit (EvAfter 5000 periodic_save_timestamp_cb).

(** The part of [update_all_cards_display] that writes the dictionary (the
    cards themselves are presentation). *)
Definition update_all_cards_display (e : env) : prog unit :=
  player <- get vlc_player ;;
  vpath <- get current_vlc_media_path ;;
  match player, vpath with
  | true, Some p =>
      when playing_or_paused (get_state e) then
        let current_time := get_time e in
        let duration := get_length e O in
        when (0 <=? duration) && (0 <=? current_time) then
          ts <- get timestamps ;;
          assign (set_timestamps
            (<[path_str p := timestamp_data e p current_time duration]> ts))
  | _, _ => ret tt
  end ;;
  doc <- get pdf_doc ;;
  ppath <- get current_pdf_path ;;
  match truthy doc, ppath with
  | true, Some p =>
      let key := path_str p in
      ts <- get timestamps ;;
      (when negb (bool_decide (is_Some (ts !! key)))
       then assign (set_timestamps (<[key := JDict ∅]> ts))) ;;
      ts <- get timestamps ;;
      when (from_option is_dict false (ts !! key)) then
        set_item key "last_opened" (JStr (now e)) ;;
        set_item key "filename" (JStr (name p))
  | _, _ => ret tt
  end ;;
  emit (EvAfter 5000 update_all_cards_display_cb).

(** [update_playback_progress]: the slider of the player. *)
Definition update_playback_progress (e : env) (force_update : bool)
  : prog unit :=
  player <- get vlc_player ;;
  vpath <- get current_vlc_media_path ;;
  playing <- get is_vlc_playing ;;
  (when player && bool_decide (is_Some vpath) && (playing || force_update) then
     let current_time := inject_Z (get_time e) in
     let duration := get_length e O in
     if 0 <? duration then
       let progress_percent :=
         Qmin 100 (Qmax 0 (current_time / inject_Z duration * 100))%Q in
       assign (set_slider progress_percent)
     else assign (set_slider 0)) ;;
  when negb force_update then emit (EvAfter 500 update_playback_progress_cb).

(** ** Player controls *)

(** The text the speed selector is reset to when the engine refuses a
    rate. *)
Definition rate_label (current_rate : Q) : string :=
  replace ".75x" ".75x"
    (replace ".25x" ".25x"
       (replace ".50x" ".5x"
          (replace ".00x" "x" (format_2f current_rate +:+ "x")))).

Definition change_playback_speed (e : env) (speed_str : string) : prog unit :=
  player <- get vlc_player ;;
  vpath <- get current_vlc_media_path ;;
  match player, vpath with
  | true, Some _ =>
      try_except
        (match py_float (replace "x" EmptyString speed_str) with
         | None => raise ValueError
         | Some speed_value =>
             if playing_or_paused (get_state e) then
               emit (EvSetRate speed_value) ;;
               when negb (set_rate_result e =? 0) then
                 assign (set_speed_var (rate_label (get_rate e)))
             else ret tt
         end)
        (fun ex =>
           match ex with
           | ValueError => log_error "Invalid speed format"
           | _ => log_error "Error changing playback speed"
           end)
  | _, _ => ret tt
  end.

(** The speed selector is an option menu bound to [speed_var] with
    [change_playback_speed] as its command: choosing an entry stores it in
    the variable, then calls the command with it. *)
Definition speed_menu_select (e : env) (choice : string) : prog unit :=
  assign (set_speed_var choice) ;;
  change_playback_speed e choice.

Definition skip_time (e : env) (ms_offset : Z) : prog unit :=
  player <- get vlc_player ;;
  vpath <- get current_vlc_media_path ;;
  when player && bool_decide (is_Some vpath) && is_seekable e then
    try_except
      (let current_time := get_time e in
       let duration := get_length e O in
       let new_time := current_time + ms_offset in
       let new_time :=
         if 0 <? duration then Z.max 0 (Z.min new_time (duration - 100))
         else Z.max 0 new_time in
       emit (EvSetTime new_time) ;;
       update_playback_progress e true)
      (fun _ => log_error "Error skipping time").

Definition on_media_slider_release (e : env) : prog unit :=
  player <- get vlc_player ;;
  vpath <- get current_vlc_media_path ;;
  when player && bool_decide (is_Some vpath) && is_seekable e then
    try_except
      (value <- get slider ;;
       let duration := get_length e O in
       if 0 <? duration then
         let target_time := py_int (value / 100 * inject_Z duration)%Q in
         emit (EvSetTime target_time) ;;
         update_playback_progress e true ;;
         playing <- get is_vlc_playing ;;
         when negb playing then save_current_vlc_timestamp e
       else update_playback_progress e false)
      (fun _ =>
         log_error "Error seeking with slider on release" ;;
         update_playback_progress e false).

(** ** Restoring the state of a freshly loaded media *)

Definition max_attempts : nat := 30.

(** The loop [while duration <= 0 and wait_attempts < max_attempts];
    [remaining] is [max_attempts - wait_attempts]. *)
Fixpoint wait_for_duration (e : env) (remaining wait_attempts : nat)
  (duration : Z) : prog Z :=
  match remaining with
  | O => ret duration
  | S remaining' =>
      if duration <=? 0 then
        let duration := get_length e wait_attempts in
        if 0 <? duration then ret duration
        else
          emit (EvWait 100) ;;
          wait_for_duration e remaining' (S wait_attempts) duration
      else ret duration
  end.

Definition _restore_vlc_state (e : env) : prog unit :=
  player <- get vlc_player ;;
  vpath <- get current_vlc_media_path ;;
  media <- gets player_media ;;
  match player, vpath, media with
  | true, Some p, Some _ =>
      try_except
        (duration <- wait_for_duration e max_attempts O 0 ;;
         ts <- get timestamps ;;
         match ts !! path_str p with
         | Some (JDict saved_data) =>
             match saved_data !! "position" ≫= as_number with
             | Some saved_time_ms =>
                 if (0 <? duration) && Qltb 0 saved_time_ms
                    && Qltb saved_time_ms (inject_Z duration)
                 then emit (EvSetTime (py_int saved_time_ms))
                 else if Qle_bool saved_time_ms 0 then ret tt
                 else emit (EvSetTime 0)
             | None => ret tt
             end
         | _ => ret tt
         end ;;
         when playing_or_paused (get_state e) then
           speed <- get speed_var ;;
           change_playback_speed e speed)
        (fun _ => log_error "Error restoring VLC state")
  | _, _, _ => ret tt
  end.

(** ** PDF viewer *)

Definition render_pdf_page (e : env) (page_index : Z) : prog unit :=
  doc <- get pdf_doc ;;
  count <- get pdf_page_count ;;
  when truthy doc && (0 <=? page_index) && (page_index <? count) then
    try_except
      ((if render_ok e then ret tt else raise RuntimeError) ;;
       zoom <- get pdf_zoom_level ;;
       emit (EvRender page_index zoom) ;;
       assign (set_pdf_current_page_index page_index))
      (fun _ => log_error "Error rendering PDF page").

Definition pdf_next_page (e : env) : prog unit :=
  doc <- get pdf_doc ;;
  index <- get pdf_current_page_index ;;
  count <- get pdf_page_count ;;
  when truthy doc && (index <? count - 1) then render_pdf_page e (index + 1).

Definition pdf_previous_page (e : env) : prog unit :=
  doc <- get pdf_doc ;;
  index <- get pdf_current_page_index ;;
  when truthy doc && (0 <? index) then render_pdf_page e (index - 1).

Definition zoom_to (e : env) (step : Q) : prog unit :=
  assign (set_pdf_zoom_level step) ;;
  index <- get pdf_current_page_index ;;
  render_pdf_page e index.

Definition pdf_zoom_in (e : env) : prog unit :=
  doc <- get pdf_doc ;;
  when truthy doc then
    zoom <- get pdf_zoom_level ;;
    match index_of zoom PDF_ZOOM_STEPS with
    | Some current_zoom_index =>
        when (current_zoom_index <? List.length PDF_ZOOM_STEPS - 1)%nat then
          match PDF_ZOOM_STEPS !! S current_zoom_index with
          | Some step => zoom_to e step
          | None => ret tt
          end
    | None =>
        match List.find (fun step => Qltb zoom step) PDF_ZOOM_STEPS with
        | Some step => zoom_to e step
        | None => ret tt
        end
    end.

Definition pdf_zoom_out (e : env) : prog unit :=
  doc <- get pdf_doc ;;
  when truthy doc then
    zoom <- get pdf_zoom_level ;;
    match index_of zoom PDF_ZOOM_STEPS with
    | Some current_zoom_index =>
        when (0 <? current_zoom_index)%nat then
          match PDF_ZOOM_STEPS !! Nat.pred current_zoom_index with
          | Some step => zoom_to e step
          | None => ret tt
          end
    | None =>
        match List.find (fun step => Qltb step zoom) (rev PDF_ZOOM_STEPS) with
        | Some step => zoom_to e step
        | None => ret tt
        end
    end.

(** ** Selection *)

Definition close_doc (d : option Document) : prog unit :=
  match d with
  | Some d => emit (EvPdfClose (doc_path d))
  | None => ret tt
  end.

Definition load_vlc_media (e : env) (file_path : Path) : prog unit :=
  player <- get vlc_player ;;
  instance <- get vlc_instance ;;
  if negb player || negb instance then
    log_error "VLC not initialized, cannot play media." ;;
    show_error "Playback Error"
  else
    try_except
      (media <- gets player_media ;;
       (when bool_decide (is_Some media) then emit EvStop) ;;
       (if media_new_ok e then ret tt else raise RuntimeError) ;;
       modify (put_player_media (Some file_path)) ;;
       emit (EvSetMedia file_path) ;;
       assign (set_current_vlc_media_path (Some file_path)) ;;
       kind <- get active_media_type ;;
       match kind with
       | Some video =>
           manage_views (Some video) ;;
           when negb (set_output_ok e) then
             log_error "Failed to set video output" ;;
             manage_views (Some audio)
       | Some audio => manage_views (Some audio)
       | _ => ret tt
       end ;;
       emit EvPlay ;;
       if play_result e =? -1 then
         log_error "VLC failed to start playback." ;;
         show_error "Playback Error" ;;
         assign (set_current_vlc_media_path None) ;;
         manage_views None
       else
         assign (set_is_vlc_playing true) ;;
         emit (EvAfter 300 restore_vlc_state_cb))
      (fun _ =>
         log_error "Error loading or playing VLC media" ;;
         show_error "Playback Error" ;;
         assign (set_current_vlc_media_path None) ;;
         assign (set_is_vlc_playing false) ;;
         manage_views None).

Definition load_pdf_media (e : env) (file_path : Path) : prog unit :=
  try_except
    (doc <- get pdf_doc ;;
     (when truthy doc then
        close_doc doc ;;
        assign (set_pdf_doc None)) ;;
     match fitz_open e with
     | None => raise RuntimeError
     | Some pages =>
         emit (EvPdfOpen file_path) ;;
         assign (set_pdf_doc (Some (MkDocument file_path pages))) ;;
         assign (set_current_pdf_path (Some file_path)) ;;
         assign (set_pdf_page_count pages) ;;
         assign (set_pdf_current_page_index 0) ;;
         assign (set_pdf_zoom_level 1.0%Q) ;;
         let media_key := path_str file_path in
         ts <- get timestamps ;;
         (when negb (bool_decide (is_Some (ts !! media_key)))
          then assign (set_timestamps (<[media_key := JDict ∅]> ts))) ;;
         set_item media_key "last_opened" (JStr (now e)) ;;
         set_item media_key "filename" (JStr (name file_path)) ;;
         ts' <- get timestamps ;;
         save_timestamps ts' ;;
         if 0 <? pages then
           manage_views (Some pdf) ;;
           emit (EvAfter 50 render_current_page_cb)
         else
           show_error "PDF Error" ;;
           emit (EvPdfClose file_path) ;;
           assign (set_pdf_doc None) ;;
           assign (set_current_pdf_path None) ;;
           manage_views None
     end)
    (fun _ =>
       log_error "Error loading PDF" ;;
       show_error "PDF Load Error" ;;
       doc <- get pdf_doc ;;
       (when truthy doc then close_doc doc) ;;
       assign (set_pdf_doc None) ;;
       assign (set_current_pdf_path None) ;;
       assign (set_active_media_type None) ;;
       manage_views None).

(** [stop_and_save_current_media] is two [if] blocks and an assignment.
    The first block: the player. *)
Definition stop_player (e : env) : prog unit :=
  player <- get vlc_player ;;
  vpath <- get current_vlc_media_path ;;
  when player && bool_decide (is_Some vpath) then
    let current_state := get_state e in
    (if playing_or_paused current_state then
       save_current_vlc_timestamp e ;;
       emit EvStop
     else
       when (match current_state with
             | Stopped | NothingSpecial | Ended => false
             | _ => true
             end) then emit EvStop) ;;
    assign (set_is_vlc_playing false) ;;
    assign (set_slider 0).

(** The second block: the open document. *)
Definition close_document : prog unit :=
  doc <- get pdf_doc ;;
  ppath <- get current_pdf_path ;;
  match truthy doc, ppath with
  | true, Some p =>
      let media_key := path_str p in
      ts <- get timestamps ;;
      (when bool_decide (is_Some (ts !! media_key)) then
         (when negb (from_option is_dict false (ts !! media_key))
          then assign (set_timestamps (<[media_key := JDict ∅]> ts))) ;;
         index <- get pdf_current_page_index ;;
         set_item media_key "pdf_page" (JInt index) ;;
         zoom <- get pdf_zoom_level ;;
         set_item media_key "pdf_zoom" (JFloat zoom) ;;
         ts' <- get timestamps ;;
         save_timestamps ts') ;;
      close_doc doc ;;
      assign (set_pdf_doc None) ;;
      assign (set_pdf_page_count 0) ;;
      assign (set_pdf_current_page_index 0)
  | _, _ => ret tt
  end.

Definition stop_and_save_current_media (e : env) : prog unit :=
  stop_player e ;;
  close_document ;;
  assign (set_active_media_type None).

(** The dispatch of [handle_media_click] on the extension of the file. *)
Definition load_media (e : env) (file_path : Path) : prog unit :=
  let file_ext := lower (suffix file_path) in
  if str_in file_ext SUPPORTED_VIDEO_EXT || str_in file_ext SUPPORTED_AUDIO_EXT
  then
    assign (set_active_media_type
              (Some (if str_in file_ext SUPPORTED_VIDEO_EXT then video
                     else audio))) ;;
    load_vlc_media e file_path
  else if str_in file_ext SUPPORTED_PDF_EXT then
    assign (set_active_media_type (Some pdf)) ;;
    load_pdf_media e file_path
  else
    show_error "Unsupported File" ;;
    assign (set_active_media_type None) ;;
    manage_views None.

Definition handle_media_click (e : env) (file_path : Path) : prog unit :=
  stop_and_save_current_media e ;;
  load_media e file_path.

(** ** The event loop

    A command is one callback of the user interface or of a timer; each runs
    to completion against the answers [env] of the collaborators. *)

Inductive command :=
| Click (file_path : Path)       (* a card of the library is clicked *)
| Fire (cb : callback)           (* a deferred call comes due *)
| SkipTime (ms_offset : Z)       (* the -5s / +5s buttons *)
| SpeedSelect (choice : string)  (* the speed selector *)
| SliderDrag (value : Q)         (* the user moves the progress slider *)
| SliderRelease
| NextPage | PreviousPage | ZoomIn | ZoomOut.

Definition run_callback (e : env) (cb : callback) : prog unit :=
  match cb with
  | restore_vlc_state_cb => _restore_vlc_state e
  | render_current_page_cb =>
      index <- get pdf_current_page_index ;;
      render_pdf_page e index
  | periodic_save_timestamp_cb => periodic_save_timestamp e
  | update_playback_progress_cb => update_playback_progress e false
  | update_all_cards_display_cb => update_all_cards_display e
  end.

Definition run_command (e : env) (c : command) : prog unit :=
  match c with
  | Click file_path => handle_media_click e file_path
  | Fire cb => run_callback e cb
  | SkipTime ms_offset => skip_time e ms_offset
  | SpeedSelect choice => speed_menu_select e choice
  | SliderDrag value => assign (set_slider value)
  | SliderRelease => on_media_slider_release e
  | NextPage => pdf_next_page e
  | PreviousPage => pdf_previous_page e
  | ZoomIn => pdf_zoom_in e
  | ZoomOut => pdf_zoom_out e
  end.

Fixpoint run (script : list (env * command)) (w : world) : world :=
  match script with
  | [] => w
  | (e, c) :: script' => run script' (exec (run_command e c) w)
  end.

(** A selection: the click, then the deferred call the click registered
    last (restoring the player, or rendering the first page), which sees
    the collaborators as [e'] . *)
Definition select (e e' : env) (file_path : Path) : prog unit :=
  handle_media_click e file_path ;;
  t <- gets trace ;;
  match t with
  | EvAfter _ cb :: _ => run_callback e' cb
  | _ => ret tt
  end.

End Program.

(** ** A small runtime

    An instance of [Runtime] to run the model on examples: JSON text without
    white space, strings with the two escapes for the quote and the
    backslash, floats in decimal notation (a binary float is a dyadic
    rational, so its decimal expansion is finite). *)
Module Small.

Definition quote : ascii := ascii_of_nat 34.
Definition backslash : ascii := ascii_of_nat 92.

Fixpoint escape (s : string) : string :=
  match s with
  | EmptyString => EmptyString
  | String c s' =>
      if Ascii.eqb c quote || Ascii.eqb c backslash
      then String backslash (String c (escape s'))
      else String c (escape s')
  end.

Definition print_string (s : string) : string :=
  String quote (escape s +:+ String quote EmptyString).

Definition print_Z (z : Z) : string := NilEmpty.string_of_int (Z.to_int z).

Definition pad_left (n : nat) (s : string) : string :=
  Nat.iter (n - String.length s) (String "0") s.

(** [digits] fractional digits of [|q|], rounded down. *)
Definition print_fixed (digits : nat) (q : Q) : string :=
  let k := Z.of_nat digits in
  let scaled := Z.abs (Qnum q) * 10 ^ k / Z.pos (Qden q) in
  (if Qnum q <? 0 then "-" else EmptyString) +:+ print_Z (scaled / 10 ^ k)
  +:+ "." +:+ pad_left digits (print_Z (scaled mod 10 ^ k)).

Definition print_float (q : Q) : string :=
  let q := Qred q in
  print_fixed (Nat.max 1 (Z.to_nat (Z.log2 (Z.pos (Qden q))))) q.

Definition join (sep : string) (l : list string) : string :=
  match l with
  | [] => EmptyString
  | x :: l' => fold_left (fun acc y => acc +:+ sep +:+ y) l' x
  end.

Fixpoint print_json (v : json) : string :=
  match v with
  | JNull => "null"
  | JBool true => "true"
  | JBool false => "false"
  | JInt z => print_Z z
  | JFloat q => print_float q
  | JStr s => print_string s
  | JList l => "[" +:+ join "," (List.map print_json l) +:+ "]"
  | JDict d =>
      "{" +:+ join ","
        (map_fold (fun k v acc =>
           (print_string k +:+ ":" +:+ print_json v) :: acc) [] d)
      +:+ "}"
  end.

Definition is_digit (c : ascii) : bool :=
  let n := nat_of_ascii c in Nat.leb 48 n && Nat.leb n 57.

Fixpoint span_digits (s : string) : string * string :=
  match s with
  | String c s' =>
      if is_digit c then let (d, r) := span_digits s' in (String c d, r)
      else (EmptyString, s)
  | EmptyString => (EmptyString, EmptyString)
  end.

Definition digits_Z (s : string) : option Z :=
  match s with
  | EmptyString => None
  | _ => Z.of_int <$> NilEmpty.int_of_string s
  end.

(** [-]digits[.digits] *)
Definition parse_number (s : string) : option (json * string) :=
  let (neg, s1) := match s with
                   | String "-" s' => (true, s')
                   | _ => (false, s)
                   end in
  let (ip, s2) := span_digits s1 in
  i ← digits_Z ip ;
  match s2 with
  | String "." s3 =>
      let (fp, s4) := span_digits s3 in
      f ← digits_Z fp ;
      let k := Z.of_nat (String.length fp) in
      let m := i * 10 ^ k + f in
      Some (JFloat (Qred ((if neg then - m else m) # Z.to_pos (10 ^ k))), s4)
  | _ => Some (JInt (if neg then - i else i), s2)
  end.

Fixpoint parse_string_body (s : string) : option (string * string) :=
  match s with
  | EmptyString => None
  | String c s' =>
      if Ascii.eqb c quote then Some (EmptyString, s')
      else if Ascii.eqb c backslash then
        match s' with
        | String c' s'' =>
            '(body, r) ← parse_string_body s'' ; Some (String c' body, r)
        | EmptyString => None
        end
      else '(body, r) ← parse_string_body s' ; Some (String c body, r)
  end.

Definition strip (p s : string) : option string :=
  if String.prefix p s
  then Some (String.substring (String.length p)
               (String.length s - String.length p) s)
  else None.

Fixpoint parse_value (fuel : nat) (s : string) : option (json * string) :=
  match fuel with
  | O => None
  | S fuel' =>
      let parse_items :=
        fix parse_items (n : nat) (s : string) : option (list json * string) :=
          match n with
          | O => None
          | S n' =>
              '(v, r) ← parse_value fuel' s ;
              match r with
              | String "," r' =>
                  '(vs, r'') ← parse_items n' r' ; Some (v :: vs, r'')
              | String "]" r' => Some ([v], r')
              | _ => None
              end
          end in
      let parse_members :=
        fix parse_members (n : nat) (s : string)
          : option (gmap string json * string) :=
          match n with
          | O => None
          | S n' =>
              match s with
              | String c s1 =>
                  if Ascii.eqb c quote then
                    '(k, r0) ← parse_string_body s1 ;
                    match r0 with
                    | String ":" r1 =>
                        '(v, r) ← parse_value fuel' r1 ;
                        match r with
                        | String "," r' =>
                            '(m, r'') ← parse_members n' r' ;
                            Some (<[k := v]> m, r'')
                        | String "}" r' => Some ({[k := v]}, r')
                        | _ => None
                        end
                    | _ => None
                    end
                  else None
              | EmptyString => None
              end
          end in
      match s with
      | String "n" _ => r ← strip "null" s ; Some (JNull, r)
      | String "t" _ => r ← strip "true" s ; Some (JBool true, r)
      | String "f" _ => r ← strip "false" s ; Some (JBool false, r)
      | String "[" (String "]" r) => Some (JList [], r)
      | String "[" r =>
          '(vs, r') ← parse_items (String.length s) r ; Some (JList vs, r')
      | String "{" (String "}" r) => Some (JDict ∅, r)
      | String "{" r =>
          '(m, r') ← parse_members (String.length s) r ; Some (JDict m, r')
      | String c s' =>
          if Ascii.eqb c quote
          then '(body, r) ← parse_string_body s' ; Some (JStr body, r)
          else parse_number s
      | EmptyString => None
      end
  end.

Definition parse_json (s : string) : option json :=
  '(v, r) ← parse_value (S (String.length s)) s ;
  match r with EmptyString => Some v | _ => None end.

Definition parse_float (s : string) : option Q :=
  match parse_number s with
  | Some (v, EmptyString) => as_number v
  | _ => None
  end.

#[export] Instance runtime : Runtime := {|
  json_dumps d := print_json (JDict d);
  json_loads := parse_json;
  py_float := parse_float;
  format_2f q := print_fixed 2 (q + (if Qnum q <? 0 then -1 # 200 else 1 # 200))
|}.

End Small.

(** The object as [__init__] leaves it once the timestamps are loaded, and
    the world around it. *)
Definition init_app (library_path : string) (timestamps : gmap string json)
  (vlc_ok : bool) : app :=
  MkApp library_path timestamps vlc_ok vlc_ok None false None None 0 0 1.0%Q
    None "1.0x" 0%Q None.

Definition init_world (library_path : string) (timestamps : gmap string json)
  (vlc_ok : bool) (disk : gmap string string) (plan : list io_fault) : world :=
  MkWorld (init_app library_path timestamps vlc_ok) None disk [disk] plan [].

(** ** Vocabulary of the properties *)

#[global] Instance Path_eq_dec : EqDecision Path.
Proof. solve_decision. Defined.

(** A timestamp dictionary whose entries are all dictionaries (records). *)
Definition store_ok (ts : gmap string json) : Prop :=
  map_Forall (fun _ v => is_dict v = true) ts.

(** Closing the document opened from [p]: its first occurrence leaves the
    list of the open documents. *)
Fixpoint close_first (p : Path) (l : list Path) : list Path :=
  match l with
  | [] => []
  | q :: l' => if decide (p = q) then l' else q :: close_first p l'
  end.

(** The documents open after the events of a trace (newest first). *)
Fixpoint docs_open (t : list event) : list Path :=
  match t with
  | [] => []
  | EvPdfOpen p :: t' => p :: docs_open t'
  | EvPdfClose p :: t' => close_first p (docs_open t')
  | _ :: t' => docs_open t'
  end.

(** Whether the player has been started and not stopped since. *)
Fixpoint player_busy (t : list event) : bool :=
  match t with
  | [] => false
  | EvPlay :: _ => true
  | EvStop :: _ => false
  | _ :: t' => player_busy t'
  end.

(** The discipline of the engine handles: when a document was opened no
    document was open, a document that was closed was the open one, and when
    a media was handed to the player the player was not playing. *)
Fixpoint disciplined (t : list event) : Prop :=
  match t with
  | [] => True
  | ev :: t' =>
      disciplined t'
      /\ match ev with
         | EvPdfOpen _ => docs_open t' = []
         | EvPdfClose p => docs_open t' = [p]
         | EvSetMedia _ => player_busy t' = false
         | _ => True
         end
  end.

(** The seeks and the rate changes sent to the player, oldest first. *)
Definition seeks (t : list event) : list Z :=
  omap (fun ev => match ev with EvSetTime x => Some x | _ => None end) (rev t).

Definition rates (t : list event) : list Q :=
  omap (fun ev => match ev with EvSetRate r => Some r | _ => None end) (rev t).

(** The waits of the event loop, in ms, oldest first. *)
Definition waits (t : list event) : list Z :=
  omap (fun ev => match ev with EvWait ms => Some ms | _ => None end) (rev t).

Definition dialogs (t : list event) : list string :=
  omap (fun ev => match ev with EvShowError s => Some s | _ => None end) (rev t).

(** The first of the [n] first polls of the duration that is positive. *)
Fixpoint first_duration (e : env) (n : nat) (i : nat) : option (nat * Z) :=
  match n with
  | O => None
  | S n' =>
      if 0 <? get_length e i then Some (i, get_length e i)
      else first_duration e n' (S i)
  end.

Definition opened (d : option Document) : list Path :=
  match d with Some d => [doc_path d] | None => [] end.

(** The state of the application and the events so far fit together. *)
Record consistent (w : world) : Prop := {
  inv_trace : disciplined (trace w);
  inv_docs : docs_open (trace w) = opened (pdf_doc (self w));
  inv_doc : forall d, pdf_doc (self w) = Some d ->
      0 < doc_len d
      /\ current_pdf_path (self w) = Some (doc_path d)
      /\ is_Some (timestamps (self w) !! path_str (doc_path d))
      /\ pdf_page_count (self w) = doc_len d
      /\ 0 <= pdf_current_page_index (self w) < pdf_page_count (self w);
  inv_player : player_busy (trace w) = true -> is_Some (player_media w);
  inv_store : store_ok (timestamps (self w));
  inv_zoom : (0.5 <= pdf_zoom_level (self w) <= 4.0)%Q
}.

(** Events that neither open nor close a handle nor start the player. *)
Definition harmless (ev : event) : bool :=
  match ev with
  | EvSetMedia _ | EvPlay | EvPdfOpen _ | EvPdfClose _ => false
  | _ => true
  end.

(** Events that open no handle and start no playback: the harmless ones
    and the closing of a document. *)
Definition releasing (ev : event) : bool :=
  match ev with
  | EvSetMedia _ | EvPlay | EvPdfOpen _ => false
  | _ => true
  end.

(** [extends_by ok t t']: [t'] is [t] with events that satisfy [ok] added. *)
Inductive extends_by (ok : event -> bool) (t : list event)
  : list event -> Prop :=
| extends_refl : extends_by ok t t
| extends_cons ev t' :
    ok ev = true -> extends_by ok t t' -> extends_by ok t (ev :: t').

Abbreviation extends := (extends_by harmless).

(** What the commands other than a click may change. *)
Record frame (w w' : world) : Prop := {
  fr_trace : extends (trace w) (trace w');
  fr_media : player_media w' = player_media w;
  fr_doc : pdf_doc (self w') = pdf_doc (self w);
  fr_path : current_pdf_path (self w') = current_pdf_path (self w);
  fr_count : pdf_page_count (self w') = pdf_page_count (self w);
  fr_index :
    0 <= pdf_current_page_index (self w) < pdf_page_count (self w) ->
    0 <= pdf_current_page_index (self w') < pdf_page_count (self w);
  fr_zoom :
    (0.5 <= pdf_zoom_level (self w) <= 4.0)%Q ->
    (0.5 <= pdf_zoom_level (self w') <= 4.0)%Q;
  fr_store : store_ok (timestamps (self w)) -> store_ok (timestamps (self w'));
  fr_keys : forall k, is_Some (timestamps (self w) !! k) ->
                      is_Some (timestamps (self w') !! k);
  fr_library : library_path (self w') = library_path (self w);
  fr_player : vlc_player (self w') = vlc_player (self w);
  fr_instance : vlc_instance (self w') = vlc_instance (self w);
  fr_vpath :
    current_vlc_media_path (self w') = current_vlc_media_path (self w)
}.

(** ** Postconditions

    [post c w Q]: running [c] from [w] ends with a result and a world that
    satisfy [Q]. *)
Definition post {A} (c : prog A) (w : world)
  (Q : result A -> world -> Prop) : Prop :=
  Q (fst (c w)) (snd (c w)).

(** A record of the dictionary with given fields. *)
Definition has_field (ts : gmap string json) (key field : string) (v : json)
  : Prop :=
  exists r, ts !! key = Some (JDict r) /\ r !! field = Some v.

(** The record [load_pdf_media] leaves for the document: the old record,
    if there was one, with the two fields it sets. *)
Definition opened_record (e : env) (p : Path) (old : option json)
  : gmap string json :=
  <["filename" := JStr (name p)]>
    (<["last_opened" := JStr (now e)]>
       (match old with Some (JDict r) => r | _ => ∅ end)).

(** [store_ok], as a test. *)
Definition store_okb (ts : gmap string json) : bool :=
  forallb (fun kv => is_dict (snd kv)) (map_to_list ts).

(** The world reached from a fresh start by a script of commands. *)
Definition session `{Runtime} (library_path : string)
  (timestamps : gmap string json) (vlc_ok : bool) (disk : gmap string string) (plan : list io_fault)
  (script : list (env * command)) : world :=
  run script (init_world library_path timestamps vlc_ok disk plan).

(** ** Example data: a library with two media files and two documents *)
Module Demo.

Definition library : string := "/home/u/DigitalLibrary".
Definition a_mp4 : Path := MkPath library "a" ".mp4".
Definition c_mp3 : Path := MkPath library "c" ".mp3".
Definition b_pdf : Path := MkPath library "b" ".pdf".
Definition empty_pdf : Path := MkPath library "empty" ".pdf".

(** The engines as they answer when the player is in [state] at [time] ms of
    a media of [length] ms, and a document of [pages] pages opens. *)
Definition engines (state : State) (time length : Z) (pages : option Z) : env :=
  MkEnv state time (fun _ => length) true 1 0 0 true true
    "2026-01-01T10:00:00" pages true.

(** A store that holds the progress of [a.mp4] and of [b.pdf]. *)
Definition stored : gmap string json :=
  <[path_str a_mp4 :=
      JDict (<["position" := JInt 40000]>
            (<["duration" := JInt 100000]>
            (<["finished" := JBool false]> ∅)))]>
  (<[path_str b_pdf :=
      JDict (<["pdf_page" := JInt 3]>
            (<["pdf_zoom" := JFloat 2]> ∅))]> ∅).

(** The application started on that store, with an empty disk. *)
Definition w_stored : world := init_world library stored true ∅ [].

(** [a.mp4] has been selected in an empty library and is playing. *)
Definition w_playing `{Runtime} : world :=
  session library ∅ true ∅ [] [(engines Playing 0 100000 None, Click a_mp4)].

(** [b.pdf] is opened and rendered, the reader goes to page 3 and zooms to
    2.0, then selects [a.mp4]. *)
Definition reading_script : list (env * command) :=
  let e := engines Stopped 0 100000 (Some 5) in
  [(e, Click b_pdf); (e, Fire render_current_page_cb);
   (e, NextPage); (e, NextPage); (e, NextPage);
   (e, ZoomIn); (e, ZoomIn); (e, ZoomIn); (e, ZoomIn);
   (e, Click a_mp4)].

(** [b.pdf] is opened and rendered, zoomed out to the lowest step, then
    zoomed in 20 times. *)
Definition zooming_script : list (env * command) :=
  let e := engines Stopped 0 100000 (Some 5) in
  [(e, Click b_pdf); (e, Fire render_current_page_cb);
   (e, ZoomOut); (e, ZoomOut)] ++ repeat (e, ZoomIn) 20.

(** [a.mp4] is playing and the slider has been dragged to its upper end. *)
Definition w_slider_full `{Runtime} : world :=
  session library ∅ true ∅ []
    [(engines Playing 0 120000 None, Click a_mp4);
     (engines Playing 60000 120000 None, SliderDrag 100)].

(** [a.mp4] has just been selected, with the stored progress at hand. *)
Definition w_resuming `{Runtime} : world :=
  session library stored true ∅ [] [(engines Opening 0 0 None, Click a_mp4)].

End Demo.

(** * Further vocabulary: what every command preserves *)

(** Events other than a dialog. *)
Definition silent (ev : event) : bool :=
  match ev with EvShowError _ => false | _ => true end.

(** Events a timer may cause: a line of the log, and the next timer. *)
Definition background (ev : event) : bool :=
  match ev with EvLogError _ | EvAfter _ _ => true | _ => false end.

Definition every_event (ev : event) : bool := true.

Definition store_path (w : world) : string :=
  path_str (timestamps_file (self w)).

(** While a media is marked as playing, the player exists and a media path
    is set. *)
Definition playing_loaded (w : world) : Prop :=
  is_vlc_playing (self w) = true ->
  vlc_player (self w) = true /\ is_Some (current_vlc_media_path (self w)).

Definition zoom_on_step (w : world) : Prop :=
  In (pdf_zoom_level (self w)) PDF_ZOOM_STEPS.

Section Integrity.
Context `{Runtime}.

(** The store file of the disk [d] holds what it held [before], or the
    complete text of some dictionary. *)
Definition written (store : string) (before : option string)
  (d : gmap string string) : Prop :=
  d !! store = before \/ exists ts, d !! store = Some (json_dumps ts).

(** What a command does to the world around the session: the events it adds
    satisfy [ok], the library stays where it is, the zoom stays on a step,
    a playing media stays loaded, and every disk content it goes through
    has the store file complete. *)
Record orderly (ok : event -> bool) (w w' : world) : Prop := {
  od_trace : extends_by ok (trace w) (trace w');
  od_library : library_path (self w') = library_path (self w);
  od_zoom : zoom_on_step w -> zoom_on_step w';
  od_playing : playing_loaded w -> playing_loaded w';
  od_disk : exists new,
      disk_log w' = (new ++ disk_log w)%list
      /\ Forall (written (store_path w) (fs w !! store_path w)) (fs w' :: new)
}.

(** The invariant: [before] is what the store file held when the
    application started. *)
Record sound (before : option string) (w : world) : Prop := {
  sd_zoom : zoom_on_step w;
  sd_playing : playing_loaded w;
  sd_fs : written (store_path w) before (fs w);
  sd_disk : Forall (written (store_path w) before) (disk_log w)
}.

End Integrity.

(** The two timers of the player and their periods, in ms.  (The third
    timer, of the cards, also runs the loop over the cards: see
    [update_all_cards_display_window].) *)
Definition timer_period (cb : callback) : option Z :=
  match cb with
  | periodic_save_timestamp_cb => Some 5000
  | update_playback_progress_cb => Some 500
  | _ => None
  end.

Definition is_click (c : command) : bool :=
  match c with Click _ => true | _ => false end.

(** The position [_restore_vlc_state] finds in the dictionary for a media
    key: the entry must be a record with a numeric [position]. *)
Definition stored_position (ts : gmap string json) (key : string) : option Q :=
  match ts !! key with
  | Some (JDict saved_data) => saved_data !! "position" ≫= as_number
  | _ => None
  end.

(** ** Further example data *)
Module Examples.
Import Demo.

(** [b.pdf] (5 pages) is open on page 3 at zoom 2.0. *)
Definition w_reading `{Runtime} : world :=
  session library ∅ true ∅ []
    (let e := engines Stopped 0 100000 (Some 5) in
     [(e, Click b_pdf); (e, Fire render_current_page_cb);
      (e, NextPage); (e, NextPage); (e, NextPage);
      (e, ZoomIn); (e, ZoomIn); (e, ZoomIn); (e, ZoomIn)]).

(** The engines [e], except that pages do not render. *)
Definition unrendered (e : env) : env :=
  MkEnv (get_state e) (get_time e) (get_length e) (is_seekable e) (get_rate e)
    (play_result e) (set_rate_result e) (media_new_ok e) (set_output_ok e)
    (now e) (fitz_open e) false.

(** A store in which the entry of [b.pdf] is a number, not a record, and
    the application started on it. *)
Definition malformed : gmap string json := <[path_str b_pdf := JInt 5]> ∅.
Definition w_malformed : world := init_world library malformed true ∅ [].

End Examples.

(** * The rest of the window: cards, library panel, notes, play and pause

    The selection machinery above is the object [app] and the [world] around
    it.  The definitions below add what the remaining handlers of
    [src/main.py] read and write: the cards of the library panel
    (class [MediaCard]), the search box, the notes editor, and the calls to
    the engine that the selection machinery does not make.  Handlers run to
    completion, as before. *)

(** ** [MediaCard.format_time] (and [DigitalLibrary.format_time], which calls
    it) *)

(** [str(z)] for an integer. *)
Definition str_int (z : Z) : string := NilEmpty.string_of_int (Z.to_int z).

(** [f"{n:02d}"] *)
Definition two_digits (n : Z) : string :=
  let s := str_int n in
  if (String.length s <? 2)%nat then "0" +:+ s else s.

(** [ms] is [None] for Python's [None]; a number otherwise. *)
Definition format_time (ms : option Q) : string :=
  let ms := match ms with
            | Some x => if Qltb x 0 then 0%Q else x
            | None => 0%Q
            end in
  let seconds := py_int (ms / 1000)%Q in
  let minutes := seconds / 60 in
  let seconds := seconds mod 60 in
  let hours := minutes / 60 in
  let minutes := minutes mod 60 in
  if 0 <? hours
  then str_int hours +:+ ":" +:+ two_digits minutes +:+ ":" +:+ two_digits seconds
  else str_int minutes +:+ ":" +:+ two_digits seconds.

(** ** Python's view of a JSON value *)

(** [bool(v)] *)
Definition json_truthy (v : json) : bool :=
  match v with
  | JNull => false
  | JBool b => b
  | JInt z => negb (z =? 0)
  | JFloat q => negb (Qeq_bool q 0)
  | JStr s => negb (String.eqb s EmptyString)
  | JList l => negb (Nat.eqb (List.length l) 0)
  | JDict d => negb (Nat.eqb (size d) 0)
  end.

(** [needle in hay] on strings. *)
Fixpoint is_prefix (s t : string) : bool :=
  match s, t with
  | EmptyString, _ => true
  | String a s', String b t' => Ascii.eqb a b && is_prefix s' t'
  | String _ _, EmptyString => false
  end.

Fixpoint is_substring (needle hay : string) : bool :=
  is_prefix needle hay
  || match hay with
     | EmptyString => false
     | String _ hay' => is_substring needle hay'
     end.

(** [key in v]; [None] stands for [TypeError] (a number, [True], [None]
    are not containers). *)
Definition json_contains (key : string) (v : json) : option bool :=
  match v with
  | JDict d => Some (bool_decide (is_Some (d !! key)))
  | JList l =>
      Some (existsb (fun x => match x with
                              | JStr s => String.eqb s key
                              | _ => false
                              end) l)
  | JStr s => Some (is_substring key s)
  | _ => None
  end.

(** ** Text

    The names of the files and the text of the search box are Python
    strings, that is Unicode text; here they are the bytes of their UTF-8
    encoding, so that comparing two strings byte by byte compares them
    code point by code point, as [<] on [str] does, and a text occurs in
    another one exactly when its bytes do.  [str.lower()] and [str.strip()]
    are taken from the library as they are: [lower()] follows the case
    mapping of Unicode and [strip()] removes every character that Unicode
    counts as white space (among them U+0085, U+00A0 and U+3000), which the
    functions on ASCII characters ([lower], [py_strip] below) do only for
    ASCII text. *)
Class Text := {
  str_lower : string -> string;
  str_strip : string -> string
}.

(** ** The cards *)

Inductive part := ProgressBar | TimeLabel | LastPlayedLabel | PdfLabel.

(** A [MediaCard]: the widgets it shows, in the order they were packed, and
    what they show. *)
Record card := MkCard {
  card_path : Path;
  is_pdf : bool;
  packed : list part;
  progress_bar : Q;
  card_time_label : string;
  last_played_label : string
}.

(** [format_last_played(datetime.fromisoformat(s))] at the time of the call;
    [None] when the text is not a date the clock can be compared with
    ([ValueError], [TypeError]). *)
Record clock := MkClock { ago : string -> option string }.

(** The text for the label of the last use: the [try] block around
    [datetime.fromisoformat(progress_data[field])], with the empty text from its
    [except (ValueError, TypeError)]. *)
Definition last_used_text (k : clock) (heading : string) (progress_data : json)
  (field : string) : string :=
  match progress_data with
  | JDict d =>
      match d !! field with
      | Some (JStr s) =>
          match ago k s with
          | Some text => heading +:+ text
          | None => EmptyString
          end
      | _ => EmptyString
      end
  | _ => EmptyString
  end.

(** The body of the [try] of [update_progress]; [None] stands for an
    exception (all are caught by [except Exception]), which can only happen
    before the first widget is touched. *)
Definition progress_view (k : clock) (progress_data : json)
  : option (Q * string * string) :=
  match progress_data with
  | JDict d =>
      let position := default (JInt 0) (d !! "position") in
      let duration := default (JInt 0) (d !! "duration") in
      let last_played :=
        if bool_decide (is_Some (d !! "last_played"))
        then last_used_text k "Last played: " progress_data "last_played"
        else EmptyString in
      match duration with
      | JNull => Some (0%Q, "0:00 / 0:00", last_played)
      | _ =>
          match as_number duration with
          | None => None                       (* [duration <= 0]: TypeError *)
          | Some dur =>
              if Qle_bool dur 0
              then Some (0%Q, "0:00 / 0:00", last_played)
              else
                match as_number position with
                | None => None                 (* [position / duration] *)
                | Some pos =>
                    Some (Qmin 1 (Qmax 0 (pos / dur)),
                          format_time (Some pos) +:+ " / "
                            +:+ format_time (Some dur),
                          last_played)
                end
          end
      end
  | _ => None                                  (* [.get]: AttributeError *)
  end.

(** [update_progress]: the card, and whether an error was logged. *)
Definition update_progress (k : clock) (progress_data : option json) (c : card)
  : card * bool :=
  if is_pdf c then (c, false)
  else
    let reset :=
      MkCard (card_path c) (is_pdf c) (packed c) 0 "0:00 / 0:00" EmptyString in
    match progress_data with
    | Some v =>
        if json_truthy v then
          match progress_view k v with
          | Some (pct, time_text, last_played) =>
              (MkCard (card_path c) (is_pdf c) (packed c) pct time_text
                 last_played, false)
          | None => (reset, true)
          end
        else (reset, false)
    | None => (reset, false)
    end.

(** [update_display]: [Raise TypeError] when [progress_data] of a PDF card
    is a number or [True], on which [in] is not defined; the PDF label is
    then already packed. *)
Definition update_display (k : clock) (progress_data : option json) (c : card)
  : result unit * card * bool :=
  if is_pdf c then
    let c1 := MkCard (card_path c) (is_pdf c) [PdfLabel] (progress_bar c)
                (card_time_label c) (last_played_label c) in
    match progress_data with
    | Some v =>
        if json_truthy v then
          match json_contains "last_opened" v with
          | None => (Raise TypeError, c1, false)
          | Some true =>
              (Ret tt,
               MkCard (card_path c) (is_pdf c) [PdfLabel; LastPlayedLabel]
                 (progress_bar c) (card_time_label c)
                 (last_used_text k "Last opened: " v "last_opened"),
               false)
          | Some false => (Ret tt, c1, false)
          end
        else (Ret tt, c1, false)
    | None => (Ret tt, c1, false)
    end
  else
    let c1 := MkCard (card_path c) (is_pdf c)
                [ProgressBar; TimeLabel; LastPlayedLabel] (progress_bar c)
                (card_time_label c) (last_played_label c) in
    let (c2, logged) := update_progress k progress_data c1 in
    (Ret tt, c2, logged).

(** [MediaCard.__init__]: the widgets as they are created (a progress bar of
    customtkinter starts at 0.5), then [update_display]. *)
Definition new_card `{Text} (k : clock) (file_path : Path)
  (progress_data : option json) : result unit * card * bool :=
  update_display k progress_data
    (MkCard file_path (str_in (str_lower (suffix file_path)) SUPPORTED_PDF_EXT)
       [] 0.5%Q "0:00 / 0:00" EmptyString).

(** ** The window around the session *)

(** Calls to the player and to the toolkit that the selection machinery does
    not make. *)
Inductive call :=
| CallPause                      (* [vlc_player.pause()] *)
| CallAfterRestart (ms : Z)      (* [window.after(ms, self._restart_playback)] *)
| CallPlayerRelease              (* [vlc_player.release()] *)
| CallInstanceRelease            (* [vlc_instance.release()] *)
| CallDestroy.                   (* [window.destroy()] *)

Record desk := MkDesk {
  core : world;
  (* the library panel: the children of [scrollable_frame], oldest first,
     each with its place in the grid once it has one *)
  cards : list (card * option (nat * nat));
  search_var : string;
  search_active : bool;
  (* the notes editor *)
  notes_text : string;             (* [notes_text.get("1.0", "end-1c")] *)
  notes_file : option Path;
  notes_changed : bool;
  edit_modified : bool;            (* the modified flag of the text widget *)
  notes_file_label : string;
  (* the calls, newest first, each with the number of events of [trace]
     that came before it *)
  calls : list (nat * call)
}.

Definition put_core (v : world) (d : desk) : desk :=
  MkDesk v (cards d) (search_var d) (search_active d) (notes_text d)
    (notes_file d) (notes_changed d) (edit_modified d) (notes_file_label d)
    (calls d).
Definition put_cards (v : list (card * option (nat * nat))) (d : desk) : desk :=
  MkDesk (core d) v (search_var d) (search_active d) (notes_text d)
    (notes_file d) (notes_changed d) (edit_modified d) (notes_file_label d)
    (calls d).
Definition put_search_var (v : string) (d : desk) : desk :=
  MkDesk (core d) (cards d) v (search_active d) (notes_text d)
    (notes_file d) (notes_changed d) (edit_modified d) (notes_file_label d)
    (calls d).
Definition put_search_active (v : bool) (d : desk) : desk :=
  MkDesk (core d) (cards d) (search_var d) v (notes_text d)
    (notes_file d) (notes_changed d) (edit_modified d) (notes_file_label d)
    (calls d).
Definition put_notes_text (v : string) (d : desk) : desk :=
  MkDesk (core d) (cards d) (search_var d) (search_active d) v
    (notes_file d) (notes_changed d) (edit_modified d) (notes_file_label d)
    (calls d).
Definition put_notes_file (v : option Path) (d : desk) : desk :=
  MkDesk (core d) (cards d) (search_var d) (search_active d) (notes_text d)
    v (notes_changed d) (edit_modified d) (notes_file_label d) (calls d).
Definition put_notes_changed (v : bool) (d : desk) : desk :=
  MkDesk (core d) (cards d) (search_var d) (search_active d) (notes_text d)
    (notes_file d) v (edit_modified d) (notes_file_label d) (calls d).
Definition put_edit_modified (v : bool) (d : desk) : desk :=
  MkDesk (core d) (cards d) (search_var d) (search_active d) (notes_text d)
    (notes_file d) (notes_changed d) v (notes_file_label d) (calls d).
Definition put_notes_file_label (v : string) (d : desk) : desk :=
  MkDesk (core d) (cards d) (search_var d) (search_active d) (notes_text d)
    (notes_file d) (notes_changed d) (edit_modified d) v (calls d).
Definition put_calls (v : list (nat * call)) (d : desk) : desk :=
  MkDesk (core d) (cards d) (search_var d) (search_active d) (notes_text d)
    (notes_file d) (notes_changed d) (edit_modified d) (notes_file_label d) v.

(** The window as [setup_ui] leaves it, around a world. *)
Definition init_desk (w : world) : desk :=
  MkDesk w [] EmptyString false EmptyString None false false "Untitled" [].

(** ** Programs on the window *)

Definition dprog (A : Type) : Type := desk -> result A * desk.

Definition dret {A} (a : A) : dprog A := fun d => (Ret a, d).
Definition draise {A} (e : exn) : dprog A := fun d => (Raise e, d).
Definition dbind {A B} (c : dprog A) (k : A -> dprog B) : dprog B :=
  fun d => match c d with
           | (Ret a, d') => k a d'
           | (Raise e, d') => (Raise e, d')
           end.
Definition dtry {A} (body : dprog A) (handler : exn -> dprog A) : dprog A :=
  fun d => match body d with
           | (Ret a, d') => (Ret a, d')
           | (Raise e, d') => handler e d'
           end.
Definition dgets {A} (f : desk -> A) : dprog A := fun d => (Ret (f d), d).
Definition dmodify (f : desk -> desk) : dprog unit := fun d => (Ret tt, f d).

(** A program of the session, run on the world of the window. *)
Definition lift {A} (c : prog A) : dprog A :=
  fun d => let (r, w') := c (core d) in (r, put_core w' d).

Definition record_call (c : call) : dprog unit :=
  dmodify (fun d => put_calls ((List.length (trace (core d)), c) :: calls d) d).

Definition dexec {A} (c : dprog A) (d : desk) : desk := snd (c d).

Declare Scope desk_scope.
Delimit Scope desk_scope with desk.
Bind Scope desk_scope with dprog.
Notation "x <- c ;; k" := (dbind c (fun x => k))
  (at level 100, c at next level, k at level 200, right associativity)
  : desk_scope.
Notation "c ;; k" := (dbind c (fun _ => k))
  (at level 100, k at level 200, right associativity) : desk_scope.
Notation "'when' b 'then' c" := (if b then c else dret tt)
  (at level 10, b at level 100, c at level 200) : desk_scope.

(** ** The library panel *)

Definition SUPPORTED_EXTENSIONS : list string :=
  (SUPPORTED_VIDEO_EXT ++ SUPPORTED_AUDIO_EXT ++ SUPPORTED_PDF_EXT)%list.

(** What the file system answers to a scan of the library directory:
    [library_path.is_dir()], and the items of [library_path.rglob('*')],
    each with the answer of [is_file()]; [None] when the scan raises
    [OSError]. *)
Record folder := MkFolder {
  folder_is_dir : bool;
  folder_items : option (list (Path * bool))
}.

(** [item.is_file() and item.suffix.lower() in SUPPORTED_EXTENSIONS] *)
Definition supported `{Text} (item : Path * bool) : bool :=
  snd item && str_in (str_lower (suffix (fst item))) SUPPORTED_EXTENSIONS.

(** [sort(key=lambda x: x.name.lower())]: the stable sort by the key. *)
Definition sort_key `{Text} (p : Path) : string := str_lower (name p).

Fixpoint insert_by_key `{Text} (x : Path) (l : list Path) : list Path :=
  match l with
  | [] => [x]
  | y :: l' =>
      if String.leb (sort_key x) (sort_key y) then x :: l
      else y :: insert_by_key x l'
  end.

Fixpoint sort_by_name `{Text} (l : list Path) : list Path :=
  match l with
  | [] => []
  | x :: l' => insert_by_key x (sort_by_name l')
  end.

Definition media_files `{Text} (items : list (Path * bool)) : list Path :=
  sort_by_name (List.map fst (List.filter supported items)).

(** [s.strip()] on ASCII text: the white space of ASCII is the characters
    9 to 13 and 28 to 32. *)
Definition is_space (c : ascii) : bool :=
  let n := nat_of_ascii c in
  (Nat.leb 9 n && Nat.leb n 13) || (Nat.leb 28 n && Nat.leb n 32).

Fixpoint py_lstrip (s : string) : string :=
  match s with
  | String c s' => if is_space c then py_lstrip s' else s
  | EmptyString => EmptyString
  end.

Fixpoint py_rstrip (s : string) : string :=
  match s with
  | String c s' =>
      match py_rstrip s' with
      | EmptyString => if is_space c then EmptyString else String c EmptyString
      | t => String c t
      end
  | EmptyString => EmptyString
  end.

Definition py_strip (s : string) : string := py_rstrip (py_lstrip s).

Definition is_empty (s : string) : bool :=
  match s with EmptyString => true | _ => false end.

#[local] Open Scope desk_scope.

(** [MediaCard(...)] for one file, as a child of the scrollable frame;
    [place] is where [card.grid] puts it.  When the constructor raises, the
    card is a child already, and has no place. *)
Definition add_card `{Text} (k : clock) (file_path : Path)
  (place : nat * nat) : dprog unit :=
  ts <- dgets (fun d => timestamps (self (core d))) ;;
  let progress_data := ts !! path_str file_path in
  let '(r, c, logged) := new_card k file_path progress_data in
  (when logged then lift (log_error "Error updating card progress")) ;;
  match r with
  | Ret _ => dmodify (fun d => put_cards (cards d ++ [(c, Some place)]) d)
  | Raise ex =>
      dmodify (fun d => put_cards (cards d ++ [(c, None)]) d) ;;
      draise ex
  end.

(** The loop [for i, file_path in enumerate(media_files)] of
    [load_library], from index [i]. *)
Fixpoint create_cards `{Text} (k : clock) (i : nat) (files : list Path)
  : dprog unit :=
  match files with
  | [] => dret tt
  | file_path :: rest =>
      add_card k file_path (Nat.div i 2, Nat.modulo i 2) ;;
      create_cards k (S i) rest
  end.

Definition load_library `{Text} (k : clock) (f : folder) : dprog unit :=
  dmodify (put_cards []) ;;
  if negb (folder_is_dir f) then lift (show_error "Library Error")
  else
    match folder_items f with
    | None =>
        lift (log_error "Error scanning library directory") ;;
        lift (show_error "Library Scan Error")
    | Some items =>
        create_cards k 0 (media_files items) ;;
        dmodify (put_search_active false)
    end.

(** The loop of [filter_library], with its counters [row] and [col]. *)
Fixpoint filter_cards `{Text} (k : clock) (search_term : string)
  (row col : nat) (files : list Path) : dprog unit :=
  match files with
  | [] => dret tt
  | item :: rest =>
      if is_substring search_term (str_lower (name item)) then
        add_card k item (row, col) ;;
        let col := S col in
        if (2 <=? col)%nat then filter_cards k search_term (S row) 0 rest
        else filter_cards k search_term row col rest
      else filter_cards k search_term row col rest
  end.

Definition filter_library `{Text} (k : clock) (f : folder) : dprog unit :=
  search <- dgets search_var ;;
  let search_term := str_strip (str_lower search) in
  active <- dgets search_active ;;
  let is_cleared := is_empty search_term && active in
  let is_new_search := negb (is_empty search_term) in
  if is_cleared then load_library k f
  else if negb is_new_search then dret tt
  else
    dmodify (put_search_active true) ;;
    dmodify (put_cards []) ;;
    dtry
      (if negb (folder_is_dir f) then dret tt
       else
         match folder_items f with
         | None => draise OSError
         | Some items => filter_cards k search_term 0 0 (media_files items)
         end)
      (fun ex =>
         match ex with
         | OSError => lift (log_error "Error scanning library during filter")
         | _ => draise ex
         end).

(** Typing in the search box: the variable is written, and its trace calls
    [filter_library]. *)
Definition search_typed `{Text} (k : clock) (f : folder) (text : string)
  : dprog unit :=
  dmodify (put_search_var text) ;;
  filter_library k f.

(** The loop of [update_all_cards_display] over the cards: the result, the
    cards, and the number of errors logged. *)
Fixpoint refresh_cards (k : clock) (ts : gmap string json)
  (todo : list (card * option (nat * nat)))
  : result unit * list (card * option (nat * nat)) * nat :=
  match todo with
  | [] => (Ret tt, [], O)
  | (c, place) :: rest =>
      let '(r, c', logged) := update_display k (ts !! path_str (card_path c)) c in
      let n := if logged then 1%nat else O in
      match r with
      | Raise ex => (Raise ex, (c', place) :: rest, n)
      | Ret _ =>
          let '(r', rest', m) := refresh_cards k ts rest in
          (r', (c', place) :: rest', (n + m)%nat)
      end
  end.

Definition refresh_all_cards (k : clock) : dprog unit :=
  ts <- dgets (fun d => timestamps (self (core d))) ;;
  todo <- dgets cards ;;
  let '(r, cards', logged) := refresh_cards k ts todo in
  dmodify (put_cards cards') ;;
  lift (Nat.iter logged (fun c => bind (log_error "Error updating card progress")
                                    (fun _ => c)) (ret tt)) ;;
  match r with Ret _ => dret tt | Raise ex => draise ex end.

(** [update_all_cards_display] in the window: the records of the loaded
    media and of the open document are brought up to date (as in
    [update_all_cards_display] of the session), then the cards are
    refreshed, then the timer is re-armed; an exception of the loop skips
    the re-arming. *)
Section CardTimer.
Context `{Runtime}.

Definition refresh_records (e : env) : prog unit :=
  (player <- get vlc_player ;;
   vpath <- get current_vlc_media_path ;;
   match player, vpath with
   | true, Some p =>
       when playing_or_paused (get_state e) then
         let current_time := get_time e in
         let duration := get_length e O in
         when (0 <=? duration) && (0 <=? current_time) then
           ts <- get timestamps ;;
           assign (set_timestamps
             (<[path_str p := timestamp_data e p current_time duration]> ts))
   | _, _ => ret tt
   end ;;
   doc <- get pdf_doc ;;
   ppath <- get current_pdf_path ;;
   match truthy doc, ppath with
   | true, Some p =>
       let key := path_str p in
       ts <- get timestamps ;;
       (when negb (bool_decide (is_Some (ts !! key)))
        then assign (set_timestamps (<[key := JDict ∅]> ts))) ;;
       ts <- get timestamps ;;
       when (from_option is_dict false (ts !! key)) then
         set_item key "last_opened" (JStr (now e)) ;;
         set_item key "filename" (JStr (name p))
   | _, _ => ret tt
   end)%prog.

Definition update_all_cards_display_window (k : clock) (e : env)
  : dprog unit :=
  lift (refresh_records e) ;;
  refresh_all_cards k ;;
  lift (emit (EvAfter 5000 update_all_cards_display_cb)).

End CardTimer.

(** ** The notes editor *)

(** What the user answers in the dialogs of one handler: the question
    "save the changes?" ([Some true] yes, [Some false] no, [None] cancel),
    and the files chosen to open and to save to ([None]: the dialog was
    dismissed). *)
Record asked := MkAsked {
  answer : option bool;
  open_name : option Path;
  save_name : option Path
}.

Definition _update_notes_title_indicator (unsaved : bool) : dprog unit :=
  file <- dgets notes_file ;;
  let base_title := match file with Some p => name p | None => "Untitled" end in
  dmodify (put_notes_file_label
             (base_title +:+ (if unsaved then "*" else EmptyString))).

Definition on_notes_modified : dprog unit :=
  modified <- dgets edit_modified ;;
  when modified then
    changed <- dgets notes_changed ;;
    (when negb changed then
       dmodify (put_notes_changed true) ;;
       _update_notes_title_indicator true) ;;
    dmodify (put_edit_modified false).

(** The user edits the text: the widget raises its modified flag, which
    calls [on_notes_modified]. *)
Definition notes_edited (text : string) : dprog unit :=
  dmodify (put_notes_text text) ;;
  dmodify (put_edit_modified true) ;;
  on_notes_modified.

Definition save_notes (u : asked) : dprog bool :=
  file <- dgets notes_file ;;
  chosen <- match file with
            | Some p => dret (Some p)
            | None =>
                match save_name u with
                | None => dret None
                | Some p => dmodify (put_notes_file (Some p)) ;; dret (Some p)
                end
            end ;;
  match chosen with
  | None => dret false
  | Some p =>
      dtry
        (content <- dgets notes_text ;;
         io <- lift next_fault ;;
         lift (fs_open_w io (path_str p)) ;;
         lift (fs_write io (path_str p) content) ;;
         dmodify (put_notes_changed false) ;;
         dmodify (put_edit_modified false) ;;
         _update_notes_title_indicator false ;;
         dret true)
        (fun _ =>
           lift (log_error "Error saving note file") ;;
           lift (show_error "Error Saving File") ;;
           dret false)
  end.

Definition _confirm_discard_note_changes (u : asked) : dprog bool :=
  match answer u with
  | Some true => save_notes u
  | Some false => dret true
  | None => dret false
  end.

Definition new_notes (u : asked) : dprog unit :=
  changed <- dgets notes_changed ;;
  proceed <- (if changed then _confirm_discard_note_changes u else dret true) ;;
  when proceed then
    dmodify (put_notes_text EmptyString) ;;
    dmodify (put_notes_file None) ;;
    dmodify (put_notes_changed false) ;;
    dmodify (put_edit_modified false) ;;
    _update_notes_title_indicator false.

Definition open_notes (u : asked) : dprog unit :=
  changed <- dgets notes_changed ;;
  proceed <- (if changed then _confirm_discard_note_changes u else dret true) ;;
  when proceed then
    match open_name u with
    | None => dret tt
    | Some p =>
        dtry
          (io <- lift next_fault ;;
           content <- lift (fs_read io (path_str p)) ;;
           dmodify (put_notes_text content) ;;
           dmodify (put_notes_file (Some p)) ;;
           dmodify (put_notes_changed false) ;;
           dmodify (put_edit_modified false) ;;
           _update_notes_title_indicator false)
          (fun _ =>
             lift (log_error "Error opening note file") ;;
             lift (show_error "Error Opening File"))
    end.

(** ** Play and pause *)

Section Transport.
Context `{Runtime}.

Definition _restart_playback (e : env) : dprog unit :=
  player <- dgets (fun d => vlc_player (self (core d))) ;;
  path <- dgets (fun d => current_vlc_media_path (self (core d))) ;;
  when player && bool_decide (is_Some path) then
    lift (emit EvPlay) ;;
    if negb (play_result e =? -1) then
      lift (assign (set_is_vlc_playing true)) ;;
      lift (_restore_vlc_state e)
    else lift (log_error "Failed to restart playback after media ended.").

(** [engine_is_playing] is the answer of [vlc_player.is_playing()]. *)
Definition toggle_play_pause (e : env) (engine_is_playing : bool)
  : dprog unit :=
  player <- dgets (fun d => vlc_player (self (core d))) ;;
  path <- dgets (fun d => current_vlc_media_path (self (core d))) ;;
  when player && bool_decide (is_Some path) then
    dtry
      (if engine_is_playing then
         record_call CallPause ;;
         lift (assign (set_is_vlc_playing false)) ;;
         lift (save_current_vlc_timestamp e)
       else if match get_state e with Ended => true | _ => false end then
         lift (emit EvStop) ;;
         record_call (CallAfterRestart 50)
       else
         lift (emit EvPlay) ;;
         if play_result e =? -1 then
           lift (log_error "VLC failed to resume/start playback.") ;;
           lift (show_error "Playback Error")
         else lift (assign (set_is_vlc_playing true)))
      (fun _ => lift (log_error "Error during toggle play/pause")).

End Transport.

(** ** Closing the window *)

Definition set_vlc_player (v : bool) (a : app) : app :=
  MkApp (library_path a) (timestamps a) v (vlc_instance a)
    (current_vlc_media_path a) (is_vlc_playing a) (pdf_doc a)
    (current_pdf_path a) (pdf_current_page_index a) (pdf_page_count a)
    (pdf_zoom_level a) (active_media_type a) (speed_var a) (slider a) (view a).

Definition set_vlc_instance (v : bool) (a : app) : app :=
  MkApp (library_path a) (timestamps a) (vlc_player a) v
    (current_vlc_media_path a) (is_vlc_playing a) (pdf_doc a)
    (current_pdf_path a) (pdf_current_page_index a) (pdf_page_count a)
    (pdf_zoom_level a) (active_media_type a) (speed_var a) (slider a) (view a).

(** [SETTINGS_FILENAME], a path relative to the working directory. *)
Definition SETTINGS_FILENAME : string := "library_settings.ini".

(** What [on_close] is answered: by the user in the dialogs of the notes,
    by the player once the media is stopped and saved ([get_state()],
    [is_playing()]), and by [configparser]: whether it accepts the values
    of the settings (it raises [ValueError] on a value with a [%] that is
    not an interpolation), and the text it writes. *)
Record closing := MkClosing {
  close_asked : asked;
  state_at_release : State;
  playing_at_release : bool;
  config_accepts : bool;
  config_text : string
}.

Section Closing.
Context `{Runtime}.

Definition save_config (c : closing) : dprog unit :=
  if negb (config_accepts c) then draise ValueError
  else
    dtry
      (io <- lift next_fault ;;
       lift (fs_open_w io SETTINGS_FILENAME) ;;
       lift (fs_write io SETTINGS_FILENAME (config_text c)))
      (fun _ =>
         lift (log_error "Error saving settings") ;;
         lift (show_error "Settings Save Error")).

Definition on_close (e : env) (c : closing) : dprog unit :=
  changed <- dgets notes_changed ;;
  proceed <- (if changed then _confirm_discard_note_changes (close_asked c)
              else dret true) ;;
  when proceed then
    lift (stop_and_save_current_media e) ;;
    player <- dgets (fun d => vlc_player (self (core d))) ;;
    (when player then
       (when match state_at_release c with NothingSpecial => false | _ => true end
             && playing_at_release c
        then lift (emit EvStop)) ;;
       record_call CallPlayerRelease ;;
       lift (assign (set_vlc_player false))) ;;
    instance <- dgets (fun d => vlc_instance (self (core d))) ;;
    (when instance then
       record_call CallInstanceRelease ;;
       lift (assign (set_vlc_instance false))) ;;
    ts <- dgets (fun d => timestamps (self (core d))) ;;
    lift (save_timestamps ts) ;;
    save_config c ;;
    record_call CallDestroy.

End Closing.

(** ** The event loop of the window *)

Section Window.
Context `{Runtime} `{Text}.

Inductive action :=
| Core (k : clock) (e : env) (c : command)   (* a command of the session *)
| TogglePlayPause (e : env) (engine_is_playing : bool)
| RestartPlayback (e : env)             (* the deferred [_restart_playback] *)
| LoadLibrary (k : clock) (f : folder)
| SearchTyped (k : clock) (f : folder) (text : string)
| NotesEdited (text : string)
| NewNotes (u : asked)
| OpenNotes (u : asked)
| SaveNotes (u : asked).

Definition run_action (a : action) : dprog unit :=
  match a with
  | Core k e (Fire update_all_cards_display_cb) =>
      update_all_cards_display_window k e
  | Core _ e c => lift (run_command e c)
  | TogglePlayPause e engine_is_playing => toggle_play_pause e engine_is_playing
  | RestartPlayback e => _restart_playback e
  | LoadLibrary k f => load_library k f
  | SearchTyped k f text => search_typed k f text
  | NotesEdited text => notes_edited text
  | NewNotes u => new_notes u
  | OpenNotes u => open_notes u
  | SaveNotes u => _ <- save_notes u ;; dret tt
  end.

(** An exception that escapes a handler is reported by the toolkit, and the
    loop goes on. *)
Fixpoint run_desk (script : list action) (d : desk) : desk :=
  match script with
  | [] => d
  | a :: script' => run_desk script' (dexec (run_action a) d)
  end.

End Window.

Close Scope desk_scope.

(** ** Vocabulary of the properties of the window *)

(** Whether the file system's answer [io] makes the writing of [content]
    fail. *)
Definition write_fails (io : io_fault) (content : string) : bool :=
  match fault io with
  | OpenFails => true
  | WriteFails n => (n <? String.length content)%nat
  | _ => false
  end.

(** The answer of the file system to the next handler that asks. *)
Definition next_io (d : desk) : io_fault := hd no_fault (io_plan (core d)).

(** The title of the notes for a file and the flag of the unsaved changes. *)
Definition notes_title (file : option Path) (unsaved : bool) : string :=
  match file with Some p => name p | None => "Untitled" end
  +:+ (if unsaved then "*" else EmptyString).

(** The title fits the notes: it names the file of the notes (or, after a
    first save that failed, still says "Untitled"), with a star exactly
    when there are unsaved changes; and the modified flag of the widget is
    down. *)
Definition titled (d : desk) : Prop :=
  edit_modified d = false
  /\ (notes_file_label d = notes_title (notes_file d) (notes_changed d)
      \/ (is_Some (notes_file d)
          /\ notes_file_label d = notes_title None (notes_changed d))).

(** The notes editor is the same in [d] and [d']. *)
Definition same_notes (d d' : desk) : Prop :=
  notes_text d' = notes_text d /\ notes_file d' = notes_file d
  /\ notes_changed d' = notes_changed d /\ edit_modified d' = edit_modified d
  /\ notes_file_label d' = notes_file_label d.

Definition keeps_notes {A} (c : dprog A) : Prop :=
  forall d, same_notes d (snd (c d)).

(** What reading the file [p] gives, with the next answer of the file
    system: [None] when the reading raises. *)
Definition file_read (d : desk) (p : Path) : option string :=
  match fault (next_io d) with
  | ReadFails => None
  | _ => fs (core d) !! path_str p
  end.

(** The editor as [new_notes] empties it. *)
Definition emptied (d : desk) : desk :=
  MkDesk (core d) (cards d) (search_var d) (search_active d) EmptyString None
    false false "Untitled" (calls d).

(** A line of the log. *)
Definition log_only (ev : event) : bool :=
  match ev with EvLogError _ => true | _ => false end.

(** The card that [MediaCard(...)] builds for a file from the dictionary
    [ts], and whether building it raises. *)
Definition card_for `{Text} (k : clock) (ts : gmap string json) (p : Path)
  : card :=
  snd (fst (new_card k p (ts !! path_str p))).

Definition card_raises `{Text} (k : clock) (ts : gmap string json) (p : Path)
  : bool :=
  match fst (fst (new_card k p (ts !! path_str p))) with
  | Raise _ => true
  | Ret _ => false
  end.

(** The place of the [i]-th card in a grid of two columns filled row by
    row. *)
Definition grid_place (i : nat) : nat * nat := (Nat.div i 2, Nat.modulo i 2).

(** The panel that shows [files] in that grid, the first of them at the
    [i]-th place. *)
Fixpoint panel_from `{Text} (k : clock) (ts : gmap string json) (i : nat)
  (files : list Path) : list (card * option (nat * nat)) :=
  match files with
  | [] => []
  | p :: rest =>
      (card_for k ts p, Some (grid_place i)) :: panel_from k ts (S i) rest
  end.

Definition panel `{Text} (k : clock) (ts : gmap string json)
  (files : list Path) : list (card * option (nat * nat)) :=
  panel_from k ts 0 files.

(** Between [d] and [d'] nothing changed but the cards, the search flag and
    the log. *)
Definition panel_only (d d' : desk) : Prop :=
  same_notes d d' /\ calls d' = calls d /\ search_var d' = search_var d
  /\ self (core d') = self (core d) /\ fs (core d') = fs (core d)
  /\ player_media (core d') = player_media (core d)
  /\ extends_by log_only (trace (core d)) (trace (core d')).

(** An earlier file never has a larger key. *)
Definition in_name_order `{Text} (l : list Path) : Prop :=
  forall i j p q, (i < j)%nat -> l !! i = Some p -> l !! j = Some q ->
                  String.leb (sort_key p) (sort_key q) = true.

(** Sorted, in the strong sense: each file is below all the later ones. *)
Fixpoint below_rest `{Text} (l : list Path) : Prop :=
  match l with
  | [] => True
  | p :: l' =>
      Forall (fun q => String.leb (sort_key p) (sort_key q) = true) l'
      /\ below_rest l'
  end.

(** [search_term in item.name.lower()] *)
Definition matches `{Text} (search_term : string) (item : Path) : bool :=
  is_substring search_term (str_lower (name item)).

(** The card [cp] of the panel, refreshed from the dictionary [ts]. *)
Definition refreshed (k : clock) (ts : gmap string json)
  (cp : card * option (nat * nat)) : card * option (nat * nat) :=
  (snd (fst (update_display k (ts !! path_str (card_path (fst cp))) (fst cp))),
   snd cp).

(** ** Example data: text in ASCII *)
Module Plain.

(** For the names and the search texts of the examples, which are ASCII. *)
#[export] Instance text : Text := {|
  str_lower := lower;
  str_strip := py_strip
|}.

End Plain.

(** ** Example data: notes *)
Module Notebook.
Import Demo.

Definition notes_txt : Path := MkPath library "notes" ".txt".

(** The user answers Yes to the question and chooses [notes.txt] to save. *)
Definition save_to_notes_txt : asked := MkAsked (Some true) None (Some notes_txt).

(** The user answers No to the question and chooses [notes.txt] to open. *)
Definition discard_and_open : asked := MkAsked (Some false) (Some notes_txt) None.

(** A fresh window in which the user has typed a remark. *)
Definition d_typed : desk :=
  dexec (notes_edited "p. 3: see lemma 2") (init_desk w_stored).

(** The same, on a disk that accepts three more characters, once. *)
Definition d_typed_full : desk :=
  dexec (notes_edited "p. 3: see lemma 2")
    (init_desk (init_world library stored true ∅ [MkFault (WriteFails 3) false])).

End Notebook.

(** ** Example data: the library panel *)
Module Shelf.
Import Demo Examples Plain.

(** The library folder: two media files, a document, a text file and a
    sub-directory. *)
Definition folder0 : folder :=
  MkFolder true
    (Some [(c_mp3, true); (b_pdf, true);
           (MkPath library "README" ".txt", true); (a_mp4, true);
           (MkPath library "sub" EmptyString, false)]).

Definition clock0 : clock := MkClock (fun _ => Some "just now").

(** A card of [a.mp4] as it is created, before its first display. *)
Definition blank_card : card :=
  MkCard a_mp4 false [] 0.5%Q "0:00 / 0:00" EmptyString.

(** The window on the store of [Demo], before and after the library is
    loaded, and with [" B "] typed in the search box. *)
Definition d_stored : desk := init_desk w_stored.
Definition d_shelf : desk := dexec (load_library clock0 folder0) d_stored.
Definition d_search : desk := put_search_var " B " d_shelf.

(** The window on the store in which the entry of [b.pdf] is a number,
    before and after the library is loaded. *)
Definition d_malformed : desk := init_desk w_malformed.
Definition d_broken : desk := dexec (load_library clock0 folder0) d_malformed.

(** [a.mp4] is playing in the window. *)
Definition d_playing `{Runtime} : desk := init_desk w_playing.

End Shelf.

(** * When asking whether a file exists fails

    [Path.exists()] asks the operating system with [stat()] and answers
    [False] only when the error says that there is no such file ([ENOENT],
    [ENOTDIR], [EBADF], [ELOOP]); every other [OSError] -- a directory that
    may not be searched, a device that fails -- is raised to the caller.
    [fs_exists] above takes the question as answered.  The definitions of
    this module take the outcome of [stat()] as a parameter: they are
    [load_timestamps] and [save_timestamps] with [stat_fails] telling
    whether the question itself raises. *)
Module Stat.

Definition fs_exists (stat_fails : bool) (path : string) : prog bool :=
  if stat_fails then raise OSError
  else d <- gets fs ;; ret (bool_decide (is_Some (d !! path))).

Section Store.
Context `{Runtime}.

(** [self.timestamps_file.exists()] stands before the [try]. *)
Definition load_timestamps (stat_fails : bool) : prog json :=
  f <- get timestamps_file ;;
  present <- fs_exists stat_fails (path_str f) ;;
  if present then
    try_except
      (io <- next_fault ;;
       text <- fs_read io (path_str f) ;;
       match json_loads text with
       | None => raise ValueError
       | Some timestamps =>
           match py_len timestamps with
           | None => raise TypeError
           | Some _ => ret timestamps
           end
       end)
      (fun e =>
         log_error "Error loading timestamps file" ;;
         show_error "Timestamp Load Error" ;;
         ret (JDict ∅))
  else ret (JDict ∅).

(** The [except] block of [save_timestamps]: [temp_file.exists()] stands in
    the block itself, outside the inner [try] that guards [unlink()]. *)
Definition cleanup (stat_fails : bool) (io : io_fault) (temp_file : string)
  : prog unit :=
  log_error "Error saving timestamps" ;;
  present <- fs_exists stat_fails temp_file ;;
  when present then try_except (fs_unlink io temp_file) pass_OSError.

Definition save_timestamps (stat_fails : bool)
  (timestamps_data : gmap string json) : prog unit :=
  f <- get timestamps_file ;;
  let temp_file := with_suffix f ".json.tmp" in
  io <- next_fault ;;
  try_except
    (fs_mkdir io ;;
     fs_open_w io (path_str temp_file) ;;
     fs_write io (path_str temp_file) (json_dumps timestamps_data) ;;
     os_replace io (path_str temp_file) (path_str f))
    (fun e => cleanup stat_fails io (path_str temp_file)).

End Store.
End Stat.

(** * The store file read back

    What [load_timestamps] returns for the file that [save_timestamps]
    wrote is compared with the mapping that was saved as Python compares
    them: field by field, numbers by their value. *)

(** A binary float is a dyadic rational: in lowest terms its denominator
    is a power of 2. *)
Definition is_dyadic (q : Q) : bool :=
  let d := Z.pos (Qden (Qred q)) in d =? 2 ^ Z.log2 d.

(** The values of the fields of a ProgressRecord: [None], a bool, an int,
    a float or a str. *)
Definition is_scalar (v : json) : bool :=
  match v with
  | JNull | JBool _ | JInt _ | JStr _ => true
  | JFloat q => is_dyadic q
  | JList _ | JDict _ => false
  end.

(** [all(p(v) for v in d.values())] *)
Definition all_values {A} (p : A -> bool) (d : gmap string A) : bool :=
  map_fold (fun _ v acc => p v && acc) true d.

Definition is_record (v : json) : bool :=
  match v with
  | JDict r => all_values is_scalar r
  | _ => false
  end.

(** A well-formed mapping: every key has a record. *)
Definition well_formed (M : gmap string json) : Prop :=
  all_values is_record M = true.

(** [==] on the values of the fields: floats by their value. *)
Definition same_value (v' v : json) : Prop :=
  match v', v with
  | JFloat q', JFloat q => (q' == q)%Q
  | _, _ => v' = v
  end.

(** [==] on dictionaries: the same keys, with values that are [==]. *)
Definition same_fields {A} (R : A -> A -> Prop) (m' m : gmap string A)
  : Prop :=
  forall key, option_Forall2 R (m' !! key) (m !! key).

Definition same_record (v' v : json) : Prop :=
  match v', v with
  | JDict r', JDict r => same_fields same_value r' r
  | _, _ => False
  end.

Definition same_mapping (M' M : gmap string json) : Prop :=
  same_fields same_record M' M.

(** The loop [parse_members] of [Small.parse_value], with the fuel
    [fuel'] left for the values. *)
Definition parse_members_of (fuel' : nat)
  : nat -> string -> option (gmap string json * string) :=
  fix parse_members (n : nat) (s : string)
    : option (gmap string json * string) :=
    match n with
    | O => None
    | S n' =>
        match s with
        | String c s1 =>
            if Ascii.eqb c Small.quote then
              '(k, r0) ← Small.parse_string_body s1 ;
              match r0 with
              | String ":" r1 =>
                  '(v, r) ← Small.parse_value fuel' r1 ;
                  match r with
                  | String "," r' =>
                      '(m, r'') ← parse_members n' r' ;
                      Some (<[k := v]> m, r'')
                  | String "}" r' => Some ({[k := v]}, r')
                  | _ => None
                  end
              | _ => None
              end
            else None
        | EmptyString => None
        end
    end.

(** A text that does not go on with a digit, and one that goes on with a
    comma or a closing brace: what follows a number, and what follows a
    value, in the text of a dictionary. *)
Definition ends_number (rest : string) : Prop :=
  match rest with
  | String c _ => Small.is_digit c = false
  | EmptyString => True
  end.

Definition ends_value (rest : string) : Prop :=
  exists c r, rest = String c r /\ (c = ","%char \/ c = "}"%char).

(** The text of one member of a dictionary. *)
Definition member (kv : string * json) : string :=
  Small.print_string kv.1 +:+ ":" +:+ Small.print_json kv.2.

#[local] Open Scope string_scope.
#[local] Open Scope Z_scope.
#[local] Open Scope prog_scope.


(** * Properties *)

Section Store.
Context `{Runtime}.

Lemma append_cons (c : ascii) (s t : string) :
  String c s +:+ t = String c (s +:+ t).
Proof. reflexivity. Qed.

Lemma append_inj_l (s a b : string) : s +:+ a = s +:+ b -> a = b.
Proof.
  induction s as [|c s IH]; [done|]. rewrite !append_cons. intros [=]. auto.
Qed.

Lemma append_nil_r (s : string) : s +:+ EmptyString = s.
Proof. induction s as [|c s IH]; [done|]. by rewrite append_cons, IH. Qed.

Lemma append_snoc (s rest : string) (c : ascii) :
  (s +:+ String c EmptyString) +:+ rest = s +:+ String c rest.
Proof. induction s as [|c' s IH]; [done|]. by rewrite !append_cons, IH. Qed.

Lemma temp_file_fresh (a : app) :
  path_str (with_suffix (timestamps_file a) ".json.tmp")
  <> path_str (timestamps_file a).
Proof.
  unfold path_str, with_suffix, timestamps_file, name; cbn.
  intros E. apply append_inj_l in E. apply append_inj_l in E. discriminate.
Qed.

Lemma fs_append_spec (path : string) (rest : string) :
  forall (budget : option nat) (w : world) (content : string),
    fs w !! path = Some content ->
    exists w' new,
      fs_append path rest budget w =
        ((if match budget with
                | Some b => (b <? String.length rest)%nat
                | None => false
                end
          then Raise OSError else Ret tt), w')
      /\ self w' = self w /\ player_media w' = player_media w
      /\ io_plan w' = io_plan w /\ trace w' = trace w
      /\ disk_log w' = (new ++ disk_log w)%list
      /\ Forall (fun d => forall q, q <> path -> d !! q = fs w !! q) (fs w' :: new)
      /\ (match budget with
          | Some b => (b <? String.length rest)%nat
          | None => false
          end = false -> fs w' !! path = Some (content +:+ rest))
      /\ is_Some (fs w' !! path).
Proof.
  induction rest as [|c rest IH]; intros budget w content Hc.
  - exists w, []. cbn.
    rewrite append_nil_r.
    destruct budget as [b|]; cbn; repeat split; auto.
    all: try (constructor; [auto | constructor]).
  - destruct budget as [[|b]|].
    + exists w, []. cbn. repeat split; eauto; try discriminate.
      all: try (constructor; [auto | constructor]).
    + cbn [fs_append]. unfold bind, modify. cbn [fmap option_fmap option_map Nat.pred].
      set (w1 := put_fs _ w).
      destruct (IH (Some b) w1 (content +:+ String c EmptyString)) as (w' & new & E & Hs & Hp & Hi & Ht & Hl & Hf & Hok & Hsome).
      { subst w1. cbn. rewrite Hc. cbn. apply lookup_insert_eq. }
      exists w', (new ++ [fs w1])%list. rewrite E. cbn [String.length].
      change (S b <? S (String.length rest))%nat with (b <? String.length rest)%nat.
      repeat split; auto.
      * rewrite Hl. subst w1. cbn. by rewrite <- app_assoc.
      * assert (forall q, q <> path -> fs w1 !! q = fs w !! q) as Hw1.
        { intros q Hq. subst w1. cbn. by rewrite lookup_insert_ne. }
        apply Forall_cons in Hf as [Hf1 Hf2]. constructor.
        -- intros q Hq. rewrite Hf1, Hw1; auto.
        -- apply Forall_app. split.
           ++ eapply Forall_impl; [exact Hf2|]. cbn. intros d Hd q Hq.
              rewrite Hd, Hw1; auto.
           ++ constructor; [auto | constructor].
      * intros Hb. rewrite (Hok Hb). f_equal.
        apply append_snoc.
    + cbn [fs_append]. unfold bind, modify. cbn [fmap option_fmap option_map].
      set (w1 := put_fs _ w).
      destruct (IH None w1 (content +:+ String c EmptyString)) as (w' & new & E & Hs & Hp & Hi & Ht & Hl & Hf & Hok & Hsome).
      { subst w1. cbn. rewrite Hc. cbn. apply lookup_insert_eq. }
      exists w', (new ++ [fs w1])%list. rewrite E.
      repeat split; auto.
      * rewrite Hl. subst w1. cbn. by rewrite <- app_assoc.
      * assert (forall q, q <> path -> fs w1 !! q = fs w !! q) as Hw1.
        { intros q Hq. subst w1. cbn. by rewrite lookup_insert_ne. }
        apply Forall_cons in Hf as [Hf1 Hf2]. constructor.
        -- intros q Hq. rewrite Hf1, Hw1; auto.
        -- apply Forall_app. split.
           ++ eapply Forall_impl; [exact Hf2|]. cbn. intros d Hd q Hq.
              rewrite Hd, Hw1; auto.
           ++ constructor; [auto | constructor].
      * intros _. rewrite (Hok eq_refl). f_equal.
        apply append_snoc.
Qed.




Lemma stat_cleanup_spec (stat_fails : bool) (io : io_fault) (temp : string)
  (w : world) :
  exists w' new,
    Stat.cleanup stat_fails io temp w
    = (if stat_fails then Raise OSError else Ret tt, w')
    /\ self w' = self w /\ player_media w' = player_media w
    /\ io_plan w' = io_plan w
    /\ trace w' = EvLogError "Error saving timestamps" :: trace w
    /\ disk_log w' = (new ++ disk_log w)%list
    /\ Forall (fun d => forall q, q <> temp -> d !! q = fs w !! q) (fs w' :: new)
    /\ (if stat_fails || unlink_fails io then True else fs w' !! temp = None).
Proof.
  unfold Stat.cleanup, log_error, emit, Stat.fs_exists, fs_unlink, try_except,
    bind, modify, gets, ret, raise, pass_OSError.
  destruct stat_fails; cbn.
  { eexists _, []. cbn. repeat split; eauto.
    all: try (constructor; [auto | constructor]). }
  destruct (fs w !! temp) as [text|] eqn:E.
  - rewrite bool_decide_eq_true_2 by eauto.
    destruct (unlink_fails io) eqn:U; cbn.
    + eexists _, []. cbn. repeat split; eauto.
      all: try (constructor; [auto | constructor]).
    + eexists _, [_]. cbn. repeat split; eauto.
      all: try (by apply lookup_delete_eq).
      repeat constructor; cbn; intros q Hq; by rewrite lookup_delete_ne.
  - rewrite bool_decide_eq_false_2 by (intros [? ?]; congruence).
    eexists _, []. cbn. repeat split; eauto.
    all: try (constructor; [auto | constructor]).
    all: try (by destruct (unlink_fails io)).
Qed.


Lemma cleanup_spec (io : io_fault) (temp : string) (w : world) :
  exists w' new,
    cleanup io temp w = (Ret tt, w')
    /\ self w' = self w /\ player_media w' = player_media w
    /\ io_plan w' = io_plan w
    /\ trace w' = EvLogError "Error saving timestamps" :: trace w
    /\ disk_log w' = (new ++ disk_log w)%list
    /\ Forall (fun d => forall q, q <> temp -> d !! q = fs w !! q) (fs w' :: new)
    /\ (if unlink_fails io then True else fs w' !! temp = None).
Proof. exact (stat_cleanup_spec false io temp w). Qed.


Lemma stat_save_timestamps_spec (stat_fails : bool)
  (timestamps_data : gmap string json) (w : world) :
  let store := path_str (timestamps_file (self w)) in
  let temp := path_str (with_suffix (timestamps_file (self w)) ".json.tmp") in
  let text := json_dumps timestamps_data in
  let io := hd no_fault (io_plan w) in
  exists w' new,
    Stat.save_timestamps stat_fails timestamps_data w
    = (if stat_fails
       then if save_fails io text then Raise OSError else Ret tt
       else Ret tt, w')
    /\ self w' = self w /\ player_media w' = player_media w
    /\ io_plan w' = tl (io_plan w)
    /\ disk_log w' = (new ++ disk_log w)%list
    /\ Forall (fun d => d !! store = fs w !! store \/ d !! store = Some text)
         (fs w' :: new)
    /\ (if save_fails io text
        then fs w' !! store = fs w !! store
             /\ trace w' = EvLogError "Error saving timestamps" :: trace w
             /\ (if stat_fails || unlink_fails io then True else fs w' !! temp = None)
        else fs w' !! store = Some text /\ fs w' !! temp = None
             /\ trace w' = trace w).
Proof.
  intros store temp text io.
  pose proof (temp_file_fresh (self w)) as Hfresh. fold temp store in Hfresh.
  unfold Stat.save_timestamps. unfold bind at 1. unfold get, gets. cbn beta iota.
  fold temp store text. unfold bind at 1.
  set (w0 := put_io_plan (tl (io_plan w)) w).
  assert (next_fault w = (Ret io, if io_plan w is [] then w else w0)) as ->.
  { unfold next_fault, io, w0. by destruct (io_plan w). }
  assert (forall A (c : prog A), c (if io_plan w is [] then w else w0) = c w0
          \/ io_plan w = []) as _ by (destruct (io_plan w); auto).
  assert ((if io_plan w is [] then w else w0) = w0) as ->.
  { unfold w0. destruct w as [a m d l [|i p] t]; reflexivity. }
  assert (self w0 = self w /\ player_media w0 = player_media w
          /\ fs w0 = fs w /\ disk_log w0 = disk_log w /\ trace w0 = trace w
          /\ io_plan w0 = tl (io_plan w)) as (Hs0 & Hp0 & Hf0 & Hl0 & Ht0 & Hi0)
    by done.
  clearbody w0.
  (* the handler, run from a world whose disk agrees with [w] on the store *)
  assert (forall w2 pre,
    self w2 = self w -> player_media w2 = player_media w ->
    io_plan w2 = tl (io_plan w) -> trace w2 = trace w ->
    disk_log w2 = (pre ++ disk_log w)%list ->
    Forall (fun d => forall q, q <> temp -> d !! q = fs w !! q) (fs w2 :: pre) ->
    exists w' new,
      Stat.cleanup stat_fails io temp w2
      = (if stat_fails then Raise OSError else Ret tt, w')
      /\ self w' = self w /\ player_media w' = player_media w
      /\ io_plan w' = tl (io_plan w)
      /\ disk_log w' = (new ++ disk_log w)%list
      /\ Forall (fun d => d !! store = fs w !! store \/ d !! store = Some text)
           (fs w' :: new)
      /\ fs w' !! store = fs w !! store
      /\ trace w' = EvLogError "Error saving timestamps" :: trace w
      /\ (if stat_fails || unlink_fails io then True else fs w' !! temp = None)) as Hcleanup.
  { intros w2 pre Hs2 Hp2 Hi2 Ht2 Hl2 Hf2.
    destruct (stat_cleanup_spec stat_fails io temp w2) as (w' & new & E & Hs & Hp & Hi & Ht & Hl & Hf & Hu).
    exists w', (new ++ pre)%list. rewrite E.
    apply Forall_cons in Hf2 as [Hf2a Hf2b].
    apply Forall_cons in Hf as [Hfa Hfb].
    assert (forall d : gmap string string,
              (forall q, q <> temp -> d !! q = fs w2 !! q) ->
              d !! store = fs w !! store) as Hstep.
    { intros d Hd. rewrite Hd, Hf2a; auto. }
    split; [reflexivity|]. split; [congruence|]. split; [congruence|].
    split; [congruence|].
    split; [rewrite Hl, Hl2; by rewrite app_assoc|].
    split.
    { constructor; [left; auto|]. apply Forall_app. split.
      + eapply Forall_impl; [exact Hfb|]. cbn. intros d Hd. left. auto.
      + eapply Forall_impl; [exact Hf2b|]. cbn. intros d Hd. left. auto. }
    split; [auto|]. split; [congruence|]. done. }
  assert (Forall (fun d => forall q, q <> temp -> d !! q = fs w !! q) [fs w0])
    as Hbase by (repeat constructor; intros; by rewrite Hf0).
  unfold try_except, save_fails.
  (* the two failures before the temporary file is touched *)
  assert (fault io = MkdirFails \/ fault io = OpenFails ->
    exists w' new,
      (let (r, w'0) :=
         (fs_mkdir io;; fs_open_w io temp;; fs_write io temp text;;
          os_replace io temp store) w0 in
       match r with
       | Ret a => (Ret a, w'0)
       | Raise _ => Stat.cleanup stat_fails io temp w'0
       end) = (if stat_fails then Raise OSError else Ret tt, w')
      /\ self w' = self w /\ player_media w' = player_media w
      /\ io_plan w' = tl (io_plan w)
      /\ disk_log w' = (new ++ disk_log w)%list
      /\ Forall (fun d => d !! store = fs w !! store \/ d !! store = Some text)
           (fs w' :: new)
      /\ fs w' !! store = fs w !! store
      /\ trace w' = EvLogError "Error saving timestamps" :: trace w
      /\ (if stat_fails || unlink_fails io then True else fs w' !! temp = None)) as Hearly.
  { intros Hcase.
    assert ((fs_mkdir io;; fs_open_w io temp;; fs_write io temp text;;
             os_replace io temp store) w0 = (Raise OSError, w0)) as ->.
    { unfold bind, fs_mkdir, fs_open_w. by destruct Hcase as [-> | ->]. }
    apply (Hcleanup w0 []); auto. }
  (* from the opening of the temporary file on *)
  assert (fault io <> MkdirFails -> fault io <> OpenFails ->
    exists w' new,
      (let (r, w'0) :=
         (fs_mkdir io;; fs_open_w io temp;; fs_write io temp text;;
          os_replace io temp store) w0 in
       match r with
       | Ret a => (Ret a, w'0)
       | Raise _ => Stat.cleanup stat_fails io temp w'0
       end)
      = (if stat_fails
         then if match fault io with
                 | ReplaceFails => true
                 | WriteFails n => (n <? String.length text)%nat
                 | _ => false
                 end
              then Raise OSError else Ret tt
         else Ret tt, w')
      /\ self w' = self w /\ player_media w' = player_media w
      /\ io_plan w' = tl (io_plan w)
      /\ disk_log w' = (new ++ disk_log w)%list
      /\ Forall (fun d => d !! store = fs w !! store \/ d !! store = Some text)
           (fs w' :: new)
      /\ (if match fault io with
             | ReplaceFails => true
             | WriteFails n => (n <? String.length text)%nat
             | _ => false
             end
          then fs w' !! store = fs w !! store
               /\ trace w' = EvLogError "Error saving timestamps" :: trace w
               /\ (if stat_fails || unlink_fails io then True else fs w' !! temp = None)
          else fs w' !! store = Some text /\ fs w' !! temp = None
               /\ trace w' = trace w)) as Hlate.
  { intros Hn1 Hn2.
    set (w1 := put_fs (<[temp := EmptyString]> (fs w0)) w0).
    set (budget := match fault io with WriteFails n => Some n | _ => None end).
    destruct (fs_append_spec temp text budget w1 EmptyString)
      as (w2 & new & E & Hs & Hp & Hi & Ht & Hl & Hf & Hok & Hsome).
    { subst w1. cbn. apply lookup_insert_eq. }
    assert (forall q, q <> temp -> fs w1 !! q = fs w !! q) as Hw1.
    { intros q Hq. subst w1. cbn. rewrite lookup_insert_ne by done. by rewrite Hf0. }
    apply Forall_cons in Hf as [Hfa Hfb].
    assert (Forall (fun d => forall q, q <> temp -> d !! q = fs w !! q)
              (fs w2 :: new ++ [fs w1])) as Hall.
    { constructor; [intros q Hq; rewrite Hfa, Hw1; auto|].
      apply Forall_app. split; [|repeat constructor; auto].
      eapply Forall_impl; [exact Hfb|]. cbn. intros d Hd q Hq.
      rewrite Hd, Hw1; auto. }
    assert (disk_log w2 = ((new ++ [fs w1]) ++ disk_log w)%list) as Hl2.
    { rewrite Hl. subst w1. cbn. rewrite Hl0. by rewrite <- app_assoc. }
    assert (self w2 = self w) as Hs2 by (rewrite Hs; subst w1; by cbn).
    assert (player_media w2 = player_media w) as Hp2 by (rewrite Hp; subst w1; by cbn).
    assert (io_plan w2 = tl (io_plan w)) as Hi2 by (rewrite Hi; subst w1; by cbn).
    assert (trace w2 = trace w) as Ht2 by (rewrite Ht; subst w1; by cbn).
    assert ((fs_mkdir io;; fs_open_w io temp;; fs_write io temp text;;
             os_replace io temp store) w0 =
            (fs_write io temp text;; os_replace io temp store) w1) as ->.
    { unfold bind at 1 2. unfold fs_mkdir, fs_open_w, modify, ret.
      destruct (fault io); try congruence; reflexivity. }
    unfold bind at 1. unfold fs_write. fold budget. rewrite E.
    destruct (match budget with
              | Some b => (b <? String.length text)%nat
              | None => false
              end) eqn:Hb.
    - (* the write fails *)
      assert (match fault io with
              | ReplaceFails => true
              | WriteFails n => (n <? String.length text)%nat
              | _ => false
              end = true) as ->.
      { subst budget. destruct (fault io); try discriminate; auto. }
      apply (Hcleanup w2 (new ++ [fs w1])%list); auto.
    - specialize (Hok eq_refl). change (EmptyString +:+ text) with text in Hok.
      unfold os_replace.
      assert (fault io = ReplaceFails \/ fault io <> ReplaceFails) as [Hr|Hr]
        by (destruct (fault io); auto; right; discriminate).
      + rewrite Hr. apply (Hcleanup w2 (new ++ [fs w1])%list); auto.
      + assert (match fault io with
                | ReplaceFails => true
                | WriteFails n => (n <? String.length text)%nat
                | _ => false
                end = false) as ->.
        { subst budget. destruct (fault io); try congruence; auto. }
        assert (forall c : prog unit,
                  match fault io with ReplaceFails => raise OSError | _ => c end = c)
          as -> by (intros c; destruct (fault io); congruence).
        unfold bind, gets, modify. rewrite Hok.
        assert ((if stat_fails then @Ret unit tt else Ret tt) = Ret tt) as ->
          by (by destruct stat_fails).
        eexists _, (_ :: new ++ [fs w1])%list. cbn.
        split; [reflexivity|]. cbn.
        split; [auto|]. split; [auto|]. split; [auto|].
        split; [by rewrite Hl2|].
        split.
        { constructor; [right; apply lookup_insert_eq|].
          apply Forall_cons in Hall as [Ha1 Ha2].
          constructor; [right; apply lookup_insert_eq|].
          eapply Forall_impl; [exact Ha2|]. cbn. intros d Hd. left. auto. }
        split; [apply lookup_insert_eq|].
        split; [|auto].
        rewrite lookup_insert_ne by done. apply lookup_delete_eq. }
  destruct (fault io) eqn:Hfault.
  - apply Hlate; congruence.
  - apply Hearly; auto.
  - apply Hearly; auto.
  - apply Hlate; congruence.
  - apply Hlate; congruence.
  - apply Hlate; congruence.
Qed.

Lemma save_timestamps_spec (timestamps_data : gmap string json) (w : world) :
  let store := path_str (timestamps_file (self w)) in
  let temp := path_str (with_suffix (timestamps_file (self w)) ".json.tmp") in
  let text := json_dumps timestamps_data in
  let io := hd no_fault (io_plan w) in
  exists w' new,
    save_timestamps timestamps_data w = (Ret tt, w')
    /\ self w' = self w /\ player_media w' = player_media w
    /\ io_plan w' = tl (io_plan w)
    /\ disk_log w' = (new ++ disk_log w)%list
    /\ Forall (fun d => d !! store = fs w !! store \/ d !! store = Some text)
         (fs w' :: new)
    /\ (if save_fails io text
        then fs w' !! store = fs w !! store
             /\ trace w' = EvLogError "Error saving timestamps" :: trace w
             /\ (if unlink_fails io then True else fs w' !! temp = None)
        else fs w' !! store = Some text /\ fs w' !! temp = None
             /\ trace w' = trace w).
Proof. exact (stat_save_timestamps_spec false timestamps_data w). Qed.


(** With the question answered, the definitions of [Stat] are the ones of
    the store. *)
Lemma stat_answered_save (timestamps_data : gmap string json) :
  Stat.save_timestamps false timestamps_data = save_timestamps timestamps_data.
Proof. reflexivity. Qed.

Lemma stat_answered_load : Stat.load_timestamps false = load_timestamps.
Proof. reflexivity. Qed.

(** C4.  [save_timestamps], the question [temp_file.exists()] of its
    [except] block included.  The whole mapping is written to the temporary
    file and moved over the store file in one step: every content the disk
    goes through during the call (the states an interruption can leave
    behind) has, under the store file's path, either the previous content or
    the complete new text.  A save that succeeds raises nothing and logs
    nothing.  A failed save leaves the store file as it was, is logged and
    opens no dialog; it is swallowed, and the temporary file removed (unless
    the removal itself fails, which is ignored), only when the question is
    answered: when [stat()] fails, the [OSError] of [exists()] leaves the
    [except] block and the call raises it to its caller. *)
Theorem failed_save_reaches_caller (stat_fails : bool)
  (timestamps_data : gmap string json) (w : world) :
  let store := path_str (timestamps_file (self w)) in
  let temp := path_str (with_suffix (timestamps_file (self w)) ".json.tmp") in
  let text := json_dumps timestamps_data in
  let io := hd no_fault (io_plan w) in
  exists w' new,
    Stat.save_timestamps stat_fails timestamps_data w
    = (if save_fails io text && stat_fails then Raise OSError else Ret tt, w')
    /\ disk_log w' = (new ++ disk_log w)%list
    /\ Forall (fun d => d !! store = fs w !! store \/ d !! store = Some text)
         new
    /\ dialogs (trace w') = dialogs (trace w)
    /\ (if save_fails io text
        then fs w' !! store = fs w !! store
             /\ trace w' = EvLogError "Error saving timestamps" :: trace w
             /\ (if stat_fails || unlink_fails io then True
                 else fs w' !! temp = None)
        else fs w' !! store = Some text /\ fs w' !! temp = None
             /\ trace w' = trace w).
Proof.
  intros store temp text io.
  destruct (stat_save_timestamps_spec stat_fails timestamps_data w)
    as (w' & new & E & _ & _ & _ & Hl & Hf & Hcase).
  exists w', new. apply Forall_cons in Hf as [_ Hf].
  split.
  { rewrite E. fold text io.
    by destruct stat_fails, (save_fails io text). }
  split; [done|]. split; [done|]. split; [|done].
  fold text io in Hcase. destruct (save_fails io text).
  - destruct Hcase as (_ & -> & _). unfold dialogs. cbn [rev].
    rewrite omap_app. cbn. by rewrite app_nil_r.
  - destruct Hcase as (_ & _ & ->). reflexivity.
Qed.

Lemma load_timestamps_spec (w : world) (text : string) (v : json) :
  fs w !! path_str (timestamps_file (self w)) = Some text ->
  json_loads text = Some v ->
  is_Some (py_len v) ->
  fault (hd no_fault (io_plan w)) <> ReadFails ->
  exists w', load_timestamps w = (Ret v, w') /\ trace w' = trace w
             /\ self w' = self w /\ fs w' = fs w.
Proof.
  intros Hfile Hloads [n Hlen] Hio.
  unfold load_timestamps, bind, get, gets, fs_exists, ret, try_except. cbn.
  rewrite Hfile. rewrite bool_decide_eq_true_2 by eauto.
  unfold next_fault.
  destruct (io_plan w) as [|io plan] eqn:Hplan; cbn in *.
  - unfold fs_read, bind, gets, ret. cbn. rewrite Hfile, Hloads, Hlen.
    eexists. eauto.
  - unfold fs_read, bind, gets, ret.
    destruct (fault io) eqn:Hf; try congruence; cbn;
      rewrite Hfile, Hloads, Hlen; eexists; eauto.
Qed.

End Store.

Section StoreExamples.
Import Small Demo.

(** The library directory may not be searched: the temporary file cannot
    be opened, and asking whether it exists raises. *)
Lemma failed_save_reaches_caller_witness :
  exists w',
    Stat.save_timestamps true stored
      (init_world library stored true ∅ [MkFault OpenFails false])
    = (Raise OSError, w')
    /\ fs w' = ∅
    /\ trace w' = [EvLogError "Error saving timestamps"].
Proof.
  destruct (failed_save_reaches_caller true stored
              (init_world library stored true ∅ [MkFault OpenFails false]))
    as (w' & new & E & _).
  exists w'. split; [exact E|].
  apply (f_equal snd) in E. cbn [snd] in E. subst w'. split; reflexivity.
Defined.

End StoreExamples.


(** From here on [save_timestamps] is used through its specification. *)
#[global] Opaque save_timestamps.

Section Flush.
Context `{Runtime}.

Lemma timestamp_data_fields (e : env) (p : Path) (t d : Z) :
  exists r,
    timestamp_data e p t d = JDict r
    /\ r !! "position" =
         Some (JInt (if (0 <? d) && (d - 2000 <=? t) then 0 else t))
    /\ r !! "duration" = Some (JInt d)
    /\ r !! "last_played" = Some (JStr (now e))
    /\ r !! "filename" = Some (JStr (name p))
    /\ r !! "finished" = Some (JBool ((0 <? d) && (d - 2000 <=? t))).
Proof.
  eexists. split; [reflexivity|].
  repeat split; by simplify_map_eq.
Qed.

(** The flush, when it writes: the new dictionary and what reaches the
    disk. *)
Lemma save_current_vlc_timestamp_writes (e : env) (w : world) (p : Path) :
  vlc_player (self w) = true ->
  current_vlc_media_path (self w) = Some p ->
  is_Some (player_media w) ->
  playing_or_paused (get_state e) = true ->
  0 <= get_length e O ->
  0 <= get_time e ->
  let ts' := <[path_str p := timestamp_data e p (get_time e) (get_length e O)]>
               (timestamps (self w)) in
  let store := path_str (timestamps_file (self w)) in
  exists w',
    save_current_vlc_timestamp e w = (Ret tt, w')
    /\ self w' = set_timestamps ts' (self w)
    /\ player_media w' = player_media w
    /\ (if save_fails (hd no_fault (io_plan w)) (json_dumps ts')
        then fs w' !! store = fs w !! store
             /\ trace w' = EvLogError "Error saving timestamps" :: trace w
        else fs w' !! store = Some (json_dumps ts') /\ trace w' = trace w).
Proof.
  intros Hplayer Hpath [m Hmedia] Hstate Hd Ht ts' store.
  unfold save_current_vlc_timestamp, bind, get, gets, try_except, assign, modify.
  cbn. rewrite Hplayer, Hpath, Hmedia, Hstate. cbn.
  rewrite (proj2 (Z.leb_le _ _) Hd), (proj2 (Z.leb_le _ _) Ht). cbn.
  fold ts'.
  destruct (save_timestamps_spec ts' (put_self (set_timestamps ts' (self w)) w))
    as (w' & new & E & Hs & Hp & _ & _ & _ & Hcase).
  rewrite E. exists w'. cbn in *. repeat split; auto.
  - congruence.
  - destruct (save_fails _ _); destruct Hcase as (? & ? & ?); split; assumption.
Qed.

End Flush.


(** ** Reasoning about programs: postconditions *)

Section Logic.
Context `{Runtime}.

Lemma wp_ret {A} (a : A) w Q : Q (Ret a) w -> post (ret a) w Q.
Proof. done. Qed.

Lemma wp_raise {A} (e : exn) w (Q : result A -> world -> Prop) :
  Q (Raise e) w -> post (raise e) w Q.
Proof. done. Qed.

Lemma wp_bind {A B} (c : prog A) (k : A -> prog B) w Q :
  post c w (fun r w1 =>
    match r with Ret a => post (k a) w1 Q | Raise e => Q (Raise e) w1 end) ->
  post (bind c k) w Q.
Proof. unfold post, bind. by destruct (c w) as [[a|e] w1]. Qed.

Lemma wp_try {A} (c : prog A) (h : exn -> prog A) w Q :
  post c w (fun r w1 =>
    match r with Ret a => Q (Ret a) w1 | Raise e => post (h e) w1 Q end) ->
  post (try_except c h) w Q.
Proof. unfold post, try_except. by destruct (c w) as [[a|e] w1]. Qed.

Lemma wp_gets {A} (f : world -> A) w Q : Q (Ret (f w)) w -> post (gets f) w Q.
Proof. done. Qed.

Lemma wp_get {A} (f : app -> A) w Q :
  Q (Ret (f (self w))) w -> post (get f) w Q.
Proof. done. Qed.

Lemma wp_modify (f : world -> world) w Q :
  Q (Ret tt) (f w) -> post (modify f) w Q.
Proof. done. Qed.

Lemma wp_assign (f : app -> app) w Q :
  Q (Ret tt) (put_self (f (self w)) w) -> post (assign f) w Q.
Proof. done. Qed.

Lemma wp_emit (ev : event) w Q :
  Q (Ret tt) (put_trace (ev :: trace w) w) -> post (emit ev) w Q.
Proof. done. Qed.

Lemma wp_mono {A} (c : prog A) w (Q Q' : result A -> world -> Prop) :
  post c w Q -> (forall r w', Q r w' -> Q' r w') -> post c w Q'.
Proof. unfold post. auto. Qed.

Lemma post_exec {A} (c : prog A) w (Q : result A -> world -> Prop) :
  post c w Q -> Q (fst (c w)) (exec c w).
Proof. done. Qed.

Lemma wp_save_timestamps ts w Q :
  (forall w', saved ts w w' -> Q (Ret tt) w') ->
  post (save_timestamps ts) w Q.
Proof.
  intros HQ. unfold post.
  destruct (save_timestamps_spec ts w)
    as (w' & new & E & Hs & Hp & Hi & _ & _ & Hcase).
  rewrite E. cbn. apply HQ. unfold saved. repeat split; auto.
  cbn zeta in Hcase. destruct (save_fails _ _); tauto.
Qed.

Lemma saved_trace ts w w' :
  saved ts w w' ->
  trace w' = trace w
  \/ trace w' = EvLogError "Error saving timestamps" :: trace w.
Proof.
  intros (_ & _ & _ & Hc). destruct (save_fails _ _); tauto.
Qed.

End Logic.

Ltac proj_simpl :=
  unfold put_self, put_player_media, put_fs, put_io_plan, put_trace in *;
  cbn [self player_media fs disk_log io_plan trace
       library_path timestamps vlc_player vlc_instance current_vlc_media_path
       is_vlc_playing pdf_doc current_pdf_path pdf_current_page_index
       pdf_page_count pdf_zoom_level active_media_type speed_var slider view
       set_timestamps set_current_vlc_media_path set_is_vlc_playing
       set_pdf_doc set_current_pdf_path set_pdf_current_page_index
       set_pdf_page_count set_pdf_zoom_level set_active_media_type
       set_speed_var set_slider set_view] in *.

Ltac wp_prim :=
  lazymatch goal with
  | |- post (bind _ _) _ _ => apply wp_bind
  | |- post (try_except _ _) _ _ => apply wp_try
  | |- post (ret _) _ _ => apply wp_ret
  | |- post (raise _) _ _ => apply wp_raise
  | |- post (get _) _ _ => apply wp_get
  | |- post (gets _) _ _ => apply wp_gets
  | |- post (assign _) _ _ => apply wp_assign
  | |- post (modify _) _ _ => apply wp_modify
  | |- post (emit _) _ _ => apply wp_emit
  | |- post (show_error _) _ _ => apply wp_emit
  | |- post (log_error _) _ _ => apply wp_emit
  | |- post (manage_views _) _ _ => apply wp_assign
  | |- post (close_doc (Some _)) _ _ => apply wp_emit
  | |- post (close_doc None) _ _ => apply wp_ret
  end; cbv beta iota; proj_simpl.

Ltac wp := repeat wp_prim.


Section Inv.
Context `{Runtime}.

Lemma extends_trans t1 t2 t3 : extends t1 t2 -> extends t2 t3 -> extends t1 t3.
Proof. intros H12 H23. induction H23; [done|]. by constructor. Qed.

Lemma frame_refl w : frame w w.
Proof. constructor; auto. constructor. Qed.

Lemma frame_trans w1 w2 w3 : frame w1 w2 -> frame w2 w3 -> frame w1 w3.
Proof.
  intros [a1 a2 a3 a4 a5 a6 a7 a8 a9 a10 a11 a12 a13]
         [b1 b2 b3 b4 b5 b6 b7 b8 b9 b10 b11 b12 b13].
  constructor; try congruence; auto.
  - eapply extends_trans; eauto.
  - rewrite a5 in b6. auto.
Qed.

Lemma store_ok_insert ts k v :
  store_ok ts -> is_dict v = true -> store_ok (<[k := v]> ts).
Proof. intros. by apply map_Forall_insert_2. Qed.

Lemma is_Some_insert (ts : gmap string json) k k' v :
  is_Some (ts !! k') -> is_Some (<[k := v]> ts !! k').
Proof.
  intros. destruct (decide (k = k')) as [->|]; simplify_map_eq; eauto.
Qed.

Lemma saved_frame ts w w' : saved ts w w' -> frame w w'.
Proof.
  intros Hs. pose proof (saved_trace _ _ _ Hs) as Ht.
  destruct Hs as (Hs & Hp & _).
  constructor; rewrite ?Hs; auto.
  destruct Ht as [-> | ->]; repeat constructor.
Qed.

End Inv.

Ltac bool_to_prop :=
  repeat match goal with
  | Hb : _ && _ = true |- _ => apply andb_true_iff in Hb as [? ?]
  | Hb : (_ <=? _) = true |- _ => apply Z.leb_le in Hb
  | Hb : (_ <? _) = true |- _ => apply Z.ltb_lt in Hb
  | Hb : (_ <=? _) = false |- _ => apply Z.leb_gt in Hb
  | Hb : (_ <? _) = false |- _ => apply Z.ltb_ge in Hb
  end.

Ltac extends_tac :=
  solve [repeat first [apply extends_refl | apply extends_cons; [reflexivity|]]].

Ltac store_tac :=
  solve [repeat first [assumption | apply store_ok_insert; [|reflexivity]]].

Ltac keys_tac :=
  solve [repeat first [assumption | apply is_Some_insert]].

Ltac same_tac := first [reflexivity | congruence].

(** A frame between a world and the same world after assignments and
    harmless events. *)
Ltac frame_leaf :=
  constructor; proj_simpl;
  [ extends_tac | same_tac | same_tac | same_tac | same_tac
  | intros; first [assumption | solve [bool_to_prop; lia]]
  | intros; assumption
  | intros; store_tac
  | intros; keys_tac
  | same_tac | same_tac | same_tac | same_tac ].

Ltac frame_solve :=
  first
  [ solve [frame_leaf]
  | eassumption
  | match goal with
    | Hf : frame ?w0 ?v |- frame ?w0 _ =>
        eapply (frame_trans _ v); [exact Hf | solve [frame_leaf]]
    end ].

Ltac wp_branch :=
  lazymatch goal with
  | |- post (if ?b then _ else _) _ _ => destruct b eqn:?
  | |- post (match ?x with _ => _ end) _ _ => destruct x eqn:?
  end; proj_simpl.

(** [w0] is the world the frame is measured from. *)
Ltac wp_save w0 :=
  lazymatch goal with
  | |- post (save_timestamps _) _ _ =>
      let w' := fresh "w" in
      let Hs := fresh "Hsaved" in
      let Hf := fresh "Hf" in
      apply wp_save_timestamps; intros w' Hs;
      pose proof (saved_frame _ _ _ Hs) as Hf;
      assert (frame w0 w') by (eapply frame_trans; [| exact Hf]; frame_solve);
      clear Hf; cbv beta iota
  end.

Ltac wp_use w0 L :=
  let w' := fresh "w" in
  let Hf := fresh "Hf" in
  eapply wp_mono; [apply L | cbv beta; intros ? w' [-> Hf]; cbv beta iota];
  assert (frame w0 w') by (eapply frame_trans; [| exact Hf]; frame_solve);
  clear Hf.

Ltac wp_all w0 := repeat (first [wp_prim | wp_save w0 | wp_branch]).

(** Only the leading reads of a program. *)
Ltac wp_reads :=
  repeat (apply wp_bind; first [apply wp_get | apply wp_gets];
          cbv beta iota; proj_simpl).

Ltac done_frame := split; [reflexivity | frame_solve].

Section Inv2.
Context `{Runtime}.

Lemma update_playback_progress_frame e force w :
  post (update_playback_progress e force) w (fun r w' => r = Ret tt /\ frame w w').
Proof. unfold update_playback_progress. wp_all w; done_frame. Qed.

Lemma skip_time_frame e ms w :
  post (skip_time e ms) w (fun r w' => r = Ret tt /\ frame w w').
Proof.
  unfold skip_time. wp_all w; [|done_frame].
  wp_use w update_playback_progress_frame. done_frame.
Qed.

Lemma timestamp_data_is_dict e p t d : is_dict (timestamp_data e p t d) = true.
Proof. reflexivity. Qed.

Lemma save_current_vlc_timestamp_frame e w :
  post (save_current_vlc_timestamp e) w (fun r w' => r = Ret tt /\ frame w w').
Proof.
  unfold save_current_vlc_timestamp. wp_all w; done_frame.
Qed.


Lemma periodic_save_timestamp_frame e w :
  post (periodic_save_timestamp e) w (fun r w' => r = Ret tt /\ frame w w').
Proof.
  unfold periodic_save_timestamp. wp_all w.
  - wp_use w save_current_vlc_timestamp_frame. wp_all w. done_frame.
  - done_frame.
Qed.

Lemma update_all_cards_display_frame e w :
  post (update_all_cards_display e) w (fun r w' => r = Ret tt /\ frame w w').
Proof.
  unfold update_all_cards_display, set_item. wp_all w; try done_frame.
  all: try (exfalso; simplify_map_eq; done).
Qed.


Lemma change_playback_speed_frame e s w :
  post (change_playback_speed e s) w (fun r w' => r = Ret tt /\ frame w w').
Proof. unfold change_playback_speed. wp_all w; done_frame. Qed.

Lemma speed_menu_select_frame e s w :
  post (speed_menu_select e s) w (fun r w' => r = Ret tt /\ frame w w').
Proof.
  unfold speed_menu_select. wp_all w.
  wp_use w change_playback_speed_frame. done_frame.
Qed.

Lemma wait_for_duration_frame e n : forall i d w,
  post (wait_for_duration e n i d) w
    (fun r w' => (exists d', r = Ret d') /\ frame w w').
Proof.
  induction n as [|n IH]; intros i d w; cbn [wait_for_duration].
  - wp_all w. split; [eauto | frame_solve].
  - wp_all w; try (split; [eauto | frame_solve]).
    eapply wp_mono; [apply IH|]. cbv beta. intros r w' [Hr Hf].
    split; [done|]. eapply frame_trans; [|exact Hf]. frame_solve.
Qed.

Lemma restore_vlc_state_frame e w :
  post (_restore_vlc_state e) w (fun r w' => r = Ret tt /\ frame w w').
Proof.
  unfold _restore_vlc_state. wp_all w; try done_frame.
  eapply wp_mono; [apply wait_for_duration_frame|]. cbv beta.
  intros r w' [[d ->] Hf]. cbv beta iota.
  wp_all w; try done_frame.
  all: try (wp_use w change_playback_speed_frame; done_frame).
Qed.

Lemma on_media_slider_release_frame e w :
  post (on_media_slider_release e) w (fun r w' => r = Ret tt /\ frame w w').
Proof.
  unfold on_media_slider_release. wp_all w; try done_frame.
  - wp_use w update_playback_progress_frame. wp_all w.
    + wp_use w save_current_vlc_timestamp_frame. done_frame.
    + done_frame.
  - wp_use w update_playback_progress_frame. done_frame.
Qed.

Lemma render_pdf_page_frame e i w :
  post (render_pdf_page e i) w (fun r w' => r = Ret tt /\ frame w w').
Proof. unfold render_pdf_page. wp_all w; done_frame. Qed.

Lemma pdf_next_page_frame e w :
  post (pdf_next_page e) w (fun r w' => r = Ret tt /\ frame w w').
Proof.
  unfold pdf_next_page. wp_all w; [|done_frame].
  wp_use w render_pdf_page_frame. done_frame.
Qed.

Lemma pdf_previous_page_frame e w :
  post (pdf_previous_page e) w (fun r w' => r = Ret tt /\ frame w w').
Proof.
  unfold pdf_previous_page. wp_all w; [|done_frame].
  wp_use w render_pdf_page_frame. done_frame.
Qed.

Lemma zoom_steps_in_range step :
  In step PDF_ZOOM_STEPS -> (0.5 <= step <= 4.0)%Q.
Proof.
  cbn. intros Hin.
  repeat (destruct Hin as [<- | Hin]; [split; by vm_compute|]). done.
Qed.

Lemma zoom_to_frame e step w :
  In step PDF_ZOOM_STEPS ->
  post (zoom_to e step) w (fun r w' => r = Ret tt /\ frame w w').
Proof.
  intros Hin%zoom_steps_in_range. unfold zoom_to. wp_all w.
  eapply wp_mono; [apply render_pdf_page_frame|]. cbv beta.
  intros r w' [-> Hf]. split; [done|].
  eapply frame_trans; [|exact Hf]. constructor; proj_simpl; auto.
  constructor.
Qed.

Lemma lookup_In {A} (l : list A) i x : l !! i = Some x -> In x l.
Proof. intros Hl. apply list_elem_of_In. by eapply list_elem_of_lookup_2. Qed.

Lemma pdf_zoom_in_frame e w :
  post (pdf_zoom_in e) w (fun r w' => r = Ret tt /\ frame w w').
Proof.
  unfold pdf_zoom_in. wp_all w; try done_frame.
  - apply zoom_to_frame. by eapply lookup_In.
  - apply zoom_to_frame.
    match goal with Hf : find _ _ = Some _ |- _ => by apply find_some in Hf as [? _] end.
Qed.

Lemma pdf_zoom_out_frame e w :
  post (pdf_zoom_out e) w (fun r w' => r = Ret tt /\ frame w w').
Proof.
  unfold pdf_zoom_out. wp_all w; try done_frame.
  - apply zoom_to_frame. by eapply lookup_In.
  - apply zoom_to_frame.
    match goal with
    | Hf : find _ _ = Some _ |- _ => apply find_some in Hf as [Hin _]
    end.
    by apply in_rev in Hin.
Qed.

Lemma run_callback_frame e cb w :
  post (run_callback e cb) w (fun r w' => r = Ret tt /\ frame w w').
Proof.
  destruct cb; cbn [run_callback].
  - apply restore_vlc_state_frame.
  - wp_all w. apply render_pdf_page_frame.
  - apply periodic_save_timestamp_frame.
  - apply update_playback_progress_frame.
  - apply update_all_cards_display_frame.
Qed.

End Inv2.

Section Click.
Context `{Runtime}.

Lemma extends_docs t t' : extends t t' -> docs_open t' = docs_open t.
Proof.
  induction 1 as [|ev t' Hev _ IH]; [done|].
  destruct ev; try discriminate; done.
Qed.

Lemma extends_disciplined t t' :
  extends t t' -> disciplined t -> disciplined t'.
Proof.
  induction 1 as [|ev t' Hev _ IH]; [done|]. intros Ht.
  destruct ev; try discriminate; cbn; auto.
Qed.

Lemma extends_busy t t' :
  extends t t' -> player_busy t' = true -> player_busy t = true.
Proof.
  induction 1 as [|ev t' Hev _ IH]; [done|].
  destruct ev; try discriminate; cbn; auto.
Qed.

Lemma frame_consistent w w' : consistent w -> frame w w' -> consistent w'.
Proof.
  intros [c1 c2 c3 c4 c5 c6] [f1 f2 f3 f4 f5 f6 f7 f8 f9 f10 f11 f12 f13].
  constructor.
  - by eapply extends_disciplined.
  - by rewrite (extends_docs _ _ f1), f3.
  - intros d Hd. rewrite f3 in Hd. destruct (c3 d Hd) as (? & ? & ? & ? & ?).
    rewrite f4, f5. repeat split; auto; try lia; apply f6; lia.
  - intros Hb. rewrite f2. apply c4. by eapply extends_busy.
  - auto.
  - auto.
Qed.


Lemma extends_by_mono (ok ok' : event -> bool) t t' :
  (forall ev, ok ev = true -> ok' ev = true) ->
  extends_by ok t t' -> extends_by ok' t t'.
Proof. intros Himp. induction 1; constructor; auto. Qed.

Lemma extends_by_trans ok t1 t2 t3 :
  extends_by ok t1 t2 -> extends_by ok t2 t3 -> extends_by ok t1 t3.
Proof. intros H12 H23. induction H23; [done|]. by constructor. Qed.

Lemma extends_releasing t t' : extends t t' -> extends_by releasing t t'.
Proof. apply extends_by_mono. by intros []. Qed.

Lemma stop_player_frame e w :
  post (stop_player e) w (fun r w' => r = Ret tt /\ frame w w').
Proof.
  unfold stop_player. wp_all w; try done_frame.
  wp_use w save_current_vlc_timestamp_frame. wp_all w. done_frame.
Qed.

Lemma post_of_eq {A} (c : prog A) w r w' (Q : result A -> world -> Prop) :
  c w = (r, w') -> Q r w' -> post c w Q.
Proof. unfold post. by intros ->. Qed.

(** The first block flushes when the player is playing or paused. *)
Lemma stop_player_flush e w prev :
  vlc_player (self w) = true ->
  current_vlc_media_path (self w) = Some prev ->
  is_Some (player_media w) ->
  playing_or_paused (get_state e) = true ->
  0 <= get_length e O ->
  0 <= get_time e ->
  let ts' := <[path_str prev :=
                 timestamp_data e prev (get_time e) (get_length e O)]>
               (timestamps (self w)) in
  let store := path_str (timestamps_file (self w)) in
  post (stop_player e) w (fun r w' =>
    r = Ret tt
    /\ timestamps (self w') = ts'
    /\ (if save_fails (hd no_fault (io_plan w)) (json_dumps ts')
        then fs w' !! store = fs w !! store
             /\ trace w' = EvStop :: EvLogError "Error saving timestamps"
                             :: trace w
        else fs w' !! store = Some (json_dumps ts')
             /\ trace w' = EvStop :: trace w)).
Proof.
  intros Hplayer Hpath Hmedia Hstate Hd Ht ts' store.
  unfold stop_player. wp_reads.
  rewrite Hplayer, Hpath. rewrite bool_decide_eq_true_2 by eauto.
  cbn [andb]. rewrite Hstate. apply wp_bind. apply wp_bind.
  destruct (save_current_vlc_timestamp_writes e w prev)
    as (w1 & E & Hs & Hp & Hcase); auto.
  eapply post_of_eq; [exact E|]. cbv beta iota. wp_all w.
  rewrite Hs. proj_simpl. split; [done|]. split; [done|].
  fold ts' store in Hcase.
  destruct (save_fails _ _); destruct Hcase as [? ->]; auto.
Qed.

Lemma has_field_insert ts key field v key' r' :
  has_field ts key field v ->
  (key' = key -> r' !! field = Some v) ->
  has_field (<[key' := JDict r']> ts) key field v.
Proof.
  intros (r & Hr & Hf) Hsame. destruct (decide (key' = key)) as [->|Hne].
  - exists r'. rewrite lookup_insert_eq. auto.
  - exists r. rewrite lookup_insert_ne by done. auto.
Qed.

(** The second block, from a consistent world: the document is flushed and
    closed. *)
Lemma close_document_spec w :
  consistent w ->
  post close_document w (fun r w' =>
    r = Ret tt
    /\ consistent w'
    /\ pdf_doc (self w') = None
    /\ extends_by releasing (trace w) (trace w')
    /\ player_media w' = player_media w
    /\ library_path (self w') = library_path (self w)
    /\ vlc_player (self w') = vlc_player (self w)
    /\ vlc_instance (self w') = vlc_instance (self w)
    /\ current_vlc_media_path (self w') = current_vlc_media_path (self w)
    /\ (forall key field v,
          field <> "pdf_page" -> field <> "pdf_zoom" ->
          has_field (timestamps (self w)) key field v ->
          has_field (timestamps (self w')) key field v)
    /\ (forall d, pdf_doc (self w) = Some d ->
          has_field (timestamps (self w')) (path_str (doc_path d)) "pdf_page"
            (JInt (pdf_current_page_index (self w)))
          /\ has_field (timestamps (self w')) (path_str (doc_path d))
               "pdf_zoom" (JFloat (pdf_zoom_level (self w)))
          /\ exists t, trace w' = EvPdfClose (doc_path d) :: t
                       /\ extends (trace w) t)).
Proof.
  intros Hw. unfold close_document. wp_reads.
  destruct (pdf_doc (self w)) as [d|] eqn:Hdoc.
  2: { cbn [truthy]. wp_prim.
       split; [done|]. split; [done|]. split; [done|].
       split; [constructor|]. do 5 (split; [done|]).
       split; [auto|]. intros d [=]. }
  destruct (inv_doc w Hw d Hdoc) as (Hlen & Hpath & [v Hkey] & Hcount & Hidx).
  assert (truthy (Some d) = true) as ->.
  { cbn. apply negb_true_iff. apply Z.eqb_neq. lia. }
  rewrite Hpath. wp_reads.
  rewrite Hkey. rewrite bool_decide_eq_true_2 by eauto.
  assert (is_dict v = true) as Hv by (eapply (inv_store w Hw); eauto).
  destruct v as [| | | | | |r]; try discriminate.
  cbn [from_option is_dict negb]. unfold set_item.
  wp_all w; try (exfalso; simplify_map_eq; done).
  simplify_map_eq.
  pose proof (frame_consistent _ _ Hw H0) as Hw0.
  destruct H0 as [f1 f2 f3 f4 f5 f6 f7 f8 f9 f10 f11 f12 f13].
  destruct Hw0 as [c1 c2 c3 c4 c5 c6].
  destruct Hsaved as (Hs & _). proj_simpl.
  assert (timestamps (self w0) =
            <[path_str (doc_path d) :=
                JDict (<["pdf_zoom" := JFloat (pdf_zoom_level (self w))]>
                      (<["pdf_page" := JInt (pdf_current_page_index (self w))]>
                         r))]> (timestamps (self w))) as Hts.
  { rewrite Hs. proj_simpl. apply insert_insert_eq. }
  rewrite f3, Hdoc in c2. cbn [opened] in c2.
  split; [done|]. split.
  { constructor; proj_simpl; cbn [disciplined docs_open player_busy opened]; auto.
    - rewrite c2. cbn. by rewrite decide_True.
    - intros d0 [=]. }
  split; [done|]. split.
  { constructor; [done|]. by apply extends_releasing. }
  do 5 (split; [done|]). split.
  { intros key field v' Hf1 Hf2 Hhas. rewrite Hts.
    apply has_field_insert; [done|]. intros <-.
    destruct Hhas as (r0 & Hr0 & Hv). rewrite Heqo in Hr0. injection Hr0 as <-.
    by rewrite !lookup_insert_ne. }
  intros d0 [= <-]. rewrite Hts. split; [|split].
  - eexists. rewrite lookup_insert_eq. split; [done|].
    rewrite lookup_insert_ne by done. apply lookup_insert_eq.
  - eexists. rewrite lookup_insert_eq. split; [done|]. apply lookup_insert_eq.
  - eauto.
Qed.


Lemma post_and {A} (c : prog A) w (Q1 Q2 : result A -> world -> Prop) :
  post c w Q1 -> post c w Q2 -> post c w (fun r w' => Q1 r w' /\ Q2 r w').
Proof. unfold post. auto. Qed.

Lemma stop_and_save_spec e w :
  consistent w ->
  post (stop_and_save_current_media e) w (fun r w' =>
    r = Ret tt
    /\ consistent w'
    /\ pdf_doc (self w') = None
    /\ active_media_type (self w') = None
    /\ extends_by releasing (trace w) (trace w')
    /\ player_media w' = player_media w
    /\ library_path (self w') = library_path (self w)
    /\ vlc_player (self w') = vlc_player (self w)
    /\ vlc_instance (self w') = vlc_instance (self w)
    /\ current_vlc_media_path (self w') = current_vlc_media_path (self w)).
Proof.
  intros Hw. unfold stop_and_save_current_media.
  apply wp_bind. eapply wp_mono; [apply stop_player_frame|].
  cbv beta. intros r w1 [-> Hf]. cbv beta iota.
  pose proof (frame_consistent _ _ Hw Hf) as Hw1.
  apply wp_bind. eapply wp_mono; [apply (close_document_spec w1 Hw1)|].
  cbv beta.
  intros r w2 (-> & Hw2 & Hdoc & Hext & Hm & Hl & Hp & Hi & Hv & _).
  cbv beta iota. wp_prim.
  destruct Hf as [f1 f2 f3 f4 f5 f6 f7 f8 f9 f10 f11 f12 f13].
  split; [done|]. split.
  { destruct Hw2 as [c1 c2 c3 c4 c5 c6]. constructor; proj_simpl; auto. }
  split; [done|]. split; [done|]. split.
  { eapply extends_by_trans; [|exact Hext]. by apply extends_releasing. }
  repeat split; congruence.
Qed.


Lemma not_busy w :
  consistent w -> player_media w = None -> player_busy (trace w) = false.
Proof.
  intros Hw Hm. destruct (player_busy (trace w)) eqn:Hb; [|done].
  destruct (inv_player w Hw Hb) as [m Hm']. congruence.
Qed.

Lemma consistent_same_docs w w' :
  consistent w ->
  pdf_doc (self w') = pdf_doc (self w) ->
  current_pdf_path (self w') = current_pdf_path (self w) ->
  pdf_page_count (self w') = pdf_page_count (self w) ->
  pdf_current_page_index (self w') = pdf_current_page_index (self w) ->
  pdf_zoom_level (self w') = pdf_zoom_level (self w) ->
  timestamps (self w') = timestamps (self w) ->
  disciplined (trace w') ->
  docs_open (trace w') = docs_open (trace w) ->
  (player_busy (trace w') = true -> is_Some (player_media w')) ->
  consistent w'.
Proof.
  intros [c1 c2 c3 c4 c5 c6] E1 E2 E3 E4 E5 E6 Hd Ho Hb.
  constructor; rewrite ?E1, ?E2, ?E3, ?E4, ?E5, ?E6; auto. congruence.
Qed.

Lemma load_vlc_media_consistent e p w :
  consistent w ->
  post (load_vlc_media e p) w (fun r w' => r = Ret tt /\ consistent w').
Proof.
  intros Hw. pose proof (not_busy w Hw) as Hnb.
  pose proof (inv_trace w Hw) as Hd. pose proof (inv_player w Hw) as Hp.
  unfold load_vlc_media. wp_all w.
  all: split; [reflexivity|].
  all: apply (consistent_same_docs w); proj_simpl;
       cbn [disciplined docs_open player_busy]; try done.
  all: try (intros; by eexists).
  all: repeat split; try done.
  all: try (apply Hnb;
            match goal with
            | Hb : bool_decide (is_Some ?m) = false |- _ =>
                apply bool_decide_eq_false in Hb; destruct m;
                [exfalso; apply Hb; by eexists | reflexivity]
            end).
Qed.


Lemma consistent_no_doc w' :
  disciplined (trace w') ->
  docs_open (trace w') = [] ->
  pdf_doc (self w') = None ->
  (player_busy (trace w') = true -> is_Some (player_media w')) ->
  store_ok (timestamps (self w')) ->
  (0.5 <= pdf_zoom_level (self w') <= 4.0)%Q ->
  consistent w'.
Proof.
  intros Hd Ho Hn Hb Hs Hz. constructor; auto.
  - by rewrite Hn.
  - intros d. by rewrite Hn.
Qed.

Lemma consistent_doc w' d :
  disciplined (trace w') ->
  docs_open (trace w') = [doc_path d] ->
  pdf_doc (self w') = Some d ->
  0 < doc_len d ->
  current_pdf_path (self w') = Some (doc_path d) ->
  is_Some (timestamps (self w') !! path_str (doc_path d)) ->
  pdf_page_count (self w') = doc_len d ->
  0 <= pdf_current_page_index (self w') < pdf_page_count (self w') ->
  (player_busy (trace w') = true -> is_Some (player_media w')) ->
  store_ok (timestamps (self w')) ->
  (0.5 <= pdf_zoom_level (self w') <= 4.0)%Q ->
  consistent w'.
Proof.
  intros Hd Ho Hn Hl Hp Hk Hc Hi Hb Hs Hz. constructor; auto.
  - by rewrite Hn.
  - intros d'. rewrite Hn. intros [= <-]. auto.
Qed.

(** [load_pdf_media] when the document opens and the entry of the file,
    if any, is a record: the world [w1] is the one right after the save,
    before the page count is looked at. *)
Lemma load_pdf_media_opened e p w pages :
  pdf_doc (self w) = None ->
  fitz_open e = Some pages ->
  from_option is_dict true (timestamps (self w) !! path_str p) = true ->
  let ts' := <[path_str p :=
                 JDict (opened_record e p (timestamps (self w) !! path_str p))]>
               (timestamps (self w)) in
  let a1 := set_timestamps ts'
              (set_pdf_zoom_level 1.0%Q
                 (set_pdf_current_page_index 0
                    (set_pdf_page_count pages
                       (set_current_pdf_path (Some p)
                          (set_pdf_doc (Some (MkDocument p pages))
                             (self w)))))) in
  post (load_pdf_media e p) w (fun r w' =>
    r = Ret tt
    /\ exists w1,
         saved ts' (MkWorld a1 (player_media w) (fs w) (disk_log w) (io_plan w)
                      (EvPdfOpen p :: trace w)) w1
         /\ w' = if 0 <? pages
                 then MkWorld (set_view (Some pdf) (self w1)) (player_media w1)
                        (fs w1) (disk_log w1) (io_plan w1)
                        (EvAfter 50 render_current_page_cb :: trace w1)
                 else MkWorld
                        (set_view None
                           (set_current_pdf_path None
                              (set_pdf_doc None (self w1))))
                        (player_media w1) (fs w1) (disk_log w1) (io_plan w1)
                        (EvPdfClose p :: EvShowError "PDF Error" :: trace w1)).
Proof.
  intros Hdoc Hopen Hentry ts' a1.
  unfold load_pdf_media, set_item. apply wp_try. wp_reads. rewrite !Hdoc.
  cbn [truthy]. rewrite Hopen. subst ts' a1. unfold opened_record.
  assert (forall (X X' : world) ts1 ts2 w1,
            ts1 = ts2 -> X = X' -> saved ts1 X w1 -> saved ts2 X' w1) as Hconv
    by (by intros ? ? ? ? ? -> ->).
  destruct (timestamps (self w) !! path_str p) as [v|] eqn:Hv.
  - destruct v as [| | | | | |r]; try discriminate. clear Hentry.
    repeat first
      [ wp_prim
      | rewrite Hv
      | rewrite lookup_insert_eq
      | rewrite bool_decide_eq_true_2 by eauto
      | progress cbn [negb] ].
    apply wp_save_timestamps. intros w1 Hsaved. cbv beta iota.
    destruct (0 <? pages); wp_all w; (split; [reflexivity|]);
      exists w1; (split; [|reflexivity]).
    all: eapply Hconv; [| |exact Hsaved]; [apply insert_insert_eq|].
    all: by rewrite insert_insert_eq.
  - clear Hentry.
    repeat first
      [ wp_prim
      | rewrite Hv
      | rewrite lookup_insert_eq
      | rewrite bool_decide_eq_false_2 by (intros [? ?]; congruence)
      | progress cbn [negb] ].
    apply wp_save_timestamps. intros w1 Hsaved. cbv beta iota.
    destruct (0 <? pages); wp_all w; (split; [reflexivity|]);
      exists w1; (split; [|reflexivity]).
    all: eapply Hconv; [| |exact Hsaved]; [by rewrite !insert_insert_eq|].
    all: by rewrite !insert_insert_eq.
Qed.

Lemma load_pdf_media_failed e p w :
  pdf_doc (self w) = None ->
  fitz_open e = None ->
  post (load_pdf_media e p) w (fun r w' =>
    r = Ret tt
    /\ w' = MkWorld
              (set_view None
                 (set_active_media_type None
                    (set_current_pdf_path None (set_pdf_doc None (self w)))))
              (player_media w) (fs w) (disk_log w) (io_plan w)
              (EvShowError "PDF Load Error"
                 :: EvLogError "Error loading PDF" :: trace w)).
Proof.
  intros Hdoc Hopen.
  unfold load_pdf_media, set_item. apply wp_try. wp_reads. rewrite !Hdoc.
  cbn [truthy]. rewrite Hopen. wp_all w. rewrite !Hdoc. cbn [truthy].
  wp_all w. all: done.
Qed.

Lemma store_ok_entry ts key :
  store_ok ts -> from_option is_dict true (ts !! key) = true.
Proof.
  intros Hs. destruct (ts !! key) as [v|] eqn:Hv; [|done].
  exact (Hs _ _ Hv).
Qed.

Lemma load_pdf_media_consistent e p w :
  consistent w ->
  pdf_doc (self w) = None ->
  post (load_pdf_media e p) w (fun r w' => r = Ret tt /\ consistent w').
Proof.
  intros Hw Hdoc.
  destruct Hw as [c1 c2 c3 c4 c5 c6]. rewrite Hdoc in c2. cbn in c2.
  destruct (fitz_open e) as [pages|] eqn:Hopen.
  - eapply wp_mono;
      [apply (load_pdf_media_opened e p w pages Hdoc Hopen);
       by apply store_ok_entry|].
    cbv beta zeta. intros r w' (-> & w1 & Hsaved & ->). split; [done|].
    pose proof (saved_trace _ _ _ Hsaved) as Ht.
    destruct Hsaved as (Hs & Hp & _). cbn [self player_media trace] in *.
    assert (disciplined (trace w1) /\ docs_open (trace w1) = [p]
            /\ player_busy (trace w1) = player_busy (trace w)) as (Hd & Ho & Hb).
    { destruct Ht as [-> | ->]; cbn [disciplined docs_open player_busy];
        rewrite c2; auto. }
    assert (store_ok (timestamps (self w1))) as Hstore.
    { rewrite Hs. cbn. by apply store_ok_insert. }
    destruct (0 <? pages) eqn:Hpages.
    + apply Z.ltb_lt in Hpages.
      apply (consistent_doc _ (MkDocument p pages));
        cbn [self player_media trace doc_path doc_len
             disciplined docs_open player_busy]; rewrite ?Hs;
        cbn [pdf_doc current_pdf_path timestamps pdf_page_count
             pdf_current_page_index pdf_zoom_level set_view set_timestamps
             set_pdf_zoom_level set_pdf_current_page_index set_pdf_page_count
             set_current_pdf_path set_pdf_doc].
      * done.
      * by rewrite Ho.
      * done.
      * done.
      * done.
      * rewrite lookup_insert_eq. eauto.
      * done.
      * lia.
      * rewrite Hb, Hp. auto.
      * by apply store_ok_insert.
      * split; by vm_compute.
    + apply consistent_no_doc;
        cbn [self player_media trace doc_path doc_len
             disciplined docs_open player_busy]; rewrite ?Hs;
        cbn [pdf_doc current_pdf_path timestamps pdf_page_count
             pdf_current_page_index pdf_zoom_level set_view set_timestamps
             set_pdf_zoom_level set_pdf_current_page_index set_pdf_page_count
             set_current_pdf_path set_pdf_doc].
      * by rewrite Ho.
      * rewrite Ho. cbn. by rewrite decide_True.
      * done.
      * rewrite Hb, Hp. auto.
      * by apply store_ok_insert.
      * split; by vm_compute.
  - eapply wp_mono; [apply (load_pdf_media_failed e p w Hdoc Hopen)|].
    cbv beta. intros r w' (-> & ->). split; [done|].
    apply consistent_no_doc;
      cbn [self player_media trace disciplined docs_open player_busy]; cbn;
      auto.
Qed.


Lemma load_media_consistent e p w :
  consistent w ->
  pdf_doc (self w) = None ->
  post (load_media e p) w (fun r w' => r = Ret tt /\ consistent w').
Proof.
  intros Hw Hdoc. unfold load_media.
  destruct (str_in (lower (suffix p)) SUPPORTED_VIDEO_EXT
            || str_in (lower (suffix p)) SUPPORTED_AUDIO_EXT).
  - wp_prim. wp_prim. apply load_vlc_media_consistent.
    eapply frame_consistent; [exact Hw|]. frame_solve.
  - destruct (str_in (lower (suffix p)) SUPPORTED_PDF_EXT).
    + wp_prim. wp_prim. apply load_pdf_media_consistent; [|done].
      eapply frame_consistent; [exact Hw|]. frame_solve.
    + wp_all w. split; [done|].
      eapply frame_consistent; [exact Hw|]. frame_solve.
Qed.

Lemma handle_media_click_consistent e p w :
  consistent w ->
  post (handle_media_click e p) w (fun r w' => r = Ret tt /\ consistent w').
Proof.
  intros Hw. unfold handle_media_click. apply wp_bind.
  eapply wp_mono; [apply (stop_and_save_spec e w Hw)|]. cbv beta.
  intros r w1 (-> & Hw1 & Hdoc & _). cbv beta iota.
  by apply load_media_consistent.
Qed.

Lemma run_command_consistent e c w :
  consistent w ->
  post (run_command e c) w (fun r w' => r = Ret tt /\ consistent w').
Proof.
  intros Hw.
  assert (forall (c : prog unit),
            post c w (fun r w' => r = Ret tt /\ frame w w') ->
            post c w (fun r w' => r = Ret tt /\ consistent w')) as Hframe.
  { intros c0 Hc. eapply wp_mono; [exact Hc|]. cbv beta.
    intros r w' [-> Hf]. split; [done|]. by eapply frame_consistent. }
  destruct c; cbn [run_command].
  - by apply handle_media_click_consistent.
  - apply Hframe, run_callback_frame.
  - apply Hframe, skip_time_frame.
  - apply Hframe, speed_menu_select_frame.
  - apply Hframe. wp_all w. done_frame.
  - apply Hframe, on_media_slider_release_frame.
  - apply Hframe, pdf_next_page_frame.
  - apply Hframe, pdf_previous_page_frame.
  - apply Hframe, pdf_zoom_in_frame.
  - apply Hframe, pdf_zoom_out_frame.
Qed.

Lemma run_consistent script : forall w,
  consistent w -> consistent (run script w).
Proof.
  induction script as [|[e c] script IH]; intros w Hw; [done|].
  cbn [run]. apply IH.
  by destruct (post_exec _ _ _ (run_command_consistent e c w Hw)).
Qed.

Lemma init_consistent library ts vlc_ok disk plan :
  store_ok ts -> consistent (init_world library ts vlc_ok disk plan).
Proof.
  intros Hts. apply consistent_no_doc; cbn; auto; try discriminate.
  split; by vm_compute.
Qed.


Lemma store_okb_ok ts : store_okb ts = true -> store_ok ts.
Proof.
  unfold store_okb, store_ok. rewrite forallb_forall. intros Hall k v Hk.
  apply (Hall (k, v)). apply list_elem_of_In. by apply elem_of_map_to_list.
Qed.

Lemma session_consistent library ts vlc_ok disk plan script :
  store_okb ts = true ->
  consistent (session library ts vlc_ok disk plan script).
Proof.
  intros Hts. apply run_consistent, init_consistent. by apply store_okb_ok.
Qed.

End Click.

Section FlushRecord.
Context `{Runtime}.

Lemma has_field_timestamp_data ts key e p t d field v :
  (exists r, timestamp_data e p t d = JDict r /\ r !! field = Some v) ->
  has_field (<[key := timestamp_data e p t d]> ts) key field v.
Proof.
  intros (r & Hr & Hv). exists r. by rewrite lookup_insert_eq, Hr.
Qed.

(** C2.  A flush of the player that writes (the engine reports Playing or
    Paused, a media is loaded, position and duration are not negative)
    leaves for the media a record whose position is 0 and whose finished
    flag is set when the duration is positive and the position is within
    2000 ms of it; whenever the duration is positive the stored position is
    below it.  The record reaches the store file unless the save fails, in
    which case the failure is logged. *)
Theorem flush_normalizes (e : env) (w : world) (p : Path) :
  vlc_player (self w) = true ->
  current_vlc_media_path (self w) = Some p ->
  is_Some (player_media w) ->
  playing_or_paused (get_state e) = true ->
  0 <= get_length e O ->
  0 <= get_time e ->
  let w' := exec (save_current_vlc_timestamp e) w in
  let ts' := timestamps (self w') in
  exists position finished,
    has_field ts' (path_str p) "position" (JInt position)
    /\ has_field ts' (path_str p) "duration" (JInt (get_length e O))
    /\ has_field ts' (path_str p) "finished" (JBool finished)
    /\ (0 < get_length e O -> get_length e O - 2000 <= get_time e ->
        position = 0 /\ finished = true)
    /\ (0 < get_length e O -> 0 <= position < get_length e O)
    /\ (fs w' !! path_str (timestamps_file (self w)) = Some (json_dumps ts')
        \/ trace w' = EvLogError "Error saving timestamps" :: trace w).
Proof.
  intros Hplayer Hpath Hmedia Hstate Hd Ht w' ts'.
  destruct (save_current_vlc_timestamp_writes e w p)
    as (w1 & E & Hs & _ & Hcase); auto.
  assert (w' = w1) as -> by (unfold w', exec; by rewrite E).
  subst ts'. rewrite Hs. cbn [timestamps set_timestamps].
  destruct (timestamp_data_fields e p (get_time e) (get_length e O))
    as (r & Hr & Hpos & Hdur & _ & _ & Hfin).
  set (fin := (0 <? get_length e O) && (get_length e O - 2000 <=? get_time e))
    in *.
  exists (if fin then 0 else get_time e), fin.
  split; [apply has_field_timestamp_data; eauto|].
  split; [apply has_field_timestamp_data; eauto|].
  split; [apply has_field_timestamp_data; eauto|].
  split; [|split].
  - intros Hpos' Hnear. assert (fin = true) as ->; [|done].
    apply andb_true_iff. split; [by apply Z.ltb_lt | by apply Z.leb_le].
  - intros Hpos'. destruct fin eqn:Hf; [lia|].
    apply andb_false_iff in Hf as [Hf|Hf].
    + apply Z.ltb_ge in Hf. lia.
    + apply Z.leb_gt in Hf. lia.
  - destruct (save_fails _ _); destruct Hcase as [Hfs Htr]; auto.
Qed.

End FlushRecord.

Section FlushExamples.
Import Small Demo.

Lemma flush_normalizes_witness :
  exists position finished,
    has_field
      (timestamps
         (self (exec (save_current_vlc_timestamp
                        (engines Playing 98500 100000 None)) w_playing)))
      (path_str a_mp4) "position" (JInt position)
    /\ position = 0 /\ finished = true.
Proof.
  destruct (flush_normalizes (engines Playing 98500 100000 None) w_playing a_mp4)
    as (position & finished & Hpos & _ & _ & Hnear & _).
  - reflexivity.
  - reflexivity.
  - by eexists.
  - reflexivity.
  - cbn. lia.
  - cbn. lia.
  - exists position, finished. split; [exact Hpos|].
    apply Hnear; cbn; lia.
Defined.

End FlushExamples.

Section DocumentClick.
Context `{Runtime}.

Lemma post_eq {A} (c : prog A) w (a : result A) (X : world) :
  post c w (fun r w' => r = a /\ w' = X) -> c w = (a, X).
Proof. unfold post. destruct (c w). cbn. by intros [-> ->]. Qed.

Lemma post_ret_eq {A} (c : prog A) w (Q : result A -> world -> Prop) a :
  post c w (fun r w' => r = Ret a /\ Q r w') ->
  exists w', c w = (Ret a, w') /\ Q (Ret a) w'.
Proof. unfold post. destruct (c w) as [r w']. cbn. intros [-> HQ]. eauto. Qed.

Lemma str_in_pdf ext :
  ext = ".pdf" ->
  str_in ext SUPPORTED_VIDEO_EXT || str_in ext SUPPORTED_AUDIO_EXT = false
  /\ str_in ext SUPPORTED_PDF_EXT = true.
Proof. by intros ->. Qed.

(** A click on a document that opens, from a consistent world: [w0] is the
    world after the previous session is stopped and saved, [w1] the one
    right after the record of the document is saved. *)
Lemma click_pdf_opened e p w pages :
  consistent w ->
  lower (suffix p) = ".pdf" ->
  fitz_open e = Some pages ->
  exists w0 w1,
    stop_and_save_current_media e w = (Ret tt, w0)
    /\ consistent w0
    /\ pdf_doc (self w0) = None
    /\ (let ts' := <[path_str p :=
                      JDict (opened_record e p
                               (timestamps (self w0) !! path_str p))]>
                    (timestamps (self w0)) in
        let a1 := set_timestamps ts'
                    (set_pdf_zoom_level 1.0%Q
                       (set_pdf_current_page_index 0
                          (set_pdf_page_count pages
                             (set_current_pdf_path (Some p)
                                (set_pdf_doc (Some (MkDocument p pages))
                                   (set_active_media_type (Some pdf)
                                      (self w0))))))) in
        saved ts' (MkWorld a1 (player_media w0) (fs w0) (disk_log w0)
                     (io_plan w0) (EvPdfOpen p :: trace w0)) w1)
    /\ handle_media_click e p w =
         (Ret tt,
          if 0 <? pages
          then MkWorld (set_view (Some pdf) (self w1)) (player_media w1)
                 (fs w1) (disk_log w1) (io_plan w1)
                 (EvAfter 50 render_current_page_cb :: trace w1)
          else MkWorld
                 (set_view None
                    (set_current_pdf_path None (set_pdf_doc None (self w1))))
                 (player_media w1) (fs w1) (disk_log w1) (io_plan w1)
                 (EvPdfClose p :: EvShowError "PDF Error" :: trace w1)).
Proof.
  intros Hw Hext Hopen.
  destruct (post_ret_eq _ _ _ _ (stop_and_save_spec e w Hw))
    as (w0 & E0 & Hw0 & Hdoc0 & _).
  set (w0' := put_self (set_active_media_type (Some pdf) (self w0)) w0).
  assert (pdf_doc (self w0') = None) as Hdoc0' by done.
  assert (from_option is_dict true (timestamps (self w0') !! path_str p) = true)
    as Hentry by (apply store_ok_entry, (inv_store w0 Hw0)).
  pose proof (load_pdf_media_opened e p w0' pages Hdoc0' Hopen Hentry) as HL.
  cbv zeta in HL. apply post_ret_eq in HL.
  destruct HL as (w' & E' & w1 & Hsaved & ->).
  exists w0, w1. split; [done|]. split; [done|]. split; [done|].
  split; [exact Hsaved|].
  unfold handle_media_click, bind. rewrite E0. unfold load_media.
  destruct (str_in_pdf _ Hext) as [-> ->].
  unfold bind, assign, modify. fold w0'. by rewrite E'.
Qed.


Lemma opened_record_fields e p old :
  opened_record e p old !! "last_opened" = Some (JStr (now e))
  /\ opened_record e p old !! "filename" = Some (JStr (name p)).
Proof.
  unfold opened_record. split.
  - rewrite lookup_insert_ne by done. apply lookup_insert_eq.
  - apply lookup_insert_eq.
Qed.


End DocumentClick.

Section DocumentSelect.
Context `{Runtime}.


End DocumentSelect.

Section DocumentExamples.
Import Small Demo.




End DocumentExamples.

Section PdfNavigation.
Context `{Runtime}.

Lemma Qeq_bool_right (a x y : Q) : (x == y)%Q -> Qeq_bool a x = Qeq_bool a y.
Proof.
  intros E. destruct (Qeq_bool a x) eqn:E1, (Qeq_bool a y) eqn:E2; auto.
  - apply Qeq_bool_iff in E1. apply Qeq_bool_neq in E2.
    exfalso. apply E2. by rewrite E1.
  - apply Qeq_bool_iff in E2. apply Qeq_bool_neq in E1.
    exfalso. apply E1. by rewrite E2, E.
Qed.

Lemma index_of_proper (x y : Q) (l : list Q) :
  (x == y)%Q -> index_of x l = index_of y l.
Proof.
  intros E. induction l as [|a l IH]; [done|].
  cbn [index_of]. by rewrite (Qeq_bool_right a x y E), IH.
Qed.

Lemma pdf_next_page_last e w :
  pdf_current_page_index (self w) = pdf_page_count (self w) - 1 ->
  pdf_next_page e w = (Ret tt, w).
Proof.
  intros E. unfold pdf_next_page, bind, get, gets. cbn [fst snd].
  rewrite E, Z.ltb_irrefl, andb_false_r. reflexivity.
Qed.

Lemma pdf_previous_page_first e w :
  pdf_current_page_index (self w) = 0 ->
  pdf_previous_page e w = (Ret tt, w).
Proof.
  intros E. unfold pdf_previous_page, bind, get, gets. cbn [fst snd].
  rewrite E, Z.ltb_irrefl, andb_false_r. reflexivity.
Qed.

Lemma pdf_zoom_in_highest e w :
  (pdf_zoom_level (self w) == 4.0)%Q -> pdf_zoom_in e w = (Ret tt, w).
Proof.
  intros E. unfold pdf_zoom_in, bind, get, gets. cbn [fst snd].
  destruct (truthy (pdf_doc (self w))); [|reflexivity].
  by rewrite (index_of_proper _ _ PDF_ZOOM_STEPS E).
Qed.

Lemma pdf_zoom_out_lowest e w :
  (pdf_zoom_level (self w) == 0.5)%Q -> pdf_zoom_out e w = (Ret tt, w).
Proof.
  intros E. unfold pdf_zoom_out, bind, get, gets. cbn [fst snd].
  destruct (truthy (pdf_doc (self w))); [|reflexivity].
  by rewrite (index_of_proper _ _ PDF_ZOOM_STEPS E).
Qed.

(** C8.  Whatever commands have been run (any number of zoom-ins, zoom-outs
    and page turns among them), the zoom level lies between the lowest step
    0.5 and the highest step 4.0 and, while a document is open, the page
    index lies in [0, page count - 1]; at the last page, the first page,
    the highest and the lowest step, next page, previous page, zoom in and
    zoom out respectively change nothing. *)
Theorem pdf_view_stays_in_range
  (library : string) (ts : gmap string json) (vlc_ok : bool)
  (disk : gmap string string) (plan : list io_fault)
  (script : list (env * command)) :
  store_okb ts = true ->
  let w := session library ts vlc_ok disk plan script in
  (0.5 <= pdf_zoom_level (self w) <= 4.0)%Q
  /\ (is_Some (pdf_doc (self w)) ->
      0 <= pdf_current_page_index (self w) <= pdf_page_count (self w) - 1)
  /\ (forall e, pdf_current_page_index (self w) = pdf_page_count (self w) - 1 ->
        exec (pdf_next_page e) w = w)
  /\ (forall e, pdf_current_page_index (self w) = 0 ->
        exec (pdf_previous_page e) w = w)
  /\ (forall e, (pdf_zoom_level (self w) == 4.0)%Q ->
        exec (pdf_zoom_in e) w = w)
  /\ (forall e, (pdf_zoom_level (self w) == 0.5)%Q ->
        exec (pdf_zoom_out e) w = w).
Proof.
  intros Hts w.
  pose proof (session_consistent library ts vlc_ok disk plan script Hts) as Hw.
  fold w in Hw. split; [apply (inv_zoom w Hw)|]. split.
  { intros [d Hd]. destruct (inv_doc w Hw d Hd) as (_ & _ & _ & _ & Hi). lia. }
  unfold exec. split; [|split; [|split]]; intros e E.
  - by rewrite pdf_next_page_last.
  - by rewrite pdf_previous_page_first.
  - by rewrite pdf_zoom_in_highest.
  - by rewrite pdf_zoom_out_lowest.
Qed.

End PdfNavigation.

Section PdfNavigationExamples.
Import Small Demo.

Lemma pdf_view_stays_in_range_witness :
  (pdf_zoom_level (self (session library ∅ true ∅ [] zooming_script)) <= 4.0)%Q.
Proof.
  destruct (pdf_view_stays_in_range library ∅ true ∅ [] zooming_script)
    as [[_ Hz] _]; [reflexivity|]. exact Hz.
Defined.

End PdfNavigationExamples.

Section Handles.
Context `{Runtime}.

Lemma disciplined_app l t : disciplined (l ++ t)%list -> disciplined t.
Proof. induction l as [|ev l IH]; [done|]. intros [Hd _]. auto. Qed.

Lemma close_first_length p l : (length (close_first p l) <= length l)%nat.
Proof.
  induction l as [|q l IH]; [done|]. cbn.
  destruct (decide (p = q)); cbn; lia.
Qed.

Lemma disciplined_one_doc t : disciplined t -> (length (docs_open t) <= 1)%nat.
Proof.
  induction t as [|ev t IH]; [cbn; lia|]. intros [Hd Hev].
  specialize (IH Hd). destruct ev; cbn [docs_open]; try done.
  - rewrite Hev. cbn. lia.
  - pose proof (close_first_length p (docs_open t)). lia.
Qed.

(** The player block of [stop_and_save_current_media] leaves the document
    as it is. *)
Lemma stop_player_keeps_document e w :
  post (stop_player e) w (fun r w' =>
    pdf_doc (self w') = pdf_doc (self w)
    /\ pdf_current_page_index (self w') = pdf_current_page_index (self w)
    /\ pdf_zoom_level (self w') = pdf_zoom_level (self w)).
Proof.
  unfold stop_player, save_current_vlc_timestamp.
  wp_all w; try done.
  all: destruct Hsaved as (Hs & _); by rewrite Hs.
Qed.

(** Unless the engine reports Playing or Paused, the player block writes
    nothing. *)
Lemma stop_player_no_flush e w :
  playing_or_paused (get_state e) = false ->
  post (stop_player e) w (fun r w' =>
    timestamps (self w') = timestamps (self w) /\ fs w' = fs w
    /\ pdf_doc (self w') = pdf_doc (self w)).
Proof.
  intros Hstate. unfold stop_player. rewrite Hstate. wp_all w; done.
Qed.

Lemma close_document_none w :
  pdf_doc (self w) = None -> close_document w = (Ret tt, w).
Proof.
  intros Hdoc. unfold close_document, bind, get, gets. cbn [fst snd].
  by rewrite Hdoc.
Qed.


Lemma extends_by_In ok t t' (ev : event) :
  extends_by ok t t' -> In ev t -> In ev t'.
Proof. induction 1; [done|]. intros Hin. right. auto. Qed.

Lemma stop_and_save_steps e w :
  consistent w ->
  exists w1 w2,
    stop_player e w = (Ret tt, w1)
    /\ consistent w1
    /\ library_path (self w1) = library_path (self w)
    /\ close_document w1 = (Ret tt, w2)
    /\ stop_and_save_current_media e w
       = (Ret tt, put_self (set_active_media_type None (self w2)) w2).
Proof.
  intros Hw.
  destruct (post_ret_eq _ _ _ _ (stop_player_frame e w)) as (w1 & E1 & Hf).
  pose proof (frame_consistent _ _ Hw Hf) as Hw1.
  destruct (post_ret_eq _ _ _ _ (close_document_spec w1 Hw1)) as (w2 & E2 & _).
  exists w1, w2. split; [done|]. split; [done|].
  split; [apply (fr_library _ _ Hf)|]. split; [done|].
  unfold stop_and_save_current_media, bind. by rewrite E1, E2.
Qed.

(** The document block writes the dictionary it leaves to the store file,
    unless the save fails, which is logged. *)
Lemma close_document_persists w d :
  consistent w ->
  pdf_doc (self w) = Some d ->
  let store := path_str (timestamps_file (self w)) in
  post close_document w (fun r w' =>
    let text := json_dumps (timestamps (self w')) in
    if save_fails (hd no_fault (io_plan w)) text
    then fs w' !! store = fs w !! store
         /\ trace w' = EvPdfClose (doc_path d)
                         :: EvLogError "Error saving timestamps" :: trace w
    else fs w' !! store = Some text
         /\ trace w' = EvPdfClose (doc_path d) :: trace w).
Proof.
  intros Hw Hdoc store. unfold close_document. wp_reads.
  rewrite Hdoc.
  destruct (inv_doc w Hw d Hdoc) as (Hlen & Hpath & [v Hkey] & Hcount & Hidx).
  assert (truthy (Some d) = true) as ->.
  { cbn. apply negb_true_iff. apply Z.eqb_neq. lia. }
  rewrite Hpath. wp_reads.
  rewrite Hkey. rewrite bool_decide_eq_true_2 by eauto.
  assert (is_dict v = true) as Hv by (eapply (inv_store w Hw); eauto).
  destruct v as [| | | | | |r]; try discriminate.
  cbn [from_option is_dict negb]. unfold set_item.
  wp_all w; try (exfalso; simplify_map_eq; done).
  simplify_map_eq.
  destruct Hsaved as (Hs & _ & _ & Hcase). proj_simpl.
  rewrite Hs. proj_simpl. unfold store.
  destruct (save_fails _ _); destruct Hcase as [Hfs ->];
    (split; [exact Hfs | reflexivity]).
Qed.


End Handles.

Section HandlesExamples.
Import Small Demo.



End HandlesExamples.

Section Rate.
Context `{Runtime}.

Lemma seeks_cons ev t :
  seeks (ev :: t) = (seeks t ++ match ev with EvSetTime x => [x] | _ => [] end)%list.
Proof.
  unfold seeks. cbn [rev]. rewrite omap_app. by destruct ev.
Qed.

Lemma rates_cons ev t :
  rates (ev :: t) = (rates t ++ match ev with EvSetRate r => [r] | _ => [] end)%list.
Proof.
  unfold rates. cbn [rev]. rewrite omap_app. by destruct ev.
Qed.

Lemma waits_cons ev t :
  waits (ev :: t) = (waits t ++ match ev with EvWait ms => [ms] | _ => [] end)%list.
Proof.
  unfold waits. cbn [rev]. rewrite omap_app. by destruct ev.
Qed.

(** [change_playback_speed] sends a rate only when the engine reports
    Playing or Paused; it touches the selector only when the engine refuses
    the rate. *)
Lemma change_playback_speed_spec e s w :
  post (change_playback_speed e s) w (fun r w' =>
    r = Ret tt
    /\ seeks (trace w') = seeks (trace w)
    /\ waits (trace w') = waits (trace w)
    /\ (playing_or_paused (get_state e) = false ->
        rates (trace w') = rates (trace w)
        /\ speed_var (self w') = speed_var (self w))
    /\ (playing_or_paused (get_state e) = true ->
        vlc_player (self w) = true ->
        is_Some (current_vlc_media_path (self w)) ->
        forall speed_value, py_float (replace "x" EmptyString s) = Some speed_value ->
        rates (trace w') = (rates (trace w) ++ [speed_value])%list
        /\ speed_var (self w')
           = if set_rate_result e =? 0 then speed_var (self w)
             else rate_label (get_rate e))).
Proof.
  unfold change_playback_speed. wp_all w.
  all: rewrite ?seeks_cons, ?waits_cons, ?rates_cons, ?app_nil_r.
  all: split; [reflexivity|]. all: split; [reflexivity|].
  all: split; [reflexivity|].
  all: split; [try done|].
  all: try (intros; discriminate).
  all: try (intros _ _ _ ? [= <-]; done).
  all: try (intros _ ? _; discriminate).
  all: try (intros _ _ [? ?]; discriminate).
  all: intros _ _ _ ? [= <-]; split; [reflexivity|].
  all: destruct (set_rate_result e =? 0); try discriminate; reflexivity.
Qed.

(** C9 (as the code has it).  Choosing a rate in the selector: the rate is
    sent to the engine only when it reports Playing or Paused.  In any other
    state no rate is sent and the selector shows the rate just chosen, not
    the previous one.  In Playing or Paused the chosen rate is sent, and the
    selector shows it unless the engine refuses it, in which case the
    selector is reset to the label of the rate the engine reports. *)
Theorem rate_change_only_while_playing (e : env) (choice : string) (w : world) :
  let w' := exec (speed_menu_select e choice) w in
  (playing_or_paused (get_state e) = false ->
   rates (trace w') = rates (trace w)
   /\ speed_var (self w') = choice)
  /\ (playing_or_paused (get_state e) = true ->
      vlc_player (self w) = true ->
      is_Some (current_vlc_media_path (self w)) ->
      forall speed_value,
        py_float (replace "x" EmptyString choice) = Some speed_value ->
        rates (trace w') = (rates (trace w) ++ [speed_value])%list
        /\ speed_var (self w')
           = if set_rate_result e =? 0 then choice
             else rate_label (get_rate e)).
Proof.
  intros w'.
  pose proof (change_playback_speed_spec e choice
                (put_self (set_speed_var choice (self w)) w)) as Hc.
  apply post_exec in Hc.
  change (exec (change_playback_speed e choice)
            (put_self (set_speed_var choice (self w)) w)) with w' in Hc.
  destruct Hc as (_ & _ & _ & Hoff & Hon). split.
  - intros Hstate. by apply Hoff.
  - intros Hstate Hplayer Hpath speed_value Hfloat.
    by apply (Hon Hstate Hplayer Hpath speed_value Hfloat).
Qed.

End Rate.

Section RateExamples.
Import Small Demo.

Lemma rate_change_only_while_playing_witness :
  rates (trace (exec (speed_menu_select (engines Stopped 0 100000 None) "2.0x")
                  w_playing))
  = rates (trace w_playing).
Proof.
  destruct (rate_change_only_while_playing
              (engines Stopped 0 100000 None) "2.0x" w_playing) as [Hoff _].
  apply Hoff. reflexivity.
Defined.

(** C9, counterexample.  [a.mp4] is loaded, the selector shows 1.0x; the
    engine reports Stopped when 2.0x is chosen: no rate is sent, and the
    selector shows 2.0x, not the rate selected before. *)
Lemma rejected_rate_is_displayed :
  let w := w_playing in
  let w' := exec (speed_menu_select (engines Stopped 0 100000 None) "2.0x") w in
  speed_var (self w) = "1.0x"
  /\ rates (trace w') = rates (trace w)
  /\ speed_var (self w') = "2.0x"
  /\ speed_var (self w') <> speed_var (self w).
Proof. vm_compute. repeat split; discriminate. Qed.

End RateExamples.

Section Seek.
Context `{Runtime}.

Lemma py_int_slider_full (duration : Z) :
  py_int (100 / 100 * inject_Z duration)%Q = duration.
Proof.
  unfold py_int. cbn. change (Z.pos (1 * 100 * 1)) with 100.
  replace (100 * 1 * duration) with (duration * 100) by lia.
  apply Z.quot_mul. lia.
Qed.

(** The target of [skip_time] is clamped: with a positive duration it lies
    in [0, duration), at least 100 ms before the end when the media is that
    long. *)
Lemma skip_time_clamped e ms_offset w :
  vlc_player (self w) = true ->
  is_Some (current_vlc_media_path (self w)) ->
  is_seekable e = true ->
  0 < get_length e O ->
  exists target,
    seeks (trace (exec (skip_time e ms_offset) w))
      = (seeks (trace w) ++ [target])%list
    /\ 0 <= target < get_length e O
    /\ target <= Z.max 0 (get_length e O - 100).
Proof.
  intros Hplayer Hpath Hseek Hd.
  exists (Z.max 0 (Z.min (get_time e + ms_offset) (get_length e O - 100))).
  split; [|lia].
  apply (post_exec (skip_time e ms_offset) w
           (fun _ w' => seeks (trace w') = _)).
  unfold skip_time, update_playback_progress. wp_reads.
  rewrite Hplayer, Hseek, bool_decide_eq_true_2 by done.
  cbn [andb orb negb]. rewrite (proj2 (Z.ltb_lt _ _) Hd).
  wp_all w; by rewrite seeks_cons.
Qed.

(** C7.  The skip buttons clamp their target below the duration, but the
    release of the slider does not: with the slider at its upper end, 100,
    and a positive duration, the time sent to the engine is the duration
    itself, the end of the media. *)
Theorem slider_release_seeks_to_end (e : env) (w : world) :
  vlc_player (self w) = true ->
  is_Some (current_vlc_media_path (self w)) ->
  is_seekable e = true ->
  0 < get_length e O ->
  slider (self w) = 100%Q ->
  seeks (trace (exec (on_media_slider_release e) w))
    = (seeks (trace w) ++ [get_length e O])%list
  /\ forall ms_offset, exists target,
       seeks (trace (exec (skip_time e ms_offset) w))
         = (seeks (trace w) ++ [target])%list
       /\ 0 <= target < get_length e O.
Proof.
  intros Hplayer Hpath Hseek Hd Hslider. split.
  - apply (post_exec (on_media_slider_release e) w
             (fun _ w' => seeks (trace w') = _)).
    unfold on_media_slider_release, update_playback_progress,
      save_current_vlc_timestamp.
    wp_reads.
    rewrite Hplayer, Hseek, bool_decide_eq_true_2 by done.
    cbn [andb orb negb]. apply wp_try. wp_reads.
    rewrite (proj2 (Z.ltb_lt _ _) Hd), Hslider, py_int_slider_full.
    wp_all w.
    all: try (apply saved_trace in Hsaved; destruct Hsaved as [-> | ->]).
    all: proj_simpl; by rewrite ?seeks_cons, ?app_nil_r.
  - intros ms_offset.
    destruct (skip_time_clamped e ms_offset w Hplayer Hpath Hseek Hd)
      as (target & Hs & Ht & _).
    by exists target.
Qed.

End Seek.

Section SeekExamples.
Import Small Demo.

Lemma slider_release_seeks_to_end_witness :
  seeks (trace (exec (on_media_slider_release (engines Playing 60000 120000 None))
                  w_slider_full))
  = (seeks (trace w_slider_full) ++ [120000])%list.
Proof.
  apply (slider_release_seeks_to_end (engines Playing 60000 120000 None)
           w_slider_full);
    [reflexivity | by eexists | reflexivity | cbn; lia | reflexivity].
Defined.

End SeekExamples.

Section Restore.
Context `{Runtime}.

(** The polling loop: it ends, after [k] waits of 100 ms, with the first
    positive duration among [remaining] polls, or without one after
    [remaining] waits. *)
Lemma wait_for_duration_spec e : forall remaining i d0 w,
  d0 <= 0 ->
  exists d k,
    wait_for_duration e remaining i d0 w
      = (Ret d, put_trace (repeat (EvWait 100) k ++ trace w)%list w)
    /\ match first_duration e remaining i with
       | Some (j, d') => d = d' /\ j = (i + k)%nat /\ 0 < d
       | None => d <= 0 /\ k = remaining
       end.
Proof.
  induction remaining as [|n IH]; intros i d0 w Hd0.
  - exists d0, O. by destruct w.
  - cbn [wait_for_duration first_duration].
    rewrite (proj2 (Z.leb_le _ _) Hd0).
    destruct (0 <? get_length e i) eqn:Hpos.
    + exists (get_length e i), O. split; [by destruct w|].
      apply Z.ltb_lt in Hpos. split; [done|]. split; [lia|done].
    + apply Z.ltb_ge in Hpos.
      destruct (IH (S i) (get_length e i)
                  (put_trace (EvWait 100 :: trace w) w) Hpos)
        as (d & k & E & Hcase).
      exists d, (S k). split.
      * unfold bind, emit, modify. cbn [fst snd]. rewrite E.
        proj_simpl. f_equal. f_equal.
        change (EvWait 100 :: trace w) with ([EvWait 100] ++ trace w)%list.
        rewrite app_assoc. f_equal.
        change [EvWait 100] with (repeat (EvWait 100) 1).
        rewrite <- repeat_app. f_equal. lia.
      * destruct (first_duration e n (S i)) as [[j d']|].
        -- destruct Hcase as (-> & -> & Hd). split; [done|]. split; [lia|done].
        -- destruct Hcase as (Hd & ->). done.
Qed.

Lemma seeks_waits_only k t : seeks (repeat (EvWait 100) k ++ t)%list = seeks t.
Proof.
  induction k as [|k IH]; [done|]. cbn [repeat List.app].
  by rewrite seeks_cons, app_nil_r.
Qed.

Lemma waits_repeat k t :
  waits (repeat (EvWait 100) k ++ t)%list = (waits t ++ repeat 100 k)%list.
Proof.
  induction k as [|k IH]; [by rewrite app_nil_r|]. cbn [repeat List.app].
  rewrite waits_cons, IH, <- app_assoc. f_equal.
  symmetry. apply repeat_cons.
Qed.


Lemma first_duration_bound e : forall n i j d,
  first_duration e n i = Some (j, d) -> (i <= j < i + n)%nat.
Proof.
  induction n as [|n IH]; intros i j d; [done|]. cbn [first_duration].
  destruct (0 <? get_length e i).
  - intros [= <- _]. lia.
  - intros Hf. apply IH in Hf. lia.
Qed.

Lemma Qltb_lt (x y : Q) : Qltb x y = true <-> (x < y)%Q.
Proof.
  unfold Qltb. rewrite negb_true_iff. split.
  - intros Hb. apply Qnot_le_lt. intros Hle.
    apply Qle_bool_iff in Hle. congruence.
  - intros Hlt. destruct (Qle_bool y x) eqn:Hb; [|done].
    apply Qle_bool_iff in Hb. exfalso. by apply (Qlt_not_le x y).
Qed.

(** After the position, [_restore_vlc_state] restores the speed, which
    neither seeks nor waits. *)
Lemma restore_speed_spec e w :
  post (when playing_or_paused (get_state e) then
          speed <- get speed_var ;; change_playback_speed e speed) w
    (fun r w' =>
       r = Ret tt
       /\ seeks (trace w') = seeks (trace w)
       /\ waits (trace w') = waits (trace w)).
Proof.
  destruct (playing_or_paused (get_state e)); [|by wp_prim].
  apply wp_bind, wp_get. cbv beta iota.
  eapply wp_mono; [apply change_playback_speed_spec|].
  cbv beta. tauto.
Qed.

(** What [_restore_vlc_state] does when it runs, with the record that the
    dictionary holds at that moment.  The duration is polled at most 30 times, 100 ms apart, and the loop
    ends at the first positive answer.  With that duration, a stored
    position strictly between 0 and the duration is what the player is sent
    to; a position of 0 (or less) sends nothing, the media plays from its
    start; a position at or beyond the duration sends the player to 0.
    Without a duration after the 30 polls the stored position is not
    restored: the only time the player may be sent to is 0. *)
Theorem restore_position (e : env) (w : world) (p : Path)
  (r : gmap string json) (v : json) (saved : Q) :
  vlc_player (self w) = true ->
  current_vlc_media_path (self w) = Some p ->
  is_Some (player_media w) ->
  timestamps (self w) !! path_str p = Some (JDict r) ->
  r !! "position" = Some v ->
  as_number v = Some saved ->
  let w' := exec (_restore_vlc_state e) w in
  exists (new_seeks : list Z) (polls : nat),
    seeks (trace w') = (seeks (trace w) ++ new_seeks)%list
    /\ waits (trace w') = (waits (trace w) ++ repeat 100 polls)%list
    /\ (polls <= max_attempts)%nat
    /\ match first_duration e max_attempts O with
       | Some (i, duration) =>
           polls = i
           /\ ((0 < saved)%Q -> (saved < inject_Z duration)%Q ->
               new_seeks = [py_int saved])
           /\ ((0 < saved)%Q -> (inject_Z duration <= saved)%Q ->
               new_seeks = [0])
       | None =>
           polls = max_attempts
           /\ ((0 < saved)%Q -> new_seeks = [0])
       end
    /\ ((saved <= 0)%Q -> new_seeks = []).
Proof.
  intros Hplayer Hpath [m Hmedia] Hrec Hpos Hnum w'.
  destruct (wait_for_duration_spec e max_attempts O 0 w) as (d & k & E & Hcase);
    [lia|].
  set (new_seeks :=
         if (0 <? d) && Qltb 0 saved && Qltb saved (inject_Z d)
         then [py_int saved]
         else if Qle_bool saved 0 then [] else [0]).
  assert (seeks (trace w') = (seeks (trace w) ++ new_seeks)%list
          /\ waits (trace w') = (waits (trace w) ++ repeat 100 k)%list)
    as [Hseeks Hwaits].
  { apply (post_exec (_restore_vlc_state e) w
             (fun _ w' => seeks (trace w') = _ /\ waits (trace w') = _)).
    unfold _restore_vlc_state. wp_reads. rewrite Hplayer, Hpath, Hmedia.
    apply wp_try. apply wp_bind. eapply post_of_eq; [exact E|].
    cbv beta iota. wp_reads. rewrite Hrec, Hpos. cbn [mbind option_bind].
    rewrite Hnum. subst new_seeks.
    destruct ((0 <? d) && Qltb 0 saved && Qltb saved (inject_Z d));
      [|destruct (Qle_bool saved 0)].
    all: repeat wp_prim.
    all: (eapply wp_mono; [apply restore_speed_spec|]); cbv beta.
    all: intros ? w2 (-> & -> & ->); proj_simpl.
    all: rewrite ?seeks_cons, ?waits_cons, ?seeks_waits_only, ?waits_repeat,
           ?app_nil_r.
    all: done. }
  exists new_seeks, k. split; [done|]. split; [done|].
  assert ((saved <= 0)%Q -> new_seeks = []) as Hzero.
  { intros Hle. subst new_seeks.
    assert (Qltb 0 saved = false) as ->.
    { unfold Qltb. by rewrite (proj2 (Qle_bool_iff _ _) Hle). }
    rewrite andb_false_r. cbn [andb].
    by rewrite (proj2 (Qle_bool_iff _ _) Hle). }
  assert ((0 < saved)%Q -> Qle_bool saved 0 = false) as Hnle.
  { intros Hlt. destruct (Qle_bool saved 0) eqn:Hb; [|done].
    apply Qle_bool_iff in Hb. exfalso. by apply (Qlt_not_le 0 saved). }
  destruct (first_duration e max_attempts O) as [[i duration]|] eqn:Hfirst.
  - destruct Hcase as (-> & -> & Hd).
    apply first_duration_bound in Hfirst. cbn in Hfirst.
    split; [lia|]. split; [|done]. split; [done|].
    subst new_seeks. rewrite (proj2 (Z.ltb_lt _ _) Hd). cbn [andb]. split.
    + intros H0 Hlt.
      by rewrite (proj2 (Qltb_lt _ _) H0), (proj2 (Qltb_lt _ _) Hlt).
    + intros H0 Hge.
      assert (Qltb saved (inject_Z duration) = false) as ->.
      { unfold Qltb. by rewrite (proj2 (Qle_bool_iff _ _) Hge). }
      rewrite andb_false_r. by rewrite Hnle.
  - destruct Hcase as (Hd & ->). split; [done|]. split; [|done].
    split; [done|]. intros H0. subst new_seeks.
    rewrite (proj2 (Z.ltb_ge _ _) Hd). cbn [andb]. by rewrite Hnle.
Qed.

End Restore.

Section RestoreExamples.
Import Small Demo.

Lemma restore_position_witness :
  exists polls,
    seeks (trace (exec (_restore_vlc_state (engines Playing 0 100000 None))
                    w_resuming))
    = (seeks (trace w_resuming) ++ [40000])%list
    /\ waits (trace (exec (_restore_vlc_state (engines Playing 0 100000 None))
                       w_resuming))
       = (waits (trace w_resuming) ++ repeat 100 polls)%list.
Proof.
  destruct (restore_position (engines Playing 0 100000 None) w_resuming a_mp4
              (<["position" := JInt 40000]>
                 (<["duration" := JInt 100000]>
                    (<["finished" := JBool false]> ∅)))
              (JInt 40000) (inject_Z 40000))
    as (new_seeks & polls & Hseeks & Hwaits & _ & Hcase & _);
    [reflexivity | reflexivity | by eexists | reflexivity | reflexivity
    | reflexivity |].
  exists polls. split; [|exact Hwaits].
  cbn in Hcase. destruct Hcase as (_ & Hin & _).
  rewrite Hseeks, Hin; [reflexivity | reflexivity | reflexivity].
Defined.

(** C6.  The record of [a.mp4] holds the position 40 s of 100 s and
    [a.mp4] has just been selected.  When the engine reports no duration
    during the 30 polls, the restoration is not skipped: after the 3 s of
    polling the player, which has been playing since the selection, is sent
    to 0.  And when the periodic save comes due before the deferred
    restoration, 200 ms into the media, it replaces the record, and the
    player is sent to 200 ms: the stored position is lost. *)
Theorem restore_rewinds_or_forgets :
  let unknown := engines Playing 3000 0 None in
  let early := engines Playing 200 100000 None in
  let w_saved := exec (run_callback early periodic_save_timestamp_cb)
                   w_resuming in
  stored_position (timestamps (self w_resuming)) (path_str a_mp4)
  = Some (inject_Z 40000)
  /\ seeks (trace w_resuming) = []
  /\ waits (trace (exec (_restore_vlc_state unknown) w_resuming))
     = repeat 100 30
  /\ seeks (trace (exec (_restore_vlc_state unknown) w_resuming)) = [0]
  /\ stored_position (timestamps (self w_saved)) (path_str a_mp4)
     = Some (inject_Z 200)
  /\ seeks (trace (exec (_restore_vlc_state early) w_saved)) = [200].
Proof.
  cbv zeta. split; [reflexivity|]. split; [by vm_compute|].
  split; [by vm_compute|]. split; [by vm_compute|].
  split; by vm_compute.
Qed.

End RestoreExamples.

(** * The JSON text of the small runtime read back *)

Section Strings.
Import Small.

Lemma append_nil_l (s : string) : EmptyString +:+ s = s.
Proof. reflexivity. Qed.

Lemma append_assoc (a b c : string) : (a +:+ b) +:+ c = a +:+ (b +:+ c).
Proof.
  induction a as [|x a IH]; [done|]. by rewrite !append_cons, IH.
Qed.

Lemma length_append (a b : string) :
  String.length (a +:+ b) = (String.length a + String.length b)%nat.
Proof.
  induction a as [|x a IH]; [done|]. rewrite append_cons. cbn. by rewrite IH.
Qed.

(** A string is read back from its escaped text. *)
Lemma parse_string_body_escape (s rest : string) :
  parse_string_body (escape s +:+ String quote rest) = Some (s, rest).
Proof.
  induction s as [|c s IH]; [done|].
  cbn [escape].
  destruct (Ascii.eqb c quote || Ascii.eqb c backslash) eqn:Hc.
  - rewrite !append_cons. cbn [parse_string_body]. rewrite IH.
    destruct (Ascii.eqb_spec backslash quote) as [Hq|_]; [discriminate Hq|].
    by rewrite Ascii.eqb_refl.
  - apply orb_false_iff in Hc as [Hq Hb].
    rewrite append_cons. cbn [parse_string_body]. by rewrite Hq, Hb, IH.
Qed.

Lemma print_string_append (s rest : string) :
  print_string s +:+ rest = String quote (escape s +:+ String quote rest).
Proof.
  unfold print_string. rewrite append_cons. f_equal. apply append_snoc.
Qed.

End Strings.
Section Digits.
Import Small.

Lemma span_digits_stop (rest : string) :
  ends_number rest -> span_digits rest = (EmptyString, rest).
Proof. destruct rest as [|c rest]; [done|]. cbn. by intros ->. Qed.

Lemma span_digits_uint (d : Decimal.uint) (rest : string) :
  ends_number rest ->
  span_digits (NilEmpty.string_of_uint d +:+ rest)
  = (NilEmpty.string_of_uint d, rest).
Proof.
  intros Hrest. induction d; cbn [NilEmpty.string_of_uint];
    rewrite ?append_cons; cbn [span_digits].
  1: by apply span_digits_stop.
  all: change (is_digit _) with true; cbn iota; by rewrite IHd.
Qed.

Lemma length_string_of_uint (d : Decimal.uint) :
  String.length (NilEmpty.string_of_uint d) = Decimal.nb_digits d.
Proof. induction d; cbn; congruence. Qed.

Lemma usize_nb_digits (d : Decimal.uint) :
  DecimalPos.Unsigned.usize d = N.of_nat (Decimal.nb_digits d).
Proof.
  induction d; cbn [DecimalPos.Unsigned.usize Decimal.nb_digits]; [done|..];
    rewrite IHd; lia.
Qed.

Lemma digits_Z_uint (d : Decimal.uint) :
  d <> Decimal.Nil ->
  digits_Z (NilEmpty.string_of_uint d) = Some (Z.of_uint d).
Proof.
  intros Hd. unfold digits_Z.
  pose proof (NilEmpty.isi (Decimal.Pos d)) as Hi.
  cbn [NilEmpty.string_of_int] in Hi. rewrite Hi.
  destruct (NilEmpty.string_of_uint d) eqn:Hs; [|done].
  by destruct d.
Qed.

Lemma string_of_uint_zeros (n : nat) (d : Decimal.uint) :
  Nat.iter n (String "0") (NilEmpty.string_of_uint d)
  = NilEmpty.string_of_uint (Nat.iter n Decimal.D0 d).
Proof. induction n as [|n IH]; [done|]. by rewrite !Nat.iter_succ, IH. Qed.

Lemma of_uint_zeros (n : nat) (d : Decimal.uint) :
  Z.of_uint (Nat.iter n Decimal.D0 d) = Z.of_uint d.
Proof. induction n as [|n IH]; [done|]. rewrite Nat.iter_succ. exact IH. Qed.

Lemma of_lu_bound (d : Decimal.uint) :
  (DecimalPos.Unsigned.of_lu d < 10 ^ DecimalPos.Unsigned.usize d)%N.
Proof.
  induction d; cbn [DecimalPos.Unsigned.of_lu DecimalPos.Unsigned.usize]; [done|..];
    rewrite N.pow_succ_r'; lia.
Qed.

(** A number that starts with a digit other than 0 is at least the power
    of ten of the number of its other digits. *)
Lemma of_uint_acc_lower (d : Decimal.uint) (acc : positive) :
  (10 ^ DecimalPos.Unsigned.usize d <= N.pos (Pos.of_uint_acc d acc))%N.
Proof.
  rewrite DecimalPos.Unsigned.of_uint_acc_rev.
  assert (10 ^ DecimalPos.Unsigned.usize d <= N.pos acc * 10 ^ DecimalPos.Unsigned.usize d)%N; [|lia].
  assert (10 ^ DecimalPos.Unsigned.usize d <> 0)%N by (apply N.pow_nonzero; lia).
  nia.
Qed.

Lemma unorm_fixed_D0 (d : Decimal.uint) :
  Decimal.unorm (Decimal.D0 d) = Decimal.D0 d -> d = Decimal.Nil.
Proof.
  intros Hfix.
  assert (d = Decimal.Nil \/ d <> Decimal.Nil) as [|Hd]
    by (destruct d; auto; right; discriminate); [done|].
  exfalso. pose proof (nb_digits_unorm d Hd) as Hle.
  assert (Decimal.unorm (Decimal.D0 d) = Decimal.unorm d) as E by done.
  rewrite E in Hfix. rewrite Hfix in Hle. cbn in Hle. lia.
Qed.

Lemma nb_digits_to_uint (p : positive) (k : nat) :
  (N.pos p < 10 ^ N.of_nat k)%N ->
  (Decimal.nb_digits (Pos.to_uint p) <= k)%nat.
Proof.
  intros Hlt.
  assert (Decimal.unorm (Pos.to_uint p) = Pos.to_uint p) as Hfix.
  { rewrite <- (DecimalPos.Unsigned.to_of (Pos.to_uint p)).
    by rewrite DecimalPos.Unsigned.of_to. }
  pose proof (DecimalPos.Unsigned.of_to p) as Hval.
  pose proof (DecimalPos.Unsigned.to_uint_nonnil p) as Hnil.
  destruct (Pos.to_uint p) as [|d|d|d|d|d|d|d|d|d|d] eqn:Hd; [done|..].
  1: { apply unorm_fixed_D0 in Hfix. subst d. cbn in Hval. discriminate. }
  all: cbn [Pos.of_uint] in Hval.
  all: match type of Hval with
       | N.pos (Pos.of_uint_acc ?l ?acc) = _ =>
           pose proof (of_uint_acc_lower l acc) as Hlow
       end.
  all: rewrite Hval in Hlow.
  all: assert (10 ^ DecimalPos.Unsigned.usize d < 10 ^ N.of_nat k)%N as Hpow by lia.
  all: apply N.pow_lt_mono_r_iff in Hpow; [|lia].
  all: rewrite usize_nb_digits in Hpow; cbn [Decimal.nb_digits]; lia.
Qed.

(** The decimal text of a number below [10 ^ k], padded to [k] digits. *)
Lemma pad_left_print_Z (k : nat) (f : Z) :
  (1 <= k)%nat -> 0 <= f < 10 ^ Z.of_nat k ->
  exists d,
    pad_left k (print_Z f) = NilEmpty.string_of_uint d
    /\ Decimal.nb_digits d = k
    /\ Z.of_uint d = f.
Proof.
  intros Hk Hf. unfold pad_left, print_Z.
  assert (exists d0, Z.to_int f = Decimal.Pos d0
                     /\ (1 <= Decimal.nb_digits d0 <= k)%nat
                     /\ Z.of_uint d0 = f) as (d0 & Hd0 & Hlen & Hval).
  { pose proof (DecimalZ.of_to f) as Hof.
    destruct f as [|p|p]; [| |lia].
    - exists Decimal.zero. cbn. split; [done|]. split; [lia|done].
    - exists (Pos.to_uint p). cbn [Z.to_int]. split; [done|].
      cbn [Z.to_int Z.of_int] in Hof. split; [|done].
      split.
      + pose proof (DecimalPos.Unsigned.to_uint_nonnil p) as Hn.
        destruct (Pos.to_uint p); [done|..]; cbn; lia.
      + apply nb_digits_to_uint.
        assert (Z.of_N (N.pos p) < Z.of_N (10 ^ N.of_nat k)); [|lia].
        rewrite N2Z.inj_pow. cbn [Z.of_N]. rewrite nat_N_Z. lia. }
  rewrite Hd0. cbn [NilEmpty.string_of_int].
  rewrite length_string_of_uint, string_of_uint_zeros.
  eexists. split; [reflexivity|]. split.
  - rewrite nb_digits_iter_D0. lia.
  - by rewrite of_uint_zeros.
Qed.

Lemma print_Z_nonneg (z : Z) :
  0 <= z ->
  exists d,
    print_Z z = NilEmpty.string_of_uint d /\ d <> Decimal.Nil
    /\ Z.of_uint d = z.
Proof.
  intros Hz. unfold print_Z. pose proof (DecimalZ.of_to z) as Hof.
  destruct z as [|p|p]; [| |lia].
  - exists Decimal.zero. by cbn.
  - exists (Pos.to_uint p). cbn [Z.to_int NilEmpty.string_of_int].
    split; [done|]. split; [apply DecimalPos.Unsigned.to_uint_nonnil|done].
Qed.

End Digits.
Section Numbers.
Import Small.

Lemma ends_value_number (rest : string) : ends_value rest -> ends_number rest.
Proof. by intros (c & r & -> & [-> | ->]). Qed.

(** [parse_number] on a text that starts with a digit. *)
Lemma parse_number_digits (d : Decimal.uint) (rest : string) :
  d <> Decimal.Nil ->
  parse_number (NilEmpty.string_of_uint d +:+ rest)
  = (let (ip, s2) := span_digits (NilEmpty.string_of_uint d +:+ rest) in
     i ← digits_Z ip ;
     match s2 with
     | String "." s3 =>
         let (fp, s4) := span_digits s3 in
         f ← digits_Z fp ;
         let k := Z.of_nat (String.length fp) in
         let m := i * 10 ^ k + f in
         Some (JFloat (Qred (m # Z.to_pos (10 ^ k))), s4)
     | _ => Some (JInt i, s2)
     end).
Proof.
  intros Hd. destruct d; [done|..]; reflexivity.
Qed.

Lemma parse_number_minus (s : string) :
  parse_number (String "-" s)
  = (let (ip, s2) := span_digits s in
     i ← digits_Z ip ;
     match s2 with
     | String "." s3 =>
         let (fp, s4) := span_digits s3 in
         f ← digits_Z fp ;
         let k := Z.of_nat (String.length fp) in
         let m := i * 10 ^ k + f in
         Some (JFloat (Qred (- m # Z.to_pos (10 ^ k))), s4)
     | _ => Some (JInt (- i), s2)
     end).
Proof. reflexivity. Qed.

Lemma parse_number_print_Z (z : Z) (rest : string) :
  ends_value rest ->
  parse_number (print_Z z +:+ rest) = Some (JInt z, rest).
Proof.
  intros Hrest. pose proof (ends_value_number rest Hrest) as Hn.
  destruct (Z_lt_le_dec z 0) as [Hneg|Hpos].
  - destruct z as [|p|p]; [lia|lia|].
    unfold print_Z. cbn [Z.to_int NilEmpty.string_of_int].
    rewrite append_cons, parse_number_minus.
    rewrite span_digits_uint by done.
    rewrite digits_Z_uint by apply DecimalPos.Unsigned.to_uint_nonnil.
    cbn [mbind option_bind].
    assert (Z.of_uint (Pos.to_uint p) = Z.pos p) as ->
      by apply (DecimalZ.of_to (Z.pos p)).
    by destruct Hrest as (c & r & -> & [-> | ->]).
  - destruct (print_Z_nonneg z Hpos) as (d & -> & Hd & <-).
    rewrite parse_number_digits by done.
    rewrite span_digits_uint by done. rewrite digits_Z_uint by done.
    cbn [mbind option_bind].
    by destruct Hrest as (c & r & -> & [-> | ->]).
Qed.

End Numbers.
Section Floats.
Import Small.

Lemma dyadic_divides (den : positive) (k : nat) :
  Z.pos den = 2 ^ Z.log2 (Z.pos den) ->
  (Z.to_nat (Z.log2 (Z.pos den)) <= k)%nat ->
  (Z.pos den | 10 ^ Z.of_nat k).
Proof.
  intros Hden Hk. set (j := Z.log2 (Z.pos den)) in *.
  assert (0 <= j) by apply Z.log2_nonneg.
  assert (Z.of_nat k = j + (Z.of_nat k - j)) as -> by lia.
  rewrite Z.pow_add_r by lia. rewrite Hden.
  change 10 with (2 * 5) at 1. rewrite Z.pow_mul_l.
  exists (5 ^ j * 10 ^ (Z.of_nat k - j)). lia.
Qed.

(** The decimal text of a binary float is read back as a rational of the
    same value. *)
Lemma parse_number_print_float (q : Q) (rest : string) :
  is_dyadic q = true ->
  ends_value rest ->
  exists q',
    parse_number (print_float q +:+ rest) = Some (JFloat q', rest)
    /\ (q' == q)%Q.
Proof.
  intros Hdy Hrest. pose proof (ends_value_number rest Hrest) as Hend.
  unfold is_dyadic in Hdy. cbv zeta in Hdy. apply Z.eqb_eq in Hdy.
  unfold print_float. cbv zeta.
  pose proof (Qred_correct q) as Hred.
  destruct (Qred q) as [n den] eqn:Hq0. cbn [Qden Qnum] in *.
  set (k := Nat.max 1 (Z.to_nat (Z.log2 (Z.pos den)))).
  assert (1 <= k)%nat as Hk1 by lia.
  assert (Z.pos den | 10 ^ Z.of_nat k) as Hdiv
    by (apply dyadic_divides; [done|lia]).
  unfold print_fixed. cbn [Qden Qnum]. cbv zeta.
  set (scaled := Z.abs n * 10 ^ Z.of_nat k / Z.pos den).
  assert (0 < 10 ^ Z.of_nat k) as Hpow by (apply Z.pow_pos_nonneg; lia).
  assert (scaled * Z.pos den = Z.abs n * 10 ^ Z.of_nat k) as Hexact.
  { unfold scaled. destruct Hdiv as [c Hc]. rewrite Hc.
    rewrite Z.mul_assoc, Z.div_mul by done. lia. }
  assert (0 <= scaled) as Hs0 by (apply Z.div_pos; lia).
  pose proof (Z.mod_pos_bound scaled (10 ^ Z.of_nat k) Hpow) as Hmod.
  assert (0 <= scaled / 10 ^ Z.of_nat k) as Hip by (apply Z.div_pos; lia).
  destruct (print_Z_nonneg _ Hip) as (d1 & -> & Hd1 & Hv1).
  destruct (pad_left_print_Z k _ Hk1 Hmod) as (d2 & -> & Hlen2 & Hv2).
  assert (d2 <> Decimal.Nil) as Hd2.
  { intros ->. cbn in Hlen2. lia. }
  assert (forall (neg : bool),
    (let (ip, s2) :=
       span_digits
         (NilEmpty.string_of_uint d1
          +:+ String "." (NilEmpty.string_of_uint d2 +:+ rest)) in
     i ← digits_Z ip ;
     match s2 with
     | String "." s3 =>
         let (fp, s4) := span_digits s3 in
         f ← digits_Z fp ;
         let k := Z.of_nat (String.length fp) in
         let m := i * 10 ^ k + f in
         Some (JFloat (Qred ((if neg then - m else m) # Z.to_pos (10 ^ k))),
               s4)
     | _ => Some (JInt (if neg then - i else i), s2)
     end)
    = Some (JFloat (Qred ((if neg then - scaled else scaled)
                          # Z.to_pos (10 ^ Z.of_nat k))), rest)) as Hbody.
  { intros neg. rewrite span_digits_uint by done.
    rewrite digits_Z_uint by done. cbn [mbind option_bind].
    rewrite span_digits_uint by done. rewrite digits_Z_uint by done.
    cbn [mbind option_bind]. cbv zeta.
    rewrite length_string_of_uint, Hlen2, Hv1, Hv2.
    assert (scaled / 10 ^ Z.of_nat k * 10 ^ Z.of_nat k
            + scaled mod 10 ^ Z.of_nat k = scaled) as ->; [|done].
    pose proof (Z.div_mod scaled (10 ^ Z.of_nat k)). lia. }
  assert (forall (neg : bool), neg = (n <? 0) ->
            (Qred ((if neg then - scaled else scaled)
                   # Z.to_pos (10 ^ Z.of_nat k)) == q)%Q) as Hvalue.
  { intros neg ->. rewrite Qred_correct, <- Hred.
    unfold Qeq. cbn [Qnum Qden]. rewrite Z2Pos.id by done.
    destruct (Z.ltb_spec n 0); nia. }
  destruct (n <? 0) eqn:Hneg.
  - exists (Qred (- scaled # Z.to_pos (10 ^ Z.of_nat k))).
    split; [|by apply (Hvalue true)].
    change ("-" +:+ ?x) with (String "-" x).
    rewrite append_cons, parse_number_minus.
    rewrite append_assoc. change ("." +:+ ?x) with (String "." x).
    rewrite append_cons. change (EmptyString +:+ ?x) with x.
    exact (Hbody true).
  - exists (Qred (scaled # Z.to_pos (10 ^ Z.of_nat k))).
    split; [|by apply (Hvalue false)].
    change (EmptyString +:+ ?x) with x.
    rewrite append_assoc. change ("." +:+ ?x) with (String "." x).
    rewrite append_cons. change (EmptyString +:+ ?x) with x.
    rewrite parse_number_digits by done.
    exact (Hbody false).
Qed.

End Floats.
Section Scalars.
Import Small.

Lemma prefix_append (p rest : string) : String.prefix p (p +:+ rest) = true.
Proof.
  induction p as [|c p IH]; [by destruct rest|].
  rewrite append_cons. cbn [String.prefix].
  destruct (ascii_dec c c); [exact IH|done].
Qed.

Lemma substring_all (s : string) : String.substring 0 (String.length s) s = s.
Proof. induction s as [|c s IH]; [done|]. cbn. by rewrite IH. Qed.

Lemma substring_append (p rest : string) (m : nat) :
  String.substring (String.length p) m (p +:+ rest) = String.substring 0 m rest.
Proof. induction p as [|c p IH]; [done|]. rewrite append_cons. exact IH. Qed.

Lemma strip_append (p rest : string) : strip p (p +:+ rest) = Some rest.
Proof.
  unfold strip. rewrite prefix_append, substring_append, length_append.
  replace (String.length p + String.length rest - String.length p)%nat
    with (String.length rest) by lia.
  by rewrite substring_all.
Qed.

(** A text that starts like a number is read as a number. *)
Lemma parse_value_number (fuel : nat) (c : ascii) (s : string) :
  is_digit c = true \/ c = "-"%char ->
  parse_value (S fuel) (String c s) = parse_number (String c s).
Proof.
  intros Hc.
  destruct c as [[] [] [] [] [] [] [] []];
    first [reflexivity | exfalso; destruct Hc as [Hc|Hc]; discriminate Hc].
Qed.

Lemma string_of_uint_head (d : Decimal.uint) (rest : string) :
  d <> Decimal.Nil ->
  exists c s, NilEmpty.string_of_uint d +:+ rest = String c s
              /\ is_digit c = true.
Proof. intros Hd. destruct d; [done|..]; eexists _, _; by split. Qed.

Lemma print_Z_head (z : Z) (rest : string) :
  exists c s, print_Z z +:+ rest = String c s
              /\ (is_digit c = true \/ c = "-"%char).
Proof.
  destruct (Z_lt_le_dec z 0) as [Hneg|Hpos].
  - destruct z as [|p|p]; [lia|lia|]. eexists _, _. split; [reflexivity|].
    by right.
  - destruct (print_Z_nonneg z Hpos) as (d & -> & Hd & _).
    destruct (string_of_uint_head d rest Hd) as (c & s & -> & Hc). eauto.
Qed.

Lemma print_float_head (q : Q) (rest : string) :
  exists c s, print_float q +:+ rest = String c s
              /\ (is_digit c = true \/ c = "-"%char).
Proof.
  unfold print_float, print_fixed. cbv zeta.
  destruct (Qnum (Qred q) <? 0).
  - eexists _, _. split; [reflexivity|]. by right.
  - change (EmptyString +:+ ?x) with x. rewrite append_assoc.
    apply print_Z_head.
Qed.

(** The value of a field is read back from its text. *)
Lemma parse_value_scalar (fuel : nat) (v : json) (rest : string) :
  is_scalar v = true ->
  ends_value rest ->
  exists v',
    parse_value (S fuel) (print_json v +:+ rest) = Some (v', rest)
    /\ same_value v' v.
Proof.
  intros Hv Hrest. destruct v as [|b|z|q|s|l|d]; try discriminate.
  - exists JNull. split; [|done].
    change (parse_value (S fuel) (print_json JNull +:+ rest))
      with (r ← strip "null" ("null" +:+ rest) ; Some (JNull, r)).
    by rewrite strip_append.
  - exists (JBool b). split; [|done]. destruct b.
    + change (parse_value (S fuel) (print_json (JBool true) +:+ rest))
        with (r ← strip "true" ("true" +:+ rest) ; Some (JBool true, r)).
      by rewrite strip_append.
    + change (parse_value (S fuel) (print_json (JBool false) +:+ rest))
        with (r ← strip "false" ("false" +:+ rest) ; Some (JBool false, r)).
      by rewrite strip_append.
  - exists (JInt z). split; [|done]. cbn [print_json].
    destruct (print_Z_head z rest) as (c & s & E & Hc).
    rewrite E, parse_value_number by done. rewrite <- E.
    by apply parse_number_print_Z.
  - cbn [is_scalar] in Hv.
    destruct (parse_number_print_float q rest Hv Hrest) as (q' & E' & Hq).
    exists (JFloat q'). split; [|exact Hq]. cbn [print_json].
    destruct (print_float_head q rest) as (c & s & E & Hc).
    rewrite E, parse_value_number by done. by rewrite <- E.
  - exists (JStr s). split; [|done]. cbn [print_json].
    rewrite print_string_append.
    change (parse_value (S fuel)
              (String quote (escape s +:+ String quote rest)))
      with ('(body, r) ← parse_string_body (escape s +:+ String quote rest) ;
            Some (JStr body, r)).
    by rewrite parse_string_body_escape.
Qed.

End Scalars.
Section Members.
Import Small.

Lemma join_fold (sep : string) (l : list string) (a b : string) :
  fold_left (fun acc y => acc +:+ sep +:+ y) l (a +:+ b)
  = a +:+ fold_left (fun acc y => acc +:+ sep +:+ y) l b.
Proof.
  revert b. induction l as [|y l IH]; intros b; [done|].
  cbn [fold_left]. rewrite append_assoc. apply IH.
Qed.

Lemma join_cons (sep x y : string) (l : list string) :
  join sep (x :: y :: l) = x +:+ sep +:+ join sep (y :: l).
Proof.
  unfold join. cbn [fold_left]. rewrite join_fold.
  f_equal. apply join_fold.
Qed.

Lemma length_join (sep : string) (l : list string) :
  Forall (fun x => (1 <= String.length x)%nat) l ->
  (List.length l <= String.length (join sep l))%nat.
Proof.
  induction 1 as [|x l Hx Hl IH]; [done|].
  destruct l as [|y l]; [cbn; lia|].
  rewrite join_cons, !length_append. cbn [List.length] in *. lia.
Qed.

Lemma print_dict (d : gmap string json) :
  print_json (JDict d)
  = "{" +:+ join "," (List.map member (map_to_list d)) +:+ "}".
Proof.
  cbn [print_json]. rewrite map_fold_foldr. do 3 f_equal.
  induction (map_to_list d) as [|[k v] l IH]; [done|].
  cbn [foldr List.map uncurry]. by rewrite IH.
Qed.

Lemma member_append (kv : string * json) (rest : string) :
  member kv +:+ rest
  = String quote
      (escape kv.1 +:+ String quote (String ":" (print_json kv.2 +:+ rest))).
Proof.
  unfold member. rewrite append_assoc, print_string_append.
  reflexivity.
Qed.

(** The members of a dictionary are read back one by one, each value by the
    parser of the values. *)
Lemma parse_members_join (fuel' : nat) (R : json -> json -> Prop)
  (l : list (string * json)) :
  (forall kv rest, In kv l -> ends_value rest ->
     exists v', parse_value fuel' (print_json kv.2 +:+ rest) = Some (v', rest)
                /\ R v' kv.2) ->
  l <> [] ->
  forall (n : nat) (rest : string),
    (List.length l <= n)%nat ->
    exists l' : list (string * json),
      parse_members_of fuel' n
        (join "," (List.map member l) +:+ String "}" rest)
      = Some (list_to_map l', rest)
      /\ Forall2 (fun kv' kv => kv'.1 = kv.1 /\ R kv'.2 kv.2) l' l.
Proof.
  induction l as [|kv l IH]; [done|]. intros Hvalues _ n rest Hn.
  destruct n as [|n]; [cbn in Hn; lia|]. cbn [List.length] in Hn.
  destruct l as [|kv2 l].
  - cbn [List.map join fold_left]. rewrite member_append.
    destruct (Hvalues kv (String "}" rest)) as (v' & E & Hv);
      [by left | by eexists _, _; split; [|right] |].
    exists [(kv.1, v')]. split; [|by repeat constructor].
    cbn [parse_members_of]. rewrite Ascii.eqb_refl.
    rewrite parse_string_body_escape. cbn [mbind option_bind].
    rewrite E. cbn [mbind option_bind list_to_map foldr uncurry].
    by rewrite insert_empty.
  - change (List.map member (kv :: kv2 :: l))
      with (member kv :: member kv2 :: List.map member l).
    rewrite join_cons.
    change (member kv2 :: List.map member l)
      with (List.map member (kv2 :: l)).
    rewrite !append_assoc, member_append.
    change ("," +:+ ?x) with (String "," x).
    destruct (Hvalues kv
                (String "," (join "," (List.map member (kv2 :: l))
                             +:+ String "}" rest)))
      as (v' & E & Hv); [by left | by eexists _, _; split; [|left] |].
    destruct (IH (fun kv0 rest0 Hin => Hvalues kv0 rest0 (or_intror Hin))
                ltac:(done) n rest ltac:(lia))
      as (l' & E' & Hl').
    exists ((kv.1, v') :: l'). split; [|by constructor].
    cbn [parse_members_of]. rewrite Ascii.eqb_refl.
    rewrite parse_string_body_escape. cbn [mbind option_bind].
    rewrite E. cbn [mbind option_bind].
    fold (parse_members_of fuel'). rewrite E'. done.
Qed.

Lemma list_to_map_same {A} (R : A -> A -> Prop) (l' l : list (string * A)) :
  Forall2 (fun kv' kv => kv'.1 = kv.1 /\ R kv'.2 kv.2) l' l ->
  same_fields R (list_to_map l') (list_to_map l).
Proof.
  induction 1 as [|[k' v'] [k v] l' l [Hk Hv] Hl IH]; intros key.
  - rewrite !list_to_map_nil, !lookup_empty. constructor.
  - cbn in Hk. subst k'. rewrite !list_to_map_cons.
    destruct (decide (key = k)) as [->|Hne].
    + rewrite !lookup_insert_eq. by constructor.
    + rewrite !lookup_insert_ne by done. apply IH.
Qed.

Lemma parse_value_open (fuel' : nat) (b : string) :
  parse_value (S fuel') (String "{" (String quote b))
  = '(m, r') ← parse_members_of fuel'
                 (String.length (String "{" (String quote b)))
                 (String quote b) ;
    Some (JDict m, r').
Proof. reflexivity. Qed.

Lemma join_members_head (kv : string * json) (l : list (string * json))
  (rest : string) :
  exists b, join "," (List.map member (kv :: l)) +:+ rest = String quote b.
Proof.
  destruct l as [|kv2 l].
  - cbn [List.map join fold_left]. rewrite member_append. eauto.
  - change (List.map member (kv :: kv2 :: l))
      with (member kv :: member kv2 :: List.map member l).
    rewrite join_cons, append_assoc, member_append. eauto.
Qed.

(** A dictionary is read back from its text, its values by the parser of
    the values. *)
Lemma parse_value_dict (fuel' : nat) (R : json -> json -> Prop)
  (d : gmap string json) (rest : string) :
  (forall k v rest', d !! k = Some v -> ends_value rest' ->
     exists v', parse_value fuel' (print_json v +:+ rest') = Some (v', rest')
                /\ R v' v) ->
  exists d',
    parse_value (S fuel') (print_json (JDict d) +:+ rest)
    = Some (JDict d', rest)
    /\ same_fields R d' d.
Proof.
  intros Hvalues. rewrite print_dict.
  destruct (map_to_list d) as [|kv l] eqn:Hl.
  - apply map_to_list_empty_iff in Hl as ->. exists ∅.
    split; [reflexivity|]. intros key. rewrite lookup_empty. constructor.
  - rewrite !append_assoc.
    change ("{" +:+ ?x) with (String "{" x).
    change ("}" +:+ ?x) with (String "}" x).
    set (text := join "," (List.map member (kv :: l)) +:+ String "}" rest).
    destruct (parse_members_join fuel' R (kv :: l)) with
      (n := String.length (String "{" text)) (rest := rest)
      as (l' & E & Hl'); [|done| |].
    + intros [k v] rest' Hin Hrest. apply (Hvalues k); [|done].
      apply elem_of_map_to_list. rewrite Hl. by apply list_elem_of_In.
    + unfold text. cbn [String.length]. rewrite length_append.
      pose proof (length_join "," (List.map member (kv :: l))) as Hlen.
      rewrite length_map in Hlen.
      assert (Forall (fun x => (1 <= String.length x)%nat)
                (List.map member (kv :: l))) as Hne.
      { apply Forall_forall. intros x Hx. apply list_elem_of_In in Hx.
        apply in_map_iff in Hx as (kv0 & <- & _).
        unfold member, print_string. rewrite append_cons. cbn. lia. }
      specialize (Hlen Hne). cbn [List.length] in *. lia.
    + exists (list_to_map l'). split.
      * fold text in E.
        destruct (join_members_head kv l (String "}" rest)) as [b Hb].
        fold text in Hb. revert E. rewrite Hb. intros E.
        rewrite parse_value_open, E. done.
      * rewrite <- (list_to_map_to_list d), Hl.
        by apply list_to_map_same.
Qed.

End Members.
Section Mapping.
Import Small.

Lemma all_values_lookup {A} (p : A -> bool) (d : gmap string A) :
  all_values p d = true -> forall k v, d !! k = Some v -> p v = true.
Proof.
  unfold all_values.
  apply (map_fold_weak_ind
           (fun acc m => acc = true ->
                         forall k v, m !! k = Some v -> p v = true)).
  - intros _ k v Hv. by rewrite lookup_empty in Hv.
  - intros i x m acc Hi IH Hacc k v Hv.
    apply andb_true_iff in Hacc as [Hx Hacc].
    destruct (decide (k = i)) as [->|Hne].
    + rewrite lookup_insert_eq in Hv. by injection Hv as <-.
    + rewrite lookup_insert_ne in Hv by done. by apply (IH Hacc k).
Qed.

Lemma record_fields (v : json) :
  is_record v = true ->
  exists r, v = JDict r /\ forall k x, r !! k = Some x -> is_scalar x = true.
Proof.
  destruct v as [| | | | | |r]; try discriminate. cbn [is_record].
  intros Hr. exists r. split; [done|]. by apply all_values_lookup.
Qed.

(** The text of a well-formed mapping is read back as a mapping with the
    same keys, the same fields in every record, and values that are
    equal. *)
Lemma parse_json_print (M : gmap string json) :
  well_formed M ->
  exists M',
    parse_json (print_json (JDict M)) = Some (JDict M')
    /\ same_mapping M' M.
Proof.
  intros HM. unfold parse_json.
  set (s := print_json (JDict M)).
  assert (exists f, String.length s = S (S f)) as [f Hlen].
  { unfold s. rewrite print_dict, !length_append. cbn [String.length].
    exists (String.length (join "," (List.map member (map_to_list M)))).
    lia. }
  destruct (parse_value_dict (String.length s) same_record M EmptyString)
    as (M' & E & HM').
  { intros k v rest Hv Hrest. rewrite Hlen.
    destruct (record_fields v (all_values_lookup _ _ HM k v Hv))
      as (r & -> & Hr).
    destruct (parse_value_dict (S f) same_value r rest) as (r' & E & Hr').
    - intros k0 x rest' Hx Hrest'.
      apply parse_value_scalar; [by apply (Hr k0)|done].
    - exists (JDict r'). split; [exact E|exact Hr']. }
  fold s in E. rewrite append_nil_r in E. rewrite E.
  exists M'. by split.
Qed.

End Mapping.

Section RoundTrip.
Import Small.

(** C5.  A well-formed mapping (every key has a record whose fields are
    [None], bools, ints, strs or floats) that is saved and then loaded comes
    back equal: the same keys, the same fields in every record, and values
    that are equal (floats by their value, as [==] compares them),
    provided the file system fails neither the save nor the read and
    answers whether the store file exists.  The JSON text is the one of
    the runtime [Small]. *)
Theorem load_save_roundtrip (stat_fails : bool) (M : gmap string json)
  (w : world) :
  well_formed M ->
  save_fails (hd no_fault (io_plan w)) (json_dumps M) = false ->
  fault (hd no_fault (tl (io_plan w))) <> ReadFails ->
  exists w1 w2 M',
    Stat.save_timestamps stat_fails M w = (Ret tt, w1)
    /\ Stat.load_timestamps false w1 = (Ret (JDict M'), w2)
    /\ same_mapping M' M
    /\ trace w2 = trace w.
Proof.
  intros HM Hsave Hread.
  destruct (parse_json_print M HM) as (M' & Hloads & Hsame).
  destruct (stat_save_timestamps_spec stat_fails M w)
    as (w1 & new & E & Hs & _ & Hi & _ & _ & Hcase).
  cbv zeta in E, Hcase. rewrite Hsave in E, Hcase.
  destruct Hcase as (Hstore & _ & Ht).
  destruct (load_timestamps_spec w1 (json_dumps M) (JDict M'))
    as (w2 & E2 & Ht2 & _).
  - by rewrite Hs.
  - exact Hloads.
  - by eexists.
  - by rewrite Hi.
  - exists w1, w2, M'. split; [by destruct stat_fails|].
    split; [exact E2|]. split; [exact Hsame|]. congruence.
Qed.

End RoundTrip.
Section RoundTripExamples.
Import Small Demo.

(** The mapping of a session that has paged and zoomed a document: its
    zoom level is kept as the fraction the zoom steps add up to. *)
Lemma load_save_roundtrip_witness :
  let w := session library stored true ∅ [] reading_script in
  let M := timestamps (self w) in
  (exists q, has_field M (path_str b_pdf) "pdf_zoom" (JFloat q)
             /\ Qred q <> q)
  /\ exists w1 w2 M',
       Stat.save_timestamps false M w = (Ret tt, w1)
       /\ Stat.load_timestamps false w1 = (Ret (JDict M'), w2)
       /\ same_mapping M' M
       /\ trace w2 = trace w.
Proof.
  cbv zeta. split.
  - eexists. split; [eexists; split; vm_compute; reflexivity|].
    vm_compute. discriminate.
  - apply (load_save_roundtrip false
             (timestamps (self (session library stored true ∅ []
                                  reading_script)))
             (session library stored true ∅ [] reading_script)).
    + vm_compute. reflexivity.
    + vm_compute. reflexivity.
    + intros Hread. vm_compute in Hread. discriminate Hread.
Defined.

End RoundTripExamples.

(** * What every command preserves *)

Section Orderly.
Context `{Runtime}.

Lemma orderly_refl ok w : orderly ok w w.
Proof.
  constructor; auto; [constructor|].
  exists []. split; [done|]. constructor; [by left|constructor].
Qed.

Lemma written_trans store before mid d :
  written store before mid -> written store (mid !! store) d ->
  written store before d.
Proof.
  intros [Hm|Hm] [Hd|Hd]; unfold written; try (by right).
  - left. congruence.
  - right. destruct Hm as [ts Hm]. exists ts. congruence.
Qed.

Lemma orderly_trans ok w1 w2 w3 :
  orderly ok w1 w2 -> orderly ok w2 w3 -> orderly ok w1 w3.
Proof.
  intros [a1 a2 a3 a4 (n1 & a5 & a6)] [b1 b2 b3 b4 (n2 & b5 & b6)].
  assert (store_path w2 = store_path w1) as Hstore
    by (unfold store_path, timestamps_file; by rewrite a2).
  constructor; auto.
  - eapply extends_by_trans; eauto.
  - congruence.
  - exists (n2 ++ n1)%list. split; [by rewrite b5, a5, app_assoc|].
    apply Forall_cons in a6 as [a6 a7]. rewrite Hstore in b6.
    rewrite app_comm_cons. apply Forall_app. split.
    + eapply Forall_impl; [exact b6|]. cbv beta. intros d Hd.
      by eapply written_trans.
    + exact a7.
Qed.

Lemma orderly_mono (ok ok' : event -> bool) w w' :
  (forall ev, ok ev = true -> ok' ev = true) ->
  orderly ok w w' -> orderly ok' w w'.
Proof.
  intros Himp [a1 a2 a3 a4 a5]. constructor; auto.
  by eapply extends_by_mono.
Qed.

Lemma orderly_sound ok before w w' :
  sound before w -> orderly ok w w' -> sound before w'.
Proof.
  intros [s1 s2 s3 s4] [a1 a2 a3 a4 (new & a5 & a6)].
  assert (store_path w' = store_path w) as Hstore
    by (unfold store_path, timestamps_file; by rewrite a2).
  assert (Forall (written (store_path w) before) (fs w' :: new)) as Hnew.
  { eapply Forall_impl; [exact a6|]. cbv beta. intros d Hd.
    by eapply written_trans. }
  apply Forall_cons in Hnew as [Hfs Hnew].
  constructor; auto; rewrite Hstore; [done|].
  rewrite a5. apply Forall_app. by split.
Qed.

(** [save_timestamps], with the disk contents it goes through. *)
Lemma wp_save_timestamps_disk ts w (Q : result unit -> world -> Prop) :
  (forall w', saved ts w w' -> orderly background w w' -> Q (Ret tt) w') ->
  post (save_timestamps ts) w Q.
Proof.
  intros HQ. unfold post.
  destruct (save_timestamps_spec ts w)
    as (w' & new & E & Hs & Hp & Hi & Hl & Hf & Hcase).
  rewrite E. cbn [fst snd]. cbn zeta in Hcase.
  assert (saved ts w w') as Hsaved.
  { unfold saved. split; [done|]. split; [done|]. split; [done|].
    destruct (save_fails _ _); tauto. }
  apply HQ; [done|].
  constructor; unfold zoom_on_step, playing_loaded; rewrite ?Hs; auto.
  - destruct (saved_trace _ _ _ Hsaved) as [-> | ->]; repeat constructor.
  - exists new. split; [done|].
    eapply Forall_impl; [exact Hf|]. cbv beta. intros d [Hd|Hd].
    + by left.
    + right. by eexists.
Qed.

End Orderly.

Ltac zoom_tac :=
  unfold zoom_on_step; proj_simpl; intros;
  first
    [ assumption
    | eapply lookup_In; eassumption
    | match goal with
      | Hf : find _ PDF_ZOOM_STEPS = Some _ |- _ =>
          apply find_some in Hf as [? _]; assumption
      | Hf : find _ (rev PDF_ZOOM_STEPS) = Some _ |- _ =>
          apply find_some in Hf as [Hin _]; apply in_rev in Hin; assumption
      end
    | solve [unfold PDF_ZOOM_STEPS; repeat first [left; reflexivity | right]] ].

Ltac playing_tac :=
  unfold playing_loaded; proj_simpl;
  let Hinv := fresh "Hinv" in
  let Hp := fresh "Hp" in
  intros Hinv Hp;
  first
    [ discriminate
    | exact (Hinv Hp)
    | split; [first [reflexivity | assumption | apply (Hinv Hp)]
             | first [by eexists | apply (Hinv Hp)]] ].

Ltac disk_tac :=
  proj_simpl; exists []; split; [reflexivity|];
  constructor; [left; reflexivity | constructor].

Ltac orderly_leaf :=
  constructor;
  [ proj_simpl; extends_tac | proj_simpl; same_tac | zoom_tac | playing_tac
  | disk_tac ].

Ltac orderly_solve :=
  first
  [ solve [orderly_leaf]
  | eassumption
  | match goal with
    | Hf : orderly ?ok ?w0 ?v |- orderly ?ok ?w0 _ =>
        eapply (orderly_trans ok _ v); [exact Hf | solve [orderly_leaf]]
    end ].

(** [w0] is the world the relation is measured from, [ok] its events. *)
Ltac qp_save ok w0 :=
  lazymatch goal with
  | |- post (save_timestamps _) _ _ =>
      let w' := fresh "w" in
      let Hs := fresh "Hsaved" in
      let Hf := fresh "Hf" in
      apply wp_save_timestamps_disk; intros w' Hs Hf;
      apply (orderly_mono background ok) in Hf; [|by intros []];
      assert (orderly ok w0 w')
        by (eapply orderly_trans; [| exact Hf]; orderly_solve);
      clear Hf; cbv beta iota
  end.

Ltac qp_use ok w0 L :=
  let w' := fresh "w" in
  let Hf := fresh "Hf" in
  eapply wp_mono; [apply L | cbv beta; intros ? w' [-> Hf]; cbv beta iota];
  assert (orderly ok w0 w') by (eapply orderly_trans; [| exact Hf]; orderly_solve);
  clear Hf.

Ltac qp_all ok w0 := repeat (first [wp_prim | qp_save ok w0 | wp_branch]).

Ltac done_orderly := split; [reflexivity | orderly_solve].

Section Orderly2.
Context `{Runtime}.

Lemma update_playback_progress_orderly e force w :
  post (update_playback_progress e force) w
    (fun r w' => r = Ret tt /\ orderly background w w').
Proof. unfold update_playback_progress. qp_all background w; done_orderly. Qed.

Lemma save_current_vlc_timestamp_orderly e w :
  post (save_current_vlc_timestamp e) w
    (fun r w' => r = Ret tt /\ orderly background w w').
Proof. unfold save_current_vlc_timestamp. qp_all background w; done_orderly. Qed.

Lemma periodic_save_timestamp_orderly e w :
  post (periodic_save_timestamp e) w
    (fun r w' => r = Ret tt /\ orderly background w w').
Proof.
  unfold periodic_save_timestamp. qp_all background w; try done_orderly.
  qp_use background w save_current_vlc_timestamp_orderly.
  qp_all background w; done_orderly.
Qed.

Lemma update_all_cards_display_orderly e w :
  post (update_all_cards_display e) w
    (fun r w' => r = Ret tt /\ orderly background w w').
Proof.
  unfold update_all_cards_display, set_item.
  qp_all background w; try done_orderly.
  all: try (exfalso; simplify_map_eq; done).
Qed.

Lemma background_silent ok w w' :
  ok = silent \/ ok = every_event ->
  orderly background w w' -> orderly ok w w'.
Proof.
  intros [-> | ->]; apply orderly_mono; by intros [].
Qed.

Lemma skip_time_orderly e ms w :
  post (skip_time e ms) w (fun r w' => r = Ret tt /\ orderly silent w w').
Proof.
  unfold skip_time, update_playback_progress.
  qp_all silent w; done_orderly.
Qed.

Lemma change_playback_speed_orderly e s w :
  post (change_playback_speed e s) w
    (fun r w' => r = Ret tt /\ orderly silent w w').
Proof. unfold change_playback_speed. qp_all silent w; done_orderly. Qed.

Lemma speed_menu_select_orderly e s w :
  post (speed_menu_select e s) w
    (fun r w' => r = Ret tt /\ orderly silent w w').
Proof.
  unfold speed_menu_select. qp_all silent w.
  qp_use silent w change_playback_speed_orderly. done_orderly.
Qed.

Lemma wait_for_duration_orderly e n : forall i d w,
  post (wait_for_duration e n i d) w
    (fun r w' => (exists d', r = Ret d') /\ orderly silent w w').
Proof.
  induction n as [|n IH]; intros i d w; cbn [wait_for_duration].
  - qp_all silent w. split; [eauto | orderly_solve].
  - qp_all silent w; try (split; [eauto | orderly_solve]).
    eapply wp_mono; [apply IH|]. cbv beta. intros r w' [Hr Hf].
    split; [done|]. eapply orderly_trans; [|exact Hf]. orderly_solve.
Qed.

Lemma restore_vlc_state_orderly e w :
  post (_restore_vlc_state e) w
    (fun r w' => r = Ret tt /\ orderly silent w w').
Proof.
  unfold _restore_vlc_state. qp_all silent w; try done_orderly.
  eapply wp_mono; [apply wait_for_duration_orderly|]. cbv beta.
  intros r w' [[d ->] Hf]. cbv beta iota.
  qp_all silent w; try done_orderly.
  all: try (qp_use silent w change_playback_speed_orderly; done_orderly).
Qed.

Lemma save_current_vlc_timestamp_silent e w :
  post (save_current_vlc_timestamp e) w
    (fun r w' => r = Ret tt /\ orderly silent w w').
Proof.
  eapply wp_mono; [apply save_current_vlc_timestamp_orderly|].
  cbv beta. intros r w' [-> Ho]. split; [done|].
  apply background_silent; auto.
Qed.

Lemma update_playback_progress_silent e force w :
  post (update_playback_progress e force) w
    (fun r w' => r = Ret tt /\ orderly silent w w').
Proof.
  eapply wp_mono; [apply update_playback_progress_orderly|].
  cbv beta. intros r w' [-> Ho]. split; [done|].
  apply background_silent; auto.
Qed.

Lemma on_media_slider_release_orderly e w :
  post (on_media_slider_release e) w
    (fun r w' => r = Ret tt /\ orderly silent w w').
Proof.
  unfold on_media_slider_release. qp_all silent w; try done_orderly.
  - qp_use silent w update_playback_progress_silent. qp_all silent w.
    + qp_use silent w save_current_vlc_timestamp_silent. done_orderly.
    + done_orderly.
  - qp_use silent w update_playback_progress_silent. done_orderly.
Qed.

Lemma render_pdf_page_orderly e i w :
  post (render_pdf_page e i) w (fun r w' => r = Ret tt /\ orderly silent w w').
Proof. unfold render_pdf_page. qp_all silent w; done_orderly. Qed.

Lemma pdf_next_page_orderly e w :
  post (pdf_next_page e) w (fun r w' => r = Ret tt /\ orderly silent w w').
Proof.
  unfold pdf_next_page. qp_all silent w; [|done_orderly].
  qp_use silent w render_pdf_page_orderly. done_orderly.
Qed.

Lemma pdf_previous_page_orderly e w :
  post (pdf_previous_page e) w (fun r w' => r = Ret tt /\ orderly silent w w').
Proof.
  unfold pdf_previous_page. qp_all silent w; [|done_orderly].
  qp_use silent w render_pdf_page_orderly. done_orderly.
Qed.

Lemma zoom_to_orderly e step w :
  In step PDF_ZOOM_STEPS ->
  post (zoom_to e step) w (fun r w' => r = Ret tt /\ orderly silent w w').
Proof.
  intros Hin. unfold zoom_to. qp_all silent w.
  eapply wp_mono; [apply render_pdf_page_orderly|]. cbv beta.
  intros r w' [-> Hf]. split; [done|].
  eapply orderly_trans; [|exact Hf]. orderly_leaf.
Qed.

Lemma pdf_zoom_in_orderly e w :
  post (pdf_zoom_in e) w (fun r w' => r = Ret tt /\ orderly silent w w').
Proof.
  unfold pdf_zoom_in. qp_all silent w; try done_orderly.
  - apply zoom_to_orderly. by eapply lookup_In.
  - apply zoom_to_orderly.
    match goal with Hf : find _ _ = Some _ |- _ => by apply find_some in Hf as [? _] end.
Qed.

Lemma pdf_zoom_out_orderly e w :
  post (pdf_zoom_out e) w (fun r w' => r = Ret tt /\ orderly silent w w').
Proof.
  unfold pdf_zoom_out. qp_all silent w; try done_orderly.
  - apply zoom_to_orderly. by eapply lookup_In.
  - apply zoom_to_orderly.
    match goal with
    | Hf : find _ _ = Some _ |- _ => apply find_some in Hf as [Hin _]
    end.
    by apply in_rev in Hin.
Qed.

End Orderly2.

Section OrderlyClick.
Context `{Runtime}.

Lemma stop_player_orderly e w :
  post (stop_player e) w (fun r w' => r = Ret tt /\ orderly silent w w').
Proof.
  unfold stop_player. qp_all silent w; try done_orderly.
  qp_use silent w save_current_vlc_timestamp_silent.
  qp_all silent w. done_orderly.
Qed.

Lemma close_document_orderly w :
  post close_document w (fun _ w' => orderly silent w w').
Proof.
  unfold close_document, set_item. wp_reads.
  destruct (pdf_doc (self w)) as [d|]; [|cbn [truthy]; wp_prim; orderly_solve].
  qp_all silent w; orderly_solve.
Qed.

Lemma stop_and_save_orderly e w :
  post (stop_and_save_current_media e) w (fun _ w' => orderly silent w w').
Proof.
  unfold stop_and_save_current_media. apply wp_bind.
  qp_use silent w stop_player_orderly. apply wp_bind.
  eapply wp_mono; [apply close_document_orderly|]. cbv beta.
  intros r w1 Hf.
  assert (orderly silent w w1) by (by eapply orderly_trans).
  destruct r; [|done]. wp_prim. orderly_solve.
Qed.

Lemma stop_player_not_playing e w :
  playing_loaded w ->
  post (stop_player e) w (fun _ w' => is_vlc_playing (self w') = false).
Proof.
  intros Hinv. unfold stop_player, save_current_vlc_timestamp.
  qp_all silent w; try done.
  destruct (is_vlc_playing (self w)) eqn:Hp; [|done].
  destruct (Hinv Hp) as [Hplayer Hpath].
  match goal with
  | Hb : _ && _ = false |- _ =>
      rewrite Hplayer, bool_decide_eq_true_2 in Hb by done; discriminate
  end.
Qed.

Lemma close_document_keeps_playing w :
  post close_document w
    (fun _ w' => is_vlc_playing (self w') = is_vlc_playing (self w)).
Proof.
  unfold close_document, set_item. wp_reads.
  destruct (pdf_doc (self w)) as [d|]; [|cbn [truthy]; by wp_prim].
  qp_all silent w; try done.
  all: destruct Hsaved as (Hs & _); by rewrite Hs.
Qed.

Lemma stop_and_save_not_playing e w :
  playing_loaded w ->
  post (stop_and_save_current_media e) w
    (fun _ w' => is_vlc_playing (self w') = false).
Proof.
  intros Hinv. unfold stop_and_save_current_media. apply wp_bind.
  eapply wp_mono;
    [apply (post_and _ _ _ _ (stop_player_orderly e w)
              (stop_player_not_playing e w Hinv))|].
  cbv beta. intros r w1 [[-> _] Hnp]. cbv beta iota. apply wp_bind.
  eapply wp_mono; [apply close_document_keeps_playing|]. cbv beta.
  intros r w2 Hk. rewrite Hnp in Hk. destruct r; [|done]. by wp_prim.
Qed.

Lemma load_vlc_media_orderly e p w :
  is_vlc_playing (self w) = false ->
  post (load_vlc_media e p) w (fun _ w' => orderly every_event w w').
Proof.
  intros Hnp. unfold load_vlc_media. wp_reads.
  destruct (vlc_player (self w)) eqn:Hplayer; cbn [negb orb].
  2: { qp_all every_event w. orderly_solve. }
  qp_all every_event w.
  all: constructor;
    [ proj_simpl; extends_tac | proj_simpl; same_tac | zoom_tac | | disk_tac ].
  all: unfold playing_loaded; proj_simpl; intros Hinv Hp;
    first [discriminate | congruence | (split; [done | by eexists])].
Qed.

Lemma load_pdf_media_orderly e p w :
  post (load_pdf_media e p) w (fun _ w' => orderly every_event w w').
Proof.
  unfold load_pdf_media, set_item. apply wp_try. wp_reads.
  destruct (pdf_doc (self w)) as [d|] eqn:Hdoc; cbn [truthy].
  - destruct (negb (doc_len d =? 0)) eqn:Hlen;
      repeat (first [ wp_prim | qp_save every_event w
                    | progress (rewrite ?Hdoc; cbn [truthy]; rewrite ?Hlen)
                    | wp_branch ]);
      orderly_solve.
  - repeat (first [ wp_prim | qp_save every_event w
                  | progress (rewrite ?Hdoc; cbn [truthy])
                  | wp_branch ]);
      orderly_solve.
Qed.

Lemma load_media_orderly e p w :
  is_vlc_playing (self w) = false ->
  post (load_media e p) w (fun _ w' => orderly every_event w w').
Proof.
  intros Hnp. unfold load_media.
  destruct (str_in (lower (suffix p)) SUPPORTED_VIDEO_EXT
            || str_in (lower (suffix p)) SUPPORTED_AUDIO_EXT).
  - wp_prim. wp_prim.
    eapply wp_mono; [by apply load_vlc_media_orderly|]. cbv beta.
    intros r w' Hf. eapply orderly_trans; [|exact Hf]. orderly_leaf.
  - destruct (str_in (lower (suffix p)) SUPPORTED_PDF_EXT).
    + wp_prim. wp_prim.
      eapply wp_mono; [apply load_pdf_media_orderly|]. cbv beta.
      intros r w' Hf. eapply orderly_trans; [|exact Hf]. orderly_leaf.
    + qp_all every_event w. orderly_solve.
Qed.

Lemma handle_media_click_orderly e p w :
  playing_loaded w ->
  post (handle_media_click e p) w (fun _ w' => orderly every_event w w').
Proof.
  intros Hinv. unfold handle_media_click. apply wp_bind.
  eapply wp_mono;
    [apply (post_and _ _ _ _ (stop_and_save_orderly e w)
              (stop_and_save_not_playing e w Hinv))|].
  cbv beta. intros r w1 [Ho Hnp].
  apply (orderly_mono silent every_event) in Ho; [|done].
  destruct r; [|done].
  eapply wp_mono; [by apply load_media_orderly|]. cbv beta.
  intros r w' Hf. by eapply orderly_trans.
Qed.

Lemma run_callback_orderly e cb w :
  post (run_callback e cb) w (fun _ w' => orderly silent w w').
Proof.
  assert (forall (c : prog unit),
            post c w (fun r w' => r = Ret tt /\ orderly background w w') ->
            post c w (fun _ w' => orderly silent w w')) as Hbg.
  { intros c Hc. eapply wp_mono; [exact Hc|]. cbv beta. intros r w' [_ Ho].
    apply background_silent; auto. }
  assert (forall (c : prog unit),
            post c w (fun r w' => r = Ret tt /\ orderly silent w w') ->
            post c w (fun _ w' => orderly silent w w')) as Hs.
  { intros c Hc. eapply wp_mono; [exact Hc|]. cbv beta. tauto. }
  destruct cb; cbn [run_callback].
  - apply Hs, restore_vlc_state_orderly.
  - wp_reads. apply Hs, render_pdf_page_orderly.
  - apply Hbg, periodic_save_timestamp_orderly.
  - apply Hbg, update_playback_progress_orderly.
  - apply Hbg, update_all_cards_display_orderly.
Qed.

Lemma run_command_orderly e c w :
  playing_loaded w ->
  post (run_command e c) w (fun _ w' => orderly every_event w w').
Proof.
  intros Hinv.
  assert (forall (c : prog unit),
            post c w (fun r w' => r = Ret tt /\ orderly silent w w') ->
            post c w (fun _ w' => orderly every_event w w')) as Hs.
  { intros c0 Hc. eapply wp_mono; [exact Hc|]. cbv beta. intros r w' [_ Ho].
    by apply (orderly_mono silent every_event). }
  destruct c; cbn [run_command].
  - by apply handle_media_click_orderly.
  - eapply wp_mono; [apply run_callback_orderly|]. cbv beta.
    intros r w' Ho. by apply (orderly_mono silent every_event).
  - apply Hs, skip_time_orderly.
  - apply Hs, speed_menu_select_orderly.
  - wp_prim. orderly_leaf.
  - apply Hs, on_media_slider_release_orderly.
  - apply Hs, pdf_next_page_orderly.
  - apply Hs, pdf_previous_page_orderly.
  - apply Hs, pdf_zoom_in_orderly.
  - apply Hs, pdf_zoom_out_orderly.
Qed.

Lemma run_sound before script : forall w,
  sound before w -> sound before (run script w).
Proof.
  induction script as [|[e c] script IH]; intros w Hw; [done|].
  cbn [run]. apply IH.
  pose proof (run_command_orderly e c w (sd_playing _ _ Hw)) as Ho.
  apply post_exec in Ho. by eapply orderly_sound.
Qed.

Lemma init_sound library ts vlc_ok disk plan :
  sound (disk !! path_str (timestamps_file (init_app library ts vlc_ok)))
    (init_world library ts vlc_ok disk plan).
Proof.
  constructor.
  - unfold zoom_on_step. cbn.
    repeat first [left; reflexivity | right].
  - intros Hp. discriminate.
  - by left.
  - repeat constructor.
Qed.

Lemma session_sound library ts vlc_ok disk plan script :
  sound (disk !! path_str (timestamps_file (init_app library ts vlc_ok)))
    (session library ts vlc_ok disk plan script).
Proof. apply run_sound, init_sound. Qed.

End OrderlyClick.

Section StoreErrors.
Context `{Runtime}.

Lemma wp_next_fault w (Q : result io_fault -> world -> Prop) :
  Q (Ret (hd no_fault (io_plan w))) (put_io_plan (tl (io_plan w)) w) ->
  post next_fault w Q.
Proof.
  unfold post, next_fault. destruct w as [a m d l plan t].
  by destruct plan.
Qed.

Lemma post_value {A} (c : prog A) w (P : A -> world -> Prop) :
  post c w (fun r w' => exists v, r = Ret v /\ P v w') ->
  exists v w', c w = (Ret v, w') /\ P v w'.
Proof.
  unfold post. destruct (c w) as [r w']. cbn. intros (v & -> & HP). eauto.
Qed.

(** [load_timestamps] once the question whether the store file exists has
    been answered. *)
Lemma load_timestamps_answered (w : world) :
  let store := path_str (timestamps_file (self w)) in
  let io := hd no_fault (io_plan w) in
  let failed :=
    [EvShowError "Timestamp Load Error";
     EvLogError "Error loading timestamps file"] in
  exists v w',
    load_timestamps w = (Ret v, w')
    /\ self w' = self w /\ fs w' = fs w
    /\ (fs w !! store = None -> v = JDict ∅ /\ trace w' = trace w)
    /\ (forall text j,
          fs w !! store = Some text -> fault io <> ReadFails ->
          json_loads text = Some j -> is_Some (py_len j) ->
          v = j /\ trace w' = trace w)
    /\ (forall text,
          fs w !! store = Some text ->
          fault io = ReadFails \/ json_loads text = None
          \/ (exists j, json_loads text = Some j /\ py_len j = None) ->
          v = JDict ∅ /\ trace w' = (failed ++ trace w)%list).
Proof.
  intros store io failed. subst store io failed.
  apply post_value. unfold load_timestamps, fs_exists.
  apply wp_bind, wp_get. cbv beta iota.
  apply wp_bind. apply wp_bind, wp_gets. cbv beta iota. apply wp_ret.
  cbv beta iota.
  destruct (fs w !! path_str (timestamps_file (self w))) as [text|] eqn:Hfile.
  2: { rewrite bool_decide_eq_false_2 by (intros [? ?]; done).
       wp_prim. eexists. split; [reflexivity|]. repeat split; try done. }
  rewrite bool_decide_eq_true_2 by eauto.
  apply wp_try, wp_bind, wp_next_fault. cbv beta iota.
  unfold fs_read. set (io := hd no_fault (io_plan w)).
  destruct (fault io) eqn:Hfault.
  6: { repeat wp_prim. eexists. split; [reflexivity|].
       split; [done|]. split; [done|]. split; [done|].
       split; [intros ? ? [= <-] ?; done|]. done. }
  all: apply wp_bind; apply wp_bind, wp_gets; cbv beta iota; proj_simpl;
    rewrite Hfile; wp_prim.
  all: destruct (json_loads text) as [j|] eqn:Hj;
    [destruct (py_len j) as [n|] eqn:Hl|].
  all: repeat wp_prim.
  all: eexists; (split; [reflexivity|]).
  all: split; [done|]; split; [done|]; split; [done|].
  all: split;
    [ intros text' j' [= <-] _ Hj' Hl';
      try congruence;
      try (rewrite Hj in Hj'; injection Hj' as <-);
      try done; try (rewrite Hl in Hl'; by destruct Hl')
    | intros text' [= <-] [Hc|[Hc|(j' & Hj' & Hl')]];
      try done; try congruence ].
Qed.

(** X1.  [load_timestamps], the question [self.timestamps_file.exists()]
    before its [try] included.  When the question itself raises ([stat()]
    fails for another reason than a missing file), the [OSError] is raised
    to the caller and nothing has changed.  When it is answered, the call
    returns and changes neither the object nor the disk: without a store
    file it answers the empty dictionary and tells nobody; with a file that
    is read, is JSON and whose value has a length, it answers that value as
    it is; with a file that cannot be read, is not JSON, or whose value has
    no length, it answers the empty dictionary after logging the error and
    showing the dialog "Timestamp Load Error". *)
Theorem load_timestamps_outcomes (stat_fails : bool) (w : world) :
  let store := path_str (timestamps_file (self w)) in
  let io := hd no_fault (io_plan w) in
  let failed :=
    [EvShowError "Timestamp Load Error";
     EvLogError "Error loading timestamps file"] in
  exists r w',
    Stat.load_timestamps stat_fails w = (r, w')
    /\ self w' = self w /\ fs w' = fs w
    /\ if stat_fails then r = Raise OSError /\ w' = w
       else exists v,
         r = Ret v
         /\ (fs w !! store = None -> v = JDict ∅ /\ trace w' = trace w)
         /\ (forall text j,
               fs w !! store = Some text -> fault io <> ReadFails ->
               json_loads text = Some j -> is_Some (py_len j) ->
               v = j /\ trace w' = trace w)
         /\ (forall text,
               fs w !! store = Some text ->
               fault io = ReadFails \/ json_loads text = None
               \/ (exists j, json_loads text = Some j /\ py_len j = None) ->
               v = JDict ∅ /\ trace w' = (failed ++ trace w)%list).
Proof.
  intros store io failed. destruct stat_fails.
  - exists (Raise OSError), w. repeat split; reflexivity.
  - destruct (load_timestamps_answered w) as (v & w' & E & Hs & Hf & Hcases).
    exists (Ret v), w'. split; [exact E|]. split; [done|]. split; [done|].
    exists v. split; [reflexivity|]. exact Hcases.
Qed.

End StoreErrors.

Section SelectionErrors.
Context `{Runtime}.


End SelectionErrors.

Section SelectionErrorsExamples.
Import Small Demo.


End SelectionErrorsExamples.

Section MediaClick.
Context `{Runtime}.

Lemma load_vlc_media_outcome e p u :
  post (load_vlc_media e p) u (fun r u' =>
    r = Ret tt
    /\ pdf_doc (self u') = pdf_doc (self u)
    /\ docs_open (trace u') = docs_open (trace u)
    /\ timestamps (self u') = timestamps (self u)
    /\ fs u' = fs u
    /\ (vlc_player (self u) && vlc_instance (self u) = false ->
        trace u' = EvShowError "Playback Error"
                     :: EvLogError "VLC not initialized, cannot play media."
                     :: trace u
        /\ self u' = self u /\ player_media u' = player_media u)
    /\ (vlc_player (self u) && vlc_instance (self u) = true ->
        media_new_ok e = true -> play_result e <> -1 ->
        player_media u' = Some p
        /\ current_vlc_media_path (self u') = Some p
        /\ is_vlc_playing (self u') = true
        /\ hd_error (trace u') = Some (EvAfter 300 restore_vlc_state_cb)
        /\ dialogs (trace u') = dialogs (trace u)
        /\ view (self u')
           = match active_media_type (self u) with
             | Some video => Some (if set_output_ok e then video else audio)
             | Some audio => Some audio
             | _ => view (self u)
             end)
    /\ (vlc_player (self u) && vlc_instance (self u) = true ->
        media_new_ok e = false \/ play_result e = -1 ->
        current_vlc_media_path (self u') = None
        /\ view (self u') = None
        /\ (is_vlc_playing (self u) = false -> is_vlc_playing (self u') = false)
        /\ hd_error (trace u') = Some (EvShowError "Playback Error"))).
Proof.
  unfold load_vlc_media. wp_reads.
  destruct (vlc_player (self u)) eqn:Hplayer, (vlc_instance (self u)) eqn:Hinst;
    cbn [negb orb andb].
  2-4: wp_all u; repeat split; try done.
  wp_all u.
  all: repeat match goal with
       | Hb : (_ =? _) = true |- _ => apply Z.eqb_eq in Hb
       | Hb : (_ =? _) = false |- _ => apply Z.eqb_neq in Hb
       end.
  all: split; [reflexivity|]. all: split; [reflexivity|].
  all: split; [reflexivity|]. all: split; [reflexivity|].
  all: split; [reflexivity|]. all: split; [intros [=]|].
  all: split;
    [ intros _ Hnew Hplay; first [congruence | repeat split; try reflexivity ]
    | intros _ [Hnew|Hplay]; first [congruence | repeat split; try done] ].
  all: try (unfold dialogs; cbn [rev]; rewrite ?omap_app; cbn [omap];
            rewrite ?app_nil_r; reflexivity).
  all: by destruct (set_output_ok e).
Qed.



End MediaClick.

Section MediaClickExamples.
Import Small Demo.


End MediaClickExamples.

Section Sessions.
Context `{Runtime}.

Lemma run_orderly script : forall w,
  playing_loaded w -> orderly every_event w (run script w).
Proof.
  induction script as [|[e c] script IH]; intros w Hw; cbn [run].
  - apply orderly_refl.
  - pose proof (run_command_orderly e c w Hw) as Ho. apply post_exec in Ho.
    eapply orderly_trans; [exact Ho|]. apply IH. by apply (od_playing _ _ _ Ho).
Qed.

(** X4.  Whatever the commands, the answers of the engines and the failures
    of the file system, every content the disk goes through during a session
    (the contents an interruption can leave behind) has, under the path of
    the store file, either what the file held when the application started
    or the complete text of a dictionary: the store file is never partly
    written. *)
Theorem store_file_never_partial
  (library : string) (ts : gmap string json) (vlc_ok : bool)
  (disk : gmap string string) (plan : list io_fault)
  (script : list (env * command)) :
  let w := session library ts vlc_ok disk plan script in
  let store := path_str (timestamps_file (init_app library ts vlc_ok)) in
  library_path (self w) = library
  /\ Forall (fun d => d !! store = disk !! store
                      \/ exists ts', d !! store = Some (json_dumps ts'))
       (fs w :: disk_log w).
Proof.
  intros w store.
  pose proof (session_sound library ts vlc_ok disk plan script) as Hs.
  fold w store in Hs.
  assert (library_path (self w) = library) as Hlib.
  { unfold w, session.
    rewrite (od_library _ _ _ (run_orderly script _
               (sd_playing _ _ (init_sound library ts vlc_ok disk plan)))).
    reflexivity. }
  split; [done|].
  assert (store_path w = store) as Hstore.
  { unfold store_path, store, timestamps_file. by rewrite Hlib. }
  destruct Hs as [_ _ Hfs Hlog]. rewrite Hstore in Hfs, Hlog.
  by constructor.
Qed.

Lemma index_of_In (z : Q) (l : list Q) : In z l -> is_Some (index_of z l).
Proof.
  induction l as [|x l IH]; [done|]. cbn [index_of]. intros [-> | Hin].
  - rewrite (proj2 (Qeq_bool_iff z z)) by reflexivity. eauto.
  - destruct (Qeq_bool x z); [eauto|]. destruct (IH Hin) as [i ->]. by eexists.
Qed.

(** X5.  In every session the zoom level is one of the steps of
    [PDF_ZOOM_STEPS], so the lookup [PDF_ZOOM_STEPS.index(zoom)] of the zoom
    commands always finds it: their fallback for a zoom level off the steps
    is never taken. *)
Theorem zoom_always_on_a_step
  (library : string) (ts : gmap string json) (vlc_ok : bool)
  (disk : gmap string string) (plan : list io_fault)
  (script : list (env * command)) :
  let w := session library ts vlc_ok disk plan script in
  In (pdf_zoom_level (self w)) PDF_ZOOM_STEPS
  /\ is_Some (index_of (pdf_zoom_level (self w)) PDF_ZOOM_STEPS).
Proof.
  intros w.
  pose proof (sd_zoom _ _ (session_sound library ts vlc_ok disk plan script))
    as Hz.
  split; [exact Hz|]. by apply index_of_In.
Qed.

Lemma extends_silent_dialogs t t' :
  extends_by silent t t' -> dialogs t' = dialogs t.
Proof.
  induction 1 as [|ev t' Hev _ IH]; [done|].
  unfold dialogs in *. cbn [rev]. rewrite omap_app, IH.
  destruct ev; try discriminate; cbn; by rewrite app_nil_r.
Qed.

(** X6.  Only a selection opens a dialog: every other command -- the timers,
    the deferred calls, the transport and the page and zoom commands --
    leaves the dialogs as they were, from any state, whatever the engines
    and the file system answer; their failures are only logged. *)
Theorem only_selection_opens_dialogs (e : env) (c : command) (w : world) :
  is_click c = false ->
  dialogs (trace (exec (run_command e c) w)) = dialogs (trace w).
Proof.
  intros Hc. apply extends_silent_dialogs.
  assert (forall (c : prog unit),
            post c w (fun r w' => r = Ret tt /\ orderly silent w w') ->
            extends_by silent (trace w) (trace (exec c w))) as Hs.
  { intros c0 Hc0. apply post_exec in Hc0. destruct Hc0 as [_ Ho].
    apply (od_trace _ _ _ Ho). }
  destruct c; try discriminate; cbn [run_command].
  - pose proof (run_callback_orderly e cb w) as Ho. apply post_exec in Ho.
    apply (od_trace _ _ _ Ho).
  - apply Hs, skip_time_orderly.
  - apply Hs, speed_menu_select_orderly.
  - constructor.
  - apply Hs, on_media_slider_release_orderly.
  - apply Hs, pdf_next_page_orderly.
  - apply Hs, pdf_previous_page_orderly.
  - apply Hs, pdf_zoom_in_orderly.
  - apply Hs, pdf_zoom_out_orderly.
Qed.

(** X7.  In a session started from a dictionary whose entries are records,
    every command other than a selection returns normally, and so does a
    selection made while no document is open or while the file system has
    no fault left to answer with.  (The selection is the one command that
    saves outside any [try]: with a document open,
    [stop_and_save_current_media] saves the page and the zoom, and a save
    that fails can leave it with the [OSError] of [temp_file.exists()], as
    [Stat.save_timestamps] has it.) *)
Theorem handlers_return_normally
  (library : string) (ts : gmap string json) (vlc_ok : bool)
  (disk : gmap string string) (plan : list io_fault)
  (script : list (env * command)) (e : env) (c : command) :
  store_okb ts = true ->
  let w := session library ts vlc_ok disk plan script in
  (is_click c = true -> pdf_doc (self w) = None \/ io_plan w = []) ->
  fst (run_command e c w) = Ret tt.
Proof.
  intros Hts w _.
  pose proof (session_consistent library ts vlc_ok disk plan script Hts) as Hw.
  pose proof (run_command_consistent e c _ Hw) as Hc.
  unfold post in Hc. tauto.
Qed.

Lemma timer_tail (c : prog unit) (ev : event) w :
  post (c ;; emit ev) w
    (fun r w' => r = Ret tt -> hd_error (trace w') = Some ev).
Proof.
  unfold post, bind, emit, modify. destruct (c w) as [[[]|ex] w1]; cbn; auto.
  discriminate.
Qed.

(** X8.  Each of the two timers of the player (the periodic save, the
    refresh of the progress slider), from any state and whatever the engines
    and the file system answer: returns normally, re-arms itself with its
    period as its last action, and causes nothing but lines of the log -- no
    dialog and no command to an engine -- and leaves the loaded media, the
    open document and its page as they are. *)
Theorem timers_rearm_quietly (e : env) (cb : callback) (ms : Z) (w : world) :
  timer_period cb = Some ms ->
  let w' := exec (run_callback e cb) w in
  fst (run_callback e cb w) = Ret tt
  /\ hd_error (trace w') = Some (EvAfter ms cb)
  /\ extends_by background (trace w) (trace w')
  /\ player_media w' = player_media w
  /\ current_vlc_media_path (self w') = current_vlc_media_path (self w)
  /\ pdf_doc (self w') = pdf_doc (self w)
  /\ pdf_current_page_index (self w') = pdf_current_page_index (self w)
  /\ pdf_zoom_level (self w') = pdf_zoom_level (self w).
Proof.
  intros Hcb w'.
  assert (post (run_callback e cb) w (fun r w' =>
            (r = Ret tt /\ orderly background w w')
            /\ (r = Ret tt /\ frame w w')
            /\ (r = Ret tt -> hd_error (trace w') = Some (EvAfter ms cb))
            /\ pdf_current_page_index (self w') = pdf_current_page_index (self w)
            /\ pdf_zoom_level (self w') = pdf_zoom_level (self w))) as Hpost.
  { destruct cb; try discriminate; injection Hcb as <-; cbn [run_callback].
    - apply post_and; [apply periodic_save_timestamp_orderly|].
      apply post_and; [apply periodic_save_timestamp_frame|].
      apply post_and.
      + unfold periodic_save_timestamp. wp_reads. apply timer_tail.
      + unfold periodic_save_timestamp, save_current_vlc_timestamp.
        wp_all w; try done.
        all: destruct Hsaved as (Hs & _); by rewrite Hs.
    - apply post_and; [apply update_playback_progress_orderly|].
      apply post_and; [apply update_playback_progress_frame|].
      apply post_and.
      + unfold update_playback_progress. wp_reads. apply timer_tail.
      + unfold update_playback_progress. wp_all w; done. }
  apply post_exec in Hpost. fold w' in Hpost.
  destruct Hpost as ([Hr Ho] & [_ Hf] & Hhd & Hi & Hz).
  split; [done|]. split; [by apply Hhd|].
  split; [apply (od_trace _ _ _ Ho)|].
  split; [apply (fr_media _ _ Hf)|].
  split; [apply (fr_vpath _ _ Hf)|].
  split; [apply (fr_doc _ _ Hf)|]. done.
Qed.

End Sessions.

Section SessionExamples.
Import Small Demo.

Lemma only_selection_opens_dialogs_witness :
  dialogs (trace (exec (run_command (engines Error 0 0 None) SliderRelease)
                    w_playing))
  = dialogs (trace w_playing).
Proof.
  apply (only_selection_opens_dialogs (engines Error 0 0 None) SliderRelease
           w_playing). reflexivity.
Defined.

Lemma handlers_return_normally_witness :
  pdf_doc (self (session library stored true ∅ [] zooming_script)) <> None
  /\ fst (run_command (engines Playing 5000 100000 (Some 5)) (Click a_mp4)
            (session library stored true ∅ [] zooming_script)) = Ret tt.
Proof.
  split; [by vm_compute|].
  apply (handlers_return_normally library stored true ∅ [] zooming_script
           (engines Playing 5000 100000 (Some 5)) (Click a_mp4)).
  - reflexivity.
  - intros _. right. reflexivity.
Defined.

Lemma timers_rearm_quietly_witness :
  hd_error (trace (exec (run_callback (engines Playing 5000 100000 None)
                           periodic_save_timestamp_cb) w_playing))
  = Some (EvAfter 5000 periodic_save_timestamp_cb).
Proof.
  apply (timers_rearm_quietly (engines Playing 5000 100000 None)
           periodic_save_timestamp_cb 5000 w_playing). reflexivity.
Defined.

End SessionExamples.

Section Viewer.
Context `{Runtime}.

Lemma render_keeps_zoom e i w :
  post (render_pdf_page e i) w (fun r w' =>
    r = Ret tt
    /\ pdf_zoom_level (self w') = pdf_zoom_level (self w)
    /\ pdf_doc (self w') = pdf_doc (self w)
    /\ pdf_page_count (self w') = pdf_page_count (self w)).
Proof. unfold render_pdf_page. wp_all w; done. Qed.

Lemma zoom_to_sets e step w :
  post (zoom_to e step) w (fun r w' =>
    r = Ret tt
    /\ pdf_zoom_level (self w') = step
    /\ pdf_doc (self w') = pdf_doc (self w)).
Proof.
  unfold zoom_to. repeat wp_prim.
  eapply wp_mono; [apply render_keeps_zoom|]. cbv beta.
  intros r w' (-> & Hz & Hd & _). proj_simpl. done.
Qed.

Lemma index_of_lookup (z : Q) (l : list Q) : forall i,
  index_of z l = Some i -> exists x, l !! i = Some x /\ (x == z)%Q.
Proof.
  induction l as [|a l IH]; intros i; [done|]. cbn [index_of].
  destruct (Qeq_bool a z) eqn:Ha.
  - intros [= <-]. exists a. split; [done|]. by apply Qeq_bool_iff.
  - destruct (index_of z l) as [j|]; [|done]. intros [= <-].
    destruct (IH j eq_refl) as (x & Hx & Hq). by exists x.
Qed.

Lemma zoom_step_index (i : nat) (step : Q) :
  PDF_ZOOM_STEPS !! i = Some step -> index_of step PDF_ZOOM_STEPS = Some i.
Proof.
  do 10 (destruct i as [|i]; [intros [= <-]; reflexivity|]). done.
Qed.

Lemma pdf_zoom_in_step e w i :
  truthy (pdf_doc (self w)) = true ->
  index_of (pdf_zoom_level (self w)) PDF_ZOOM_STEPS = Some i ->
  (S i < length PDF_ZOOM_STEPS)%nat ->
  let w1 := exec (pdf_zoom_in e) w in
  PDF_ZOOM_STEPS !! S i = Some (pdf_zoom_level (self w1))
  /\ pdf_doc (self w1) = pdf_doc (self w).
Proof.
  intros Hdoc Hidx Hlt.
  apply (post_exec (pdf_zoom_in e) w
           (fun _ w1 => PDF_ZOOM_STEPS !! S i = Some (pdf_zoom_level (self w1))
                        /\ pdf_doc (self w1) = pdf_doc (self w))).
  unfold pdf_zoom_in. wp_reads. rewrite Hdoc. wp_reads. rewrite Hidx.
  assert ((i <? length PDF_ZOOM_STEPS - 1)%nat = true) as ->
    by (apply Nat.ltb_lt; lia).
  destruct (PDF_ZOOM_STEPS !! S i) as [step|] eqn:Hstep.
  - eapply wp_mono; [apply zoom_to_sets|]. cbv beta.
    intros r w1 (_ & -> & Hd). done.
  - apply lookup_ge_None in Hstep. lia.
Qed.

Lemma pdf_zoom_out_step e w i :
  truthy (pdf_doc (self w)) = true ->
  index_of (pdf_zoom_level (self w)) PDF_ZOOM_STEPS = Some (S i) ->
  let w1 := exec (pdf_zoom_out e) w in
  PDF_ZOOM_STEPS !! i = Some (pdf_zoom_level (self w1))
  /\ pdf_doc (self w1) = pdf_doc (self w).
Proof.
  intros Hdoc Hidx.
  apply (post_exec (pdf_zoom_out e) w
           (fun _ w1 => PDF_ZOOM_STEPS !! i = Some (pdf_zoom_level (self w1))
                        /\ pdf_doc (self w1) = pdf_doc (self w))).
  unfold pdf_zoom_out. wp_reads. rewrite Hdoc. wp_reads. rewrite Hidx.
  cbn [Nat.ltb Nat.leb Nat.pred].
  destruct (index_of_lookup _ _ _ Hidx) as (x & Hx & _).
  destruct (PDF_ZOOM_STEPS !! i) as [step|] eqn:Hstep.
  - eapply wp_mono; [apply zoom_to_sets|]. cbv beta.
    intros r w1 (_ & -> & Hd). done.
  - apply lookup_ge_None in Hstep. apply lookup_lt_Some in Hx. lia.
Qed.

(** X9.  With a document open and the zoom on step [i] of
    [PDF_ZOOM_STEPS]: zooming in moves to step [i+1] (when there is one)
    and zooming out then comes back to the zoom one started from; zooming
    out moves to step [i-1] (when there is one) and zooming in then comes
    back.  This holds whether or not the page can be rendered. *)
Theorem zoom_in_and_out_are_inverse (e e' : env) (w : world) (i : nat) :
  truthy (pdf_doc (self w)) = true ->
  index_of (pdf_zoom_level (self w)) PDF_ZOOM_STEPS = Some i ->
  ((S i < length PDF_ZOOM_STEPS)%nat ->
   let w1 := exec (pdf_zoom_in e) w in
   let w2 := exec (pdf_zoom_out e') w1 in
   PDF_ZOOM_STEPS !! S i = Some (pdf_zoom_level (self w1))
   /\ (pdf_zoom_level (self w2) == pdf_zoom_level (self w))%Q)
  /\ ((0 < i)%nat ->
      let w1 := exec (pdf_zoom_out e) w in
      let w2 := exec (pdf_zoom_in e') w1 in
      PDF_ZOOM_STEPS !! Nat.pred i = Some (pdf_zoom_level (self w1))
      /\ (pdf_zoom_level (self w2) == pdf_zoom_level (self w))%Q).
Proof.
  intros Hdoc Hidx.
  destruct (index_of_lookup _ _ _ Hidx) as (x & Hx & Hq). split.
  - intros Hlt w1 w2.
    destruct (pdf_zoom_in_step e w i Hdoc Hidx Hlt) as [H1 Hd1]. fold w1 in H1, Hd1.
    split; [done|].
    assert (truthy (pdf_doc (self w1)) = true) as Hdoc1 by (by rewrite Hd1).
    destruct (pdf_zoom_out_step e' w1 i Hdoc1 (zoom_step_index _ _ H1)) as [H2 _].
    fold w2 in H2. rewrite Hx in H2. injection H2 as <-. done.
  - intros Hpos w1 w2. destruct i as [|j]; [lia|]. cbn [Nat.pred].
    destruct (pdf_zoom_out_step e w j Hdoc Hidx) as [H1 Hd1]. fold w1 in H1, Hd1.
    split; [done|].
    assert (truthy (pdf_doc (self w1)) = true) as Hdoc1 by (by rewrite Hd1).
    apply lookup_lt_Some in Hx.
    destruct (pdf_zoom_in_step e' w1 j Hdoc1 (zoom_step_index _ _ H1) Hx)
      as [H2 _].
    fold w2 in H2.
    destruct (index_of_lookup _ _ _ Hidx) as (y & Hy & Hqy).
    rewrite Hy in H2. injection H2 as <-. done.
Qed.


Lemma render_pdf_page_effect e i w :
  truthy (pdf_doc (self w)) = true ->
  0 <= i < pdf_page_count (self w) ->
  render_pdf_page e i w
  = (Ret tt,
     if render_ok e
     then MkWorld (set_pdf_current_page_index i (self w)) (player_media w)
            (fs w) (disk_log w) (io_plan w)
            (EvRender i (pdf_zoom_level (self w)) :: trace w)
     else MkWorld (self w) (player_media w) (fs w) (disk_log w) (io_plan w)
            (EvLogError "Error rendering PDF page" :: trace w)).
Proof.
  intros Hdoc [Hlo Hhi]. apply post_eq.
  unfold render_pdf_page. wp_reads. rewrite Hdoc.
  rewrite (proj2 (Z.leb_le _ _) Hlo), (proj2 (Z.ltb_lt _ _) Hhi). cbn [andb].
  destruct (render_ok e); wp_all w; done.
Qed.

(** X10.  With a document open on a page that is not the last, and pages
    that render: next page shows the following page, and previous page then
    comes back to the page one started from. *)
Theorem next_then_previous_page (e e' : env) (w : world) :
  truthy (pdf_doc (self w)) = true ->
  0 <= pdf_current_page_index (self w) < pdf_page_count (self w) - 1 ->
  render_ok e = true ->
  render_ok e' = true ->
  let w1 := exec (pdf_next_page e) w in
  let w2 := exec (pdf_previous_page e') w1 in
  pdf_current_page_index (self w1) = pdf_current_page_index (self w) + 1
  /\ hd_error (trace w1)
     = Some (EvRender (pdf_current_page_index (self w) + 1)
               (pdf_zoom_level (self w)))
  /\ pdf_current_page_index (self w2) = pdf_current_page_index (self w)
  /\ hd_error (trace w2)
     = Some (EvRender (pdf_current_page_index (self w))
               (pdf_zoom_level (self w))).
Proof.
  intros Hdoc Hidx Hok Hok' w1 w2.
  assert (pdf_next_page e w
          = render_pdf_page e (pdf_current_page_index (self w) + 1) w) as E1.
  { unfold pdf_next_page, bind, get, gets. cbn [fst snd]. rewrite Hdoc.
    by rewrite (proj2 (Z.ltb_lt _ _) (proj2 Hidx)). }
  rewrite render_pdf_page_effect, Hok in E1 by (done || lia).
  assert (w1 = snd (pdf_next_page e w)) as Hw1 by reflexivity.
  rewrite E1 in Hw1. cbn [snd] in Hw1.
  assert (pdf_previous_page e' w1
          = render_pdf_page e' (pdf_current_page_index (self w1) - 1) w1) as E2.
  { unfold pdf_previous_page, bind, get, gets. cbn [fst snd].
    rewrite Hw1. proj_simpl. rewrite Hdoc.
    assert ((0 <? pdf_current_page_index (self w) + 1) = true) as ->
      by (apply Z.ltb_lt; lia). done. }
  rewrite render_pdf_page_effect, Hok' in E2
    by (rewrite Hw1; proj_simpl; done || lia).
  assert (w2 = snd (pdf_previous_page e' w1)) as Hw2 by reflexivity.
  rewrite E2 in Hw2. cbn [snd] in Hw2.
  rewrite Hw2, Hw1. proj_simpl.
  replace (pdf_current_page_index (self w) + 1 - 1)
    with (pdf_current_page_index (self w)) by lia. done.
Qed.

(** X11.  A page that fails to render leaves the viewer where it was: next
    page (and previous page) then keep the current page index, the zoom and
    the document, and only log the failure. *)
Theorem failed_render_keeps_page (e : env) (w : world) :
  truthy (pdf_doc (self w)) = true ->
  0 <= pdf_current_page_index (self w) < pdf_page_count (self w) ->
  render_ok e = false ->
  let failed := EvLogError "Error rendering PDF page" in
  (pdf_current_page_index (self w) < pdf_page_count (self w) - 1 ->
   exec (pdf_next_page e) w
   = MkWorld (self w) (player_media w) (fs w) (disk_log w) (io_plan w)
       (failed :: trace w))
  /\ (0 < pdf_current_page_index (self w) ->
      exec (pdf_previous_page e) w
      = MkWorld (self w) (player_media w) (fs w) (disk_log w) (io_plan w)
          (failed :: trace w)).
Proof.
  intros Hdoc Hidx Hbad failed. split; intros Hroom.
  - assert (pdf_next_page e w
            = render_pdf_page e (pdf_current_page_index (self w) + 1) w) as E1.
    { unfold pdf_next_page, bind, get, gets. cbn [fst snd]. rewrite Hdoc.
      by rewrite (proj2 (Z.ltb_lt _ _) Hroom). }
    unfold exec. rewrite E1, render_pdf_page_effect, Hbad by (done || lia).
    done.
  - assert (pdf_previous_page e w
            = render_pdf_page e (pdf_current_page_index (self w) - 1) w) as E1.
    { unfold pdf_previous_page, bind, get, gets. cbn [fst snd]. rewrite Hdoc.
      by rewrite (proj2 (Z.ltb_lt _ _) Hroom). }
    unfold exec. rewrite E1, render_pdf_page_effect, Hbad by (done || lia).
    done.
Qed.

End Viewer.

Section ViewerExamples.
Import Small Demo Examples.

Lemma zoom_in_and_out_are_inverse_witness :
  Qeq
    (pdf_zoom_level
       (self (exec (pdf_zoom_out (engines Stopped 0 0 (Some 5)))
                (exec (pdf_zoom_in (engines Stopped 0 0 (Some 5))) w_reading))))
    (pdf_zoom_level (self w_reading)).
Proof.
  destruct (zoom_in_and_out_are_inverse (engines Stopped 0 0 (Some 5))
              (engines Stopped 0 0 (Some 5)) w_reading 6) as [Hin _];
    [reflexivity | reflexivity |].
  apply Hin. vm_compute. lia.
Defined.

Lemma next_then_previous_page_witness :
  pdf_current_page_index
    (self (exec (pdf_previous_page (engines Stopped 0 0 (Some 5)))
             (exec (pdf_next_page (engines Stopped 0 0 (Some 5))) w_reading)))
  = pdf_current_page_index (self w_reading).
Proof.
  apply (next_then_previous_page (engines Stopped 0 0 (Some 5))
           (engines Stopped 0 0 (Some 5)) w_reading);
    [reflexivity | vm_compute; (lia || (split; [discriminate | reflexivity]) || reflexivity) | reflexivity | reflexivity].
Defined.

Lemma failed_render_keeps_page_witness :
  pdf_current_page_index
    (self (exec (pdf_next_page (unrendered (engines Stopped 0 0 (Some 5))))
             w_reading))
  = 3.
Proof.
  destruct (failed_render_keeps_page
              (unrendered (engines Stopped 0 0 (Some 5))) w_reading)
    as [Hnext _]; [reflexivity | vm_compute; (lia || (split; [discriminate | reflexivity]) || reflexivity) | reflexivity |].
  rewrite Hnext; [reflexivity | vm_compute; (lia || (split; [discriminate | reflexivity]) || reflexivity)].
Defined.

End ViewerExamples.

Section Synchroniser.
Context `{Runtime}.

(** X12.  The flush of the player writes nothing -- the world is left
    exactly as it is, dictionary, disk and log -- when there is no player,
    no media path or no media in the player, when the engine reports a state
    other than Playing or Paused, or when it reports a negative position or
    duration (its answer when it has none). *)
Theorem flush_writes_nothing (e : env) (w : world) :
  vlc_player (self w) = false
  \/ current_vlc_media_path (self w) = None
  \/ player_media w = None
  \/ playing_or_paused (get_state e) = false
  \/ get_length e O < 0
  \/ get_time e < 0 ->
  save_current_vlc_timestamp e w = (Ret tt, w).
Proof.
  intros Hcase. unfold save_current_vlc_timestamp, bind, get, gets, try_except.
  cbn [fst snd].
  destruct (vlc_player (self w)) eqn:Hplayer; [|done].
  destruct (current_vlc_media_path (self w)) as [p|] eqn:Hpath; [|done].
  destruct (player_media w) as [m|] eqn:Hmedia; [|done].
  destruct (playing_or_paused (get_state e)) eqn:Hstate; [|done].
  cbn [andb].
  destruct Hcase as [?|[?|[?|[?|[Hd|Ht]]]]]; try discriminate.
  - by rewrite (proj2 (Z.leb_gt _ _) Hd).
  - rewrite (proj2 (Z.leb_gt _ _) Ht). by rewrite andb_false_r.
Qed.

(** X13.  Restoring a media for which the dictionary holds no position (no
    entry, an entry that is not a record, a record without a numeric
    [position]) sends the player nowhere: the media plays from where the
    engine starts it.  And without a player, a media path or a media in the
    player, the restoration does nothing at all, not even wait. *)
Theorem restore_without_position (e : env) (w : world) :
  let w' := exec (_restore_vlc_state e) w in
  (vlc_player (self w) = false \/ current_vlc_media_path (self w) = None
   \/ player_media w = None -> w' = w)
  /\ (forall p,
        current_vlc_media_path (self w) = Some p ->
        stored_position (timestamps (self w)) (path_str p) = None ->
        seeks (trace w') = seeks (trace w)).
Proof.
  intros w'. split.
  - intros Hcase. unfold w', exec, _restore_vlc_state, bind, get, gets.
    cbn [fst snd].
    destruct (vlc_player (self w)); [|done].
    destruct (current_vlc_media_path (self w)); [|done].
    destruct (player_media w); [|done].
    destruct Hcase as [?|[?|?]]; discriminate.
  - intros p Hpath Hnone.
    apply (post_exec (_restore_vlc_state e) w
             (fun _ w' => seeks (trace w') = seeks (trace w))).
    unfold _restore_vlc_state. wp_reads. rewrite Hpath.
    destruct (vlc_player (self w)); [|by wp_prim].
    destruct (player_media w); [|by wp_prim].
    apply wp_try. apply wp_bind.
    destruct (wait_for_duration_spec e max_attempts O 0 w)
      as (d & k & E & _); [lia|].
    eapply post_of_eq; [exact E|]. cbv beta iota.
    apply wp_bind, wp_get. cbv beta iota. proj_simpl.
    unfold stored_position in Hnone.
    assert (forall (c : prog unit) w1,
              c = ret tt -> seeks (trace w1) = seeks (trace w) ->
              post (c ;;
                    when playing_or_paused (get_state e) then
                      speed <- get speed_var ;; change_playback_speed e speed)
                w1
                (fun r w2 =>
                   match r with
                   | Ret _ => seeks (trace w2) = seeks (trace w)
                   | Raise _ =>
                       post (log_error "Error restoring VLC state") w2
                         (fun _ w3 => seeks (trace w3) = seeks (trace w))
                   end)) as Htail.
    { intros c w1 -> Hw1. wp_prim. wp_prim.
      eapply wp_mono; [apply restore_speed_spec|]. cbv beta.
      intros r w2 (-> & -> & _). done. }
    destruct (timestamps (self w) !! path_str p) as [[| | | | | |r]|];
      try (apply Htail; [reflexivity | proj_simpl; by rewrite seeks_waits_only]).
    rewrite Hnone.
    apply Htail; [reflexivity | proj_simpl; by rewrite seeks_waits_only].
Qed.

End Synchroniser.

Section SynchroniserExamples.
Import Small Demo Examples.

Lemma flush_writes_nothing_witness :
  save_current_vlc_timestamp (engines Buffering 40000 100000 None) w_playing
  = (Ret tt, w_playing).
Proof.
  apply (flush_writes_nothing (engines Buffering 40000 100000 None) w_playing).
  right. right. right. left. reflexivity.
Defined.

End SynchroniserExamples.

Section Records.
Context `{Runtime}.

Lemma dialogs_cons ev t :
  dialogs (ev :: t)
  = (dialogs t ++ match ev with EvShowError s => [s] | _ => [] end)%list.
Proof.
  unfold dialogs. cbn [rev]. rewrite omap_app. by destruct ev.
Qed.

(** X14.  A document whose entry in the dictionary is not a record (the
    store file may hold any JSON value under a key) cannot be opened: the
    document engine opens it, writing its [last_opened] time fails, the
    failure is logged and shown ("PDF Load Error"), the document is closed
    again when it has pages, and the session is left with no document, no
    kind and no view.  The dictionary and the disk are left as they were, so
    the entry stays as it is. *)
Theorem malformed_record_blocks_document
  (e : env) (p : Path) (w : world) (v : json) (pages : Z) :
  pdf_doc (self w) = None ->
  timestamps (self w) !! path_str p = Some v ->
  is_dict v = false ->
  fitz_open e = Some pages ->
  let w' := exec (load_pdf_media e p) w in
  fst (load_pdf_media e p w) = Ret tt
  /\ timestamps (self w') = timestamps (self w)
  /\ fs w' = fs w /\ disk_log w' = disk_log w
  /\ pdf_doc (self w') = None
  /\ current_pdf_path (self w') = None
  /\ active_media_type (self w') = None
  /\ view (self w') = None
  /\ dialogs (trace w') = (dialogs (trace w) ++ ["PDF Load Error"])%list
  /\ docs_open (trace w')
     = if pages =? 0 then p :: docs_open (trace w) else docs_open (trace w).
Proof.
  intros Hdoc Hentry Hv Hopen w'.
  assert (post (load_pdf_media e p) w (fun r w' =>
            r = Ret tt
            /\ timestamps (self w') = timestamps (self w)
            /\ fs w' = fs w /\ disk_log w' = disk_log w
            /\ pdf_doc (self w') = None
            /\ current_pdf_path (self w') = None
            /\ active_media_type (self w') = None
            /\ view (self w') = None
            /\ dialogs (trace w') = (dialogs (trace w) ++ ["PDF Load Error"])%list
            /\ docs_open (trace w')
               = if pages =? 0 then p :: docs_open (trace w)
                 else docs_open (trace w))) as Hpost.
  { unfold load_pdf_media, set_item. apply wp_try. wp_reads.
    rewrite Hdoc. cbn [truthy]. rewrite Hopen.
    repeat wp_prim. rewrite Hentry.
    rewrite bool_decide_eq_true_2 by eauto. cbn [negb].
    repeat wp_prim. rewrite Hentry.
    destruct v as [| | | | | |r]; try discriminate.
    all: repeat wp_prim; cbn [truthy doc_len].
    all: destruct (pages =? 0) eqn:Hp; cbn [negb]; repeat wp_prim.
    all: rewrite ?dialogs_cons, ?app_nil_r; cbn [docs_open close_first].
    all: rewrite ?decide_True by done.
    all: repeat split; reflexivity. }
  apply post_exec in Hpost. exact Hpost.
Qed.

Lemma refresh_document_spec e w1 :
  post (doc <- get pdf_doc ;;
        ppath <- get current_pdf_path ;;
        match truthy doc, ppath with
        | true, Some p =>
            let key := path_str p in
            ts <- get timestamps ;;
            (when negb (bool_decide (is_Some (ts !! key)))
             then assign (set_timestamps (<[key := JDict ∅]> ts))) ;;
            ts <- get timestamps ;;
            when (from_option is_dict false (ts !! key)) then
              set_item key "last_opened" (JStr (now e)) ;;
              set_item key "filename" (JStr (name p))
        | _, _ => ret tt
        end ;;
        emit (EvAfter 5000 update_all_cards_display_cb)) w1
    (fun r w2 =>
       r = Ret tt
       /\ (fs w2 = fs w1 /\ disk_log w2 = disk_log w1 /\ io_plan w2 = io_plan w1)
       /\ (forall key field v,
             field <> "last_opened" -> field <> "filename" ->
             has_field (timestamps (self w1)) key field v ->
             has_field (timestamps (self w2)) key field v)
       /\ (forall q,
             truthy (pdf_doc (self w1)) = true ->
             current_pdf_path (self w1) = Some q ->
             from_option is_dict true (timestamps (self w1) !! path_str q) = true ->
             has_field (timestamps (self w2)) (path_str q) "last_opened"
               (JStr (now e)))).
Proof.
  wp_reads.
  destruct (truthy (pdf_doc (self w1))) eqn:Hdoc.
  2: { repeat wp_prim. repeat split; try done. }
  destruct (current_pdf_path (self w1)) as [p|] eqn:Hpath.
  2: { repeat wp_prim. repeat split; try done. }
  unfold set_item. cbv zeta.
  destruct (timestamps (self w1) !! path_str p) as [v|] eqn:Hentry.
  - apply wp_bind. apply wp_bind, wp_get. cbv beta iota.
    rewrite Hentry. rewrite bool_decide_eq_true_2 by eauto. cbn [negb].
    repeat wp_prim. rewrite Hentry.
    destruct v as [|b|z|x|s|l|r]; cbn [from_option is_dict]; repeat wp_prim.
    7: { rewrite Hentry. repeat wp_prim. rewrite lookup_insert_eq.
         repeat wp_prim. split; [done|]. split; [done|]. split.
         - intros key field v Hf1 Hf2 Hhas. rewrite insert_insert_eq.
           apply has_field_insert; [done|]. intros <-.
           destruct Hhas as (r0 & Hr0 & Hv). rewrite Hentry in Hr0.
           injection Hr0 as <-. by rewrite !lookup_insert_ne.
         - intros q _ [= <-] _. rewrite insert_insert_eq.
           eexists. rewrite lookup_insert_eq. split; [done|].
           rewrite lookup_insert_ne by done. apply lookup_insert_eq. }
    all: split; [done|]; split; [done|]; split; [done|].
    all: intros q0 _ [= <-]; rewrite Hentry; done.
  - apply wp_bind. apply wp_bind, wp_get. cbv beta iota.
    rewrite Hentry. rewrite bool_decide_eq_false_2 by (intros [? ?]; done).
    cbn [negb]. repeat wp_prim. rewrite lookup_insert_eq.
    cbn [from_option is_dict]. repeat wp_prim. rewrite lookup_insert_eq.
    repeat wp_prim. rewrite lookup_insert_eq. repeat wp_prim.
    split; [done|]. split; [done|]. split.
    + intros key field v Hf1 Hf2 Hhas. rewrite !insert_insert_eq.
      apply has_field_insert; [done|]. intros <-.
      destruct Hhas as (r0 & Hr0 & Hv). rewrite Hentry in Hr0. done.
    + intros q _ [= <-] _. rewrite !insert_insert_eq.
      eexists. rewrite lookup_insert_eq. split; [done|].
      rewrite lookup_insert_ne by done. apply lookup_insert_eq.
Qed.

(** X15.  The refresh of the cards brings the dictionary up to date in
    memory only: it never writes the disk.  While the engine reports
    Playing or Paused with a position and a duration that are not negative,
    the record of the loaded media gets the position (0 within 2000 ms of
    the end), the duration and the finished flag; the record of the open
    document gets the time as [last_opened]. *)
Theorem card_refresh_is_memory_only (e : env) (w : world) :
  let w' := exec (update_all_cards_display e) w in
  let ts' := timestamps (self w') in
  (fs w' = fs w /\ disk_log w' = disk_log w /\ io_plan w' = io_plan w)
  /\ (forall p,
        vlc_player (self w) = true ->
        current_vlc_media_path (self w) = Some p ->
        playing_or_paused (get_state e) = true ->
        0 <= get_length e O -> 0 <= get_time e ->
        let finished :=
          (0 <? get_length e O) && (get_length e O - 2000 <=? get_time e) in
        has_field ts' (path_str p) "position"
          (JInt (if finished then 0 else get_time e))
        /\ has_field ts' (path_str p) "duration" (JInt (get_length e O))
        /\ has_field ts' (path_str p) "finished" (JBool finished))
  /\ (forall q,
        truthy (pdf_doc (self w)) = true ->
        current_pdf_path (self w) = Some q ->
        store_ok (timestamps (self w)) ->
        has_field ts' (path_str q) "last_opened" (JStr (now e))).
Proof.
  intros w' ts'.
  assert (post (update_all_cards_display e) w (fun _ w' =>
            (fs w' = fs w /\ disk_log w' = disk_log w /\ io_plan w' = io_plan w)
            /\ (forall p,
                  vlc_player (self w) = true ->
                  current_vlc_media_path (self w) = Some p ->
                  playing_or_paused (get_state e) = true ->
                  0 <= get_length e O -> 0 <= get_time e ->
                  let finished :=
                    (0 <? get_length e O)
                    && (get_length e O - 2000 <=? get_time e) in
                  has_field (timestamps (self w')) (path_str p) "position"
                    (JInt (if finished then 0 else get_time e))
                  /\ has_field (timestamps (self w')) (path_str p) "duration"
                       (JInt (get_length e O))
                  /\ has_field (timestamps (self w')) (path_str p) "finished"
                       (JBool finished))
            /\ (forall q,
                  truthy (pdf_doc (self w)) = true ->
                  current_pdf_path (self w) = Some q ->
                  store_ok (timestamps (self w)) ->
                  has_field (timestamps (self w')) (path_str q) "last_opened"
                    (JStr (now e))))) as Hpost.
  { unfold update_all_cards_display. wp_reads. apply wp_bind.
    assert (forall w1 : world,
              fs w1 = fs w /\ disk_log w1 = disk_log w /\ io_plan w1 = io_plan w ->
              pdf_doc (self w1) = pdf_doc (self w) ->
              current_pdf_path (self w1) = current_pdf_path (self w) ->
              (store_ok (timestamps (self w)) -> store_ok (timestamps (self w1))) ->
              (forall p,
                 vlc_player (self w) = true ->
                 current_vlc_media_path (self w) = Some p ->
                 playing_or_paused (get_state e) = true ->
                 0 <= get_length e O -> 0 <= get_time e ->
                 timestamps (self w1) !! path_str p
                 = Some (timestamp_data e p (get_time e) (get_length e O))) ->
              post (doc <- get pdf_doc ;;
                    ppath <- get current_pdf_path ;;
                    match truthy doc, ppath with
                    | true, Some p =>
                        let key := path_str p in
                        ts <- get timestamps ;;
                        (when negb (bool_decide (is_Some (ts !! key)))
                         then assign (set_timestamps (<[key := JDict ∅]> ts))) ;;
                        ts <- get timestamps ;;
                        when (from_option is_dict false (ts !! key)) then
                          set_item key "last_opened" (JStr (now e)) ;;
                          set_item key "filename" (JStr (name p))
                    | _, _ => ret tt
                    end ;;
                    emit (EvAfter 5000 update_all_cards_display_cb)) w1
                (fun _ w' =>
            (fs w' = fs w /\ disk_log w' = disk_log w /\ io_plan w' = io_plan w)
            /\ (forall p,
                  vlc_player (self w) = true ->
                  current_vlc_media_path (self w) = Some p ->
                  playing_or_paused (get_state e) = true ->
                  0 <= get_length e O -> 0 <= get_time e ->
                  let finished :=
                    (0 <? get_length e O)
                    && (get_length e O - 2000 <=? get_time e) in
                  has_field (timestamps (self w')) (path_str p) "position"
                    (JInt (if finished then 0 else get_time e))
                  /\ has_field (timestamps (self w')) (path_str p) "duration"
                       (JInt (get_length e O))
                  /\ has_field (timestamps (self w')) (path_str p) "finished"
                       (JBool finished))
            /\ (forall q,
                  truthy (pdf_doc (self w)) = true ->
                  current_pdf_path (self w) = Some q ->
                  store_ok (timestamps (self w)) ->
                  has_field (timestamps (self w')) (path_str q) "last_opened"
                    (JStr (now e))))) as Hrest.
    { intros w1 (Hfs & Hlog & Hplan) Hdoc Hpath Hstore Hrec.
      eapply wp_mono; [apply refresh_document_spec|]. cbv beta.
      intros r w2 (_ & (Hfs2 & Hlog2 & Hplan2) & Hkeep & Hopened).
      split; [repeat split; congruence|]. split.
      - intros p Hplayer Hvpath Hstate Hd Ht finished.
        specialize (Hrec p Hplayer Hvpath Hstate Hd Ht).
        destruct (timestamp_data_fields e p (get_time e) (get_length e O))
          as (r0 & Hr0 & Hpos & Hdur & _ & _ & Hfin).
        fold finished in Hpos, Hfin. rewrite Hr0 in Hrec.
        repeat split; (apply Hkeep; [done|done|]); by exists r0.
      - intros q Hd Hq Hok. apply Hopened; [by rewrite Hdoc|by rewrite Hpath|].
        by apply store_ok_entry, Hstore. }
    destruct (vlc_player (self w)) eqn:Hplayer.
    2: { wp_prim. apply Hrest; try done. }
    destruct (current_vlc_media_path (self w)) as [p0|] eqn:Hvpath.
    2: { wp_prim. apply Hrest; try done. }
    destruct (playing_or_paused (get_state e)) eqn:Hstate.
    2: { wp_prim. apply Hrest; try done. }
    cbv zeta.
    destruct ((0 <=? get_length e O) && (0 <=? get_time e)) eqn:Hb.
    2: { wp_prim. apply Hrest; try done.
         intros p _ _ _ Hd Ht. exfalso.
         apply andb_false_iff in Hb as [Hb|Hb]; apply Z.leb_gt in Hb; lia. }
    apply wp_bind, wp_get. cbv beta iota. apply wp_assign. cbv beta iota.
    apply Hrest; proj_simpl; try done.
    - intros Hok. by apply store_ok_insert.
    - intros p _ [= <-] _ _ _. apply lookup_insert_eq. }
  apply post_exec in Hpost. exact Hpost.
Qed.

End Records.

Section RecordsExamples.
Import Small Demo Examples.

Lemma malformed_record_blocks_document_witness :
  dialogs (trace (exec (load_pdf_media (engines Stopped 0 0 (Some 5)) b_pdf)
                    w_malformed))
  = ["PDF Load Error"]
  /\ timestamps (self (exec (load_pdf_media (engines Stopped 0 0 (Some 5)) b_pdf)
                         w_malformed))
     = malformed.
Proof.
  destruct (malformed_record_blocks_document (engines Stopped 0 0 (Some 5))
              b_pdf w_malformed (JInt 5) 5)
    as (_ & Hts & _ & _ & _ & _ & _ & _ & Hd & _);
    [reflexivity | reflexivity | reflexivity | reflexivity |].
  split; [exact Hd | exact Hts].
Defined.

End RecordsExamples.

Section Notes.

(** The world after [open(path, 'w')] and [write(content)]. *)
Lemma write_file_spec (io : io_fault) (path content : string) (w : world) :
  let fails := match fault io with
               | OpenFails => true
               | WriteFails n => (n <? String.length content)%nat
               | _ => false
               end in
  exists w',
    (fs_open_w io path ;; fs_write io path content) w
      = (if fails then Raise OSError else Ret tt, w')
    /\ self w' = self w /\ player_media w' = player_media w
    /\ io_plan w' = io_plan w /\ trace w' = trace w
    /\ (forall q, q <> path -> fs w' !! q = fs w !! q)
    /\ (fails = false -> fs w' !! path = Some content).
Proof.
  intros fails. unfold bind, fs_open_w, fs_write.
  destruct (fault io) eqn:Hfault; subst fails.
  3: { exists w. unfold raise. repeat split; auto. discriminate. }
  all: unfold modify; cbn [fst snd].
  all: match goal with
       | |- context [fs_append ?pa ?co ?b (put_fs ?m ?w0)] =>
           destruct (fs_append_spec pa co b (put_fs m w0) EmptyString)
             as (w' & new & E & Hs & Hp & Hi & Ht & _ & Hf & Hok & _);
             [cbn; apply lookup_insert_eq|]
       end.
  all: exists w'; rewrite E; cbn in Hs, Hp, Hi, Ht.
  all: apply Forall_cons in Hf as [Hf _]; cbn in Hf.
  all: split; [reflexivity|]; split; [done|]; split; [done|].
  all: split; [done|]; split; [done|].
  all: split; [intros q Hq; rewrite Hf by done; by rewrite lookup_insert_ne|].
  all: intros Hno; apply Hok in Hno; exact Hno.
Qed.


Lemma append_empty_r (s : string) : s +:+ EmptyString = s.
Proof.
  induction s as [|c s IH]; [done|].
  change (String c (s +:+ EmptyString) = String c s). by rewrite IH.
Qed.

Lemma dbind_lift2 {A B C} (c1 : prog A) (c2 : prog B) (k : B -> dprog C) d :
  dbind (lift c1) (fun _ => dbind (lift c2) k) d
  = match bind c1 (fun _ => c2) (core d) with
    | (Ret b, w') => k b (put_core w' d)
    | (Raise e, w') => (Raise e, put_core w' d)
    end.
Proof.
  unfold dbind, lift, bind. destruct (c1 (core d)) as [[a|e] w1]; [|done].
  cbn [core put_core]. by destruct (c2 w1) as [[b|e] w2].
Qed.

Lemma save_notes_spec (u : asked) (d : desk) :
  let target := match notes_file d with
                | Some p => Some p
                | None => save_name u
                end in
  let io := next_io d in
  exists d',
    save_notes u d
    = (Ret (match target with
            | Some _ => negb (write_fails io (notes_text d))
            | None => false
            end), d')
    /\ notes_text d' = notes_text d
    /\ notes_file d' = target
    /\ cards d' = cards d /\ search_var d' = search_var d
    /\ search_active d' = search_active d /\ calls d' = calls d
    /\ self (core d') = self (core d)
    /\ player_media (core d') = player_media (core d)
    /\ match target with
       | None => d' = d
       | Some p =>
           (forall q, q <> path_str p ->
                      fs (core d') !! q = fs (core d) !! q)
           /\ if write_fails io (notes_text d)
              then notes_changed d' = notes_changed d
                   /\ edit_modified d' = edit_modified d
                   /\ notes_file_label d' = notes_file_label d
                   /\ trace (core d')
                      = EvShowError "Error Saving File"
                          :: EvLogError "Error saving note file"
                          :: trace (core d)
              else fs (core d') !! path_str p = Some (notes_text d)
                   /\ notes_changed d' = false
                   /\ edit_modified d' = false
                   /\ notes_file_label d' = name p
                   /\ trace (core d') = trace (core d)
       end.
Proof.
  intros target io.
  assert (forall p d0,
            notes_text d0 = notes_text d -> core d0 = core d ->
            notes_file d0 = Some p ->
            cards d0 = cards d -> search_var d0 = search_var d ->
            search_active d0 = search_active d -> calls d0 = calls d ->
            notes_changed d0 = notes_changed d ->
            edit_modified d0 = edit_modified d ->
            notes_file_label d0 = notes_file_label d ->
            exists d',
              dtry
                (content <- dgets notes_text ;;
                 io <- lift next_fault ;;
                 lift (fs_open_w io (path_str p)) ;;
                 lift (fs_write io (path_str p) content) ;;
                 dmodify (put_notes_changed false) ;;
                 dmodify (put_edit_modified false) ;;
                 _update_notes_title_indicator false ;;
                 dret true)%desk
                (fun _ =>
                   lift (log_error "Error saving note file") ;;
                   lift (show_error "Error Saving File") ;;
                   dret false)%desk d0
              = (Ret (negb (write_fails io (notes_text d))), d')
              /\ notes_text d' = notes_text d
              /\ notes_file d' = Some p
              /\ cards d' = cards d /\ search_var d' = search_var d
              /\ search_active d' = search_active d /\ calls d' = calls d
              /\ self (core d') = self (core d)
              /\ player_media (core d') = player_media (core d)
              /\ (forall q, q <> path_str p ->
                            fs (core d') !! q = fs (core d) !! q)
              /\ if write_fails io (notes_text d)
                 then notes_changed d' = notes_changed d
                      /\ edit_modified d' = edit_modified d
                      /\ notes_file_label d' = notes_file_label d
                      /\ trace (core d')
                         = EvShowError "Error Saving File"
                             :: EvLogError "Error saving note file"
                             :: trace (core d)
                 else fs (core d') !! path_str p = Some (notes_text d)
                      /\ notes_changed d' = false
                      /\ edit_modified d' = false
                      /\ notes_file_label d' = name p
                      /\ trace (core d') = trace (core d)) as Hbody.
  { intros p d0 Htext Hcore Hfile Hcards Hsv Hsa Hcalls Hch Hem Hlab.
    unfold dtry. unfold dbind at 1. unfold dgets at 1.
    unfold dbind at 1. unfold lift at 1.
    assert (next_fault (core d0)
            = (Ret io, put_io_plan (tl (io_plan (core d))) (core d))) as ->.
    { rewrite Hcore. unfold next_fault, io, next_io.
      destruct (core d) as [a m f l plan t]. by destruct plan. }
    set (w1 := put_io_plan (tl (io_plan (core d))) (core d)).
    rewrite dbind_lift2. cbn [core put_core].
    destruct (write_file_spec io (path_str p) (notes_text d0) w1)
      as (w2 & E & Hs & Hm & _ & Ht & Hother & Hwritten).
    rewrite E. rewrite Htext in *. fold (write_fails io (notes_text d)) in *.
    destruct (write_fails io (notes_text d)).
    - eexists. unfold dbind, lift, log_error, show_error, emit, modify, dret.
      cbn. split; [reflexivity|]. cbn.
      rewrite Ht, Hs. subst w1. cbn.
      repeat split; auto.
    - eexists. unfold dbind, dmodify, _update_notes_title_indicator, dgets, dret.
      cbn. rewrite Hfile. split; [reflexivity|]. cbn.
      rewrite Ht, Hs. subst w1. cbn.
      repeat split; auto. apply append_empty_r. }
  unfold save_notes. unfold dbind at 1. unfold dgets at 1. subst target.
  destruct (notes_file d) as [p|] eqn:Hfile.
  - unfold dbind at 1. unfold dret at 1. by apply Hbody.
  - destruct (save_name u) as [p|] eqn:Hname.
    + unfold dbind at 1. unfold dbind at 1. unfold dmodify at 1, dret at 1.
      by apply (Hbody p (put_notes_file (Some p) d)).
    + exists d. unfold dbind, dret. repeat split; auto.
Qed.


Lemma confirm_spec (u : asked) (d : desk) :
  exists b d1,
    (if notes_changed d then _confirm_discard_note_changes u else dret true) d
    = (Ret b, d1)
    /\ match notes_changed d, answer u with
       | false, _ | true, Some false => b = true /\ d1 = d
       | true, None => b = false /\ d1 = d
       | true, Some true => save_notes u d = (Ret b, d1)
       end.
Proof.
  unfold _confirm_discard_note_changes.
  destruct (notes_changed d); [|by exists true, d].
  destruct (answer u) as [[|]|]; [|by exists true, d|by exists false, d].
  destruct (save_notes_spec u d) as (d1 & E & _). eauto.
Qed.

Lemma new_notes_spec (u : asked) (d : desk) :
  exists b d1,
    (if notes_changed d then _confirm_discard_note_changes u else dret true) d
    = (Ret b, d1)
    /\ new_notes u d = (Ret tt, if b then emptied d1 else d1).
Proof.
  destruct (confirm_spec u d) as (b & d1 & E & _). exists b, d1.
  split; [exact E|]. unfold new_notes. unfold dbind at 1. unfold dgets at 1.
  unfold dbind at 1. rewrite E. by destruct b.
Qed.

Lemma open_body_spec (p : Path) (d : desk) :
  exists d',
    dtry
      (io <- lift next_fault ;;
       content <- lift (fs_read io (path_str p)) ;;
       dmodify (put_notes_text content) ;;
       dmodify (put_notes_file (Some p)) ;;
       dmodify (put_notes_changed false) ;;
       dmodify (put_edit_modified false) ;;
       _update_notes_title_indicator false)%desk
      (fun _ =>
         lift (log_error "Error opening note file") ;;
         lift (show_error "Error Opening File"))%desk d
    = (Ret tt, d')
    /\ fs (core d') = fs (core d) /\ self (core d') = self (core d)
    /\ cards d' = cards d /\ calls d' = calls d
    /\ search_var d' = search_var d /\ search_active d' = search_active d
    /\ match file_read d p with
       | Some text =>
           notes_text d' = text /\ notes_file d' = Some p
           /\ notes_changed d' = false /\ edit_modified d' = false
           /\ notes_file_label d' = name p
           /\ trace (core d') = trace (core d)
       | None =>
           same_notes d d'
           /\ trace (core d')
              = EvShowError "Error Opening File"
                  :: EvLogError "Error opening note file" :: trace (core d)
       end.
Proof.
  unfold file_read, next_io, dtry, dbind, lift, next_fault, fs_read, dmodify,
    _update_notes_title_indicator, dgets, log_error, show_error, emit, modify,
    bind, gets, ret, raise, same_notes.
  destruct d as [[a m f l plan t] cs sv sa txt file ch em lab cl].
  cbn [core io_plan fs put_core put_io_plan hd].
  destruct plan as [|io plan]; cbn [hd fault no_fault].
  - destruct (f !! path_str p) as [text|] eqn:Hf; cbn; rewrite ?Hf; cbn;
      eexists; (split; [reflexivity|]); cbn; rewrite ?append_empty_r; tauto.
  - destruct (fault io) eqn:Hio; cbn;
      try (destruct (f !! path_str p) as [text|] eqn:Hf; cbn; rewrite ?Hf; cbn);
      eexists; (split; [reflexivity|]); cbn; rewrite ?append_empty_r; tauto.
Qed.

Lemma open_notes_spec (u : asked) (d : desk) :
  exists b d1,
    (if notes_changed d then _confirm_discard_note_changes u else dret true) d
    = (Ret b, d1)
    /\ open_notes u d
       = if b then
           match open_name u with
           | None => (Ret tt, d1)
           | Some p =>
               dtry
                 (io <- lift next_fault ;;
                  content <- lift (fs_read io (path_str p)) ;;
                  dmodify (put_notes_text content) ;;
                  dmodify (put_notes_file (Some p)) ;;
                  dmodify (put_notes_changed false) ;;
                  dmodify (put_edit_modified false) ;;
                  _update_notes_title_indicator false)%desk
                 (fun _ =>
                    lift (log_error "Error opening note file") ;;
                    lift (show_error "Error Opening File"))%desk d1
           end
         else (Ret tt, d1).
Proof.
  destruct (confirm_spec u d) as (b & d1 & E & _). exists b, d1.
  split; [exact E|]. unfold open_notes. unfold dbind at 1. unfold dgets at 1.
  unfold dbind at 1. rewrite E. destruct b; [|done]. by destruct (open_name u).
Qed.


(** X16.  [save_notes] never raises and never changes the text of the
    editor.  When it answers [True], the notes have a file, that file holds
    exactly the text of the editor, the flag of the unsaved changes is down
    and the title is the name of the file; when it answers [False], the
    flag and the title are as before.  No file other than the file of the
    notes is touched. *)
Theorem save_notes_outcome (u : asked) (d : desk) :
  exists saved d',
    save_notes u d = (Ret saved, d')
    /\ notes_text d' = notes_text d
    /\ (forall q, (forall p, notes_file d' = Some p -> q <> path_str p) ->
                  fs (core d') !! q = fs (core d) !! q)
    /\ if saved
       then exists p, notes_file d' = Some p
                      /\ fs (core d') !! path_str p = Some (notes_text d)
                      /\ notes_changed d' = false
                      /\ notes_file_label d' = name p
       else notes_changed d' = notes_changed d
            /\ notes_file_label d' = notes_file_label d.
Proof.
  destruct (save_notes_spec u d) as (d' & E & Htext & Hfile & _ & _ & _ & _ & _ & _ & Hcase).
  cbv zeta in *. eexists _, d'. split; [exact E|]. split; [exact Htext|].
  destruct (match notes_file d with Some p => Some p | None => save_name u end)
    as [p|] eqn:Htarget.
  - destruct Hcase as [Hother Hcase]. split.
    { intros q Hq. apply Hother, Hq, Hfile. }
    destruct (write_fails (next_io d) (notes_text d)); cbn [negb].
    + tauto.
    + exists p. tauto.
  - subst d'. split; [done|]. done.
Qed.

(** X17.  [new_notes] and [open_notes] do not lose unsaved notes behind the
    back of the user: when the notes have unsaved changes, then after the
    handler either the text and its flag are still there, or the user
    answered No to the question, or the text is, in full, in the file of the
    notes (the file they had, or else the one chosen in the dialog).  When
    the user cancels the question, nothing at all changes. *)
Theorem unsaved_notes_are_kept (u : asked) (c : dprog unit) (d : desk) :
  c = new_notes u \/ c = open_notes u ->
  notes_changed d = true ->
  let d' := dexec c d in
  (answer u = None -> d' = d)
  /\ ((notes_text d' = notes_text d /\ notes_changed d' = true)
      \/ answer u = Some false
      \/ exists p,
           (notes_file d = Some p
            \/ (notes_file d = None /\ save_name u = Some p))
           /\ fs (core d') !! path_str p = Some (notes_text d)).
Proof.
  intros Hc Hchanged d'.
  destruct (confirm_spec u d) as (b & d1 & E & Hb). rewrite Hchanged in Hb.
  assert (d' = d1 \/
          (b = true /\ fs (core d') = fs (core d1))) as Hd'.
  { subst d'. unfold dexec. destruct Hc as [-> | ->].
    - destruct (new_notes_spec u d) as (b' & d1' & E' & ->).
      rewrite E in E'. injection E' as <- <-.
      destruct b; [right|left]; done.
    - destruct (open_notes_spec u d) as (b' & d1' & E' & ->).
      rewrite E in E'. injection E' as <- <-.
      destruct b; [|by left]. destruct (open_name u) as [p|]; [|by left].
      destruct (open_body_spec p d1) as (d2 & -> & Hfs & _). by right. }
  destruct (answer u) as [[|]|] eqn:Hanswer.
  - split; [done|].
    destruct (save_notes_spec u d)
      as (d1' & E' & Htext & Hfile & _ & _ & _ & _ & _ & _ & Hcase).
    cbv zeta in *. rewrite Hb in E'. injection E' as Hsaved <-.
    destruct (notes_file d) as [p|] eqn:Hnf; [|destruct (save_name u) as [p|]].
    + destruct Hcase as [_ Hcase].
      destruct (write_fails (next_io d) (notes_text d)); cbn [negb] in Hsaved.
      * left. destruct Hd' as [-> | [? _]]; [|congruence].
        split; [done|]. destruct Hcase as (-> & _). done.
      * right; right. exists p. split; [by left|].
        destruct Hd' as [-> | [_ ->]]; tauto.
    + destruct Hcase as [_ Hcase].
      destruct (write_fails (next_io d) (notes_text d)); cbn [negb] in Hsaved.
      * left. destruct Hd' as [-> | [? _]]; [|congruence].
        split; [done|]. destruct Hcase as (-> & _). done.
      * right; right. exists p. split; [by right|].
        destruct Hd' as [-> | [_ ->]]; tauto.
    + left. destruct Hd' as [-> | [? _]]; [|congruence].
      subst d1. done.
  - split; [done|]. right; by left.
  - destruct Hb as [-> ->]. destruct Hd' as [-> | [? _]]; [|done].
    split; [done|]. by left.
Qed.

(** X18.  A first save whose writing fails (the notes had no file, the user
    chose one) keeps the chosen file as the file of the notes, although the
    title still shows the old one: the next save does not ask again and
    writes the notes to that file, whatever the dialog would answer. *)
Theorem failed_save_as_keeps_name (u u2 : asked) (p : Path) (d : desk) :
  notes_file d = None ->
  save_name u = Some p ->
  write_fails (next_io d) (notes_text d) = true ->
  let d1 := dexec (save_notes u) d in
  notes_file d1 = Some p
  /\ notes_file_label d1 = notes_file_label d
  /\ notes_changed d1 = notes_changed d
  /\ (write_fails (next_io d1) (notes_text d) = false ->
      let d2 := dexec (save_notes u2) d1 in
      fs (core d2) !! path_str p = Some (notes_text d)
      /\ notes_file_label d2 = name p
      /\ notes_changed d2 = false).
Proof.
  intros Hfile Hname Hfails d1.
  destruct (save_notes_spec u d)
    as (d1' & E & Htext & Hfile1 & _ & _ & _ & _ & _ & _ & Hcase).
  cbv zeta in *. rewrite Hfile, Hname in *. rewrite Hfails in Hcase.
  assert (d1 = d1') as -> by (unfold d1, dexec; by rewrite E).
  destruct Hcase as (_ & Hch & _ & Hlab & _).
  split; [done|]. split; [done|]. split; [done|].
  intros Hok.
  destruct (save_notes_spec u2 d1')
    as (d2' & E2 & _ & _ & _ & _ & _ & _ & _ & _ & Hcase2).
  cbv zeta in *. rewrite Hfile1, Htext, Hok in *.
  unfold dexec. rewrite E2. cbn [snd]. tauto.
Qed.

(** X19.  Saved notes come back: once [save_notes] has answered [True],
    whatever the user types afterwards and discards, opening the file of the
    notes again (the reading does not fail) brings back exactly the text that
    was saved, with the flag of the unsaved changes down and the name of the
    file as the title. *)
Theorem saved_notes_reopen (u u2 : asked) (typed : string) (d : desk) :
  fst (save_notes u d) = Ret true ->
  let d1 := dexec (save_notes u) d in
  answer u2 = Some false ->
  open_name u2 = notes_file d1 ->
  fault (next_io d1) <> ReadFails ->
  let d3 := dexec (open_notes u2) (dexec (notes_edited typed) d1) in
  notes_text d3 = notes_text d
  /\ notes_changed d3 = false
  /\ notes_file d3 = notes_file d1
  /\ notes_file_label d3 = notes_title (notes_file d1) false.
Proof.
  intros Hsaved d1 Hanswer Hopen Hread d3.
  destruct (save_notes_spec u d)
    as (d1' & E & _ & Hfile & _ & _ & _ & _ & _ & _ & Hcase).
  cbv zeta in Hfile, Hcase, E. rewrite E in Hsaved. cbn [fst] in Hsaved.
  assert (dexec (save_notes u) d = d1') as Hd1 by (unfold dexec; by rewrite E).
  subst d3 d1. rewrite Hd1 in *. clear Hd1 E.
  destruct (match notes_file d with Some p => Some p | None => save_name u end)
    as [p|]; [|done].
  destruct (write_fails (next_io d) (notes_text d)); [done|].
  destruct Hcase as (_ & Hfs & _).
  set (d2 := dexec (notes_edited typed) d1') in *.
  assert (core d2 = core d1' /\ notes_changed d2 = true) as [Hcore Hch].
  { subst d2. unfold dexec, notes_edited, on_notes_modified, dbind, dmodify,
      dgets, _update_notes_title_indicator, dret. cbn.
    destruct (notes_changed d1') eqn:Hc; cbn; auto. }
  destruct (open_notes_spec u2 d2) as (b & d2' & Ec & Eo).
  rewrite Hch in Ec. unfold _confirm_discard_note_changes in Ec.
  rewrite Hanswer in Ec. injection Ec as <- <-.
  rewrite Hopen, Hfile in Eo.
  destruct (open_body_spec p d2) as (d3' & E3 & _ & _ & _ & _ & _ & _ & Hcase).
  rewrite E3 in Eo.
  assert (dexec (open_notes u2) d2 = d3') as -> by (unfold dexec; by rewrite Eo).
  assert (file_read d2 p = Some (notes_text d)) as Hr.
  { unfold file_read, next_io in *. rewrite Hcore, Hfs.
    by destruct (fault _). }
  rewrite Hr in Hcase. rewrite Hfile. unfold notes_title.
  rewrite append_empty_r. tauto.
Qed.

End Notes.

Section NotesExamples.
Import Demo Notebook.

Lemma unsaved_notes_are_kept_witness :
  let d' := dexec (new_notes save_to_notes_txt) d_typed in
  notes_text d' = EmptyString
  /\ fs (core d') !! path_str notes_txt = Some "p. 3: see lemma 2".
Proof.
  destruct (unsaved_notes_are_kept save_to_notes_txt
              (new_notes save_to_notes_txt) d_typed)
    as [_ [[Htext _] | [Hanswer | (p & _ & _)]]].
  - by left.
  - reflexivity.
  - vm_compute in Htext. discriminate.
  - discriminate.
  - split; vm_compute; reflexivity.
Defined.

Lemma failed_save_as_keeps_name_witness :
  let d1 := dexec (save_notes save_to_notes_txt) d_typed_full in
  notes_file d1 = Some notes_txt
  /\ notes_file_label d1 = "Untitled*"
  /\ fs (core (dexec (save_notes discard_and_open) d1)) !! path_str notes_txt
     = Some "p. 3: see lemma 2".
Proof.
  destruct (failed_save_as_keeps_name save_to_notes_txt discard_and_open
              notes_txt d_typed_full)
    as (Hfile & Hlabel & _ & Hnext).
  - reflexivity.
  - reflexivity.
  - reflexivity.
  - split; [exact Hfile|]. split; [rewrite Hlabel; reflexivity|].
    apply Hnext. reflexivity.
Defined.

Lemma saved_notes_reopen_witness :
  notes_text
    (dexec (open_notes discard_and_open)
       (dexec (notes_edited "scratch")
          (dexec (save_notes save_to_notes_txt) d_typed)))
  = "p. 3: see lemma 2".
Proof.
  apply (saved_notes_reopen save_to_notes_txt discard_and_open "scratch" d_typed).
  - reflexivity.
  - reflexivity.
  - reflexivity.
  - discriminate.
Defined.

End NotesExamples.

Section KeepsNotes.
Context {unicode : Text}.

Lemma same_notes_refl d : same_notes d d.
Proof. by repeat split. Qed.

Lemma same_notes_trans d1 d2 d3 :
  same_notes d1 d2 -> same_notes d2 d3 -> same_notes d1 d3.
Proof.
  unfold same_notes. intros (?&?&?&?&?) (?&?&?&?&?). repeat split; congruence.
Qed.

Lemma keeps_notes_ret {A} (a : A) : keeps_notes (dret a).
Proof. intros d. apply same_notes_refl. Qed.

Lemma keeps_notes_raise {A} (e : exn) : keeps_notes (@draise A e).
Proof. intros d. apply same_notes_refl. Qed.

Lemma keeps_notes_gets {A} (f : desk -> A) : keeps_notes (dgets f).
Proof. intros d. apply same_notes_refl. Qed.

Lemma keeps_notes_lift {A} (c : prog A) : keeps_notes (lift c).
Proof. intros d. unfold lift. destruct (c (core d)). by repeat split. Qed.

Lemma keeps_notes_modify (f : desk -> desk) :
  (forall d, same_notes d (f d)) -> keeps_notes (dmodify f).
Proof. intros Hf d. apply Hf. Qed.

Lemma keeps_notes_bind {A B} (c : dprog A) (k : A -> dprog B) :
  keeps_notes c -> (forall a, keeps_notes (k a)) -> keeps_notes (dbind c k).
Proof.
  intros Hc Hk d. unfold dbind. specialize (Hc d).
  destruct (c d) as [[a|e] d1]; [|exact Hc].
  eapply same_notes_trans; [exact Hc | apply Hk].
Qed.

Lemma keeps_notes_try {A} (c : dprog A) (h : exn -> dprog A) :
  keeps_notes c -> (forall e, keeps_notes (h e)) -> keeps_notes (dtry c h).
Proof.
  intros Hc Hh d. unfold dtry. specialize (Hc d).
  destruct (c d) as [[a|e] d1]; [exact Hc|].
  eapply same_notes_trans; [exact Hc | apply Hh].
Qed.

Lemma keeps_notes_record_call (c : call) : keeps_notes (record_call c).
Proof. intros d. by repeat split. Qed.

End KeepsNotes.

Ltac keeps_step :=
  first
    [ apply keeps_notes_ret | apply keeps_notes_raise | apply keeps_notes_gets
    | apply keeps_notes_lift | apply keeps_notes_record_call
    | apply keeps_notes_modify; intros ?; by repeat split
    | apply keeps_notes_bind; [|intros ?]
    | apply keeps_notes_try; [|intros ?]
    | match goal with
      | |- keeps_notes (if ?b then _ else _) => destruct b
      | |- keeps_notes (match ?x with _ => _ end) => destruct x
      end ].

Section Title.
Context `{Runtime} {unicode : Text}.

Lemma add_card_keeps_notes k p place : keeps_notes (add_card k p place).
Proof. unfold add_card. repeat keeps_step. Qed.

Lemma create_cards_keeps_notes k files i : keeps_notes (create_cards k i files).
Proof.
  revert i. induction files as [|p files IH]; intros i; cbn [create_cards].
  - apply keeps_notes_ret.
  - apply keeps_notes_bind; [apply add_card_keeps_notes | intros _; apply IH].
Qed.

Lemma load_library_keeps_notes k f : keeps_notes (load_library k f).
Proof.
  unfold load_library.
  repeat first [apply create_cards_keeps_notes | keeps_step].
Qed.

Lemma filter_cards_keeps_notes k term files row col :
  keeps_notes (filter_cards k term row col files).
Proof.
  revert row col. induction files as [|p files IH]; intros row col;
    cbn [filter_cards].
  - apply keeps_notes_ret.
  - destruct (is_substring _ _); [|apply IH].
    apply keeps_notes_bind; [apply add_card_keeps_notes|intros _].
    destruct (2 <=? S col)%nat; apply IH.
Qed.

Lemma filter_library_keeps_notes k f : keeps_notes (filter_library k f).
Proof.
  unfold filter_library.
  apply keeps_notes_bind; [apply keeps_notes_gets|intros search].
  apply keeps_notes_bind; [apply keeps_notes_gets|intros active].
  repeat first [apply load_library_keeps_notes | apply filter_cards_keeps_notes
               | keeps_step].
Qed.

Lemma search_typed_keeps_notes k f text : keeps_notes (search_typed k f text).
Proof.
  unfold search_typed.
  apply keeps_notes_bind; [keeps_step | intros _; apply filter_library_keeps_notes].
Qed.

Lemma refresh_all_cards_keeps_notes k : keeps_notes (refresh_all_cards k).
Proof. unfold refresh_all_cards. repeat keeps_step. Qed.

Lemma toggle_play_pause_keeps_notes e playing :
  keeps_notes (toggle_play_pause e playing).
Proof. unfold toggle_play_pause. repeat keeps_step. Qed.

Lemma restart_playback_keeps_notes e : keeps_notes (_restart_playback e).
Proof. unfold _restart_playback. repeat keeps_step. Qed.

Lemma titled_same_notes d d' : same_notes d d' -> titled d -> titled d'.
Proof.
  unfold same_notes, titled. intros (_ & -> & -> & -> & ->). done.
Qed.

Lemma titled_emptied d : titled (emptied d).
Proof. split; [done|]. by left. Qed.

Lemma save_notes_titled u d : titled d -> titled (dexec (save_notes u) d).
Proof.
  intros [Hmod Htitle].
  destruct (save_notes_spec u d)
    as (d' & E & _ & Hfile & _ & _ & _ & _ & _ & _ & Hcase).
  cbv zeta in *. unfold dexec. rewrite E. cbn [snd].
  destruct (notes_file d) as [p|] eqn:Hnf; [|destruct (save_name u) as [p|]].
  3: { subst d'. split; [done|]. by rewrite Hnf. }
  all: destruct Hcase as [_ Hcase].
  all: destruct (write_fails (next_io d) (notes_text d)).
  all: unfold titled; rewrite Hfile.
  all: try (destruct Hcase as (_ & -> & -> & -> & _); split; [done|];
            left; unfold notes_title; by rewrite append_empty_r).
  all: destruct Hcase as (-> & -> & -> & _); split; [done|].
  - destruct Htitle as [Ht | [_ Ht]]; [by left | by right].
  - right. split; [by eexists|].
    destruct Htitle as [Ht | [[? ?] _]]; [exact Ht | done].
Qed.

Lemma confirm_titled u d b d1 :
  (if notes_changed d then _confirm_discard_note_changes u else dret true) d
  = (Ret b, d1) ->
  titled d -> titled d1.
Proof.
  intros E Hd. destruct (confirm_spec u d) as (b' & d1' & E' & Hcase).
  rewrite E in E'. injection E' as <- <-.
  destruct (notes_changed d); [destruct (answer u) as [[|]|]|].
  2-4: by destruct Hcase as [_ ->].
  pose proof (save_notes_titled u d Hd) as Ht.
  unfold dexec in Ht. by rewrite Hcase in Ht.
Qed.

Lemma update_all_cards_display_window_keeps_notes k e :
  keeps_notes (update_all_cards_display_window k e).
Proof.
  unfold update_all_cards_display_window.
  apply keeps_notes_bind; [apply keeps_notes_lift|intros _].
  apply keeps_notes_bind; [apply refresh_all_cards_keeps_notes|intros _].
  apply keeps_notes_lift.
Qed.

Lemma run_action_titled a d : titled d -> titled (dexec (run_action a) d).
Proof.
  intros Hd. destruct a as [k e c|e playing|e|k f|k f text|text|u|u|u].
  1-5: eapply titled_same_notes; [|exact Hd].
  - destruct c as [p|[| | | |]| | | | | | | |]; cbn [run_action];
      first [apply update_all_cards_display_window_keeps_notes
            | apply keeps_notes_lift].
  - apply toggle_play_pause_keeps_notes.
  - apply restart_playback_keeps_notes.
  - apply load_library_keeps_notes.
  - apply search_typed_keeps_notes.
  - cbn [run_action]. destruct Hd as [Hmod Htitle].
    unfold dexec, notes_edited, on_notes_modified, dbind, dmodify, dgets,
      _update_notes_title_indicator, dret. cbn.
    destruct (notes_changed d) eqn:Hch; cbn.
    + split; [done|]. cbn. by rewrite Hch.
    + split; [done|]. by left.
  - cbn [run_action]. destruct (new_notes_spec u d) as (b & d1 & E & E').
    unfold dexec. rewrite E'. cbn [snd].
    destruct b; [apply titled_emptied | eapply confirm_titled; eauto].
  - cbn [run_action]. destruct (open_notes_spec u d) as (b & d1 & E & E').
    unfold dexec. rewrite E'.
    pose proof (confirm_titled u d b d1 E Hd) as Hd1.
    destruct b; [|exact Hd1]. destruct (open_name u) as [p|]; [|exact Hd1].
    destruct (open_body_spec p d1) as (d2 & -> & _ & _ & _ & _ & _ & _ & Hcase).
    cbn [snd]. destruct (file_read d1 p) as [text|].
    + destruct Hcase as (_ & Hf & Hc & Hm & Hl & _). split; [done|].
      left. rewrite Hf, Hc, Hl. unfold notes_title.
      by rewrite append_empty_r.
    + destruct Hcase as [Hsame _]. by eapply titled_same_notes.
  - cbn [run_action]. pose proof (save_notes_titled u d Hd) as Ht.
    unfold dexec in *. unfold dbind. by destruct (save_notes u d) as [[b|ex] d1].
Qed.

(** X20.  Throughout any session of the window the title of the notes
    follows their state: it ends with a star exactly when the notes have
    unsaved changes, in front of the name of the file of the notes or of
    "Untitled" (notes without a file, or with a file chosen in a first save
    that failed), and after every handler the modified flag of the widget is
    down again. *)
Theorem notes_title_tracks_changes (script : list action) (w : world) :
  titled (run_desk script (init_desk w)).
Proof.
  assert (forall d, titled d -> titled (run_desk script d)) as Hrun.
  { induction script as [|a script IH]; intros d Hd; [exact Hd|].
    cbn [run_desk]. apply IH. by apply run_action_titled. }
  apply Hrun. split; [done|]. by left.
Qed.

End Title.

Section Pause.
Context `{Runtime}.

(** X21.  Pausing saves the position at once.  When a media is loaded and
    the engine is playing, [toggle_play_pause] calls [pause] before anything
    else, lowers [is_vlc_playing], and (the engine reporting Playing or
    Paused, with a position and a duration that are not negative) puts the
    record of the position into the dictionary and into the store file; the
    only way for the file to miss it is a failed save, which is logged.  The
    handler does not raise. *)
Theorem pause_flushes_position (e : env) (d : desk) (p : Path) :
  vlc_player (self (core d)) = true ->
  current_vlc_media_path (self (core d)) = Some p ->
  is_Some (player_media (core d)) ->
  playing_or_paused (get_state e) = true ->
  0 <= get_length e O ->
  0 <= get_time e ->
  let ts' := <[path_str p := timestamp_data e p (get_time e) (get_length e O)]>
               (timestamps (self (core d))) in
  let store := path_str (timestamps_file (self (core d))) in
  exists d',
    toggle_play_pause e true d = (Ret tt, d')
    /\ calls d' = (List.length (trace (core d)), CallPause) :: calls d
    /\ is_vlc_playing (self (core d')) = false
    /\ timestamps (self (core d')) = ts'
    /\ same_notes d d' /\ cards d' = cards d
    /\ ((fs (core d') !! store = Some (json_dumps ts')
         /\ trace (core d') = trace (core d))
        \/ (fs (core d') !! store = fs (core d) !! store
            /\ trace (core d')
               = EvLogError "Error saving timestamps" :: trace (core d))).
Proof.
  intros Hplayer Hpath Hmedia Hstate Hlen Htime ts' store.
  set (w1 := put_self (set_is_vlc_playing false (self (core d))) (core d)).
  destruct (save_current_vlc_timestamp_writes e w1 p)
    as (w2 & E & Hs & _ & Hcase); auto.
  unfold toggle_play_pause, dbind, dgets, dtry, record_call, dmodify, lift,
    assign, modify.
  rewrite Hplayer, Hpath. cbn [andb].
  rewrite bool_decide_eq_true_2 by (by eexists).
  cbn [core put_core put_calls fst snd]. fold w1. rewrite E.
  eexists. split; [reflexivity|]. cbn.
  rewrite Hs. cbn. split; [done|]. split; [done|]. split; [done|].
  split; [by repeat split|]. split; [done|].
  cbn in Hcase. fold ts' store in Hcase.
  destruct (save_fails _ _); [right | left]; exact Hcase.
Qed.

End Pause.

Section Cards.

Lemma clamp_unit (x : Q) : (0 <= Qmin 1 (Qmax 0 x) <= 1)%Q.
Proof.
  split.
  - apply Q.min_glb; [discriminate | apply Q.le_max_l].
  - apply Q.le_min_l.
Qed.

Lemma update_progress_av (k : clock) (pd : option json) (c : card) :
  is_pdf c = false ->
  let c' := fst (update_progress k pd c) in
  let logged := snd (update_progress k pd c) in
  card_path c' = card_path c /\ is_pdf c' = false /\ packed c' = packed c
  /\ (0 <= progress_bar c' <= 1)%Q
  /\ (logged = true ->
      progress_bar c' = 0%Q /\ card_time_label c' = "0:00 / 0:00"
      /\ last_played_label c' = EmptyString).
Proof.
  intros Hav. unfold update_progress. rewrite Hav.
  assert ((0 <= 0 <= 1)%Q) as H0 by (split; discriminate).
  destruct pd as [v|]; [|cbn; repeat split; auto; apply H0].
  destruct (json_truthy v); [|cbn; repeat split; auto; apply H0].
  destruct (progress_view k v) as [[[pct time_text] last_played]|] eqn:Hview;
    [|cbn; repeat split; auto; apply H0].
  cbn. repeat split; auto; try discriminate.
  all: unfold progress_view in Hview; destruct v; try discriminate.
  all: destruct (default (JInt 0) (_ !! "duration")); try discriminate.
  all: repeat match type of Hview with
       | context [match ?x with _ => _ end] => destruct x; try discriminate
       end.
  all: injection Hview as <- _ _; first [apply clamp_unit | discriminate].
Qed.

(** X22.  The card of an audio or video file can show whatever the
    dictionary holds for it: [update_display] returns normally, packs the
    progress bar and the two labels, and sets the progress bar to a value
    between 0 and 1; an entry it cannot read is logged and shown as no
    progress. *)
Theorem av_card_always_shows (k : clock) (progress_data : option json)
  (c : card) :
  is_pdf c = false ->
  exists c' logged,
    update_display k progress_data c = (Ret tt, c', logged)
    /\ card_path c' = card_path c
    /\ packed c' = [ProgressBar; TimeLabel; LastPlayedLabel]
    /\ (0 <= progress_bar c' <= 1)%Q
    /\ (logged = true ->
        progress_bar c' = 0%Q /\ card_time_label c' = "0:00 / 0:00"
        /\ last_played_label c' = EmptyString).
Proof.
  intros Hav. unfold update_display. rewrite Hav.
  set (c1 := MkCard _ _ _ _ _ _).
  pose proof (update_progress_av k progress_data c1 eq_refl) as Hp.
  destruct (update_progress k progress_data c1) as [c2 logged].
  exists c2, logged. cbn in Hp. split; [reflexivity|]. tauto.
Qed.


Lemma dict_truthy (r : gmap string json) (field : string) (v : json) :
  r !! field = Some v -> json_truthy (JDict r) = true.
Proof.
  intros Hr. cbn. apply negb_true_iff, Nat.eqb_neq. intros Hsize.
  apply map_size_empty_iff in Hsize. subst r. by rewrite lookup_empty in Hr.
Qed.

(** X23.  What a flush writes, the card shows.  For the record that
    [save_current_vlc_timestamp] builds from a position and a positive
    duration, the card of the file shows, without logging an error, the
    stored position over the duration on the progress bar (0 when the media
    was within 2000 ms of its end), which is always below 1, both times in
    the label, and the time of the flush as last played. *)
Theorem card_shows_flushed_progress (k : clock) (e : env) (p : Path)
  (t dur : Z) (c : card) :
  is_pdf c = false ->
  0 <= t ->
  0 < dur ->
  let position := if dur - 2000 <=? t then 0 else t in
  exists c',
    update_display k (Some (timestamp_data e p t dur)) c = (Ret tt, c', false)
    /\ (progress_bar c' == inject_Z position / inject_Z dur)%Q
    /\ (progress_bar c' < 1)%Q
    /\ card_time_label c'
       = format_time (Some (inject_Z position)) +:+ " / "
           +:+ format_time (Some (inject_Z dur))
    /\ last_played_label c'
       = match ago k (now e) with
         | Some text => "Last played: " +:+ text
         | None => EmptyString
         end.
Proof.
  intros Hav Ht Hdur position.
  destruct (timestamp_data_fields e p t dur)
    as (r & Hr & Hpos & Hd & Hlast & _ & _).
  rewrite (proj2 (Z.ltb_lt 0 dur) Hdur) in Hpos. cbn [andb] in Hpos.
  fold position in Hpos.
  assert (0 <= position < dur) as Hrange.
  { unfold position. destruct (dur - 2000 <=? t) eqn:Hfin; [lia|].
    apply Z.leb_gt in Hfin. lia. }
  assert ((0 <= inject_Z position / inject_Z dur)%Q
          /\ (inject_Z position / inject_Z dur < 1)%Q) as [Hlo Hhi].
  { assert ((0 < inject_Z dur)%Q) as Hq by (rewrite <- (Zlt_Qlt 0); lia).
    split.
    - apply Qle_shift_div_l; [exact Hq|]. rewrite Qmult_0_l.
      rewrite <- (Zle_Qle 0). lia.
    - apply Qlt_shift_div_r; [exact Hq|]. rewrite Qmult_1_l.
      rewrite <- Zlt_Qlt. lia. }
  unfold update_display, update_progress. rewrite Hav. cbn [is_pdf].
  rewrite Hr, (dict_truthy r _ _ Hpos).
  unfold progress_view, last_used_text. rewrite Hpos, Hd, Hlast.
  cbn [default from_option]. unfold id. cbn [as_number].
  rewrite bool_decide_eq_true_2 by (by eexists).
  assert (Qle_bool (inject_Z dur) 0 = false) as ->.
  { apply not_true_is_false. intros Hle. apply Qle_bool_iff in Hle.
    change 0%Q with (inject_Z 0) in Hle. rewrite <- Zle_Qle in Hle. lia. }
  eexists. split; [reflexivity|]. cbn.
  split; [|split; [|done]].
  - rewrite Q.max_r by exact Hlo. apply Q.min_r. by apply Qlt_le_weak.
  - rewrite Q.max_r by exact Hlo. rewrite Q.min_r by (by apply Qlt_le_weak).
    exact Hhi.
Qed.

End Cards.

Section Order.
Context {unicode : Text}.

Lemma ascii_compare_trans (a b c : ascii) :
  Ascii.compare a b <> Gt -> Ascii.compare b c <> Gt -> Ascii.compare a c <> Gt.
Proof.
  unfold Ascii.compare. rewrite !N.compare_le_iff. apply N.le_trans.
Qed.

Lemma ascii_compare_lt_trans (a b c : ascii) :
  Ascii.compare a b = Lt -> Ascii.compare b c = Lt -> Ascii.compare a c = Lt.
Proof.
  unfold Ascii.compare. rewrite !N.compare_lt_iff. apply N.lt_trans.
Qed.

Lemma string_compare_trans (s t u : string) :
  String.compare s t <> Gt -> String.compare t u <> Gt ->
  String.compare s u <> Gt.
Proof.
  revert t u. induction s as [|a s IH]; intros [|b t] [|c u]; cbn; try done.
  destruct (Ascii.compare a b) eqn:Hab; [| |done].
  - apply Ascii.compare_eq_iff in Hab as ->.
    destruct (Ascii.compare b c); [apply IH|done|done].
  - intros _. destruct (Ascii.compare b c) eqn:Hbc; [| |done].
    + apply Ascii.compare_eq_iff in Hbc as <-. by rewrite Hab.
    + by rewrite (ascii_compare_lt_trans a b c Hab Hbc).
Qed.

Lemma leb_trans (s t u : string) :
  String.leb s t = true -> String.leb t u = true -> String.leb s u = true.
Proof.
  unfold String.leb. intros Hst Htu.
  pose proof (string_compare_trans s t u) as Htrans.
  destruct (String.compare s t), (String.compare t u), (String.compare s u);
    try done; exfalso; by apply Htrans.
Qed.

Lemma leb_false_flip (s t : string) :
  String.leb s t = false -> String.leb t s = true.
Proof.
  intros Hst. destruct (String.leb_total s t) as [H|H]; congruence.
Qed.

Lemma insert_by_key_perm (x : Path) (l : list Path) :
  insert_by_key x l ≡ₚ x :: l.
Proof.
  induction l as [|y l IH]; cbn [insert_by_key]; [done|].
  destruct (String.leb _ _); [done|]. rewrite IH. apply Permutation_swap.
Qed.

Lemma sort_by_name_perm (l : list Path) : sort_by_name l ≡ₚ l.
Proof.
  induction l as [|x l IH]; cbn [sort_by_name]; [done|].
  by rewrite insert_by_key_perm, IH.
Qed.

Lemma insert_by_key_below (x : Path) (l : list Path) :
  below_rest l -> below_rest (insert_by_key x l).
Proof.
  induction l as [|y l IH]; cbn [insert_by_key below_rest]; [by split|].
  intros [Hy Hl]. destruct (String.leb (sort_key x) (sort_key y)) eqn:Hxy.
  - cbn [below_rest]. split; [|done]. constructor; [done|].
    eapply Forall_impl; [exact Hy|]. intros q Hq. cbn beta in *.
    by apply (leb_trans _ (sort_key y)).
  - cbn [below_rest]. split; [|by apply IH].
    rewrite insert_by_key_perm. constructor; [|done].
    by apply leb_false_flip.
Qed.

Lemma sort_by_name_below (l : list Path) : below_rest (sort_by_name l).
Proof.
  induction l as [|x l IH]; cbn [sort_by_name]; [done|].
  by apply insert_by_key_below.
Qed.

Lemma below_rest_order (l : list Path) : below_rest l -> in_name_order l.
Proof.
  induction l as [|x l IH]; intros Hl i j p q Hij Hi Hj; [done|].
  destruct Hl as [Hx Hl]. destruct j as [|j]; [lia|]. cbn in Hj.
  destruct i as [|i].
  - injection Hi as <-. by apply (Forall_lookup_1 _ _ _ _ Hx Hj).
  - cbn in Hi. apply (IH Hl i j); [lia|done|done].
Qed.

(** The files shown: the supported files among the items, each as often as
    it occurs, in the order of the names. *)
Lemma media_files_spec (items : list (Path * bool)) :
  media_files items ≡ₚ List.map fst (List.filter supported items)
  /\ in_name_order (media_files items).
Proof.
  unfold media_files. split; [apply sort_by_name_perm|].
  apply below_rest_order, sort_by_name_below.
Qed.

End Order.

Section Panel.
Context {unicode : Text}.

Lemma panel_only_refl d : panel_only d d.
Proof. repeat split; auto. constructor. Qed.

Lemma panel_only_trans d1 d2 d3 :
  panel_only d1 d2 -> panel_only d2 d3 -> panel_only d1 d3.
Proof.
  unfold panel_only, same_notes.
  intros ((?&?&?&?&?)&?&?&?&?&?&?) ((?&?&?&?&?)&?&?&?&?&?&?).
  repeat split; try congruence. by eapply extends_by_trans.
Qed.

Lemma panel_from_app k ts i l1 l2 :
  panel_from k ts i (l1 ++ l2)%list
  = (panel_from k ts i l1 ++ panel_from k ts (i + List.length l1) l2)%list.
Proof.
  revert i. induction l1 as [|p l1 IH]; intros i; cbn.
  - by rewrite Nat.add_0_r.
  - rewrite IH. do 3 f_equal. lia.
Qed.

Lemma panel_from_lookup k ts i files j c place :
  panel_from k ts i files !! j = Some (c, place) ->
  exists p, files !! j = Some p /\ c = card_for k ts p
            /\ place = Some (grid_place (i + j)).
Proof.
  revert i j. induction files as [|p files IH]; intros i j; [done|].
  destruct j as [|j]; cbn.
  - intros [= <- <-]. exists p. by rewrite Nat.add_0_r.
  - intros Hj. destruct (IH _ _ Hj) as (q & ? & ? & ->). exists q.
    repeat split; auto. do 2 f_equal. lia.
Qed.

Lemma update_display_raise k pd c ex :
  fst (fst (update_display k pd c)) = Raise ex ->
  ex = TypeError /\ is_pdf c = true
  /\ packed (snd (fst (update_display k pd c))) = [PdfLabel].
Proof.
  unfold update_display. destruct (is_pdf c) eqn:Hpdf.
  - destruct pd as [v|]; [|done]. destruct (json_truthy v); [|done].
    destruct (json_contains "last_opened" v) as [[|]|]; try done.
    cbn. intros [= <-]. done.
  - destruct (update_progress _ _ _). done.
Qed.

Lemma add_card_spec k p place d :
  let ts := timestamps (self (core d)) in
  exists d',
    add_card k p place d
    = (if card_raises k ts p then Raise TypeError else Ret tt, d')
    /\ cards d'
       = (cards d ++ [(card_for k ts p,
                       if card_raises k ts p then None else Some place)])%list
    /\ search_active d' = search_active d
    /\ panel_only d d'.
Proof.
  intros ts. unfold add_card, card_raises, card_for, dbind, dgets. fold ts.
  pose proof (update_display_raise k (ts !! path_str p)) as Hraise.
  unfold new_card in *.
  set (c0 := MkCard _ _ _ _ _ _) in *. specialize (Hraise c0).
  destruct (update_display k (ts !! path_str p) c0) as [[r c] logged].
  cbn [fst snd] in *.
  assert (forall ex, r = Raise ex -> ex = TypeError) as Hex
    by (intros ex Hr; by destruct (Hraise ex Hr)).
  destruct logged, r as [[]|ex]; try rewrite (Hex ex eq_refl);
    unfold lift, log_error, emit, modify, dmodify, draise; cbn;
    eexists; (split; [reflexivity|]); cbn; (split; [reflexivity|]);
    (split; [reflexivity|]); repeat split; auto;
    repeat constructor.
Qed.


Lemma create_cards_app k pre rest i d :
  let ts := timestamps (self (core d)) in
  Forall (fun p => card_raises k ts p = false) pre ->
  exists d1,
    create_cards k i (pre ++ rest)%list d
    = create_cards k (i + List.length pre) rest d1
    /\ cards d1 = (cards d ++ panel_from k ts i pre)%list
    /\ search_active d1 = search_active d
    /\ panel_only d d1.
Proof.
  intros ts. revert i d ts.
  induction pre as [|p pre IH]; intros i d ts Hok.
  - exists d. cbn. rewrite Nat.add_0_r, app_nil_r.
    split; [done|]. split; [done|]. split; [done|]. apply panel_only_refl.
  - apply Forall_cons in Hok as [Hp Hok].
    destruct (add_card_spec k p (grid_place i) d) as (d0 & E & Hc & Hs & Hd0).
    fold ts in E, Hc. rewrite Hp in E, Hc.
    assert (timestamps (self (core d0)) = ts) as Hts.
    { unfold ts. destruct Hd0 as (_ & _ & _ & -> & _). done. }
    destruct (IH (S i) d0) as (d1 & E1 & Hc1 & Hs1 & Hd1);
      [by rewrite Hts|].
    exists d1. cbn [List.app create_cards]. unfold dbind at 1.
    change ((i / 2)%nat, (i mod 2)%nat) with (grid_place i).
    rewrite E, E1, Hc1, Hc, Hts, <- app_assoc.
    cbn [List.length panel_from List.app].
    split; [f_equal; lia|]. split; [done|]. split; [congruence|].
    by eapply panel_only_trans.
Qed.

Lemma grid_next (n : nat) :
  (if (2 <=? S (n mod 2))%nat then (S (n / 2), O) else ((n / 2)%nat, S (n mod 2)))
  = grid_place (S n).
Proof.
  unfold grid_place.
  pose proof (Nat.div_mod_eq n 2) as Hn.
  pose proof (Nat.mod_upper_bound n 2) as Hlt.
  pose proof (Nat.div_mod_eq (S n) 2) as Hn'.
  pose proof (Nat.mod_upper_bound (S n) 2) as Hlt'.
  destruct (2 <=? S (n mod 2))%nat eqn:Hc.
  - apply Nat.leb_le in Hc. f_equal; lia.
  - apply Nat.leb_gt in Hc. f_equal; lia.
Qed.

Lemma filter_cards_app k term pre rest n d :
  let ts := timestamps (self (core d)) in
  Forall (fun p => matches term p = true -> card_raises k ts p = false) pre ->
  let shown := List.filter (matches term) pre in
  exists d1,
    filter_cards k term (n / 2) (n mod 2) (pre ++ rest)%list d
    = filter_cards k term ((n + List.length shown) / 2)
        ((n + List.length shown) mod 2) rest d1
    /\ cards d1 = (cards d ++ panel_from k ts n shown)%list
    /\ search_active d1 = search_active d
    /\ panel_only d d1.
Proof.
  intros ts. revert n d ts.
  induction pre as [|p pre IH]; intros n d ts Hok.
  - exists d. cbn. rewrite Nat.add_0_r, app_nil_r.
    split; [done|]. split; [done|]. split; [done|]. apply panel_only_refl.
  - apply Forall_cons in Hok as [Hp Hok]. cbn [List.app filter_cards List.filter].
    fold (matches term p). destruct (matches term p) eqn:Hm.
    + destruct (add_card_spec k p (grid_place n) d) as (d0 & E & Hc & Hs & Hd0).
      fold ts in E, Hc. rewrite (Hp eq_refl) in E, Hc.
      assert (timestamps (self (core d0)) = ts) as Hts.
      { unfold ts. destruct Hd0 as (_ & _ & _ & -> & _). done. }
      destruct (IH (S n) d0) as (d1 & E1 & Hc1 & Hs1 & Hd1);
        [by rewrite Hts|].
      exists d1. unfold dbind at 1.
      change ((n / 2)%nat, (n mod 2)%nat) with (grid_place n). rewrite E.
      pose proof (grid_next n) as Hnext. unfold grid_place in Hnext.
      assert (forall (A : Type) (f : nat -> nat -> A),
                (if (2 <=? S (n mod 2))%nat then f (S (n / 2)) O
                 else f (n / 2)%nat (S (n mod 2)))
                = f (S n / 2)%nat (S n mod 2)%nat) as Hf.
      { intros A f.
        apply (f_equal (fun place => f (fst place) (snd place))) in Hnext.
        by destruct (2 <=? S (n mod 2))%nat. }
      rewrite (Hf _ (fun row col => filter_cards k term row col (pre ++ rest))).
      rewrite E1, Hc1, Hc, Hts, <- app_assoc.
      cbn [List.length panel_from List.app].
      replace (n + S (List.length (List.filter (matches term) pre)))%nat
        with (S n + List.length (List.filter (matches term) pre))%nat by lia.
      split; [done|]. split; [done|]. split; [congruence|].
      by eapply panel_only_trans.
    + destruct (IH n d Hok) as (d1 & E1 & Hc1 & Hs1 & Hd1).
      exists d1. done.
Qed.

End Panel.

Section Library.
Context {unicode : Text}.

Lemma store_ok_card (k : clock) (ts : gmap string json) (p : Path) :
  store_ok ts -> card_raises k ts p = false.
Proof.
  intros Hts. unfold card_raises, new_card, update_display. cbn [is_pdf].
  destruct (str_in _ SUPPORTED_PDF_EXT).
  - destruct (ts !! path_str p) as [v|] eqn:Hv; [|done].
    apply Hts in Hv. destruct v; try discriminate.
    destruct (json_truthy _); [|done]. cbn [json_contains].
    by destruct (bool_decide _).
  - by destruct (update_progress _ _ _).
Qed.

Lemma load_library_panel (k : clock) (f : folder)
  (items : list (Path * bool)) (d : desk) :
  folder_is_dir f = true ->
  folder_items f = Some items ->
  store_ok (timestamps (self (core d))) ->
  exists d',
    load_library k f d = (Ret tt, d')
    /\ cards d' = panel k (timestamps (self (core d))) (media_files items)
    /\ media_files items ≡ₚ List.map fst (List.filter supported items)
    /\ in_name_order (media_files items)
    /\ search_active d' = false
    /\ panel_only d d'.
Proof.
  intros Hdir Hitems Hts.
  destruct (create_cards_app k (media_files items) [] 0 (put_cards [] d))
    as (d1 & E & Hc & Hs & Hd1).
  { apply Forall_forall. intros p _. by apply store_ok_card. }
  rewrite app_nil_r in E. cbn [create_cards] in E.
  exists (put_search_active false d1).
  unfold load_library. unfold dbind at 1. unfold dmodify at 1.
  rewrite Hdir, Hitems. cbn [negb]. unfold dbind, dmodify. rewrite E.
  split; [reflexivity|]. split; [exact Hc|].
  destruct (media_files_spec items) as [Hperm Hord].
  split; [exact Hperm|]. split; [exact Hord|]. split; [done|].
  destruct Hd1 as (Hn & ? & ? & ? & ? & ? & ?). repeat split; auto; apply Hn.
Qed.

(** X24.  [load_library] fills the panel with the supported files of the
    library folder (the files whose suffix, lower-cased, is a supported
    extension), each once, in the order of their lower-case names, the
    [i]-th in row [i / 2] and column [i mod 2], each card built from the
    entry of its file in the dictionary; it lowers the search flag.  (The
    folder is a directory that can be scanned, and the entries of the
    dictionary are records.)  Nothing else changes but lines of the log.
    Lower case is what [str.lower()] of Python makes of a text, whatever
    that is: [str_lower]. *)
Theorem load_library_shows_sorted_grid (k : clock) (f : folder)
  (items : list (Path * bool)) (d : desk) :
  folder_is_dir f = true ->
  folder_items f = Some items ->
  store_ok (timestamps (self (core d))) ->
  exists d',
    load_library k f d = (Ret tt, d')
    /\ cards d' = panel k (timestamps (self (core d))) (media_files items)
    /\ media_files items ≡ₚ List.map fst (List.filter supported items)
    /\ in_name_order (media_files items)
    /\ search_active d' = false
    /\ panel_only d d'.
Proof. apply load_library_panel. Qed.

(** X25.  A search shows exactly the files of the library whose lower-case
    name contains the search term (the text of the search box, lower-cased
    and stripped, when that is not empty), in the order of the names and
    again row by row in two columns, and raises the search flag.  Nothing
    else changes but lines of the log.  Lower-cased and stripped are what
    [str.lower()] and [str.strip()] of Python make of a text, whatever that
    is: [str_lower] and [str_strip]. *)
Theorem search_shows_matches (k : clock) (f : folder)
  (items : list (Path * bool)) (d : desk) :
  let search_term := str_strip (str_lower (search_var d)) in
  is_empty search_term = false ->
  folder_is_dir f = true ->
  folder_items f = Some items ->
  store_ok (timestamps (self (core d))) ->
  exists d',
    filter_library k f d = (Ret tt, d')
    /\ cards d'
       = panel k (timestamps (self (core d)))
           (List.filter (matches search_term) (media_files items))
    /\ search_active d' = true
    /\ panel_only d d'.
Proof.
  intros term Hterm Hdir Hitems Hts.
  destruct (filter_cards_app k term (media_files items) [] 0
              (put_cards [] (put_search_active true d)))
    as (d1 & E & Hc & Hs & Hd1).
  { apply Forall_forall. intros p _ _. by apply store_ok_card. }
  rewrite app_nil_r in E. cbn [filter_cards] in E.
  exists d1. unfold filter_library, dbind, dgets, dmodify, dtry.
  fold term. rewrite Hterm, Hdir, Hitems. cbn [andb negb].
  change (0 / 2)%nat with O in E. change (0 mod 2)%nat with O in E.
  rewrite E. split; [reflexivity|]. split; [exact Hc|]. split; [exact Hs|].
  destruct Hd1 as (Hn & ? & ? & ? & ? & ? & ?). repeat split; auto; apply Hn.
Qed.


Lemma filter_library_search (k : clock) (f : folder)
  (items : list (Path * bool)) (d : desk) :
  let search_term := str_strip (str_lower (search_var d)) in
  is_empty search_term = false ->
  folder_is_dir f = true ->
  folder_items f = Some items ->
  store_ok (timestamps (self (core d))) ->
  exists d',
    filter_library k f d = (Ret tt, d')
    /\ search_active d' = true
    /\ panel_only d d'.
Proof.
  intros term Hterm Hdir Hitems Hts.
  destruct (filter_cards_app k term (media_files items) [] 0
              (put_cards [] (put_search_active true d)))
    as (d1 & E & Hc & Hs & Hd1).
  { apply Forall_forall. intros p _ _. by apply store_ok_card. }
  rewrite app_nil_r in E. cbn [filter_cards] in E.
  exists d1. unfold filter_library, dbind, dgets, dmodify, dtry.
  fold term. rewrite Hterm, Hdir, Hitems. cbn [andb negb].
  change (0 / 2)%nat with O in E. change (0 mod 2)%nat with O in E.
  rewrite E. split; [reflexivity|]. split; [exact Hs|].
  destruct Hd1 as (Hn & ? & ? & ? & ? & ? & ?). repeat split; auto; apply Hn.
Qed.

(** X26.  Clearing the search brings the library back: after a search, a
    text of the search box that is empty once lower-cased and stripped (by
    [str_lower] and [str_strip], Python's [str.lower()] and [str.strip()])
    makes
    [filter_library] reload the library, so the panel shows all the
    supported files of the folder again and the search flag is down.  The
    same text does nothing when no search was active. *)
Theorem clearing_search_restores_library (k : clock) (f1 f2 : folder)
  (items1 items2 : list (Path * bool)) (text cleared : string) (d : desk) :
  is_empty (str_strip (str_lower text)) = false ->
  is_empty (str_strip (str_lower cleared)) = true ->
  folder_is_dir f1 = true -> folder_items f1 = Some items1 ->
  folder_is_dir f2 = true -> folder_items f2 = Some items2 ->
  store_ok (timestamps (self (core d))) ->
  let d2 := dexec (search_typed k f2 cleared) (dexec (search_typed k f1 text) d) in
  cards d2 = panel k (timestamps (self (core d))) (media_files items2)
  /\ search_active d2 = false
  /\ dexec (search_typed k f2 cleared) d2 = put_search_var cleared d2.
Proof.
  intros Htext Hcleared Hdir1 Hitems1 Hdir2 Hitems2 Hts d2.
  destruct (filter_library_search k f1 items1 (put_search_var text d))
    as (d1 & E1 & Hs1 & Hd1); auto.
  assert (dexec (search_typed k f1 text) d = d1) as Hd1'.
  { unfold dexec, search_typed, dbind, dmodify. by rewrite E1. }
  assert (self (core d1) = self (core d)) as Hself
    by (destruct Hd1 as (_ & _ & _ & -> & _); done).
  destruct (load_library_panel k f2 items2 (put_search_var cleared d1))
    as (d2' & E2 & Hc2 & _ & _ & Hs2 & Hd2); auto.
  { cbn. by rewrite Hself. }
  assert (d2 = d2') as ->.
  { unfold d2. rewrite Hd1'.
    unfold dexec, search_typed, filter_library, dbind, dmodify, dgets.
    cbn [search_var put_search_var search_active]. rewrite Hcleared, Hs1.
    cbn [andb]. by rewrite E2. }
  cbn in Hc2. rewrite Hself in Hc2. split; [exact Hc2|]. split; [exact Hs2|].
  unfold dexec, search_typed, filter_library, dbind, dmodify, dgets.
  cbn [search_var put_search_var search_active]. rewrite Hcleared, Hs2.
  reflexivity.
Qed.

Lemma first_raising (k : clock) (ts : gmap string json) (files : list Path)
  (p : Path) :
  In p files -> card_raises k ts p = true ->
  exists pre q post,
    files = (pre ++ q :: post)%list
    /\ Forall (fun x => card_raises k ts x = false) pre
    /\ card_raises k ts q = true.
Proof.
  induction files as [|x files IH]; [done|]. intros Hin Hp.
  destruct (card_raises k ts x) eqn:Hx.
  - exists [], x, files. by repeat split.
  - destruct Hin as [-> | Hin]; [congruence|].
    destruct (IH Hin Hp) as (pre & q & post & -> & Hpre & Hq).
    exists (x :: pre), q, post. repeat split; auto.
Qed.

Lemma card_raises_packed (k : clock) (ts : gmap string json) (q : Path) :
  card_raises k ts q = true -> packed (card_for k ts q) = [PdfLabel].
Proof.
  unfold card_raises, card_for, new_card.
  set (c0 := MkCard _ _ _ _ _ _).
  pose proof (update_display_raise k (ts !! path_str q) c0) as Hr.
  destruct (fst (fst (update_display k (ts !! path_str q) c0)))
    as [|ex] eqn:Hres; [done|].
  intros _. by destruct (Hr ex eq_refl) as (_ & _ & ?).
Qed.

(** X27.  An entry of the dictionary that is a number or [True] breaks the
    library panel: when the folder holds a PDF file with such an entry
    (truthy, and not a value [in] can search), [load_library] raises
    [TypeError].  The panel is left with the cards of the files before the
    first such file and one more card, which shows only its PDF label and
    has no place in the grid; the files after it get no card, and the
    search flag is not reset.  (The files are the supported files in the
    order of their lower-case names, lower case being [str_lower], Python's
    [str.lower()].) *)
Theorem number_entry_breaks_library (k : clock) (f : folder)
  (items : list (Path * bool)) (p : Path) (v : json) (d : desk) :
  folder_is_dir f = true ->
  folder_items f = Some items ->
  In p (media_files items) ->
  str_in (str_lower (suffix p)) SUPPORTED_PDF_EXT = true ->
  timestamps (self (core d)) !! path_str p = Some v ->
  json_truthy v = true ->
  json_contains "last_opened" v = None ->
  let ts := timestamps (self (core d)) in
  exists d' pre q post,
    load_library k f d = (Raise TypeError, d')
    /\ media_files items = (pre ++ q :: post)%list
    /\ cards d' = (panel k ts pre ++ [(card_for k ts q, None)])%list
    /\ packed (card_for k ts q) = [PdfLabel]
    /\ search_active d' = search_active d
    /\ panel_only d d'.
Proof.
  intros Hdir Hitems Hin Hpdf Hv Htruthy Hcontains ts.
  assert (card_raises k ts p = true) as Hp.
  { unfold card_raises, new_card, update_display. cbn [is_pdf].
    fold ts in Hv. by rewrite Hpdf, Hv, Htruthy, Hcontains. }
  destruct (first_raising k ts _ p Hin Hp) as (pre & q & post & Hfiles & Hpre & Hq).
  destruct (create_cards_app k pre (q :: post) 0 (put_cards [] d))
    as (d1 & E & Hc & Hs & Hd1); [exact Hpre|].
  cbn [create_cards] in E. unfold dbind in E.
  destruct (add_card_spec k q (grid_place (0 + List.length pre)) d1)
    as (d2 & E2 & Hc2 & Hs2 & Hd2).
  assert (timestamps (self (core d1)) = ts) as Hts.
  { destruct Hd1 as (_ & _ & _ & -> & _). done. }
  rewrite Hts, Hq in E2, Hc2.
  change ((0 + List.length pre) / 2, (0 + List.length pre) mod 2)%nat
    with (grid_place (0 + List.length pre)) in E.
  rewrite E2 in E.
  exists d2, pre, q, post.
  unfold load_library. unfold dbind at 1. unfold dmodify at 1.
  rewrite Hdir, Hitems. cbn [negb]. unfold dbind. rewrite Hfiles, E.
  split; [reflexivity|]. split; [reflexivity|].
  split; [by rewrite Hc2, Hc|].
  split; [by apply card_raises_packed|].
  split; [by rewrite Hs2, Hs|].
  assert (panel_only (put_cards [] d) d2) as Hd by (by eapply panel_only_trans).
  destruct Hd as (Hn & ? & ? & ? & ? & ? & ?). repeat split; auto; apply Hn.
Qed.

End Library.

Section CardTimerProofs.
Context `{Runtime}.

Lemma bind_assoc {A B C} (c : prog A) (k : A -> prog B) (h : B -> prog C) w :
  bind (bind c k) h w = bind c (fun x => bind (k x) h) w.
Proof. unfold bind. by destruct (c w) as [[a|ex] w1]. Qed.

Lemma bind_ext {A B} (c : prog A) (k k' : A -> prog B) w :
  (forall x w1, k x w1 = k' x w1) -> bind c k w = bind c k' w.
Proof. intros Hk. unfold bind. destruct (c w) as [[a|ex] w1]; [apply Hk|done]. Qed.

(** The session's [update_all_cards_display] is the update of the records
    followed by the re-arming. *)
Lemma update_all_cards_display_split (e : env) (w : world) :
  update_all_cards_display e w
  = (refresh_records e ;; emit (EvAfter 5000 update_all_cards_display_cb))%prog w.
Proof.
  unfold update_all_cards_display, refresh_records. symmetry.
  rewrite bind_assoc. apply bind_ext. intros player w1.
  rewrite bind_assoc. apply bind_ext. intros vpath w2.
  rewrite bind_assoc. apply bind_ext. intros _ w3.
  rewrite bind_assoc. apply bind_ext. intros doc w4.
  rewrite bind_assoc. apply bind_ext. intros ppath w5. reflexivity.
Qed.

Lemma refresh_records_spec (e : env) (w : world) :
  exists w1,
    refresh_records e w = (Ret tt, w1)
    /\ self w1 = self (exec (update_all_cards_display e) w)
    /\ trace w1 = trace w /\ fs w1 = fs w
    /\ (store_ok (timestamps (self w)) -> store_ok (timestamps (self w1))).
Proof.
  assert (post (refresh_records e) w (fun r w' =>
            r = Ret tt /\ trace w' = trace w /\ fs w' = fs w)) as Hpost.
  { unfold refresh_records, set_item. wp_all w; try done.
    all: exfalso; simplify_map_eq; done. }
  unfold post in Hpost.
  pose proof (update_all_cards_display_frame e w) as Hframe.
  unfold post in Hframe. rewrite update_all_cards_display_split in Hframe.
  unfold exec. rewrite update_all_cards_display_split.
  unfold bind, emit, modify in *.
  destruct (refresh_records e w) as [r w1]. cbn [fst snd] in *.
  destruct Hpost as (-> & Ht & Hfs). exists w1. cbn in *.
  split; [done|]. split; [done|]. split; [done|]. split; [done|].
  destruct Hframe as [_ Hf]. apply (fr_store _ _ Hf).
Qed.

Lemma refresh_cards_ok (k : clock) (ts : gmap string json)
  (todo : list (card * option (nat * nat))) :
  store_ok ts ->
  exists logged,
    refresh_cards k ts todo = (Ret tt, List.map (refreshed k ts) todo, logged).
Proof.
  intros Hts. induction todo as [|[c place] todo [m IH]]; [by exists O|].
  cbn [refresh_cards List.map]. unfold refreshed at 1. cbn [fst snd].
  assert (fst (fst (update_display k (ts !! path_str (card_path c)) c)) = Ret tt)
    as Hret.
  { unfold update_display. destruct (is_pdf c).
    - destruct (ts !! path_str (card_path c)) as [v|] eqn:Hv; [|done].
      apply Hts in Hv. destruct v; try discriminate.
      destruct (json_truthy _); [|done]. cbn [json_contains].
      by destruct (bool_decide _).
    - by destruct (update_progress _ _ _). }
  destruct (update_display k (ts !! path_str (card_path c)) c)
    as [[r c'] logged]. cbn [fst snd] in *. subst r. rewrite IH.
  by eexists.
Qed.

Lemma log_errors_trace (n : nat) (w : world) :
  exists w',
    Nat.iter n (fun c => bind (log_error "Error updating card progress")
                           (fun _ => c)) (ret tt) w = (Ret tt, w')
    /\ self w' = self w /\ fs w' = fs w /\ player_media w' = player_media w
    /\ extends_by log_only (trace w) (trace w').
Proof.
  revert w. induction n as [|n IH]; intros w.
  - exists w. repeat split; auto. constructor.
  - assert (forall F : prog unit -> prog unit,
              F = (fun c => bind (log_error "Error updating card progress")
                              (fun _ => c)) ->
              Nat.iter (S n) F (ret tt) w
              = Nat.iter n F (ret tt)
                  (put_trace (EvLogError "Error updating card progress"
                                :: trace w) w)) as Hstep
      by (by intros F ->).
    rewrite (Hstep _ eq_refl).
    destruct (IH (put_trace (EvLogError "Error updating card progress"
                               :: trace w) w))
      as (w' & E & Hs & Hfs & Hm & Ht).
    exists w'. split; [exact E|]. repeat split; auto.
    eapply extends_by_trans; [|exact Ht]. by repeat constructor.
Qed.

(** X28.  The timer of the cards, whole.  When the entries of the
    dictionary are records, [update_all_cards_display] returns normally:
    it brings the records of the loaded media and of the open document up
    to date, refreshes every card of the panel from the dictionary so
    updated (the cards keep their files and their places), and re-arms
    itself with its period of 5000 ms as its last action.  It opens no
    dialog, and leaves the disk and the notes alone. *)
Theorem card_timer_rearms (k : clock) (e : env) (d : desk) :
  store_ok (timestamps (self (core d))) ->
  let ts' := timestamps (self (exec (update_all_cards_display e) (core d))) in
  exists d',
    update_all_cards_display_window k e d = (Ret tt, d')
    /\ hd_error (trace (core d'))
       = Some (EvAfter 5000 update_all_cards_display_cb)
    /\ timestamps (self (core d')) = ts'
    /\ cards d' = List.map (refreshed k ts') (cards d)
    /\ List.map (fun cp => (card_path (fst cp), snd cp)) (cards d')
       = List.map (fun cp => (card_path (fst cp), snd cp)) (cards d)
    /\ extends_by background (trace (core d)) (trace (core d'))
    /\ fs (core d') = fs (core d)
    /\ same_notes d d'.
Proof.
  intros Hts ts'.
  destruct (refresh_records_spec e (core d)) as (w1 & E1 & Hs1 & Ht1 & Hf1 & Hok).
  specialize (Hok Hts). fold ts' in Hs1.
  assert (timestamps (self w1) = ts') as Hts1 by (by rewrite Hs1).
  destruct (refresh_cards_ok k ts' (cards d)) as [logged Hcards];
    [by rewrite <- Hts1|].
  destruct (log_errors_trace logged w1) as (w2 & E2 & Hs2 & Hf2 & _ & Ht2).
  unfold update_all_cards_display_window, refresh_all_cards, dbind, lift,
    dgets, dmodify, dret.
  rewrite E1. cbn [core put_core cards put_cards]. rewrite Hts1, Hcards.
  cbn [core put_core cards put_cards]. rewrite E2.
  unfold emit, modify. cbn.
  eexists. split; [reflexivity|]. cbn.
  split; [done|]. split; [by rewrite Hs2|]. split; [done|].
  split.
  { rewrite map_map. apply map_ext. intros [c place].
    unfold refreshed, update_display. cbn [fst snd].
    destruct (is_pdf c).
    - destruct (ts' !! _) as [v|]; [|done]. destruct (json_truthy v); [|done].
      by destruct (json_contains _ _) as [[|]|].
    - pose proof (update_progress_av k (ts' !! path_str (card_path c))
                    (MkCard (card_path c) false
                       [ProgressBar; TimeLabel; LastPlayedLabel]
                       (progress_bar c) (card_time_label c)
                       (last_played_label c)) eq_refl) as Hp.
      destruct (update_progress _ _ _) as [c2 l]. cbn [fst snd] in Hp |- *.
      destruct Hp as [Hp _]. cbn [card_path] in Hp. by rewrite Hp. }
  split.
  { constructor; [done|]. rewrite <- Ht1.
    clear -Ht2. induction Ht2 as [|ev t' Hev _ IH]; [constructor|].
    constructor; [|done]. by destruct ev. }
  split; [by rewrite Hf2|]. by repeat split.
Qed.


Lemma refresh_records_keeps (e : env) (w : world) (key : string) (v : json) :
  timestamps (self w) !! key = Some v ->
  is_dict v = false ->
  (forall p, current_vlc_media_path (self w) = Some p -> path_str p <> key) ->
  timestamps (self (snd (refresh_records e w))) !! key = Some v.
Proof.
  intros Hv Hdict Hkey.
  assert (post (refresh_records e) w (fun _ w' =>
            timestamps (self w') !! key = Some v)) as Hpost.
  { unfold refresh_records, set_item. wp_all w; try done.
    all: try (specialize (Hkey _ eq_refl)).
    all: try (exfalso; simplify_map_eq; done).
    all: try (rewrite ?lookup_insert_ne by done; done).
    all: match goal with
         | |- <[?k0 := _]> _ !! ?k1 = _ =>
             destruct (decide (k0 = k1)) as [Heq|Hne]
         end.
    all: try (rewrite !lookup_insert_ne by done; done).
    all: exfalso; subst key; simplify_map_eq; try done.
    all: match goal with
         | Hb : negb (bool_decide (is_Some ?x)) = true, Hx : ?x = Some _ |- _ =>
             rewrite Hx in Hb;
             rewrite bool_decide_eq_true_2 in Hb by (by eexists); done
         | _ => idtac
         end. }
  exact Hpost.
Qed.

Lemma refresh_cards_raises (k : clock) (ts : gmap string json)
  (todo : list (card * option (nat * nat))) (c : card)
  (place : option (nat * nat)) (v : json) :
  In (c, place) todo ->
  is_pdf c = true ->
  ts !! path_str (card_path c) = Some v ->
  json_truthy v = true ->
  json_contains "last_opened" v = None ->
  exists cards' logged,
    refresh_cards k ts todo = (Raise TypeError, cards', logged).
Proof.
  intros Hin Hpdf Hv Htruthy Hcontains.
  induction todo as [|[c0 place0] todo IH]; [done|].
  cbn [refresh_cards].
  pose proof (update_display_raise k (ts !! path_str (card_path c0)) c0)
    as Hraise.
  destruct (update_display k (ts !! path_str (card_path c0)) c0)
    as [[r c'] logged] eqn:Hupd. cbn [fst snd] in Hraise.
  destruct r as [[]|ex].
  - destruct Hin as [[= -> ->] | Hin].
    + exfalso. unfold update_display in Hupd.
      rewrite Hpdf, Hv, Htruthy, Hcontains in Hupd. discriminate.
    + destruct (IH Hin) as (cards' & m & ->). by eexists _, _.
  - destruct (Hraise ex eq_refl) as (-> & _). by eexists _, _.
Qed.

(** X29.  An exception of a card stops the timer of the cards for good.
    When the panel holds the card of a PDF whose entry in the dictionary is
    a number or [True] (as [load_library] leaves one behind when it breaks
    on such an entry), [update_all_cards_display] raises [TypeError] and
    does not re-arm itself: it adds nothing but lines of the log to what
    the window does, so no later refresh of the cards is scheduled. *)
Theorem card_timer_stops_on_number_entry (k : clock) (e : env) (d : desk)
  (c : card) (place : option (nat * nat)) (v : json) :
  In (c, place) (cards d) ->
  is_pdf c = true ->
  timestamps (self (core d)) !! path_str (card_path c) = Some v ->
  json_truthy v = true ->
  json_contains "last_opened" v = None ->
  (forall p, current_vlc_media_path (self (core d)) = Some p ->
             path_str p <> path_str (card_path c)) ->
  exists d',
    update_all_cards_display_window k e d = (Raise TypeError, d')
    /\ extends_by log_only (trace (core d)) (trace (core d'))
    /\ same_notes d d'.
Proof.
  intros Hin Hpdf Hv Htruthy Hcontains Hkey.
  destruct (refresh_records_spec e (core d)) as (w1 & E1 & _ & Ht1 & _ & _).
  pose proof (refresh_records_keeps e (core d) _ v Hv) as Hv1.
  rewrite E1 in Hv1. cbn [snd] in Hv1.
  destruct (refresh_cards_raises k (timestamps (self w1)) (cards d) c place v)
    as (cards' & logged & Hcards); auto.
  { apply Hv1; [|exact Hkey]. by destruct v. }
  destruct (log_errors_trace logged w1) as (w2 & E2 & _ & _ & _ & Ht2).
  unfold update_all_cards_display_window, refresh_all_cards, dbind, lift,
    dgets, dmodify, dret, draise.
  rewrite E1. cbn [core put_core cards put_cards]. rewrite Hcards.
  cbn [core put_core cards put_cards]. rewrite E2.
  eexists. split; [reflexivity|]. cbn. rewrite <- Ht1.
  split; [exact Ht2|]. by repeat split.
Qed.

End CardTimerProofs.

Section WindowExamples.
Import Small Demo Examples Plain Shelf.

Lemma pause_flushes_position_witness :
  exists d',
    toggle_play_pause (engines Playing 30000 100000 None) true d_playing
    = (Ret tt, d')
    /\ calls d' = [(List.length (trace w_playing), CallPause)]
    /\ is_vlc_playing (self (core d')) = false.
Proof.
  destruct (pause_flushes_position (engines Playing 30000 100000 None)
              d_playing a_mp4)
    as (d' & E & Hcalls & Hplaying & _).
  - reflexivity.
  - reflexivity.
  - by eexists.
  - reflexivity.
  - cbn. lia.
  - cbn. lia.
  - exists d'. split; [exact E|]. split; [exact Hcalls | exact Hplaying].
Defined.

Lemma av_card_always_shows_witness :
  exists c' logged,
    update_display clock0 (Some (JInt 5)) blank_card = (Ret tt, c', logged)
    /\ (0 <= progress_bar c' <= 1)%Q.
Proof.
  destruct (av_card_always_shows clock0 (Some (JInt 5)) blank_card)
    as (c' & logged & E & _ & _ & Hbar & _).
  - reflexivity.
  - exists c', logged. split; [exact E | exact Hbar].
Defined.

Lemma card_shows_flushed_progress_witness :
  exists c',
    update_display clock0
      (Some (timestamp_data (engines Playing 30000 100000 None) a_mp4
               30000 100000)) blank_card
    = (Ret tt, c', false)
    /\ (progress_bar c' == 30000 / 100000)%Q
    /\ last_played_label c' = "Last played: just now".
Proof.
  destruct (card_shows_flushed_progress clock0
              (engines Playing 30000 100000 None) a_mp4 30000 100000
              blank_card)
    as (c' & E & Hbar & _ & _ & Hlast).
  - reflexivity.
  - lia.
  - lia.
  - exists c'. split; [exact E|]. split; [exact Hbar | exact Hlast].
Defined.

Lemma load_library_shows_sorted_grid_witness :
  exists d',
    load_library clock0 folder0 d_stored = (Ret tt, d')
    /\ cards d' = panel clock0 stored [a_mp4; b_pdf; c_mp3].
Proof.
  destruct (load_library_shows_sorted_grid (unicode := text) clock0 folder0 _ d_stored
              eq_refl eq_refl)
    as (d' & E & Hcards & _).
  - apply store_okb_ok. reflexivity.
  - exists d'. split; [exact E | exact Hcards].
Defined.

Lemma search_shows_matches_witness :
  exists d',
    filter_library clock0 folder0 d_search = (Ret tt, d')
    /\ cards d' = panel clock0 stored [b_pdf]
    /\ search_active d' = true.
Proof.
  destruct (search_shows_matches (unicode := text) clock0 folder0 _ d_search
              eq_refl eq_refl eq_refl)
    as (d' & E & Hcards & Hactive & _).
  - apply store_okb_ok. reflexivity.
  - exists d'. split; [exact E|]. split; [exact Hcards | exact Hactive].
Defined.

Lemma clearing_search_restores_library_witness :
  cards (dexec (search_typed clock0 folder0 "  ")
           (dexec (search_typed clock0 folder0 " B ") d_stored))
  = panel clock0 stored [a_mp4; b_pdf; c_mp3].
Proof.
  apply (clearing_search_restores_library (unicode := text) clock0 folder0 folder0 _ _
           " B " "  " d_stored eq_refl eq_refl eq_refl eq_refl eq_refl eq_refl).
  apply store_okb_ok. reflexivity.
Defined.

Lemma number_entry_breaks_library_witness :
  exists d',
    load_library clock0 folder0 d_malformed = (Raise TypeError, d')
    /\ List.length (cards d') = 2%nat.
Proof.
  destruct (number_entry_breaks_library (unicode := text) clock0 folder0 _ b_pdf (JInt 5)
              d_malformed eq_refl eq_refl)
    as (d' & pre & q & post & E & _).
  - vm_compute. right; left; reflexivity.
  - reflexivity.
  - reflexivity.
  - reflexivity.
  - reflexivity.
  - exists d'. split; [exact E|].
    unfold d_malformed in E. vm_compute in E. injection E as <-. reflexivity.
Defined.

Lemma card_timer_rearms_witness :
  exists d',
    update_all_cards_display_window clock0 (engines Stopped 0 0 None) d_shelf
    = (Ret tt, d')
    /\ hd_error (trace (core d'))
       = Some (EvAfter 5000 update_all_cards_display_cb).
Proof.
  destruct (card_timer_rearms clock0 (engines Stopped 0 0 None) d_shelf)
    as (d' & E & Hhd & _).
  - apply store_okb_ok. vm_compute. reflexivity.
  - exists d'. split; [exact E | exact Hhd].
Defined.

Lemma card_timer_stops_on_number_entry_witness :
  exists d',
    update_all_cards_display_window clock0 (engines Stopped 0 0 None) d_broken
    = (Raise TypeError, d')
    /\ extends_by log_only (trace (core d_broken)) (trace (core d')).
Proof.
  destruct (card_timer_stops_on_number_entry clock0 (engines Stopped 0 0 None)
              d_broken (card_for clock0 malformed b_pdf) None (JInt 5))
    as (d' & E & Htrace & _).
  - vm_compute. right; left; reflexivity.
  - reflexivity.
  - reflexivity.
  - reflexivity.
  - reflexivity.
  - intros p Hp. vm_compute in Hp. discriminate.
  - exists d'. split; [exact E | exact Htrace].
Defined.

End WindowExamples.

Section ClosingProofs.
Context `{Runtime}.

Lemma frame_same_self (w w' : world) :
  self w' = self w -> player_media w' = player_media w ->
  extends (trace w) (trace w') -> frame w w'.
Proof. intros Hs Hm Ht. constructor; rewrite ?Hs; auto. Qed.

Lemma confirm_consistent (u : asked) (d : desk) (b : bool) (d1 : desk) :
  (if notes_changed d then _confirm_discard_note_changes u else dret true) d
  = (Ret b, d1) ->
  consistent (core d) ->
  consistent (core d1) /\ self (core d1) = self (core d)
  /\ calls d1 = calls d
  /\ (b = false -> answer u = None -> d1 = d).
Proof.
  intros E Hw. destruct (confirm_spec u d) as (b' & d1' & E' & Hcase).
  rewrite E in E'. injection E' as <- <-.
  destruct (notes_changed d); [destruct (answer u) as [[|]|] eqn:Hanswer|].
  2-4: by destruct Hcase as [_ ->].
  destruct (save_notes_spec u d)
    as (d1' & E' & _ & _ & _ & _ & _ & Hcalls & Hself & Hmedia & Hcase').
  cbv zeta in *. rewrite Hcase in E'. injection E' as _ <-.
  split; [|by repeat split].
  apply (frame_consistent _ _ Hw). apply frame_same_self; [done|done|].
  destruct (match notes_file d with Some p => Some p | None => save_name u end).
  - destruct Hcase' as [_ Hcase'].
    destruct (write_fails _ _).
    + destruct Hcase' as (_ & _ & _ & ->). by repeat constructor.
    + destruct Hcase' as (_ & _ & _ & _ & ->). constructor.
  - subst d1. constructor.
Qed.

Lemma lift_next_fault (d : desk) :
  lift next_fault d
  = (Ret (next_io d), put_core (put_io_plan (tl (io_plan (core d))) (core d)) d).
Proof.
  unfold lift, next_fault, next_io.
  destruct d as [[a m f l plan t] cs sv sa txt file ch em lab cl].
  by destruct plan.
Qed.

Lemma lift_seq {A B} (c1 : prog A) (c2 : prog B) (d : desk) :
  dbind (lift c1) (fun _ => lift c2) d
  = (fst (bind c1 (fun _ => c2) (core d)),
     put_core (snd (bind c1 (fun _ => c2) (core d))) d).
Proof.
  unfold dbind, lift, bind. destruct (c1 (core d)) as [[a|ex] w1]; [|done].
  cbn [core put_core]. by destruct (c2 w1) as [[b|ex] w2].
Qed.

Lemma save_config_spec (c : closing) (d : desk) :
  exists d',
    save_config c d
    = (if config_accepts c then Ret tt else Raise ValueError, d')
    /\ self (core d') = self (core d)
    /\ (forall q, q <> SETTINGS_FILENAME ->
                  fs (core d') !! q = fs (core d) !! q)
    /\ extends (trace (core d)) (trace (core d'))
    /\ (forall ev, In ev (trace (core d)) -> In ev (trace (core d')))
    /\ calls d' = calls d
    /\ same_notes d d'
    /\ (config_accepts c = true ->
        write_fails (next_io d) (config_text c) = false ->
        fs (core d') !! SETTINGS_FILENAME = Some (config_text c)).
Proof.
  unfold save_config. destruct (config_accepts c); cbn [negb].
  2: { exists d. repeat split; auto; try discriminate. constructor. }
  unfold dtry. unfold dbind at 1. rewrite lift_next_fault. rewrite lift_seq.
  cbn [core put_core].
  destruct (write_file_spec (next_io d) SETTINGS_FILENAME (config_text c)
              (put_io_plan (tl (io_plan (core d))) (core d)))
    as (w' & E & Hs & _ & _ & Ht & Hother & Hwritten).
  rewrite E. cbn [fst snd]. fold (write_fails (next_io d) (config_text c)) in *.
  destruct (write_fails (next_io d) (config_text c)).
  - eexists. unfold dbind, lift, log_error, show_error, emit, modify. cbn.
    split; [reflexivity|]. cbn. rewrite Ht, Hs. cbn.
    repeat split; auto; try discriminate.
    by repeat constructor.
  - eexists. split; [reflexivity|]. cbn. rewrite Ht, Hs. cbn.
    repeat split; auto. constructor.
Qed.

(** Without a fault left in the plan of the file system, the media is
    stopped and saved without one. *)
Lemma stop_and_save_no_fault e w :
  io_plan w = [] ->
  post (stop_and_save_current_media e) w (fun r w' => io_plan w' = []).
Proof.
  intros Hplan.
  unfold stop_and_save_current_media, stop_player, save_current_vlc_timestamp,
    close_document, set_item, close_doc.
  wp_all w.
  all: repeat match goal with
       | Hs : saved _ _ _ |- _ =>
           let Hi := fresh "Hi" in
           destruct Hs as (_ & _ & Hi & _); proj_simpl
       end.
  all: repeat match goal with
       | Hi : io_plan _ = tail _ |- _ => rewrite Hi; clear Hi
       end.
  all: try (rewrite Hplan; reflexivity).
  all: done.
Qed.

(** What [on_close] does once the notes are settled ([d1]) and the media is
    stopped and saved ([w2]). *)
Lemma on_close_tail (e : env) (c : closing) (d d1 : desk) (w2 : world) :
  (if notes_changed d then _confirm_discard_note_changes (close_asked c)
   else dret true) d = (Ret true, d1) ->
  stop_and_save_current_media e (core d1) = (Ret tt, w2) ->
  path_str (timestamps_file (self w2)) <> SETTINGS_FILENAME ->
  exists d' stamp stamp',
    on_close e c d
    = (if config_accepts c then Ret tt else Raise ValueError, d')
    /\ vlc_player (self (core d')) = false
    /\ vlc_instance (self (core d')) = false
    /\ pdf_doc (self (core d')) = pdf_doc (self w2)
    /\ timestamps (self (core d')) = timestamps (self w2)
    /\ extends (trace w2) (trace (core d'))
    /\ (fs (core d') !! path_str (timestamps_file (self w2))
          = Some (json_dumps (timestamps (self w2)))
        \/ In (EvLogError "Error saving timestamps") (trace (core d')))
    /\ calls d'
       = ((if config_accepts c then [(stamp, CallDestroy)] else [])
          ++ (if vlc_instance (self w2)
              then [(stamp', CallInstanceRelease)] else [])
          ++ (if vlc_player (self w2)
              then [(stamp', CallPlayerRelease)] else [])
          ++ calls d1)%list
    /\ same_notes d1 d'
    /\ (io_plan w2 = [] ->
        fs (core d') !! path_str (timestamps_file (self w2))
        = Some (json_dumps (timestamps (self w2)))).
Proof.
  intros Ec Es Hpaths.
  unfold on_close. unfold dbind at 1. unfold dgets at 1.
  unfold dbind at 1. rewrite Ec.
  unfold dbind at 1. unfold lift at 1. rewrite Es.
  unfold dbind at 1. unfold dgets at 1. cbn [core put_core].
  destruct (vlc_player (self w2)) eqn:Hp;
    destruct (match state_at_release c with
              | NothingSpecial => false
              | _ => true
              end && playing_at_release c);
    destruct (vlc_instance (self w2)) eqn:Hi.
  all: unfold dbind, lift, emit, record_call, dmodify, assign,
         modify, dgets, dret;
       cbn [core put_core calls put_calls fst snd self put_self trace put_trace
            vlc_instance set_vlc_player vlc_player set_vlc_instance
            timestamps pdf_doc library_path]; rewrite ?Hi;
       cbn [core put_core calls put_calls fst snd self put_self trace put_trace
            vlc_instance set_vlc_player vlc_player set_vlc_instance
            timestamps pdf_doc library_path].
  all: match goal with
       | |- context [save_timestamps ?ts ?w] =>
           destruct (save_timestamps_spec ts w)
             as (w5 & new & E5 & Hs5 & _ & _ & _ & _ & Hcase5);
           rewrite E5
       end.
  all: cbv beta iota.
  all: match goal with
       | |- context [save_config ?c0 ?D] =>
           destruct (save_config_spec c0 D)
             as (d6 & E6 & Hs6 & Hother6 & Hext6 & Hin6 & Hcalls6 & Hnotes6 & _);
           rewrite E6
       end.
  all: cbn [core put_core calls put_calls self put_self trace put_trace fs
            put_fs set_vlc_player set_vlc_instance] in Hs5, Hcase5, Hs6,
         Hother6, Hext6, Hin6, Hcalls6, Hnotes6.
  all: unfold timestamps_file in Hcase5.
  all: cbn [library_path set_vlc_player set_vlc_instance] in Hcase5.
  all: fold (timestamps_file (self w2)) in Hcase5.
  all: rewrite Hs5 in Hs6.
  all: assert (fs (core d6) !! path_str (timestamps_file (self w2))
               = Some (json_dumps (timestamps (self w2)))
               \/ In (EvLogError "Error saving timestamps") (trace (core d6)))
         as Hstore
         by (destruct (save_fails _ _);
             [right; apply Hin6; destruct Hcase5 as (_ & -> & _); by left
             | left; rewrite Hother6 by done; by destruct Hcase5 as (-> & _)]).
  all: assert (io_plan w2 = [] ->
               fs (core d6) !! path_str (timestamps_file (self w2))
               = Some (json_dumps (timestamps (self w2)))) as Hexact
         by (intros Hplan; rewrite Hother6 by done;
             cbn [io_plan put_self put_trace] in Hcase5;
             rewrite Hplan in Hcase5; by destruct Hcase5 as (-> & _)).
  all: assert (extends (trace w2) (trace (core d6))) as Hext
         by (eapply extends_trans; [|exact Hext6];
             destruct (save_fails _ _);
             [destruct Hcase5 as (_ & -> & _) | destruct Hcase5 as (_ & _ & ->)];
             cbn; by repeat constructor).
  all: unfold same_notes in *.
  all: cbn [core put_core calls put_calls notes_text notes_file notes_changed
            edit_modified notes_file_label] in Hnotes6.
  all: destruct (config_accepts c); eexists _, _, _; (split; [reflexivity|]).
  all: cbn [core put_core calls put_calls self notes_text notes_file
            notes_changed edit_modified notes_file_label].
  all: rewrite ?Hs6, ?Hcalls6.
  all: cbn [vlc_player vlc_instance set_vlc_player set_vlc_instance pdf_doc
            timestamps List.app].
  all: rewrite ?Hp, ?Hi.
  all: repeat split; auto; try apply Hnotes6.
  Unshelve. all: exact O.
Qed.

(** X30.  Closing the window.  When the notes have unsaved changes and the
    user cancels the question, or the save of the notes fails, [on_close]
    stops there: nothing is stopped, released or destroyed.  Otherwise, and
    when the file system answers what follows without a fault (a save of
    the dictionary that fails can leave [on_close] with the [OSError] of
    [temp_file.exists()], as [Stat.save_timestamps] has it), the media is
    stopped and saved, no document is left open, the player and the
    instance are released, the store file holds the final dictionary, the
    settings are written, and the window is destroyed last -- unless
    [configparser] refuses a value of the settings: then [ValueError]
    escapes from [save_config] and the window is not destroyed, although
    everything before has been done. *)
Theorem closing_saves_and_releases (e : env) (c : closing) (d : desk) :
  consistent (core d) ->
  store_path (core d) <> SETTINGS_FILENAME ->
  exists proceed d1,
    (if notes_changed d then _confirm_discard_note_changes (close_asked c)
     else dret true) d = (Ret proceed, d1)
    /\ if proceed then
         io_plan (core d1) = [] ->
         exists d' stamp stamp',
           on_close e c d
           = (if config_accepts c then Ret tt else Raise ValueError, d')
           /\ pdf_doc (self (core d')) = None
           /\ docs_open (trace (core d')) = []
           /\ vlc_player (self (core d')) = false
           /\ vlc_instance (self (core d')) = false
           /\ fs (core d') !! store_path (core d)
              = Some (json_dumps (timestamps (self (core d'))))
           /\ calls d'
              = ((if config_accepts c then [(stamp, CallDestroy)] else [])
                 ++ (if vlc_instance (self (core d))
                     then [(stamp', CallInstanceRelease)] else [])
                 ++ (if vlc_player (self (core d))
                     then [(stamp', CallPlayerRelease)] else [])
                 ++ calls d)%list
           /\ same_notes d1 d'
       else
         on_close e c d = (Ret tt, d1)
         /\ calls d1 = calls d
         /\ (answer (close_asked c) = None -> d1 = d).
Proof.
  intros Hw Hpaths.
  destruct (confirm_spec (close_asked c) d) as (b & d1 & Ec & _).
  exists b, d1. split; [exact Ec|].
  destruct (confirm_consistent _ _ _ _ Ec Hw) as (Hw1 & Hself1 & Hcalls1 & Hcancel).
  destruct b.
  - intros Hplan.
    destruct (post_ret_eq _ _ _ _ (stop_and_save_spec e (core d1) Hw1))
      as (w2 & Es & Hw2 & Hdoc & _ & _ & _ & Hlib & Hp & Hi & _).
    pose proof (stop_and_save_no_fault e (core d1) Hplan) as Hplan2.
    unfold post in Hplan2. rewrite Es in Hplan2. cbn [fst snd] in Hplan2.
    assert (timestamps_file (self w2) = timestamps_file (self (core d))) as Hfile.
    { unfold timestamps_file. by rewrite Hlib, Hself1. }
    destruct (on_close_tail e c d d1 w2 Ec Es)
      as (d' & stamp & stamp' & E & Hp' & Hi' & Hdoc' & Hts' & Hext & _
          & Hcalls & Hnotes & Hstore).
    { by rewrite Hfile. }
    exists d', stamp, stamp'. split; [exact E|].
    split; [by rewrite Hdoc'|]. split.
    { rewrite (extends_docs _ _ Hext), (inv_docs _ Hw2), Hdoc. done. }
    split; [done|]. split; [done|]. split.
    { unfold store_path. rewrite <- Hfile, Hts'. exact (Hstore Hplan2). }
    split; [|done]. by rewrite Hcalls, Hi, Hp, Hself1, Hcalls1.
  - split; [|by auto].
    unfold on_close. unfold dbind at 1. unfold dgets at 1.
    unfold dbind at 1. by rewrite Ec.
Qed.

End ClosingProofs.

Section ClosingExamples.
Import Small Demo Shelf.

Lemma closing_saves_and_releases_witness :
  exists proceed d1 d',
    (if notes_changed d_playing
     then _confirm_discard_note_changes
            (close_asked (MkClosing (MkAsked None None None) Stopped false true
                            "[Settings]"))
     else dret true) d_playing = (Ret proceed, d1)
    /\ proceed = true
    /\ io_plan (core d1) = []
    /\ on_close (engines Playing 30000 100000 None)
         (MkClosing (MkAsked None None None) Stopped false true "[Settings]")
         d_playing = (Ret tt, d')
    /\ fs (core d') !! store_path (core d_playing)
       = Some (json_dumps (timestamps (self (core d')))).
Proof.
  destruct (closing_saves_and_releases (engines Playing 30000 100000 None)
              (MkClosing (MkAsked None None None) Stopped false true
                 "[Settings]") d_playing)
    as (proceed & d1 & E & Hcase).
  - apply (session_consistent library ∅ true ∅ []). reflexivity.
  - vm_compute. discriminate.
  - vm_compute in E. injection E as <- <-.
    destruct Hcase as (d' & stamp & stamp' & E' & _ & _ & _ & _ & Hstore & _);
      [reflexivity|].
    exists true, d_playing, d'. split; [reflexivity|]. split; [reflexivity|].
    split; [reflexivity|]. split; [exact E'|exact Hstore].
Defined.

End ClosingExamples.

